(* ===== verification/_CoqProject ===== *)
-Q . S2P
Prelude.v
GoLib.v
Float64.v
Entity.v
Repository.v
MemoryRepo.v
Book.v
Matcher.v
EventBus.v
BookProofs.v
MatcherLemmas.v
MatchSpec.v
MatcherProofs.v
MatcherRefine.v
MatchOrder.v
Engine.v
Validator.v
Services.v
System.v
SystemProofs.v
Hub.v
HubProofs.v
HubRun.v
HubTheorems.v
HubOrder.v
MemoryProofs.v
EventBusProofs.v
MemDeps.v
SystemTheorems.v
Tracking.v
Partition.v
DBWorker.v
DBWorkerProofs.v
DBWorkerTheorems.v
Auth.v
AuthTheorems.v
GoStrings.v
Http.v
Handlers.v
HttpTheorems.v
HttpShape.v
Simulator.v
SimulatorTheorems.v
Binance.v
Postgres.v
PostgresTheorems.v
Config.v
Wiring.v
WiringTheorems.v
Cluster.v
ClusterProofs.v
ClusterTheorems.v
CacheTheorems.v
Brokers.v
Connections.v
Emission.v
Pipeline.v
PipelineProofs.v
PipelineShutdown.v
PipelineTheorems.v
Delivery.v
Json.v
Compliance.v
ComplianceTheorems.v
Clients.v
LoadRuns.v
LoadRequests.v
ComplianceSockets.v
MarketRace.v
MatcherFailure.v
MatcherTheorems.v
