(* ===== verification/Prelude.v ===== *)
(** * Verification of the mini-exchange (header of the development)

    The program is a stock exchange in one Go process.  REST clients create
    orders ([internal/transport/http], [internal/app]); a goroutine per stock
    matches them by price and time ([internal/engine]); the results go to
    repositories ([internal/infra/storage]) and, as events on an in-process bus
    ([internal/infra/broker]), to WebSocket clients ([internal/transport/ws]),
    a batching database writer ([internal/worker]), Redis and NATS.  Several
    processes can share the stocks ([internal/partition]).  [cmd/server] puts
    the parts together from the environment ([config]).

    ** How code becomes definitions

    Pure Go functions are functions on [Z] at their 64-bit width ([i64_add],
    [i64_mul], ... in GoLib wrap as Go does), strings and stdpp's finite maps;
    [float64] is binary64 (Float64).  Stateful code is a function in the monad
    [M W] below: it returns, panics with a message in the state reached, or runs
    out of the fuel of a loop.  Pointers to orders are references into a heap
    ([Book.heap]), because the engine, the book and the events alias them.
    Buffered channels, with [close] and its panics, are [GoLib.chan].  Code of
    other repositories (pgx, NATS, Redis, bcrypt, JWT, JSON, the token bucket)
    is a parameter of the section that uses it; what is relied on is a named
    hypothesis or a class.

    ** Files

    - GoLib, Float64, GoStrings: the runtime and standard library used.
    - Entity, Repository: [internal/domain].  Repository states the interfaces
      of the order, trade and market repositories and of the bus as classes,
      with the laws their users need; the engine is proved against those
      ([Matcher.Deps]), and MemDeps discharges them.
    - MemoryRepo, MemoryProofs: [internal/infra/storage/memory].
    - EventBus, EventBusProofs: [internal/infra/broker/eventbus.go].
    - Book, BookProofs: [engine/orderbook.go].  Matcher: [engine/matcher.go].
      Engine: the channels and goroutines of [engine/matcher.go] and
      [engine/engine.go].
    - MatchSpec: the abstract specification, a walk of the opposite side in
      book order.  MatcherLemmas, MatcherProofs, MatcherRefine, MatchOrder: the
      loops implement that walk.  MatcherTheorems, MatcherFailure: the results,
      and what happens when trades cannot be saved.
    - Validator ([pkg/validator], [pkg/response]), Services ([internal/app]).
    - System: the exchange as a transition system whose steps are an order
      creation, one turn of one matcher, stopping, and anything the rest of
      the program does to the market data and the bus.  SystemProofs,
      SystemTheorems, Tracking: what every reachable state satisfies.
    - Hub: [internal/transport/ws]; its loop interleaves with any number of
      clients (HubProofs, HubRun, HubTheorems).
    - Partition: [pkg/partition], [internal/partition], with its theorems.
    - DBWorker, DBWorkerProofs, DBWorkerTheorems: [internal/worker].
    - Auth, AuthTheorems: [internal/infra/auth].
    - Http ([pkg/netutil], the middleware), Handlers (handlers and router),
      HttpTheorems; HttpShape: the type of a reply.
    - Simulator, SimulatorTheorems: [internal/simulator]; Binance: a run of
      the Binance feed over its sessions.
    - Postgres, PostgresTheorems: [internal/infra/storage/postgres].
    - Config, Wiring, WiringTheorems: [config], [cmd/server/main.go], the
      Redis cache and the NATS publisher.  Brokers: the NATS subscriber, the
      Redis subscription goroutine and the loops of [main] that use them.
      Connections: what start-up connects to and the shutdown closes.
    - Cluster, ClusterProofs, ClusterTheorems: several instances as one system
      ([docker-compose.scaled.yml]).  They share the tables and exchange
      forwarded orders over NATS; a step is a request at any instance, a turn of
      a matcher, the delivery or the loss of a message, a start, a stop or a
      crash.  Taken together the matchers satisfy the invariant of System.
    - Emission, Pipeline, PipelineProofs, PipelineShutdown, PipelineTheorems:
      the server at work, from a request to a row of the database.  One
      transition system has the order service, the engine, the bus with the
      handlers of [wireEvents], the dispatcher and the database writer; a step
      is one operation of one goroutine, and the request goroutine takes two,
      before and after its order is submitted.  Emission shows that what the
      engine records and what it announces are the same trades.
    - HubOrder, Delivery: the pipeline with the hub, its clients and their
      pumps, from a trade to the frame a client reads.
    - CacheTheorems: the Redis cache between [wireEvents] and the market service.
    - MarketRace: the two writers of a ticker, thread by thread, with the
      lock of [memory/market_repo.go].
    - Json, Compliance, ComplianceTheorems: the documents of the REST API and
      the client of [cmd/compliancetest], run against the model of the server.
      ComplianceSockets: its WebSocket and scale checks and its [main].
    - Clients: what the load-test clients of [cmd] send and count, and their
      verdicts.  LoadRuns: their goroutine pools as transition systems, and
      their reports.  LoadRequests: their HTTP exchanges.

    ** What the theorems show

    - Matching (MatcherTheorems): [matchOrder] is the reference walk; the
      quantity it fills, the prices and parties of its trades, price-time
      priority, exact book entries, the depth it publishes; its loops end.
      [failed_saves_consume_book] is a flaw of the error path.
    - The running exchange (SystemTheorems, Tracking): sound books, fills
      accounted by stored trades, turns that always complete, the outcome of
      creating an order, stopping, and that no accepted order is ever lost.
    - The hub (HubTheorems): no panic (no send on or double close of a client's
      queue), the limits, the effect of each request, shutdown.
    - The cluster (ClusterTheorems, Partition, WiringTheorems): an order is in
      one place at most, the accounts balance over all instances, a forwarded
      order reaches its owner; one owner per stock and one matcher per stock;
      events broadcast by other instances as they were locally.
    - Persistence (DBWorkerTheorems, PostgresTheorems): a ledger of accepted
      operations, bounded retries, draining on stop, last write wins; the SQL
      conditions select what the in-memory filter selects; the repository
      contract.
    - The edge (HttpTheorems, AuthTheorems): replies and effects of the
      endpoints on every branch, overflow of the page offset included; logging
      and counting of requests; rate limits; tokens.
    - Prices (SimulatorTheorems): the band and the grid of the random walk, the
      session's high and low, the reconnect back-off and where it overflows;
      what a run of the Binance feed publishes and waits (Binance).
    - From matching to the table (PipelineTheorems): the trades on their way to
      the database are recorded trades, once each and in order, and all of
      them while no buffer is full; an orderly shutdown finishes and leaves
      exactly the recorded trades in the table; a writer stopped too early
      loses trades for good; a matcher that overtakes the request leaves a
      stale row.
    - To the WebSocket clients (Delivery): each reads trades in the order of
      matching and at most once.
    - Market data through the cache (CacheTheorems): the last handled value or
      the repository's.
    - Concurrency of the market data (MarketRace): updates linearise unless a
      feed stores inside a trade's update, and then the trade is lost.
    - The server seen from outside (HttpShape, ComplianceTheorems, Brokers):
      well-typed replies, a compliance run in which every check passes, and
      subscriptions made in order and all undone by closing.
    - The test clients (LoadRuns, LoadRequests, ComplianceSockets): whatever
      the server answers, a run that returns has counted every request once,
      and the WebSocket section records eight checks.

    ** Fuel and bounds

    [matchBuy] and [matchSell] get [side_fuel]: one more than the number of
    entries plus the quantity of the opposite side; each iteration removes an
    entry or consumes a unit, and [matching_loops_terminate] shows it is enough
    in any state.  A matcher draining its queue gets one turn more than the
    queue is long ([queue_fuel], [stop_drains_queues]).  The retries of the
    database writer recurse on the attempts left.  Duration parsing gets the
    length of its text.  The theorems on reachable states hold for orders the
    validator accepts, whose prices and quantities are far below the 64-bit
    range; sums over a depth level wrap as in the code.

    ** Not modelled

    Sockets, HTTP framing, TLS, signals and log records; the SQL migrations;
    the contents of third-party libraries.  Of the test programs under [cmd]:
    flags, texts and progress lines, and the order in which the server meets
    requests made at the same time, which is given as a schedule.  In Pipeline
    the hub, the brokers, the cache and the market data change arbitrarily
    between steps (in Delivery the hub does not), and the simulator's own
    subscription to trades is not on the bus.  The Go memory model is not
    modelled: goroutines interleave at channel operations and at mutex-protected
    calls (and, in MarketRace, at the atomic load and store of a ticker), so
    the data race on the order that an [OrderUpdated] event points to is
    outside the model.  In Cluster a crash falls between two steps, never inside
    a turn, and NATS delivers a message at most once. *)
From Stdlib Require Export ZArith Lia Bool String Ascii.
From stdpp Require Export base gmap list strings sorting.

#[global] Open Scope Z_scope.

(** ** Automation *)

Create HintDb exch discriminated.

(** Case analysis on every boolean test and [decide] of the goal. *)
Ltac case_tests :=
  repeat match goal with
  | |- context [if ?b then _ else _] =>
      match type of b with
      | bool => let E := fresh "E" in destruct b eqn:E
      | sumbool _ _ => destruct b
      end
  end.

(** Turn boolean comparisons of hypotheses into propositions. *)
Ltac reflect_bools :=
  repeat match goal with
  | H : (_ <? _)%Z = true |- _ => apply Z.ltb_lt in H
  | H : (_ <? _)%Z = false |- _ => apply Z.ltb_ge in H
  | H : (_ <=? _)%Z = true |- _ => apply Z.leb_le in H
  | H : (_ <=? _)%Z = false |- _ => apply Z.leb_gt in H
  | H : (_ >? _)%Z = true |- _ => rewrite Z.gtb_ltb in H; apply Z.ltb_lt in H
  | H : (_ >? _)%Z = false |- _ => rewrite Z.gtb_ltb in H; apply Z.ltb_ge in H
  | H : (_ >=? _)%Z = true |- _ => rewrite Z.geb_leb in H; apply Z.leb_le in H
  | H : (_ >=? _)%Z = false |- _ => rewrite Z.geb_leb in H; apply Z.leb_gt in H
  | H : (_ =? _)%Z = true |- _ => apply Z.eqb_eq in H
  | H : (_ =? _)%Z = false |- _ => apply Z.eqb_neq in H
  | H : (_ =? _)%string = true |- _ => apply String.eqb_eq in H
  | H : (_ =? _)%string = false |- _ => apply String.eqb_neq in H
  | H : (_ && _)%bool = true |- _ => apply andb_true_iff in H; destruct H
  | H : (_ || _)%bool = false |- _ => apply orb_false_iff in H; destruct H
  | H : negb _ = true |- _ => apply negb_true_iff in H
  | H : negb _ = false |- _ => apply negb_false_iff in H
  end.

(** ** Machine integers: Go's [int64] (and [int] on 64-bit targets) and
    [uint64] as [Z] with the wrap-around written out. *)

Definition min_i64 : Z := -9223372036854775808.
Definition max_i64 : Z := 9223372036854775807.
Definition pow64 : Z := 18446744073709551616.

Definition i64 (x : Z) : Z := (x - min_i64) mod pow64 + min_i64.
Definition u64 (x : Z) : Z := x mod pow64.

Definition in_i64 (x : Z) : Prop := min_i64 <= x <= max_i64.

Definition i64_add (x y : Z) : Z := i64 (x + y).
Definition i64_sub (x y : Z) : Z := i64 (x - y).
Definition i64_mul (x y : Z) : Z := i64 (x * y).
(** Go's integer division truncates toward zero. *)
Definition i64_quot (x y : Z) : Z := i64 (Z.quot x y).

Lemma i64_id x : in_i64 x → i64 x = x.
Proof.
  unfold in_i64, i64, min_i64, max_i64, pow64. intros H.
  rewrite Z.mod_small; lia.
Qed.

Lemma i64_range x : in_i64 (i64 x).
Proof.
  unfold in_i64, i64, min_i64, max_i64, pow64.
  pose proof (Z.mod_pos_bound (x - -9223372036854775808) 18446744073709551616). lia.
Qed.

Lemma i64_add_id x y : in_i64 (x + y) → i64_add x y = x + y.
Proof. apply i64_id. Qed.

Lemma i64_sub_id x y : in_i64 (x - y) → i64_sub x y = x - y.
Proof. apply i64_id. Qed.

Lemma i64_mul_id x y : in_i64 (x * y) → i64_mul x y = x * y.
Proof. apply i64_id. Qed.

#[export] Hint Resolve i64_range : exch.

(** Solve a linear goal after unfolding the width constants. *)
Ltac i64_lia := unfold in_i64, min_i64, max_i64, pow64 in *; lia.

(** ** The effect of Go code: state passing, run-time panics and a fuel
    marker for the loops whose bound is a theorem. *)

Inductive res (W A : Type) : Type :=
| Ret (a : A) (w : W)
| Panic (msg : string) (w : W)
| NoFuel.
Arguments Ret {W A} _ _.
Arguments Panic {W A} _ _.
Arguments NoFuel {W A}.

Definition M (W A : Type) : Type := W → res W A.

#[global] Instance M_ret W : MRet (M W) := λ A a w, Ret a w.
#[global] Instance M_bind W : MBind (M W) := λ A B f m w,
  match m w with
  | Ret a w' => f a w'
  | Panic s w' => Panic s w'
  | NoFuel => NoFuel
  end.

Definition get {W} : M W W := λ w, Ret w w.
Definition modify {W} (f : W → W) : M W () := λ w, Ret () (f w).
Definition panic {W A} (msg : string) : M W A := λ w, Panic msg w.
Definition out_of_fuel {W A} : M W A := λ _, NoFuel.
Definition run_state {W A} (r : res W A) : option W :=
  match r with Ret _ w => Some w | Panic _ w => Some w | NoFuel => None end.

Definition returns {W A} (r : res W A) : Prop := ∃ a w, r = Ret a w.

Lemma bind_Ret {W A B} (m : M W A) (f : A → M W B) w a w' :
  m w = Ret a w' → (m ≫= f) w = f a w'.
Proof. intros H. unfold mbind, M_bind. by rewrite H. Qed.

Lemma bind_assoc {W A B C} (m : M W A) (f : A → M W B) (g : B → M W C) w :
  ((m ≫= f) ≫= g) w = (m ≫= (λ a, f a ≫= g)) w.
Proof. unfold mbind, M_bind. by destruct (m w). Qed.

(** ** Lists *)

Lemma filter_all {A} (P : A → Prop) `{∀ x, Decision (P x)} l : Forall P l → filter P l = l.
Proof. induction 1 as [|x l Hx _ IH]; [done|]. rewrite filter_cons_True, IH by done. done. Qed.

Lemma filter_none {A} (P : A → Prop) `{∀ x, Decision (P x)} l :
  Forall (λ x, ¬ P x) l → filter P l = [].
Proof. induction 1 as [|x l Hx _ IH]; [done|]. by rewrite filter_cons_False, IH. Qed.

Lemma Forall_filter_sub {A} (Q P : A → Prop) `{∀ x, Decision (P x)} l :
  Forall Q l → Forall Q (filter P l).
Proof.
  rewrite !Forall_forall. intros HQ x Hx. apply list_elem_of_filter in Hx as [_ Hx]. auto.
Qed.

Lemma filter_ext_in {A} (P1 P2 : A → Prop) `{∀ x, Decision (P1 x), ∀ x, Decision (P2 x)} (l : list A) :
  (∀ x, x ∈ l → P1 x ↔ P2 x) → filter P1 l = filter P2 l.
Proof.
  induction l as [|x l IH]; intros Hl; [done|]. rewrite !filter_cons.
  rewrite IH by (intros; by apply Hl, list_elem_of_further).
  pose proof (Hl x (list_elem_of_here _ _)). repeat case_decide; tauto.
Qed.

(** What holds of every entry of an updated map. *)
Lemma insert_forall {A} (P : string → A → Prop) (m : gmap string A) k x :
  P k x → (∀ k' y, k' ≠ k → m !! k' = Some y → P k' y) → ∀ k' y, <[k:=x]> m !! k' = Some y → P k' y.
Proof.
  intros Hk Hm k' y. destruct (decide (k' = k)) as [->|Hne].
  - rewrite lookup_insert_eq. by intros [= <-].
  - rewrite lookup_insert_ne by done. by apply Hm.
Qed.

Lemma NoDup_fmap_inj {A B} (f : A → B) (l : list A) x y :
  NoDup (f <$> l) → x ∈ l → y ∈ l → f x = f y → x = y.
Proof.
  induction l as [|z l IH]; [by intros _ ?%elem_of_nil|]. rewrite fmap_cons, NoDup_cons.
  intros [Hni Hnd] [->|Hx]%elem_of_cons [->|Hy]%elem_of_cons Heq; [done| | |by apply IH].
  - destruct Hni. rewrite Heq. by apply list_elem_of_fmap_2.
  - destruct Hni. rewrite <- Heq. by apply list_elem_of_fmap_2.
Qed.

Lemma NoDup_fmap_filter {A B} (f : A → B) (P : A → Prop) `{∀ x, Decision (P x)} l :
  NoDup (f <$> l) → NoDup (f <$> filter P l).
Proof.
  induction l as [|x l IH]; intros Hnd; [done|]. apply NoDup_cons in Hnd as [Hx Hnd].
  rewrite filter_cons. case_decide; [|auto]. apply NoDup_cons. split; [|auto].
  intros (y & Hy & Hin)%list_elem_of_fmap. apply list_elem_of_filter in Hin as [_ Hin].
  apply Hx. rewrite Hy. by apply list_elem_of_fmap_2.
Qed.

Lemma fmap_snoc {A B} (f : A → B) l x : f <$> (l ++ [x]) = (f <$> l) ++ [f x].
Proof. by rewrite fmap_app. Qed.

Lemma elem_of_snoc {A} (l : list A) x y : y ∈ l ++ [x] ↔ y ∈ l ∨ y = x.
Proof. by rewrite elem_of_app, list_elem_of_singleton. Qed.

(** Dropping one element of a duplicate-free list from its set. *)
Lemma list_to_set_remove `{Countable A} (l1 l2 : list A) x :
  NoDup (l1 ++ x :: l2) →
  (list_to_set (l1 ++ x :: l2) : gset A) ∖ {[x]} = list_to_set (l1 ++ l2).
Proof.
  intros Hnd. rewrite <- Permutation_middle in Hnd. apply NoDup_cons in Hnd as [Hx _].
  apply set_eq. intros y.
  rewrite elem_of_difference, elem_of_singleton, !elem_of_list_to_set, !elem_of_app, elem_of_cons.
  split; [tauto|]. intros Hy. split; [tauto|]. intros ->. by apply Hx, elem_of_app.
Qed.

(** Sum of an integer measure over a list. *)
Definition sum_by {A} (f : A → Z) (l : list A) : Z := foldr (λ x n, f x + n) 0 l.
Arguments sum_by : simpl never.

Lemma sum_by_nil {A} (f : A → Z) : sum_by f [] = 0.
Proof. done. Qed.

Lemma sum_by_cons {A} (f : A → Z) x l : sum_by f (x :: l) = f x + sum_by f l.
Proof. done. Qed.

Lemma sum_by_app {A} (f : A → Z) l1 l2 : sum_by f (l1 ++ l2) = sum_by f l1 + sum_by f l2.
Proof. induction l1 as [|x l1 IH]; [done|]. rewrite <- app_comm_cons, !sum_by_cons, IH. lia. Qed.

Lemma sum_by_nonneg {A} (f : A → Z) l : Forall (λ x, 0 <= f x) l → 0 <= sum_by f l.
Proof. induction 1 as [|x l Hx _ IH]; [done|]. rewrite sum_by_cons. lia. Qed.

Lemma sum_by_filter_le {A} (f : A → Z) (P : A → Prop) `{∀ x, Decision (P x)} l :
  Forall (λ x, 0 <= f x) l → sum_by f (filter P l) <= sum_by f l.
Proof.
  induction 1 as [|x l Hx _ IH]; [done|]. rewrite filter_cons.
  case_decide; rewrite !sum_by_cons; lia.
Qed.
