(* ===== verification/GoLib.v ===== *)
(** * The parts of Go's runtime and standard library the exchange relies on

    Buffered channels with [close], bounds-checked slicing, stable sorting
    ([sort.SliceStable]), [sort.Strings], [strings.Join] and friends, and
    IEEE-754 binary64 arithmetic, together with the lemmas the components
    share about them. *)
From Stdlib Require Import SpecFloat.
From S2P Require Import Prelude.

(** ** Channels *)

(** A buffered Go channel seen from its endpoints: the queued values, the
    capacity given to [make], and whether [close] was called. *)
Record chan (A : Type) : Type := mkChan {
  ch_buf : list A;
  ch_cap : nat;
  ch_closed : bool;
}.
Arguments mkChan {A} _ _ _.
Arguments ch_buf {A} _.
Arguments ch_cap {A} _.
Arguments ch_closed {A} _.

Definition make_chan (A : Type) (cap : nat) : chan A := mkChan [] cap false.

(** [select { case ch <- x: ... default: ... }].  [None] is the run-time
    panic "send on closed channel"; [Some (true, _)] took the send branch,
    [Some (false, _)] the default branch. *)
Definition chan_try_send {A} (x : A) (c : chan A) : option (bool * chan A) :=
  if ch_closed c then None
  else if (length (ch_buf c) <? ch_cap c)%nat
       then Some (true, mkChan (ch_buf c ++ [x]) (ch_cap c) false)
       else Some (false, c).

(** The outcomes of a receive: a value, the zero value of a closed and
    drained channel ([ok = false]), or a goroutine that has to wait. *)
Inductive recv_result (A : Type) : Type :=
| Received (x : A) (c : chan A)
| RecvClosed
| RecvBlocks.
Arguments Received {A} _ _.
Arguments RecvClosed {A}.
Arguments RecvBlocks {A}.

Definition chan_recv {A} (c : chan A) : recv_result A :=
  match ch_buf c with
  | x :: rest => Received x (mkChan rest (ch_cap c) (ch_closed c))
  | [] => if ch_closed c then RecvClosed else RecvBlocks
  end.

(** [close(ch)]: [None] is the panic "close of closed channel". *)
Definition chan_close {A} (c : chan A) : option (chan A) :=
  if ch_closed c then None else Some (mkChan (ch_buf c) (ch_cap c) true).

Definition chan_wf {A} (c : chan A) : Prop := (length (ch_buf c) ≤ ch_cap c)%nat.

Lemma chan_try_send_wf {A} (x : A) c b c' :
  chan_wf c → chan_try_send x c = Some (b, c') → chan_wf c'.
Proof.
  unfold chan_wf, chan_try_send. intros Hwf.
  destruct (ch_closed c); [done|].
  destruct (Nat.ltb_spec (length (ch_buf c)) (ch_cap c)); intros [= <- <-]; simpl; [|done].
  rewrite length_app. simpl. lia.
Qed.

Lemma chan_try_send_buf {A} (x : A) c b c' :
  chan_try_send x c = Some (b, c') →
  ch_closed c = false ∧ ch_closed c' = false ∧ ch_cap c' = ch_cap c ∧
  ch_buf c' = if b then ch_buf c ++ [x] else ch_buf c.
Proof.
  unfold chan_try_send. destruct (ch_closed c) eqn:E; [done|].
  case_match; intros [= <- <-]; simpl; auto.
Qed.

Lemma chan_try_send_open {A} (x : A) c :
  ch_closed c = false → ∃ b c', chan_try_send x c = Some (b, c').
Proof. unfold chan_try_send. intros ->. case_match; eauto. Qed.

Lemma chan_recv_Received {A} (c c' : chan A) x :
  chan_recv c = Received x c' →
  ch_buf c = x :: ch_buf c' ∧ ch_closed c' = ch_closed c ∧ ch_cap c' = ch_cap c.
Proof. unfold chan_recv. destruct (ch_buf c); [by case_match|]. by intros [= <- <-]. Qed.

Lemma chan_recv_closed {A} (c : chan A) :
  chan_recv c = RecvClosed → ch_closed c = true ∧ ch_buf c = [].
Proof. unfold chan_recv. destruct (ch_buf c); [|done]. by case_match. Qed.

(** ** Slices *)

(** [s[lo:hi]] for [hi <= len(s)]; [None] is the bounds panic. *)
Definition go_slice {A} (s : list A) (lo hi : Z) : option (list A) :=
  if (0 <=? lo) && (lo <=? hi) && (hi <=? Z.of_nat (length s))
  then Some (take (Z.to_nat (hi - lo)) (drop (Z.to_nat lo) s))
  else None.

Lemma go_slice_Some {A} (s : list A) lo hi :
  0 <= lo → lo <= hi → hi <= Z.of_nat (length s) →
  go_slice s lo hi = Some (take (Z.to_nat (hi - lo)) (drop (Z.to_nat lo) s)).
Proof.
  intros. unfold go_slice.
  rewrite !(proj2 (Z.leb_le _ _)) by lia. done.
Qed.

Lemma go_slice_neg {A} (s : list A) lo hi : lo < 0 → go_slice s lo hi = None.
Proof. intros. unfold go_slice. rewrite (proj2 (Z.leb_gt _ _)) by lia. done. Qed.

(** ** Stable sorting: [sort.SliceStable(s, less)] *)

Section Sorting.
Context {A : Type}.
Variable less : A → A → bool.

(** Insertion after every element that is not greater. *)
Fixpoint insert_stable (x : A) (l : list A) : list A :=
  match l with
  | [] => [x]
  | y :: ys => if less x y then x :: y :: ys else y :: insert_stable x ys
  end.

Definition sort_stable (l : list A) : list A :=
  foldl (λ acc x, insert_stable x acc) [] l.

Lemma insert_stable_perm x l : insert_stable x l ≡ₚ x :: l.
Proof.
  induction l as [|y ys IH]; simpl; [done|].
  case_match; [done|]. rewrite IH. apply Permutation_swap.
Qed.

Lemma sort_stable_snoc l x : sort_stable (l ++ [x]) = insert_stable x (sort_stable l).
Proof. unfold sort_stable. by rewrite foldl_app. Qed.

Lemma sort_stable_perm l : sort_stable l ≡ₚ l.
Proof.
  induction l as [|x l IH] using rev_ind; [done|].
  rewrite sort_stable_snoc, insert_stable_perm, IH. apply Permutation_cons_append.
Qed.

(** [less] is the strict order of an integer key in every use. *)
Variable key : A → Z.
Hypothesis less_key : ∀ x y, less x y = (key x <? key y).

Definition key_sorted (l : list A) : Prop := StronglySorted (λ x y, key x <= key y) l.

Lemma insert_stable_split x l :
  key_sorted l → ∃ l1 l2, l = l1 ++ l2 ∧ insert_stable x l = l1 ++ x :: l2 ∧
    Forall (λ y, key y <= key x) l1 ∧ Forall (λ y, key x < key y) l2.
Proof.
  induction l as [|y ys IH]; intros Hs; simpl.
  { exists [], []. auto. }
  apply StronglySorted_cons in Hs as [Hall Hs].
  rewrite less_key. destruct (Z.ltb_spec (key x) (key y)) as [Hlt|Hge].
  - exists [], (y :: ys). split_and!; auto. constructor; [done|].
    eapply Forall_impl; [exact Hall|]. simpl. lia.
  - destruct (IH Hs) as (l1 & l2 & -> & Hins & H1 & H2).
    exists (y :: l1), l2. rewrite Hins. split_and!; auto.
Qed.

Lemma insert_stable_sorted x l : key_sorted l → key_sorted (insert_stable x l).
Proof.
  intros Hs. destruct (insert_stable_split x l Hs) as (l1 & l2 & -> & -> & H1 & H2).
  unfold key_sorted in *. rewrite StronglySorted_app in *.
  destruct Hs as (Hc & Hs1 & Hs2). rewrite Forall_forall in H1, H2.
  split_and!; [|done|].
  - intros a b Ha [->|Hb]%elem_of_cons; [by apply H1|]. eauto.
  - apply StronglySorted_cons. split; [|done].
    apply Forall_forall. intros b Hb. specialize (H2 b Hb). simpl in *. lia.
Qed.

Lemma sort_stable_sorted l : key_sorted (sort_stable l).
Proof.
  induction l as [|x l IH] using rev_ind; [constructor|].
  rewrite sort_stable_snoc. by apply insert_stable_sorted.
Qed.

(** Stability: elements with equal keys keep their relative order. *)
Lemma insert_stable_filter k x l :
  key_sorted l →
  filter (λ y, key y = k) (insert_stable x l) = filter (λ y, key y = k) (l ++ [x]).
Proof.
  intros Hs. destruct (insert_stable_split x l Hs) as (l1 & l2 & -> & -> & H1 & H2).
  rewrite !filter_app, !filter_cons, filter_nil.
  destruct (decide (key x = k)) as [Hk|Hk].
  - assert (filter (λ y, key y = k) l2 = []) as ->; [|by rewrite app_nil_r].
    apply filter_none. eapply Forall_impl; [exact H2|]. simpl. lia.
  - by rewrite app_nil_r.
Qed.

Lemma sort_stable_filter k l :
  filter (λ y, key y = k) (sort_stable l) = filter (λ y, key y = k) l.
Proof.
  induction l as [|x l IH] using rev_ind; [done|].
  rewrite sort_stable_snoc, insert_stable_filter by apply sort_stable_sorted.
  by rewrite !filter_app, IH.
Qed.

Lemma insert_stable_last x l :
  Forall (λ y, key y <= key x) l → insert_stable x l = l ++ [x].
Proof.
  induction 1 as [|y ys Hy _ IH]; simpl; [done|].
  rewrite less_key, (proj2 (Z.ltb_ge _ _)), IH by lia. done.
Qed.

Lemma sort_stable_sorted_id l : key_sorted l → sort_stable l = l.
Proof.
  induction l as [|x l IH] using rev_ind; [done|].
  intros Hs. apply StronglySorted_app in Hs as (Hc & Hs & _).
  rewrite sort_stable_snoc, IH by done. apply insert_stable_last.
  apply Forall_forall. intros y Hy. apply Hc; [done|]. set_solver.
Qed.

(** Appending to a sorted slice and sorting again is one insertion. *)
Lemma sort_stable_append l x :
  key_sorted l → sort_stable (l ++ [x]) = insert_stable x l.
Proof. intros. by rewrite sort_stable_snoc, sort_stable_sorted_id. Qed.
End Sorting.

(** Sortedness by a key that factors through a projection. *)
Lemma key_sorted_fmap {A B} (f : A → B) (key : B → Z) l :
  key_sorted (λ x, key (f x)) l ↔ key_sorted key (f <$> l).
Proof.
  unfold key_sorted. induction l as [|x l IH]; [split; constructor|].
  rewrite fmap_cons, !StronglySorted_cons, IH, Forall_fmap. done.
Qed.

Lemma key_sorted_suffix {A} (key : A → Z) l l' :
  l' `suffix_of` l → key_sorted key l → key_sorted key l'.
Proof. intros [k ->] Hs. by apply StronglySorted_app in Hs as (_ & _ & ?). Qed.
