(* ===== verification/Float64.v ===== *)
(** * Go's [float64]

    IEEE-754 binary64 with round-to-nearest-even, computed by the Standard
    Library's [SpecFloat] (53 bits of precision, maximal exponent 1024), and
    the conversions between [float64] and [int64] that the code performs. *)
From Stdlib Require Import SpecFloat.
From S2P Require Import Prelude.

Definition f64 : Type := spec_float.

(** [float64(z)] *)
Definition f64_of_Z (z : Z) : f64 := binary_normalize 53 1024 z 0 false.

Definition f64_add (x y : f64) : f64 := SFadd 53 1024 x y.
Definition f64_sub (x y : f64) : f64 := SFsub 53 1024 x y.
Definition f64_mul (x y : f64) : f64 := SFmul 53 1024 x y.
Definition f64_div (x y : f64) : f64 := SFdiv 53 1024 x y.

(** The literal [m / 10^k], correctly rounded: [0.005] is [f64_lit 5 3]. *)
Definition f64_lit (m : Z) (k : nat) : f64 := f64_div (f64_of_Z m) (f64_of_Z (10 ^ Z.of_nat k)).

Definition f64_zero : f64 := S754_zero false.

(** Truncation toward zero of a finite value. *)
Definition f64_trunc (x : f64) : option Z :=
  match x with
  | S754_zero _ => Some 0
  | S754_finite s m e =>
      let a := if 0 <=? e then Z.pos m * 2 ^ e else Z.quot (Z.pos m) (2 ^ (- e)) in
      Some (if s then - a else a)
  | _ => None
  end.

(** [int64(x)].  For a value outside the range (or NaN, or an infinity) the
    result is implementation-defined in Go; amd64 yields the smallest
    [int64], which is what is written here. *)
Definition i64_of_f64 (x : f64) : Z :=
  match f64_trunc x with
  | Some z => if (min_i64 <=? z) && (z <=? max_i64) then z else min_i64
  | None => min_i64
  end.

Lemma i64_of_f64_range x : in_i64 (i64_of_f64 x).
Proof.
  unfold i64_of_f64. destruct (f64_trunc x) as [z|]; [|i64_lia].
  destruct ((min_i64 <=? z) && (z <=? max_i64)) eqn:E; [|i64_lia].
  reflect_bools. i64_lia.
Qed.
#[export] Hint Resolve i64_of_f64_range : exch.
