(* ===== verification/Entity.v ===== *)
(** * Domain entities ([internal/domain/entity])

    Orders, trades, tickers, depth snapshots, stocks and users, with the
    operations the entities carry: the order life cycle ([Fill]), the ticker
    update and the stock registry.  Times are nanoseconds since the epoch. *)
From S2P Require Import Prelude Float64.

Definition Time : Type := Z.
Bind Scope Z_scope with Time.

(** ** Order sides and states: Go string types, so any string is a value. *)
Definition Side : Type := string.
Definition SideBuy : Side := "BUY".
Definition SideSell : Side := "SELL".

Definition Side_IsValid (s : Side) : bool := (s =? SideBuy)%string || (s =? SideSell)%string.

Definition OrderStatus : Type := string.
Definition OrderStatusOpen : OrderStatus := "OPEN".
Definition OrderStatusPartial : OrderStatus := "PARTIAL".
Definition OrderStatusFilled : OrderStatus := "FILLED".
Definition OrderStatusCancelled : OrderStatus := "CANCELLED".

Definition OrderStatus_IsValid (s : OrderStatus) : bool :=
  (s =? OrderStatusOpen)%string || (s =? OrderStatusPartial)%string ||
  (s =? OrderStatusFilled)%string || (s =? OrderStatusCancelled)%string.

(** ** Orders *)
Module Order.
Record t : Type := mk {
  ID : string;
  UserID : string;
  StockCode : string;
  Sd : Side;
  Price : Z;
  Quantity : Z;
  FilledQuantity : Z;
  Status : OrderStatus;
  CreatedAt : Time;
  UpdatedAt : Time;
}.

(** The zero value of the struct. *)
Definition zero : t :=
  mk EmptyString EmptyString EmptyString EmptyString 0 0 0 EmptyString 0 0.

Definition RemainingQuantity (o : t) : Z := i64_sub (Quantity o) (FilledQuantity o).

Definition IsActive (o : t) : bool :=
  (Status o =? OrderStatusOpen)%string || (Status o =? OrderStatusPartial)%string.

(** [o.Fill(qty)], with the reading of [time.Now()]. *)
Definition Fill (now : Time) (qty : Z) (o : t) : t :=
  let filled := i64_add (FilledQuantity o) qty in
  mk (ID o) (UserID o) (StockCode o) (Sd o) (Price o) (Quantity o) filled
     (if filled >=? Quantity o then OrderStatusFilled else OrderStatusPartial)
     (CreatedAt o) now.
End Order.

Module OrderFilter.
Record t : Type := mk {
  StockCode : string;
  Status : OrderStatus;
  UserID : string;
  Page : Z;
  PerPage : Z;
}.
End OrderFilter.

(** ** Trades *)
Module Trade.
Record t : Type := mk {
  ID : string;
  StockCode : string;
  BuyOrderID : string;
  SellOrderID : string;
  Price : Z;
  Quantity : Z;
  BuyerUserID : string;
  SellerUserID : string;
  ExecutedAt : Time;
}.
End Trade.

Module TradeFilter.
Record t : Type := mk {
  StockCode : string;
  UserID : string;
  Page : Z;
  PerPage : Z;
}.
End TradeFilter.

(** ** Depth snapshots *)
Module PriceLevel.
Record t : Type := mk { Price : Z; Quantity : Z; Count : Z }.
End PriceLevel.

Module OrderBook.
Record t : Type := mk {
  StockCode : string;
  Bids : list PriceLevel.t;
  Asks : list PriceLevel.t;
  UpdatedAt : Time;
}.

Definition BestBid (ob : t) : option PriceLevel.t := head (Bids ob).
Definition BestAsk (ob : t) : option PriceLevel.t := head (Asks ob).
End OrderBook.

(** ** Tickers *)
Module Ticker.
Record t : Type := mk {
  StockCode : string;
  LastPrice : Z;
  PrevClose : Z;
  Change : Z;
  ChangePct : f64;
  High : Z;
  Low : Z;
  Volume : Z;
  UpdatedAt : Time;
}.

(** [float64(change) / float64(prevClose) * 100] *)
Definition change_pct (change prevClose : Z) : f64 :=
  f64_mul (f64_div (f64_of_Z change) (f64_of_Z prevClose)) (f64_of_Z 100).

Definition UpdateFromTrade (now : Time) (price qty : Z) (t0 : t) : t :=
  let high := if price >? High t0 then price else High t0 in
  let low := if (price <? Low t0) || (Low t0 =? 0) then price else Low t0 in
  let change := i64_sub price (PrevClose t0) in
  mk (StockCode t0) price (PrevClose t0)
     (if PrevClose t0 >? 0 then change else Change t0)
     (if PrevClose t0 >? 0 then change_pct change (PrevClose t0) else ChangePct t0)
     high low (i64_add (Volume t0) qty) now.
End Ticker.

(** ** Users *)
Module User.
Record t : Type := mk {
  ID : string;
  Username : string;
  PasswordHash : string;
  CreatedAt : Time;
}.
End User.

(** ** Stocks and their registry *)
Module Stock.
Record t : Type := mk { Code : string; Name : string; BasePrice : Z; TickSize : Z }.
End Stock.

Definition defaultStocks : list Stock.t := [
  Stock.mk "BBCA" "Bank BCA" 9500 25;
  Stock.mk "BBRI" "Bank BRI" 5000 25;
  Stock.mk "TLKM" "Telkom Indonesia" 3500 25;
  Stock.mk "ASII" "Astra International" 6000 25;
  Stock.mk "GOTO" "GoTo Group" 100 1
].

Definition binanceStocks : list Stock.t := [
  Stock.mk "BTCUSDT" "Bitcoin / USDT" 60000 1;
  Stock.mk "ETHUSDT" "Ethereum / USDT" 3000 1;
  Stock.mk "BNBUSDT" "Binance Coin / USDT" 600 1;
  Stock.mk "SOLUSDT" "Solana / USDT" 150 1;
  Stock.mk "ADAUSDT" "Cardano / USDT" 1 1
].

Definition DefaultStocks : list Stock.t := defaultStocks.
Definition BinanceStocks : list Stock.t := binanceStocks.
Definition AllStocks : list Stock.t := defaultStocks ++ binanceStocks.

(** The lookup map built by the package's [init]. *)
Definition stockIndex : gmap string Stock.t :=
  let add := λ (m : gmap string Stock.t) s, <[Stock.Code s := s]> m in
  foldl add (foldl add ∅ defaultStocks) binanceStocks.

Definition FindStock (code : string) : option Stock.t := stockIndex !! code.
Definition IsValidStockCode (code : string) : bool := bool_decide (is_Some (stockIndex !! code)).

Definition RoundToTick (price tickSize : Z) : Z :=
  if tickSize <=? 0 then price else i64_mul (i64_quot price tickSize) tickSize.

(** ** The order life cycle *)

(** What a well-formed order satisfies at every moment of its life: the
    filled quantity stays within the order, and the status is the one its
    filled quantity dictates. *)
Definition order_status_of (filled quantity : Z) : OrderStatus :=
  if filled >=? quantity then OrderStatusFilled
  else if filled =? 0 then OrderStatusOpen else OrderStatusPartial.

Record order_wf (o : Order.t) : Prop := {
  owf_side : Side_IsValid (Order.Sd o) = true;
  owf_price : 0 < Order.Price o <= max_i64;
  owf_quantity : 0 < Order.Quantity o <= max_i64;
  owf_filled : 0 <= Order.FilledQuantity o <= Order.Quantity o;
  owf_status : Order.Status o = order_status_of (Order.FilledQuantity o) (Order.Quantity o);
}.

Lemma remaining_wf o :
  order_wf o → Order.RemainingQuantity o = Order.Quantity o - Order.FilledQuantity o.
Proof. intros []. apply i64_sub_id. i64_lia. Qed.

Lemma active_wf o :
  order_wf o → Order.IsActive o = (0 <? Order.RemainingQuantity o).
Proof.
  intros Hwf. rewrite remaining_wf by done. destruct Hwf as [_ _ Hq Hf Hs].
  unfold Order.IsActive. rewrite Hs. unfold order_status_of.
  destruct (Z.geb_spec (Order.FilledQuantity o) (Order.Quantity o)).
  - rewrite (proj2 (Z.ltb_ge _ _)) by lia. done.
  - rewrite (proj2 (Z.ltb_lt _ _)) by lia. by destruct (_ =? 0).
Qed.

Lemma fill_wf now qty o :
  order_wf o → 0 < qty <= Order.RemainingQuantity o → order_wf (Order.Fill now qty o).
Proof.
  intros Hwf. rewrite remaining_wf by done. destruct Hwf as [Hsd Hp Hq Hf Hs]. intros Hqty.
  assert (i64_add (Order.FilledQuantity o) qty = Order.FilledQuantity o + qty) as Hadd
    by (apply i64_add_id; i64_lia).
  split; unfold Order.Fill; simpl; rewrite ?Hadd; try done; [lia|].
  unfold order_status_of. case_match; [done|].
  rewrite (proj2 (Z.eqb_neq _ _)) by lia. done.
Qed.

Lemma fill_filled now qty o :
  order_wf o → 0 < qty <= Order.RemainingQuantity o →
  Order.FilledQuantity (Order.Fill now qty o) = Order.FilledQuantity o + qty.
Proof.
  intros Hwf. rewrite remaining_wf by done. destruct Hwf as [Hsd Hp Hq Hf Hs]. intros Hqty.
  apply i64_add_id. i64_lia.
Qed.

Lemma fill_remaining now qty o :
  order_wf o → 0 < qty <= Order.RemainingQuantity o →
  Order.RemainingQuantity (Order.Fill now qty o) = Order.RemainingQuantity o - qty.
Proof.
  intros Hwf Hqty. rewrite !remaining_wf, fill_filled by eauto using fill_wf. simpl. lia.
Qed.

(** ** Facts about tickers and prices *)

Lemma RoundToTick_multiple price tick :
  0 < tick → 0 <= price <= max_i64 →
  RoundToTick price tick = price / tick * tick ∧ RoundToTick price tick <= price.
Proof.
  intros Ht Hp. unfold RoundToTick. rewrite (proj2 (Z.leb_gt _ _)) by lia.
  assert (price / tick <= price) by (apply Z.div_le_upper_bound; nia).
  assert (0 <= price / tick) by (apply Z.div_pos; lia).
  pose proof (Z.mul_div_le price tick Ht).
  unfold i64_quot. rewrite Z.quot_div_nonneg by lia.
  rewrite (i64_id (price / tick)) by i64_lia.
  unfold i64_mul. rewrite i64_id; [lia|]. split; i64_lia.
Qed.
