(* ===== verification/Repository.v ===== *)
(** * Interfaces between the domain and its infrastructure

    [internal/domain/repository] and [internal/domain/event]: what the
    matching engine and the application services require of the order, trade
    and market repositories and of the event bus.  An implementation is an
    [Instance] of the operation class over its own state type; the law
    classes say, through an abstract view of that state, what a
    correct implementation guarantees. *)
From S2P Require Import Prelude Entity.

(** ** Errors ([repository/errors.go]); wrapped errors keep their text. *)
Inductive error : Type :=
| ErrNotFound
| ErrDuplicate
| ErrOther (msg : string).

#[global] Instance error_eq_dec : EqDecision error.
Proof. solve_decision. Defined.

(** The result of an operation that returns [(A, error)] or panics. *)
Inductive outcome (A : Type) : Type :=
| OK (a : A)
| Err (e : error)
| Crash (msg : string).
Arguments OK {A} _.
Arguments Err {A} _.
Arguments Crash {A} _.

(** ** Domain events *)

(** A pointer to an [entity.Order] shared between goroutines. *)
Definition ref : Type := nat.

Definition EventType : Type := string.
Definition OrderCreated : EventType := "order.created".
Definition OrderUpdated : EventType := "order.updated".
Definition TradeExecuted : EventType := "trade.executed".
Definition TickerUpdated : EventType := "ticker.updated".
Definition OrderBookUpdated : EventType := "orderbook.updated".

(** [Payload interface{}]: an [*entity.Order] stays an alias of the order
    the engine goes on mutating, the other payloads are never written after
    they are published. *)
Inductive Payload : Type :=
| POrder (r : ref)
| PTrade (t : Trade.t)
| PTicker (t : Ticker.t)
| PBook (b : OrderBook.t).

Module Event.
Record t : Type := mk {
  Ty : EventType;
  StockCode : string;
  UserID : string;
  Pl : Payload;
  Timestamp : Time;
}.
End Event.

(** [event.Bus] as the publishers see it; [None] is a run-time panic. *)
Class Bus (B : Type) : Type := {
  bus_Publish : Event.t → B → option B;
}.

(** A bus in the states that accept events goes on accepting them. *)
Class BusLaws (B : Type) `{Bus B} : Type := {
  bus_open : B → Prop;
  bus_open_publish e b : bus_open b → ∃ b', bus_Publish e b = Some b' ∧ bus_open b';
}.

(** ** Order repository *)
Class OrderRepository (R : Type) : Type := {
  or_Save : Order.t → R → R * option error;
  or_FindByID : string → R → error + Order.t;
  or_FindAll : OrderFilter.t → R → outcome (list Order.t * Z);
  or_Update : Time → Order.t → R → R * option error;
}.

(** [o] with the mutable fields of [upd]; identity fields are kept. *)
Definition update_mutable (now : Time) (upd o : Order.t) : Order.t :=
  Order.mk (Order.ID o) (Order.UserID o) (Order.StockCode o) (Order.Sd o) (Order.Price o)
    (Order.Quantity o) (Order.FilledQuantity upd) (Order.Status upd) (Order.CreatedAt o) now.

Class OrderRepositoryLaws (R : Type) `{OrderRepository R} : Type := {
  or_inv : R → Prop;
  or_view : R → gmap string Order.t;
  or_Save_law o r : or_inv r →
    match or_view r !! Order.ID o with
    | Some _ => or_Save o r = (r, Some ErrDuplicate)
    | None => ∃ r', or_Save o r = (r', None) ∧ or_inv r' ∧
                    or_view r' = <[Order.ID o := o]> (or_view r)
    end;
  or_FindByID_law id r : or_inv r →
    or_FindByID id r = match or_view r !! id with Some o => inr o | None => inl ErrNotFound end;
  or_Update_law now o r : or_inv r →
    match or_view r !! Order.ID o with
    | None => or_Update now o r = (r, Some ErrNotFound)
    | Some x => ∃ r' t, or_Update now o r = (r', None) ∧ or_inv r' ∧
                        or_view r' = <[Order.ID o := update_mutable t o x]> (or_view r)
    end;
}.

(** ** Trade repository *)
Class TradeRepository (R : Type) : Type := {
  tr_Save : Trade.t → R → R * option error;
  tr_FindByStockCode : string → Z → R → error + list Trade.t;
  tr_FindAll : TradeFilter.t → R → outcome (list Trade.t * Z);
}.

Class TradeRepositoryLaws (R : Type) `{TradeRepository R} : Type := {
  tr_inv : R → Prop;
  tr_view : R → list Trade.t;
  tr_Save_law t r : tr_inv r →
    if bool_decide (Trade.ID t ∈ Trade.ID <$> tr_view r)
    then tr_Save t r = (r, Some ErrDuplicate)
    else ∃ r', tr_Save t r = (r', None) ∧ tr_inv r' ∧ tr_view r' = tr_view r ++ [t];
}.

(** ** Market repository *)
Class MarketRepository (R : Type) : Type := {
  mr_GetTicker : string → R → error + Ticker.t;
  mr_GetAllTickers : R → list Ticker.t;
  mr_UpdateTicker : Ticker.t → R → R * option error;
  mr_UpdateTickerFromTrade : Time → string → Z → Z → R → R * (error + Ticker.t);
  mr_GetOrderBook : string → R → error + OrderBook.t;
  mr_UpdateOrderBook : OrderBook.t → R → R * option error;
  mr_InitStock : Time → Time → Stock.t → R → R;
}.

(** ** What the engine and the services are built from: one
    implementation of each interface, the [uuid.NewString] supply and the
    readings of [time.Now], both indexed by the number of calls made so far. *)
Class Deps : Type := {
  OrderRepoT : Type;
  TradeRepoT : Type;
  MarketRepoT : Type;
  BusT : Type;
  deps_or :: OrderRepository OrderRepoT;
  deps_tr :: TradeRepository TradeRepoT;
  deps_mr :: MarketRepository MarketRepoT;
  deps_bus :: Bus BusT;
  uuid_NewString : nat → string;
  time_Now : nat → Time;
}.
