(* ===== verification/MemoryRepo.v ===== *)
(** * In-memory repositories ([internal/infra/storage/memory]) *)
From S2P Require Import Prelude GoLib Float64 Entity Repository.

(** ** Pagination, as [OrderRepo.FindAll] and [TradeRepo.FindAll] do it on
    the matching entries: [int] arithmetic wraps and the slice expression is
    bounds-checked. *)
Definition paginate {A} (page perPage : Z) (matched : list A) : outcome (list A) :=
  let page := if page <=? 0 then 1 else page in
  let perPage := if perPage <=? 0 then 20 else perPage in
  let start := i64_mul (i64_sub page 1) perPage in
  let len := Z.of_nat (length matched) in
  if start >=? len then OK []
  else
    let stop := i64_add start perPage in
    let stop := if stop >? len then len else stop in
    match go_slice matched start stop with
    | Some result => OK result
    | None => Crash "slice bounds out of range"
    end.

(** ** Orders: [byID] and [ordered] hold pointers to the same stored copies. *)
Module OrderRepo.
Record t : Type := mk {
  heap : gmap nat Order.t;
  next : nat;
  byID : gmap string nat;
  ordered : list nat;
}.

Definition New : t := mk ∅ 0 ∅ [].

Definition deref (r : t) (p : nat) : Order.t := default Order.zero (heap r !! p).

Definition Save (order : Order.t) (r : t) : t * option error :=
  match byID r !! Order.ID order with
  | Some _ => (r, Some ErrDuplicate)
  | None =>
      let cp := next r in
      (mk (<[cp := order]> (heap r)) (S cp) (<[Order.ID order := cp]> (byID r))
          (ordered r ++ [cp]), None)
  end.

Definition FindByID (id : string) (r : t) : error + Order.t :=
  match byID r !! id with
  | None => inl ErrNotFound
  | Some p => inr (deref r p)
  end.

Definition keep (f : OrderFilter.t) (o : Order.t) : bool :=
  negb (negb (OrderFilter.StockCode f =? EmptyString)%string &&
        negb (Order.StockCode o =? OrderFilter.StockCode f)%string) &&
  negb (negb (OrderFilter.Status f =? EmptyString)%string &&
        negb (Order.Status o =? OrderFilter.Status f)%string) &&
  negb (negb (OrderFilter.UserID f =? EmptyString)%string &&
        negb (Order.UserID o =? OrderFilter.UserID f)%string).

Definition FindAll (f : OrderFilter.t) (r : t) : outcome (list Order.t * Z) :=
  let matched := filter (λ p, keep f (deref r p) = true) (ordered r) in
  let total := Z.of_nat (length matched) in
  match paginate (OrderFilter.Page f) (OrderFilter.PerPage f) matched with
  | OK result => OK (deref r <$> result, total)
  | Err e => Err e
  | Crash s => Crash s
  end.

Definition Update (now : Time) (order : Order.t) (r : t) : t * option error :=
  match byID r !! Order.ID order with
  | None => (r, Some ErrNotFound)
  | Some p =>
      (mk (<[p := update_mutable now order (deref r p)]> (heap r)) (next r) (byID r) (ordered r),
       None)
  end.
End OrderRepo.

(** ** Trades *)
Module TradeRepo.
Record t : Type := mk {
  byID : gmap string Trade.t;
  byStock : gmap string (list Trade.t);
  all : list Trade.t;
}.

Definition New : t := mk ∅ ∅ [].

Definition stock_trades (stockCode : string) (r : t) : list Trade.t :=
  default [] (byStock r !! stockCode).

Definition Save (trade : Trade.t) (r : t) : t * option error :=
  match byID r !! Trade.ID trade with
  | Some _ => (r, Some ErrDuplicate)
  | None =>
      let stock := Trade.StockCode trade in
      (mk (<[Trade.ID trade := trade]> (byID r))
          (<[stock := stock_trades stock r ++ [trade]]> (byStock r))
          (all r ++ [trade]), None)
  end.

Definition FindByStockCode (stockCode : string) (limit : Z) (r : t) : error + list Trade.t :=
  let src := stock_trades stockCode r in
  if (length src =? 0)%nat then inr []
  else
    let len := Z.of_nat (length src) in
    let n := if (limit >? 0) && (limit <? len) then limit else len in
    inr (take (Z.to_nat n) (reverse src)).

Definition keep (f : TradeFilter.t) (x : Trade.t) : bool :=
  negb (negb (TradeFilter.StockCode f =? EmptyString)%string &&
        negb (Trade.StockCode x =? TradeFilter.StockCode f)%string) &&
  negb (negb (TradeFilter.UserID f =? EmptyString)%string &&
        negb (Trade.BuyerUserID x =? TradeFilter.UserID f)%string &&
        negb (Trade.SellerUserID x =? TradeFilter.UserID f)%string).

Definition FindAll (f : TradeFilter.t) (r : t) : outcome (list Trade.t * Z) :=
  let matched := filter (λ x, keep f x = true) (all r) in
  let total := Z.of_nat (length matched) in
  match paginate (TradeFilter.Page f) (TradeFilter.PerPage f) matched with
  | OK result => OK (result, total)
  | Err e => Err e
  | Crash s => Crash s
  end.
End TradeRepo.

(** ** Market snapshots.  [tickers] maps a stock to its [tickerEntry]; the
    pointed-to ticker is replaced, never written, so the entry is the value
    it points to ([None] for a nil pointer). *)
Module MarketRepo.
Record t : Type := mk {
  tickers : gmap string (option Ticker.t);
  books : gmap string OrderBook.t;
}.

Definition New : t := mk ∅ ∅.

Definition InitStock (now now' : Time) (stock : Stock.t) (r : t) : t :=
  let code := Stock.Code stock in
  mk (match tickers r !! code with
      | Some _ => tickers r
      | None => <[code := Some (Ticker.mk code 0 0 0 f64_zero 0 0 0 now)]> (tickers r)
      end)
     (match books r !! code with
      | Some _ => books r
      | None => <[code := OrderBook.mk code [] [] now']> (books r)
      end).

Definition GetTicker (stockCode : string) (r : t) : error + Ticker.t :=
  match tickers r !! stockCode with
  | Some (Some x) => inr x
  | _ => inl ErrNotFound
  end.

(** Go ranges over the map in an unspecified order. *)
Definition GetAllTickers (r : t) : list Ticker.t :=
  omap snd (map_to_list (tickers r)).

Definition UpdateTickerFromTrade (now : Time) (stockCode : string) (price qty : Z) (r : t)
    : t * (error + Ticker.t) :=
  match tickers r !! stockCode with
  | Some (Some current) =>
      let updated := Ticker.UpdateFromTrade now price qty current in
      (mk (<[stockCode := Some updated]> (tickers r)) (books r), inr updated)
  | _ => (r, inl ErrNotFound)
  end.

Definition UpdateTicker (ticker : Ticker.t) (r : t) : t * option error :=
  match tickers r !! Ticker.StockCode ticker with
  | None => (r, Some ErrNotFound)
  | Some _ => (mk (<[Ticker.StockCode ticker := Some ticker]> (tickers r)) (books r), None)
  end.

Definition GetOrderBook (stockCode : string) (r : t) : error + OrderBook.t :=
  match books r !! stockCode with
  | None => inl ErrNotFound
  | Some b => inr b
  end.

Definition UpdateOrderBook (book : OrderBook.t) (r : t) : t * option error :=
  match books r !! OrderBook.StockCode book with
  | None => (r, Some ErrNotFound)
  | Some _ => (mk (tickers r) (<[OrderBook.StockCode book := book]> (books r)), None)
  end.
End MarketRepo.

(** ** The implementations of the interfaces *)
#[global] Instance mem_orders : OrderRepository OrderRepo.t := {|
  or_Save := OrderRepo.Save;
  or_FindByID := OrderRepo.FindByID;
  or_FindAll := OrderRepo.FindAll;
  or_Update := OrderRepo.Update;
|}.

#[global] Instance mem_trades : TradeRepository TradeRepo.t := {|
  tr_Save := TradeRepo.Save;
  tr_FindByStockCode := TradeRepo.FindByStockCode;
  tr_FindAll := TradeRepo.FindAll;
|}.

#[global] Instance mem_market : MarketRepository MarketRepo.t := {|
  mr_GetTicker := MarketRepo.GetTicker;
  mr_GetAllTickers := MarketRepo.GetAllTickers;
  mr_UpdateTicker := MarketRepo.UpdateTicker;
  mr_UpdateTickerFromTrade := MarketRepo.UpdateTickerFromTrade;
  mr_GetOrderBook := MarketRepo.GetOrderBook;
  mr_UpdateOrderBook := MarketRepo.UpdateOrderBook;
  mr_InitStock := MarketRepo.InitStock;
|}.
