(* ===== verification/Book.v ===== *)
(** * The per-stock order book ([internal/engine/orderbook.go])

    Two price-sorted lists of resting entries and the set of resting order
    IDs.  Entries point to orders of the shared heap, from which prices and
    IDs are read. *)
From S2P Require Import Prelude GoLib Entity Repository.

(** The orders allocated so far, by pointer. *)
Abbreviation heap := (gmap ref Order.t).

Definition deref (h : heap) (r : ref) : Order.t := default Order.zero (h !! r).

Record orderEntry : Type := mkEntry {
  oe_order : ref;
  oe_remaining : Z;
}.

Record orderBook : Type := mkBook {
  ob_stockCode : string;
  ob_bids : list orderEntry;
  ob_asks : list orderEntry;
  ob_index : gset string;
}.

Definition newOrderBook (stockCode : string) : orderBook := mkBook stockCode [] [] ∅.

Definition entry_price (h : heap) (e : orderEntry) : Z := Order.Price (deref h (oe_order e)).
Definition entry_id (h : heap) (e : orderEntry) : string := Order.ID (deref h (oe_order e)).

(** The [less] functions of the two [sort.SliceStable] calls. *)
Definition bid_less (h : heap) (x y : orderEntry) : bool := entry_price h x >? entry_price h y.
Definition ask_less (h : heap) (x y : orderEntry) : bool := entry_price h x <? entry_price h y.

Definition addOrder (h : heap) (o : ref) (ob : orderBook) : orderBook :=
  let ord := deref h o in
  if bool_decide (Order.ID ord ∈ ob_index ob) then ob
  else
    let index := {[Order.ID ord]} ∪ ob_index ob in
    let entry := mkEntry o (Order.RemainingQuantity ord) in
    if (Order.Sd ord =? SideBuy)%string then
      mkBook (ob_stockCode ob) (sort_stable (bid_less h) (ob_bids ob ++ [entry])) (ob_asks ob) index
    else if (Order.Sd ord =? SideSell)%string then
      mkBook (ob_stockCode ob) (ob_bids ob) (sort_stable (ask_less h) (ob_asks ob ++ [entry])) index
    else mkBook (ob_stockCode ob) (ob_bids ob) (ob_asks ob) index.

Fixpoint removeEntry (h : heap) (entries : list orderEntry) (id : string) : list orderEntry :=
  match entries with
  | [] => []
  | e :: rest => if (entry_id h e =? id)%string then rest else e :: removeEntry h rest id
  end.

Definition removeOrder (h : heap) (orderID : string) (ob : orderBook) : orderBook :=
  mkBook (ob_stockCode ob) (removeEntry h (ob_bids ob) orderID)
    (removeEntry h (ob_asks ob) orderID) (ob_index ob ∖ {[orderID]}).

Definition bestBid (ob : orderBook) : option orderEntry := head (ob_bids ob).
Definition bestAsk (ob : orderBook) : option orderEntry := head (ob_asks ob).

(** [levels[len(levels)-1].Quantity += q; levels[len(levels)-1].Count++] *)
Definition bump_last (q : Z) (levels : list PriceLevel.t) : list PriceLevel.t :=
  match last levels with
  | None => levels
  | Some lv =>
      <[pred (length levels) := PriceLevel.mk (PriceLevel.Price lv)
          (i64_add (PriceLevel.Quantity lv) q) (i64_add (PriceLevel.Count lv) 1)]> levels
  end.

Fixpoint aggregate (h : heap) (entries : list orderEntry) (maxLevels : Z)
    (levels : list PriceLevel.t) : list PriceLevel.t :=
  match entries with
  | [] => levels
  | e :: rest =>
      if oe_remaining e <=? 0 then aggregate h rest maxLevels levels
      else if match last levels with
              | Some lv => PriceLevel.Price lv =? entry_price h e
              | None => false
              end
      then aggregate h rest maxLevels (bump_last (oe_remaining e) levels)
      else if (maxLevels >? 0) && (Z.of_nat (length levels) >=? maxLevels) then levels
      else aggregate h rest maxLevels
             (levels ++ [PriceLevel.mk (entry_price h e) (oe_remaining e) 1])
  end.

Definition aggregateLevels (h : heap) (entries : list orderEntry) (maxLevels : Z)
    : list PriceLevel.t := aggregate h entries maxLevels [].

(** [getDepth]; the caller fills in [UpdatedAt]. *)
Definition getDepth (h : heap) (ob : orderBook) (levels : Z) : OrderBook.t :=
  OrderBook.mk (ob_stockCode ob) (aggregateLevels h (ob_bids ob) levels)
    (aggregateLevels h (ob_asks ob) levels) 0.
