(* ===== verification/Matcher.v ===== *)
(** * The matching engine of one stock ([internal/engine/matcher.go]) *)
From S2P Require Import Prelude GoLib Entity Repository Book.

Definition matcherChanCap : nat := 1000.
Definition depthLevels : Z := 10.

Definition min64 (a b : Z) : Z := if a <? b then a else b.

(** ** The state the engine's goroutines share: the order heap, the
    repositories, the event bus and the positions in the UUID and clock
    supplies. *)
Section World.
Context {D : Deps}.

Record world : Type := mkWorld {
  w_heap : heap;
  w_next : ref;
  w_orders : OrderRepoT;
  w_trades : TradeRepoT;
  w_market : MarketRepoT;
  w_bus : BusT;
  w_uuids : nat;
  w_ticks : nat;
}.

Definition set_heap (h : heap) (w : world) : world :=
  mkWorld h (w_next w) (w_orders w) (w_trades w) (w_market w) (w_bus w) (w_uuids w) (w_ticks w).
Definition set_orders (r : OrderRepoT) (w : world) : world :=
  mkWorld (w_heap w) (w_next w) r (w_trades w) (w_market w) (w_bus w) (w_uuids w) (w_ticks w).
Definition set_trades (r : TradeRepoT) (w : world) : world :=
  mkWorld (w_heap w) (w_next w) (w_orders w) r (w_market w) (w_bus w) (w_uuids w) (w_ticks w).
Definition set_market (r : MarketRepoT) (w : world) : world :=
  mkWorld (w_heap w) (w_next w) (w_orders w) (w_trades w) r (w_bus w) (w_uuids w) (w_ticks w).
Definition set_bus (b : BusT) (w : world) : world :=
  mkWorld (w_heap w) (w_next w) (w_orders w) (w_trades w) (w_market w) b (w_uuids w) (w_ticks w).

(** [time.Now()] and [uuid.NewString()]. *)
Definition now : M world Time := λ w,
  Ret (time_Now (w_ticks w))
    (mkWorld (w_heap w) (w_next w) (w_orders w) (w_trades w) (w_market w) (w_bus w)
       (w_uuids w) (S (w_ticks w))).
Definition newUUID : M world string := λ w,
  Ret (uuid_NewString (w_uuids w))
    (mkWorld (w_heap w) (w_next w) (w_orders w) (w_trades w) (w_market w) (w_bus w)
       (S (w_uuids w)) (w_ticks w)).

(** [&entity.Order{...}]: a fresh pointer. *)
Definition alloc (o : Order.t) : M world ref := λ w,
  Ret (w_next w)
    (mkWorld (<[w_next w := o]> (w_heap w)) (S (w_next w)) (w_orders w) (w_trades w)
       (w_market w) (w_bus w) (w_uuids w) (w_ticks w)).

Definition load (r : ref) : M world Order.t := λ w, Ret (deref (w_heap w) r) w.
Definition store (r : ref) (o : Order.t) : M world () :=
  modify (λ w, set_heap (<[r := o]> (w_heap w)) w).

(** [o.Fill(qty)] through a pointer. *)
Definition fill (r : ref) (qty : Z) : M world () :=
  o ← load r; t ← now; store r (Order.Fill t qty o).

(** Calls on the shared repositories and the bus. *)
Definition publish (e : Event.t) : M world () := λ w,
  match bus_Publish e (w_bus w) with
  | Some b => Ret () (set_bus b w)
  | None => Panic "send on closed channel" w
  end.
Definition call_trades {A} (f : TradeRepoT → TradeRepoT * A) : M world A := λ w,
  let '(r, a) := f (w_trades w) in Ret a (set_trades r w).
Definition call_orders {A} (f : OrderRepoT → OrderRepoT * A) : M world A := λ w,
  let '(r, a) := f (w_orders w) in Ret a (set_orders r w).
Definition call_market {A} (f : MarketRepoT → MarketRepoT * A) : M world A := λ w,
  let '(r, a) := f (w_market w) in Ret a (set_market r w).
Definition save_trade (t : Trade.t) : M world (option error) := call_trades (tr_Save t).
Definition save_order (o : Order.t) : M world (option error) := call_orders (or_Save o).
Definition update_order (o : Order.t) : M world (option error) :=
  t ← now; call_orders (or_Update t o).
End World.

Section Matcher.
Context {D : Deps}.
Variable stockCode : string.

(** [updateTicker]: on an error the event is not published. *)
Definition updateTicker (price qty : Z) : M world () :=
  t ← now;
  ticker ← call_market (mr_UpdateTickerFromTrade t stockCode price qty);
  match ticker with
  | inl _ => mret ()
  | inr tk => publish (Event.mk TickerUpdated stockCode EmptyString (PTicker tk)
                         (Ticker.UpdatedAt tk))
  end.

(** [executeTrade]: when the trade cannot be saved nothing else happens. *)
Definition executeTrade (buy sell : ref) (qty price : Z) : M world () :=
  id ← newUUID;
  b ← load buy;
  s ← load sell;
  executedAt ← now;
  let trade := Trade.mk id stockCode (Order.ID b) (Order.ID s) price qty
                 (Order.UserID b) (Order.UserID s) executedAt in
  err ← save_trade trade;
  match err with
  | Some _ => mret ()
  | None =>
      fill buy qty;;
      fill sell qty;;
      (b ← load buy; update_order b);;
      (s ← load sell; update_order s);;
      updateTicker price qty;;
      publish (Event.mk TradeExecuted stockCode EmptyString (PTrade trade) executedAt);;
      publish (Event.mk OrderUpdated stockCode (Order.UserID b) (POrder buy) executedAt);;
      publish (Event.mk OrderUpdated stockCode (Order.UserID s) (POrder sell) executedAt)
  end.

(** The matcher's own state next to the shared one. *)
Record mstate : Type := mkMS { ms_book : orderBook; ms_world : world }.

Definition on_world {A} (m : M world A) : M mstate A := λ s,
  match m (ms_world s) with
  | Ret a w => Ret a (mkMS (ms_book s) w)
  | Panic e w => Panic e (mkMS (ms_book s) w)
  | NoFuel => NoFuel
  end.
Definition on_book (f : heap → orderBook → orderBook) : M mstate () :=
  modify (λ s, mkMS (f (w_heap (ms_world s)) (ms_book s)) (ms_world s)).

(** [best.remaining -= qty] for the entry at the head of a side. *)
Definition reduce_head (qty : Z) (es : list orderEntry) : list orderEntry :=
  match es with
  | [] => []
  | e :: rest => mkEntry (oe_order e) (i64_sub (oe_remaining e) qty) :: rest
  end.
Definition reduce_ask (qty : Z) (ob : orderBook) : orderBook :=
  mkBook (ob_stockCode ob) (ob_bids ob) (reduce_head qty (ob_asks ob)) (ob_index ob).
Definition reduce_bid (qty : Z) (ob : orderBook) : orderBook :=
  mkBook (ob_stockCode ob) (reduce_head qty (ob_bids ob)) (ob_asks ob) (ob_index ob).

(** The loop of [matchBuy]; [fuel] bounds its iterations. *)
Fixpoint matchBuy (fuel : nat) (buy : ref) : M mstate () :=
  match fuel with
  | O => out_of_fuel
  | S fuel =>
      s ← get;
      let h := w_heap (ms_world s) in
      match bestAsk (ms_book s) with
      | None => mret ()
      | Some best =>
          if entry_price h best >? Order.Price (deref h buy) then mret ()
          else if Order.RemainingQuantity (deref h buy) <=? 0 then mret ()
          else
            let qty := min64 (Order.RemainingQuantity (deref h buy)) (oe_remaining best) in
            let tradePrice := entry_price h best in
            on_world (executeTrade buy (oe_order best) qty tradePrice);;
            on_book (λ _, reduce_ask qty);;
            (if i64_sub (oe_remaining best) qty <=? 0
             then on_book (λ h', removeOrder h' (entry_id h best)) else mret ());;
            matchBuy fuel buy
      end
  end.

(** The loop of [matchSell]. *)
Fixpoint matchSell (fuel : nat) (sell : ref) : M mstate () :=
  match fuel with
  | O => out_of_fuel
  | S fuel =>
      s ← get;
      let h := w_heap (ms_world s) in
      match bestBid (ms_book s) with
      | None => mret ()
      | Some best =>
          if entry_price h best <? Order.Price (deref h sell) then mret ()
          else if Order.RemainingQuantity (deref h sell) <=? 0 then mret ()
          else
            let qty := min64 (Order.RemainingQuantity (deref h sell)) (oe_remaining best) in
            let tradePrice := entry_price h best in
            on_world (executeTrade (oe_order best) sell qty tradePrice);;
            on_book (λ _, reduce_bid qty);;
            (if i64_sub (oe_remaining best) qty <=? 0
             then on_book (λ h', removeOrder h' (entry_id h best)) else mret ());;
            matchSell fuel sell
      end
  end.

(** Each iteration consumes at least one unit of the opposite side or
    removes an entry, so this many iterations are enough. *)
Definition side_fuel (es : list orderEntry) : nat :=
  foldr (λ e n, S (Z.to_nat (oe_remaining e)) + n)%nat 1%nat es.

Definition publishOrderBook : M mstate () :=
  s ← get;
  t ← on_world now;
  let depth := getDepth (w_heap (ms_world s)) (ms_book s) depthLevels in
  let snapshot := OrderBook.mk (OrderBook.StockCode depth) (OrderBook.Bids depth)
                    (OrderBook.Asks depth) t in
  on_world (call_market (mr_UpdateOrderBook snapshot));;
  on_world (publish (Event.mk OrderBookUpdated stockCode EmptyString (PBook snapshot) t)).

Definition matchOrder (incoming : ref) : M mstate () :=
  s ← get;
  let side := Order.Sd (deref (w_heap (ms_world s)) incoming) in
  (if (side =? SideBuy)%string then matchBuy (side_fuel (ob_asks (ms_book s))) incoming
   else if (side =? SideSell)%string then matchSell (side_fuel (ob_bids (ms_book s))) incoming
   else mret ());;
  s' ← get;
  let o := deref (w_heap (ms_world s')) incoming in
  (if Order.IsActive o && (Order.RemainingQuantity o >? 0)
   then on_book (λ h, addOrder h incoming) else mret ());;
  publishOrderBook.
End Matcher.
