(* ===== verification/EventBus.v ===== *)
(** * The in-process event bus ([internal/infra/broker/eventbus.go])

    A bounded channel of events drained by one dispatcher goroutine, which
    calls the handlers subscribed to the event's type in subscription order. *)
From S2P Require Import Prelude GoLib Entity Repository.

Definition dispatchBufferSize : nat := Z.to_nat 10000.

Section EventBus.
(** [H] is the type of handler closures; running one may change the bus
    (handlers may subscribe, unsubscribe or publish) and the state [S] of
    the rest of the program, or panic. *)
Context {H S : Type}.

Record subscription : Type := mkSub { sub_id : string; sub_handler : H }.

Record EventBus : Type := mkBus {
  eb_subs : gmap EventType (list subscription);
  eb_ch : chan Event.t;
  eb_done : bool;      (* [done] was closed: the dispatcher exited *)
  eb_started : bool;   (* [once] fired *)
  eb_stopped : bool;   (* [stopOnce] fired *)
}.

Definition NewEventBus : EventBus :=
  mkBus ∅ (make_chan Event.t dispatchBufferSize) false false false.

Definition set_subs (m : gmap EventType (list subscription)) (b : EventBus) : EventBus :=
  mkBus m (eb_ch b) (eb_done b) (eb_started b) (eb_stopped b).
Definition set_ch (c : chan Event.t) (b : EventBus) : EventBus :=
  mkBus (eb_subs b) c (eb_done b) (eb_started b) (eb_stopped b).

Definition subs_of (ty : EventType) (b : EventBus) : list subscription :=
  default [] (eb_subs b !! ty).

(** [id] is the fresh [uuid.NewString()], which is also returned. *)
Definition Subscribe (id : string) (ty : EventType) (fn : H) (b : EventBus) : EventBus :=
  set_subs (<[ty := subs_of ty b ++ [mkSub id fn]]> (eb_subs b)) b.

Fixpoint remove_sub (id : string) (l : list subscription) : list subscription :=
  match l with
  | [] => []
  | s :: rest => if (sub_id s =? id)%string then rest else s :: remove_sub id rest
  end.

Definition has_sub (id : string) (l : list subscription) : bool :=
  existsb (λ s, (sub_id s =? id)%string) l.

(** Ranges over the map and returns at the first list that has the ID. *)
Definition Unsubscribe (id : string) (b : EventBus) : EventBus :=
  match List.find (λ p, has_sub id (snd p)) (map_to_list (eb_subs b)) with
  | Some (ty, l) => set_subs (<[ty := remove_sub id l]> (eb_subs b)) b
  | None => b
  end.

(** Non-blocking: a full buffer drops the event, a closed one panics. *)
Definition Publish (e : Event.t) (b : EventBus) : option EventBus :=
  match chan_try_send e (eb_ch b) with
  | Some (_, c) => Some (set_ch c b)
  | None => None
  end.

Definition Start (b : EventBus) : EventBus :=
  mkBus (eb_subs b) (eb_ch b) (eb_done b) true (eb_stopped b).

Variable run : H → Event.t → EventBus * S → option (EventBus * S).

(** [deliver]: the handler list is copied before the handlers run. *)
Definition deliver (e : Event.t) (st : EventBus * S) : option (EventBus * S) :=
  foldl (λ acc h, st ← acc; run h e st) (Some st)
    (sub_handler <$> subs_of (Event.Ty e) (fst st)).

(** What one turn of [for e := range b.ch] does. *)
Inductive dispatched : Type :=
| Delivered (st : EventBus * S)
| Exited (st : EventBus * S)        (* channel closed and drained: [close(b.done)] *)
| Waiting                           (* channel open and empty *)
| Panicked.                         (* a handler panicked *)

Definition dispatch_turn (st : EventBus * S) : dispatched :=
  let '(b, s) := st in
  match chan_recv (eb_ch b) with
  | Received e c =>
      match deliver e (set_ch c b, s) with
      | Some st' => Delivered st'
      | None => Panicked
      end
  | RecvClosed => Exited (mkBus (eb_subs b) (eb_ch b) true (eb_started b) (eb_stopped b), s)
  | RecvBlocks => Waiting
  end.

(** The dispatcher until it exits, waits or panics. *)
Fixpoint dispatch (fuel : nat) (st : EventBus * S) : option dispatched :=
  match fuel with
  | O => None
  | Datatypes.S fuel =>
      match dispatch_turn st with
      | Delivered st' => dispatch fuel st'
      | d => Some d
      end
  end.

Inductive stop_result : Type :=
| Stopped (st : EventBus * S)
| StopBlocks (st : EventBus * S)   (* [<-b.done] never returns: no dispatcher runs *)
| StopPanics
| StopNoFuel.

(** [Stop]: close the channel and wait for the dispatcher to exit. *)
Definition Stop (fuel : nat) (st : EventBus * S) : stop_result :=
  let '(b, s) := st in
  if eb_stopped b then Stopped st
  else match chan_close (eb_ch b) with
       | None => StopPanics
       | Some c =>
           let b := mkBus (eb_subs b) c (eb_done b) (eb_started b) true in
           if eb_started b then
             match dispatch fuel (b, s) with
             | Some (Exited st') => Stopped st'
             | Some (Delivered st') => StopBlocks st'
             | Some Waiting => StopBlocks (b, s)
             | Some Panicked => StopPanics
             | None => StopNoFuel
             end
           else StopBlocks (b, s)
       end.
End EventBus.
Arguments subscription : clear implicits.
Arguments EventBus : clear implicits.

#[global] Instance eventbus_bus H : Bus (EventBus H) := {| bus_Publish := Publish |}.
