(* ===== verification/BookProofs.v ===== *)
(** * Properties of the order book

    Price-time priority of insertion, removal, the well-formedness invariant
    of a book, and the correctness of the aggregated depth. *)
From S2P Require Import Prelude GoLib Entity Repository Book.

(** ** Orders keep their identity: what never changes about an allocated
    order, and the evolution of the heap it induces. *)
Definition order_evolves (o o' : Order.t) : Prop :=
  Order.ID o' = Order.ID o ∧ Order.UserID o' = Order.UserID o ∧
  Order.StockCode o' = Order.StockCode o ∧ Order.Sd o' = Order.Sd o ∧
  Order.Price o' = Order.Price o ∧ Order.Quantity o' = Order.Quantity o ∧
  Order.CreatedAt o' = Order.CreatedAt o ∧ Order.FilledQuantity o <= Order.FilledQuantity o'.

Definition heap_evolves (h h' : heap) : Prop :=
  ∀ r o, h !! r = Some o → ∃ o', h' !! r = Some o' ∧ order_evolves o o'.

#[global] Instance order_evolves_preorder : PreOrder order_evolves.
Proof.
  split; [intros o; unfold order_evolves; split_and!; auto; lia|].
  unfold order_evolves. intros x y z; intros; destruct_and!. split_and!; try congruence. lia.
Qed.

#[global] Instance heap_evolves_preorder : PreOrder heap_evolves.
Proof.
  split; [intros h r o Hr; exists o; split; [done|reflexivity]|].
  intros h1 h2 h3 H12 H23 r o Hr.
  destruct (H12 r o Hr) as (o2 & Hr2 & E2). destruct (H23 r o2 Hr2) as (o3 & Hr3 & E3).
  exists o3. split; [done|]. by transitivity o2.
Qed.

Lemma heap_evolves_insert h r o o' :
  h !! r = Some o → order_evolves o o' → heap_evolves h (<[r := o']> h).
Proof.
  intros Hr He r' x Hx. destruct (decide (r = r')) as [->|Hne].
  - exists o'. rewrite lookup_insert_eq. split; [done|]. by simplify_eq.
  - exists x. rewrite lookup_insert_ne by done. split; [done|]. reflexivity.
Qed.

Lemma fill_evolves now qty o :
  0 < qty <= Order.RemainingQuantity o → order_wf o → order_evolves o (Order.Fill now qty o).
Proof.
  intros Hq Hwf. unfold order_evolves. rewrite fill_filled by done.
  unfold Order.Fill. simpl. split_and!; auto. lia.
Qed.

Lemma deref_Some h r o : h !! r = Some o → deref h r = o.
Proof. unfold deref. by intros ->. Qed.

(** ** The invariant of a book *)
Definition resting (ob : orderBook) : list orderEntry := ob_bids ob ++ ob_asks ob.

Definition entry_ok (h : heap) (sd : Side) (e : orderEntry) : Prop :=
  ∃ o, h !! oe_order e = Some o ∧ order_wf o ∧ Order.Sd o = sd ∧
       0 < oe_remaining e <= Order.RemainingQuantity o.

Record book_inv (h : heap) (ob : orderBook) : Prop := {
  bi_bids_sorted : key_sorted (λ e, - entry_price h e) (ob_bids ob);
  bi_asks_sorted : key_sorted (entry_price h) (ob_asks ob);
  bi_bids_ok : Forall (entry_ok h SideBuy) (ob_bids ob);
  bi_asks_ok : Forall (entry_ok h SideSell) (ob_asks ob);
  bi_nodup : NoDup (entry_id h <$> resting ob);
  bi_index : ob_index ob = list_to_set (entry_id h <$> resting ob);
  bi_uncrossed : ∀ b a, b ∈ ob_bids ob → a ∈ ob_asks ob → entry_price h b < entry_price h a;
}.

Lemma entry_ok_lookup h sd e : entry_ok h sd e → is_Some (h !! oe_order e).
Proof. intros (o & Ho & _). by exists o. Qed.

(** Prices and IDs of entries survive the evolution of the heap. *)
Lemma entry_price_evolves h h' e :
  heap_evolves h h' → is_Some (h !! oe_order e) → entry_price h' e = entry_price h e.
Proof.
  intros Hev [o Ho]. destruct (Hev _ _ Ho) as (o' & Ho' & _ & _ & _ & _ & Hp & _).
  unfold entry_price. by rewrite (deref_Some _ _ _ Ho), (deref_Some _ _ _ Ho').
Qed.

Lemma entry_id_evolves h h' e :
  heap_evolves h h' → is_Some (h !! oe_order e) → entry_id h' e = entry_id h e.
Proof.
  intros Hev [o Ho]. destruct (Hev _ _ Ho) as (o' & Ho' & Hid & _).
  unfold entry_id. by rewrite (deref_Some _ _ _ Ho), (deref_Some _ _ _ Ho').
Qed.

Lemma entry_ids_evolve h h' l :
  heap_evolves h h' → Forall (λ e, is_Some (h !! oe_order e)) l →
  entry_id h' <$> l = entry_id h <$> l.
Proof.
  intros Hev Hl. apply list_fmap_ext. intros i e He.
  apply entry_id_evolves; [done|]. rewrite Forall_forall in Hl. apply Hl.
  by eapply list_elem_of_lookup_2.
Qed.

(** Sortedness only looks at the keys of the listed elements. *)
Lemma key_sorted_ext {A} (k1 k2 : A → Z) l :
  Forall (λ x, k1 x = k2 x) l → key_sorted k1 l → key_sorted k2 l.
Proof.
  unfold key_sorted. induction l as [|x l IH]; intros Hk Hs; [constructor|].
  apply Forall_cons in Hk as [Hx Hk]. apply StronglySorted_cons in Hs as [Hall Hs].
  apply StronglySorted_cons. split; [|auto]. rewrite Forall_forall in *.
  intros y Hy. rewrite <- Hx, <- Hk by done. auto.
Qed.

Lemma resting_allocated h ob :
  book_inv h ob → Forall (λ e, is_Some (h !! oe_order e)) (resting ob).
Proof.
  intros [_ _ Hb Ha _ _ _]. apply Forall_app. split.
  - eapply Forall_impl; [exact Hb|]. intros e. apply entry_ok_lookup.
  - eapply Forall_impl; [exact Ha|]. intros e. apply entry_ok_lookup.
Qed.

(** Two entries with the same pointer have the same ID. *)
Lemma resting_refs_nodup h ob : book_inv h ob → NoDup (oe_order <$> resting ob).
Proof.
  intros H. pose proof (bi_nodup _ _ H) as Hnd.
  assert (entry_id h <$> resting ob = (λ r, Order.ID (deref h r)) <$> (oe_order <$> resting ob)) as E
    by (rewrite <- list_fmap_compose; done).
  rewrite E in Hnd. by apply NoDup_fmap_1 in Hnd.
Qed.

Lemma book_inv_empty h code : book_inv h (newOrderBook code).
Proof. split; simpl; try (constructor || done). intros b a Hb. set_solver. Qed.

(** ** Consuming the best entries of a book

    Matching only ever drops entries from the front of a side or reduces the
    first one: both sides are suffixes of what they were, as far as the
    orders they point to are concerned. *)
Definition refs (l : list orderEntry) : list ref := oe_order <$> l.

Lemma entry_id_refs h l : entry_id h <$> l = (λ r, Order.ID (deref h r)) <$> refs l.
Proof. unfold refs. rewrite <- list_fmap_compose. done. Qed.

Lemma entry_ok_frame h h' sd e :
  entry_ok h sd e → h' !! oe_order e = h !! oe_order e → entry_ok h' sd e.
Proof. intros (o & Ho & ?) E. exists o. by rewrite E. Qed.

Lemma price_evolves h h' r :
  heap_evolves h h' → is_Some (h !! r) → Order.Price (deref h' r) = Order.Price (deref h r).
Proof. intros Hev Hr. apply (entry_price_evolves h h' (mkEntry r 0) Hev Hr). Qed.

Lemma id_evolves h h' r :
  heap_evolves h h' → is_Some (h !! r) → Order.ID (deref h' r) = Order.ID (deref h r).
Proof. intros Hev Hr. apply (entry_id_evolves h h' (mkEntry r 0) Hev Hr). Qed.

Lemma entry_ref_elem l e : e ∈ l → oe_order e ∈ refs l.
Proof. intros. apply list_elem_of_fmap. by exists e. Qed.

Lemma side_shrink h h' (neg : bool) l l' :
  let key := λ e, if neg then - entry_price h e else entry_price h e in
  let key' := λ e, if neg then - entry_price h' e else entry_price h' e in
  heap_evolves h h' → Forall (λ e, is_Some (h !! oe_order e)) l →
  refs l' `suffix_of` refs l → key_sorted key l → key_sorted key' l'.
Proof.
  intros key key' Hev Hl Hsuf Hs.
  set (k := λ r, if neg then - Order.Price (deref h r) else Order.Price (deref h r)).
  set (k' := λ r, if neg then - Order.Price (deref h' r) else Order.Price (deref h' r)).
  apply (key_sorted_fmap oe_order k'). apply (key_sorted_fmap oe_order k) in Hs.
  eapply key_sorted_ext; [|by eapply key_sorted_suffix].
  apply Forall_forall. intros r Hr. apply (elem_of_suffix _ (refs l)) in Hr; [|exact Hsuf].
  apply list_elem_of_fmap in Hr as (e & -> & He).
  rewrite Forall_forall in Hl. unfold k, k'. by rewrite (price_evolves h h') by auto.
Qed.

Lemma book_inv_shrink h h' ob bids asks index :
  book_inv h ob → heap_evolves h h' →
  refs bids `suffix_of` refs (ob_bids ob) → refs asks `suffix_of` refs (ob_asks ob) →
  Forall (entry_ok h' SideBuy) bids → Forall (entry_ok h' SideSell) asks →
  index = list_to_set (entry_id h' <$> bids ++ asks) →
  book_inv h' (mkBook (ob_stockCode ob) bids asks index).
Proof.
  intros Hinv Hev Hsb Hsa Hb Ha Hix.
  pose proof (resting_allocated _ _ Hinv) as Hal.
  pose proof (proj1 (Forall_app _ _ _) Hal) as [Halb Hala].
  assert (∀ r, r ∈ refs (resting ob) → is_Some (h !! r)) as Hr.
  { intros r (e & -> & He)%list_elem_of_fmap. rewrite Forall_forall in Hal. auto. }
  assert (∀ r, r ∈ refs bids → r ∈ refs (ob_bids ob)) as Hrb
    by (intros r ?; by eapply elem_of_suffix).
  assert (∀ r, r ∈ refs asks → r ∈ refs (ob_asks ob)) as Hra
    by (intros r ?; by eapply elem_of_suffix).
  split; simpl; try done.
  - by apply (side_shrink h h' true (ob_bids ob)); [..|apply Hinv].
  - by apply (side_shrink h h' false (ob_asks ob)); [..|apply Hinv].
  - unfold resting. simpl. rewrite entry_id_refs. unfold refs. rewrite fmap_app.
    assert (∀ r, r ∈ refs bids ++ refs asks → is_Some (h !! r)) as Hr'.
    { intros r Hin. apply Hr. unfold refs, resting. rewrite fmap_app, elem_of_app.
      apply elem_of_app in Hin as [?|?]; [left|right]; auto. }
    erewrite list_fmap_ext; cycle 1.
    { intros i r Hi. apply (id_evolves h h'); [done|]. apply Hr'.
      by eapply list_elem_of_lookup_2. }
    destruct Hsb as [kb Hsb], Hsa as [ka Hsa].
    pose proof (bi_nodup _ _ Hinv) as Hnd. rewrite entry_id_refs in Hnd.
    unfold refs, resting in *. rewrite fmap_app, Hsb, Hsa in Hnd.
    rewrite !fmap_app in Hnd. rewrite fmap_app.
    apply NoDup_app in Hnd as (Hb1 & Hb2 & Hb3).
    apply NoDup_app in Hb1 as (_ & _ & Hb1). apply NoDup_app in Hb3 as (_ & _ & Ha1).
    apply NoDup_app. split_and!; [done| |done].
    intros id Hid1 Hid2. apply (Hb2 id); rewrite elem_of_app; auto.
  - intros b a Hbe Hae.
    apply entry_ref_elem, Hrb, list_elem_of_fmap in Hbe as (b0 & Eb & Hb0).
    apply entry_ref_elem, Hra, list_elem_of_fmap in Hae as (a0 & Ea & Ha0).
    pose proof (bi_uncrossed _ _ Hinv b0 a0 Hb0 Ha0) as Hun.
    rewrite Forall_forall in Halb, Hala.
    unfold entry_price in *. rewrite Eb, Ea, !(price_evolves h h') by auto. done.
Qed.

(** ** Insertion *)

Lemma bid_less_key h x y : bid_less h x y = (- entry_price h x <? - entry_price h y).
Proof. unfold bid_less. rewrite Z.gtb_ltb. apply eq_true_iff_eq. rewrite !Z.ltb_lt. lia. Qed.

Lemma ask_less_key h x y : ask_less h x y = (entry_price h x <? entry_price h y).
Proof. done. Qed.

(** A new bid goes behind every bid of at least its price, in front of the
    cheaper ones. *)
Lemma addOrder_bid h r ob :
  let o := deref h r in
  Order.ID o ∉ ob_index ob → Order.Sd o = SideBuy →
  key_sorted (λ e, - entry_price h e) (ob_bids ob) →
  ∃ before after, ob_bids ob = before ++ after ∧
    addOrder h r ob =
      mkBook (ob_stockCode ob) (before ++ mkEntry r (Order.RemainingQuantity o) :: after)
        (ob_asks ob) ({[Order.ID o]} ∪ ob_index ob) ∧
    Forall (λ e, Order.Price o <= entry_price h e) before ∧
    Forall (λ e, entry_price h e < Order.Price o) after.
Proof.
  intros o Hid Hsd Hs. subst o. unfold addOrder.
  rewrite bool_decide_false, Hsd by done. simpl.
  rewrite (sort_stable_append _ _ (bid_less_key h)) by done.
  destruct (insert_stable_split _ _ (bid_less_key h)
              (mkEntry r (Order.RemainingQuantity (deref h r))) _ Hs)
    as (l1 & l2 & E & -> & H1 & H2).
  exists l1, l2. split_and!; [done|done| |].
  - eapply Forall_impl; [exact H1|]. intros e. unfold entry_price at 2. simpl. lia.
  - eapply Forall_impl; [exact H2|]. intros e. unfold entry_price at 1. simpl. lia.
Qed.

Lemma addOrder_ask h r ob :
  let o := deref h r in
  Order.ID o ∉ ob_index ob → Order.Sd o = SideSell →
  key_sorted (entry_price h) (ob_asks ob) →
  ∃ before after, ob_asks ob = before ++ after ∧
    addOrder h r ob =
      mkBook (ob_stockCode ob) (ob_bids ob)
        (before ++ mkEntry r (Order.RemainingQuantity o) :: after)
        ({[Order.ID o]} ∪ ob_index ob) ∧
    Forall (λ e, entry_price h e <= Order.Price o) before ∧
    Forall (λ e, Order.Price o < entry_price h e) after.
Proof.
  intros o Hid Hsd Hs. subst o. unfold addOrder.
  rewrite bool_decide_false, Hsd by done. simpl.
  rewrite (sort_stable_append _ _ (ask_less_key h)) by done.
  destruct (insert_stable_split _ _ (ask_less_key h)
              (mkEntry r (Order.RemainingQuantity (deref h r))) _ Hs)
    as (l1 & l2 & E & -> & H1 & H2).
  exists l1, l2. split_and!; [done|done|exact H1|exact H2].
Qed.

Lemma addOrder_duplicate h r ob :
  Order.ID (deref h r) ∈ ob_index ob → addOrder h r ob = ob.
Proof. intros. unfold addOrder. by rewrite bool_decide_true. Qed.

Lemma key_sorted_insert {A} (key : A → Z) l1 l2 x :
  key_sorted key (l1 ++ l2) → Forall (λ y, key y <= key x) l1 → Forall (λ y, key x < key y) l2 →
  key_sorted key (l1 ++ x :: l2).
Proof.
  unfold key_sorted. rewrite !StronglySorted_app. intros (Hc & Hs1 & Hs2) H1 H2.
  rewrite Forall_forall in H1. split_and!; [|done|].
  - intros a b Ha [->|Hb]%elem_of_cons; [by apply H1|auto].
  - apply StronglySorted_cons. split; [|done].
    eapply Forall_impl; [exact H2|]. simpl. lia.
Qed.

(** The part of the invariant that insertion in the middle of a side
    re-establishes for IDs and the index. *)
Lemma ids_insert h (l1 l2 l l' : list orderEntry) x (index : gset string) :
  l = l1 ++ l2 → l' ≡ₚ x :: l →
  entry_id h x ∉ index → NoDup (entry_id h <$> l) → index = list_to_set (entry_id h <$> l) →
  NoDup (entry_id h <$> l') ∧ {[entry_id h x]} ∪ index = list_to_set (entry_id h <$> l').
Proof.
  intros -> Hp Hx Hnd Hix. split.
  - rewrite Hp, fmap_cons. apply NoDup_cons. split; [|done].
    rewrite Hix in Hx. by rewrite elem_of_list_to_set in Hx.
  - rewrite Hix. apply set_eq. intros id. rewrite elem_of_union, elem_of_singleton.
    rewrite !elem_of_list_to_set. setoid_rewrite Hp. rewrite fmap_cons, elem_of_cons. done.
Qed.

Lemma order_wf_side o : order_wf o → Order.Sd o = SideBuy ∨ Order.Sd o = SideSell.
Proof.
  intros Hwf. pose proof (owf_side _ Hwf) as Hv. unfold Side_IsValid in Hv.
  by apply orb_prop in Hv as [H%String.eqb_eq|H%String.eqb_eq]; [left|right].
Qed.

Lemma addOrder_inv h r o ob :
  book_inv h ob → h !! r = Some o → order_wf o → 0 < Order.RemainingQuantity o →
  Order.ID o ∉ ob_index ob →
  (Order.Sd o = SideBuy → ∀ a, a ∈ ob_asks ob → Order.Price o < entry_price h a) →
  (Order.Sd o = SideSell → ∀ b, b ∈ ob_bids ob → entry_price h b < Order.Price o) →
  book_inv h (addOrder h r ob).
Proof.
  intros Hinv Hr Hwf Hrem Hid Hbuy Hsell.
  pose proof (deref_Some _ _ _ Hr) as Hd.
  assert (entry_ok h (Order.Sd o) (mkEntry r (Order.RemainingQuantity o))) as Hok
    by (exists o; simpl; split_and!; auto; lia).
  assert (entry_price h (mkEntry r (Order.RemainingQuantity o)) = Order.Price o) as Hpr
    by (unfold entry_price; simpl; by rewrite Hd).
  assert (entry_id h (mkEntry r (Order.RemainingQuantity o)) = Order.ID o) as Hei
    by (unfold entry_id; simpl; by rewrite Hd).
  destruct Hinv as [Hbs Has Hbo Hao Hnd Hix Hun].
  destruct (order_wf_side o Hwf) as [Hsd|Hsd].
  - destruct (addOrder_bid h r ob) as (l1 & l2 & E & -> & H1 & H2); rewrite ?Hd; auto.
    rewrite Hd in *. set (x := mkEntry r (Order.RemainingQuantity o)) in *.
    destruct (ids_insert h (ob_bids ob) (ob_asks ob) (resting ob)
                ((l1 ++ x :: l2) ++ ob_asks ob) x (ob_index ob)) as [Hnd' Hix'];
      [done| |by rewrite Hei|done|done|].
    { unfold resting. rewrite E, <- !app_assoc. simpl. symmetry. apply Permutation_middle. }
    split; simpl; try done.
    + apply key_sorted_insert; [by rewrite <- E| |]; rewrite Hpr.
      * eapply Forall_impl; [exact H1|]. simpl. lia.
      * eapply Forall_impl; [exact H2|]. simpl. lia.
    + rewrite E in Hbo. apply Forall_app in Hbo as [? ?].
      rewrite Forall_app, Forall_cons. rewrite Hsd in Hok. auto.
    + by rewrite <- Hei.
    + intros b a Hb Ha. rewrite elem_of_app, elem_of_cons in Hb.
      destruct Hb as [Hb|[->|Hb]]; [|rewrite Hpr; auto|];
        (apply Hun; [|done]); rewrite E, elem_of_app; auto.
  - destruct (addOrder_ask h r ob) as (l1 & l2 & E & -> & H1 & H2); rewrite ?Hd; auto.
    rewrite Hd in *. set (x := mkEntry r (Order.RemainingQuantity o)) in *.
    destruct (ids_insert h (ob_bids ob) (ob_asks ob) (resting ob)
                (ob_bids ob ++ l1 ++ x :: l2) x (ob_index ob)) as [Hnd' Hix'];
      [done| |by rewrite Hei|done|done|].
    { unfold resting. rewrite E, !app_assoc. symmetry. apply Permutation_middle. }
    split; simpl; try done.
    + apply key_sorted_insert; [by rewrite <- E| |]; rewrite Hpr; done.
    + rewrite E in Hao. apply Forall_app in Hao as [? ?].
      rewrite Forall_app, Forall_cons. rewrite Hsd in Hok. auto.
    + by rewrite <- Hei.
    + intros b a Hb Ha. rewrite elem_of_app, elem_of_cons in Ha.
      destruct Ha as [Ha|[->|Ha]]; [|rewrite Hpr; auto|];
        (apply Hun; [done|]); rewrite E, elem_of_app; auto.
Qed.

(** ** Removal *)

Lemma removeEntry_absent h l id : id ∉ entry_id h <$> l → removeEntry h l id = l.
Proof.
  induction l as [|e l IH]; [done|].
  rewrite fmap_cons, not_elem_of_cons. intros [Hne Hl]. simpl.
  rewrite (proj2 (String.eqb_neq _ _)) by congruence. by rewrite IH.
Qed.

Lemma removeEntry_head h e l : removeEntry h (e :: l) (entry_id h e) = l.
Proof. simpl. by rewrite String.eqb_refl. Qed.

(** Removing by ID keeps exactly the entries with another ID, in order. *)
Lemma removeEntry_filter h l id :
  NoDup (entry_id h <$> l) → removeEntry h l id = filter (λ e, entry_id h e ≠ id) l.
Proof.
  induction l as [|e l IH]; [done|]. rewrite fmap_cons, NoDup_cons. intros [Hni Hnd].
  rewrite filter_cons. simpl. destruct (String.eqb_spec (entry_id h e) id) as [<-|Hne].
  - rewrite decide_False by tauto.
    symmetry. apply filter_all. apply Forall_forall. intros x Hx Heq. apply Hni.
    apply list_elem_of_fmap. eauto.
  - rewrite decide_True by done. by rewrite IH.
Qed.

(** ** Depth: the aggregated levels against a reference definition *)

(** The prices of a sorted side, best first, each once. *)
Definition price_step (ps : list Z) (p : Z) : list Z :=
  if decide (last ps = Some p) then ps else ps ++ [p].

Definition distinct_prices (h : heap) (es : list orderEntry) : list Z :=
  foldl price_step [] (entry_price h <$> es).

(** Everything resting at one price. *)
Definition level_at (h : heap) (es : list orderEntry) (p : Z) : PriceLevel.t :=
  let at_p := filter (λ e, entry_price h e = p) es in
  PriceLevel.mk p (sum_by oe_remaining at_p) (Z.of_nat (length at_p)).

(** The [n] best levels (all of them when [n <= 0]). *)
Definition depth_spec (h : heap) (es : list orderEntry) (n : Z) : list PriceLevel.t :=
  level_at h es <$>
    (if n >? 0 then take (Z.to_nat n) (distinct_prices h es) else distinct_prices h es).

Lemma distinct_snoc h pre e :
  distinct_prices h (pre ++ [e]) = price_step (distinct_prices h pre) (entry_price h e).
Proof. unfold distinct_prices. by rewrite fmap_app, foldl_app. Qed.

Lemma distinct_elem h pre p : p ∈ distinct_prices h pre ↔ p ∈ entry_price h <$> pre.
Proof.
  induction pre as [|e pre IH] using rev_ind; [done|].
  rewrite distinct_snoc, fmap_snoc, elem_of_snoc, <- IH. unfold price_step.
  case_decide as Hl; [|by rewrite elem_of_snoc].
  apply last_Some_elem_of in Hl. split; [auto|]. by intros [?| ->].
Qed.

Lemma distinct_last h pre : last (distinct_prices h pre) = last (entry_price h <$> pre).
Proof.
  induction pre as [|e pre IH] using rev_ind; [done|].
  rewrite distinct_snoc, fmap_snoc, last_snoc. unfold price_step.
  case_decide as Hl; [done|]. by rewrite last_snoc.
Qed.

Section Depth.
Variable h : heap.
Variable key : orderEntry → Z.
Hypothesis key_price : ∀ x y, key x = key y ↔ entry_price h x = entry_price h y.

Lemma seen_price_is_last pre e :
  key_sorted key (pre ++ [e]) → entry_price h e ∈ entry_price h <$> pre →
  last (entry_price h <$> pre) = Some (entry_price h e).
Proof.
  intros Hs (y & Hp & Hy)%list_elem_of_fmap.
  apply StronglySorted_app in Hs as (Hc & Hs & _).
  destruct pre as [|z pre _] using rev_ind; [by apply elem_of_nil in Hy|].
  rewrite fmap_snoc, last_snoc. f_equal. apply key_price.
  apply StronglySorted_app in Hs as (Hc' & _ & _).
  assert (key z <= key e) by (apply Hc; [apply elem_of_snoc; auto|apply list_elem_of_here]).
  assert (key e = key y) as Hey by (by apply key_price).
  apply elem_of_snoc in Hy as [Hy| ->]; [|done].
  assert (key y <= key z) by (apply Hc'; [done|apply list_elem_of_here]). lia.
Qed.

Lemma distinct_nodup pre : key_sorted key pre → NoDup (distinct_prices h pre).
Proof.
  induction pre as [|e pre IH] using rev_ind; [constructor|].
  intros Hs. rewrite distinct_snoc. unfold price_step.
  assert (key_sorted key pre) as Hs' by (by apply StronglySorted_app in Hs as (_ & ? & _)).
  case_decide as Hl; [auto|]. apply NoDup_app. split_and!; [auto| |apply NoDup_singleton].
  intros p Hp Hp'%list_elem_of_singleton. subst p. apply Hl. rewrite distinct_last.
  apply seen_price_is_last; [done|]. by apply distinct_elem.
Qed.

Lemma distinct_app pre es : ∃ qs, distinct_prices h (pre ++ es) = distinct_prices h pre ++ qs.
Proof.
  revert pre. induction es as [|e es IH]; intros pre.
  { exists []. by rewrite !app_nil_r. }
  destruct (IH (pre ++ [e])) as [qs Hq]. rewrite <- app_assoc in Hq. simpl in Hq.
  rewrite Hq, distinct_snoc. unfold price_step.
  case_decide; [eauto|]. rewrite <- app_assoc. eauto.
Qed.

(** With room for them, all the levels of a prefix are in its depth. *)
Definition has_room (n : Z) (pre : list orderEntry) : Prop :=
  n <= 0 ∨ Z.of_nat (length (distinct_prices h pre)) <= n.

Lemma depth_spec_room n pre :
  has_room n pre → depth_spec h pre n = level_at h pre <$> distinct_prices h pre.
Proof.
  intros Hr. unfold depth_spec. destruct (Z.gtb_spec n 0) as [Hn|Hn]; [|done].
  destruct Hr as [Hr|Hr]; [lia|]. by rewrite take_ge by lia.
Qed.

Lemma level_at_other pre es p :
  Forall (λ e, entry_price h e ≠ p) es → level_at h (pre ++ es) p = level_at h pre p.
Proof.
  intros Hes. unfold level_at. rewrite filter_app, (filter_none _ es), app_nil_r; done.
Qed.
(** One more entry at the price of the last level. *)
Lemma depth_bump pre e :
  key_sorted key pre → Forall (λ x, 0 < oe_remaining x) (pre ++ [e]) →
  sum_by oe_remaining (pre ++ [e]) <= max_i64 → Z.of_nat (length (pre ++ [e])) <= max_i64 →
  last (distinct_prices h pre) = Some (entry_price h e) →
  bump_last (oe_remaining e) (level_at h pre <$> distinct_prices h pre) =
  level_at h (pre ++ [e]) <$> distinct_prices h (pre ++ [e]).
Proof.
  intros Hs Hpos Hsum Hlen Hl. rewrite distinct_snoc. unfold price_step.
  rewrite decide_True by done.
  pose proof (distinct_nodup _ Hs) as Hnd.
  apply last_Some in Hl as [qs Hq]. rewrite Hq in *.
  rewrite !fmap_snoc. unfold bump_last. rewrite last_snoc, length_app, length_fmap.
  cbn [length PriceLevel.Price PriceLevel.Quantity PriceLevel.Count level_at].
  replace (pred (length qs + 1)) with (length (level_at h pre <$> qs) + 0)%nat
    by (rewrite length_fmap; lia).
  rewrite insert_app_r. simpl. f_equal.
  - apply list_fmap_ext. intros i q Hi. symmetry. apply level_at_other.
    apply Forall_singleton. intros <-. apply NoDup_app in Hnd as (_ & Hnd & _).
    apply (Hnd (entry_price h e)); [by eapply list_elem_of_lookup_2|apply list_elem_of_here].
  - f_equal. unfold level_at. rewrite filter_app, filter_cons_True, filter_nil by done.
    rewrite sum_by_app, length_app, sum_by_cons, sum_by_nil. simpl.
    rewrite sum_by_app, sum_by_cons, sum_by_nil in Hsum. rewrite length_app in Hlen. simpl in Hsum, Hlen.
    apply Forall_app in Hpos as [Hpos He]. apply Forall_cons in He as [He _].
    assert (Forall (λ x, 0 <= oe_remaining x) pre) as Hnn
      by (eapply Forall_impl; [exact Hpos|]; simpl; lia).
    pose proof (sum_by_filter_le oe_remaining (λ x, entry_price h x = entry_price h e) pre Hnn).
    pose proof (length_filter (λ x, entry_price h x = entry_price h e) pre).
    assert (0 <= sum_by oe_remaining (filter (λ x, entry_price h x = entry_price h e) pre))
      by (apply sum_by_nonneg, Forall_filter_sub, Hnn).
    rewrite !i64_add_id by i64_lia. f_equal; lia.
Qed.

(** The first entry at a new price. *)
Lemma depth_push pre e :
  entry_price h e ∉ entry_price h <$> pre →
  (level_at h pre <$> distinct_prices h pre) ++ [PriceLevel.mk (entry_price h e) (oe_remaining e) 1] =
  level_at h (pre ++ [e]) <$> distinct_prices h (pre ++ [e]).
Proof.
  intros Hnew. rewrite distinct_snoc. unfold price_step.
  rewrite decide_False; cycle 1.
  { intros Hl%last_Some_elem_of. by apply distinct_elem in Hl. }
  rewrite fmap_snoc. f_equal.
  - apply list_fmap_ext. intros i q Hi. symmetry. apply level_at_other, Forall_singleton.
    intros <-. apply Hnew, distinct_elem. by eapply list_elem_of_lookup_2.
  - assert (Forall (λ x, entry_price h x ≠ entry_price h e) pre) as Hother.
    { apply Forall_forall. intros x Hx Heq. apply Hnew, list_elem_of_fmap. by exists x. }
    unfold level_at. rewrite filter_app, filter_none, filter_cons_True, filter_nil by done.
    simpl. by rewrite sum_by_cons, sum_by_nil, Z.add_0_r.
Qed.

(** Once the cap is reached, the remaining entries belong to no level. *)
Lemma depth_full pre es n :
  0 < n → Z.of_nat (length (distinct_prices h pre)) = n →
  Forall (λ x, entry_price h x ∉ entry_price h <$> pre) es →
  depth_spec h (pre ++ es) n = level_at h pre <$> distinct_prices h pre.
Proof.
  intros Hn Hlen Hes. unfold depth_spec. rewrite (proj2 (Z.gtb_lt _ _)) by lia.
  destruct (distinct_app pre es) as [qs ->]. rewrite take_app_length' by lia.
  apply list_fmap_ext. intros i q Hi. apply level_at_other.
  eapply Forall_impl; [exact Hes|]. simpl. intros x Hx <-.
  apply Hx, distinct_elem. by eapply list_elem_of_lookup_2.
Qed.

Lemma new_price_rest pre e es :
  key_sorted key (pre ++ e :: es) → entry_price h e ∉ entry_price h <$> pre →
  Forall (λ x, entry_price h x ∉ entry_price h <$> pre) (e :: es).
Proof.
  intros Hs Hnew. apply StronglySorted_app in Hs as (Hc & _ & Hs).
  apply StronglySorted_cons in Hs as [He _]. apply Forall_cons. split; [done|].
  rewrite Forall_forall in *. intros x Hx (y & Hp & Hy)%list_elem_of_fmap.
  specialize (He x Hx). simpl in He.
  assert (key y <= key e) by (apply Hc; [done|apply list_elem_of_here]).
  assert (key x = key y) by (by apply key_price).
  apply Hnew, list_elem_of_fmap. exists y. split; [|done].
  apply key_price. lia.
Qed.

Lemma aggregate_spec n es : ∀ pre,
  key_sorted key (pre ++ es) → Forall (λ x, 0 < oe_remaining x) (pre ++ es) →
  sum_by oe_remaining (pre ++ es) <= max_i64 → Z.of_nat (length (pre ++ es)) <= max_i64 →
  has_room n pre →
  aggregate h es n (level_at h pre <$> distinct_prices h pre) = depth_spec h (pre ++ es) n.
Proof.
  induction es as [|e es IH]; intros pre Hs Hpos Hsum Hlen Hroom.
  { rewrite app_nil_r. simpl. by rewrite depth_spec_room. }
  assert (pre ++ e :: es = (pre ++ [e]) ++ es) as Happ by (by rewrite <- app_assoc).
  assert (0 < oe_remaining e) as Hrem.
  { apply Forall_app in Hpos as [_ Hpos]. by apply Forall_cons in Hpos as [? _]. }
  assert (key_sorted key (pre ++ [e])) as Hs1
    by (rewrite Happ in Hs; by apply StronglySorted_app in Hs as (_ & ? & _)).
  simpl. rewrite (proj2 (Z.leb_gt _ _)) by done. rewrite fmap_last, distinct_last.
  destruct (decide (entry_price h e ∈ entry_price h <$> pre)) as [Hin|Hnew].
  - pose proof (seen_price_is_last pre e Hs1 Hin) as Hl. rewrite Hl. simpl.
    rewrite Z.eqb_refl. rewrite Happ in *. rewrite <- distinct_last in Hl.
    rewrite Forall_app in Hpos. destruct Hpos as [Hpos1 Hpos2].
    assert (0 <= sum_by oe_remaining es)
      by (apply sum_by_nonneg; eapply Forall_impl; [exact Hpos2|]; simpl; lia).
    rewrite sum_by_app in Hsum. rewrite length_app in Hlen.
    rewrite depth_bump; try done; try lia; [|by apply StronglySorted_app in Hs1 as (_ & ? & _)].
    apply IH; try done; [by apply Forall_app|by rewrite sum_by_app|by rewrite length_app|].
    unfold has_room. rewrite distinct_snoc. unfold price_step. by rewrite decide_True.
  - assert (match last (level_at h pre <$> distinct_prices h pre) with
            | Some lv => PriceLevel.Price lv =? entry_price h e | None => false end = false) as Ht.
    { rewrite fmap_last, distinct_last. destruct (last (entry_price h <$> pre)) as [p|] eqn:Hl; [|done].
      simpl. apply Z.eqb_neq. intros ->. apply Hnew. by apply last_Some_elem_of. }
    rewrite fmap_last, distinct_last in Ht. rewrite Ht, length_fmap.
    destruct ((n >? 0) && (Z.of_nat (length (distinct_prices h pre)) >=? n)) eqn:Hfull.
    + reflect_bools. symmetry. apply depth_full; [lia| |by apply new_price_rest].
      destruct Hroom; lia.
    + rewrite depth_push by done. rewrite Happ in *. apply IH; try done.
      unfold has_room in *. rewrite distinct_snoc. unfold price_step.
      case_decide; [done|]. rewrite length_app. simpl.
      apply andb_false_iff in Hfull as [?|?]; reflect_bools; lia.
Qed.
End Depth.

(** Both sides of a well-formed book. *)
Lemma aggregateLevels_sorted h key es n :
  (∀ x y, key x = key y ↔ entry_price h x = entry_price h y) →
  key_sorted key es → Forall (λ x, 0 < oe_remaining x) es →
  sum_by oe_remaining es <= max_i64 → Z.of_nat (length es) <= max_i64 →
  aggregateLevels h es n = depth_spec h es n.
Proof.
  intros Hk Hs Hpos Hsum Hlen.
  apply (aggregate_spec h key Hk n es []); try done.
  unfold has_room. simpl. lia.
Qed.
