(* ===== verification/MatcherLemmas.v ===== *)
(** * Lemmas about one trade and one turn of the matching loops

    [executeTrade] is described by its effect on every part of the shared
    state; [matchBuy] and [matchSell] are shown to be one loop over two views
    of the book, so that each fact about them is proved once. *)
From S2P Require Import Prelude GoLib Entity Repository Book BookProofs Matcher.

(** Publishing a sequence of events; [None] is a panic on the way. *)
Fixpoint publish_list {B} `{Bus B} (evs : list Event.t) (b : B) : option B :=
  match evs with
  | [] => Some b
  | e :: evs => match bus_Publish e b with Some b' => publish_list evs b' | None => None end
  end.

Lemma publish_list_app {B} `{Bus B} l1 l2 (b : B) :
  publish_list (l1 ++ l2) b =
  match publish_list l1 b with Some b' => publish_list l2 b' | None => None end.
Proof. revert b. induction l1 as [|e l1 IH]; intros b; simpl; [done|]. by destruct (bus_Publish e b). Qed.

Lemma publish_list_open {B} `{BusLaws B} evs (b : B) :
  bus_open b → ∃ b', publish_list evs b = Some b' ∧ bus_open b'.
Proof.
  revert b. induction evs as [|e evs IH]; intros b Hb; simpl; [eauto|].
  destruct (bus_open_publish e b Hb) as (b' & -> & Hb'). auto.
Qed.

Section Lemmas.
Context {D : Deps}.
Variable stockCode : string.

(** ** The effect of one trade *)

(** The trade [executeTrade] builds from the state it starts in. *)
Definition trade_of (w : world) (buy sell : ref) (qty price : Z) : Trade.t :=
  let b := deref (w_heap w) buy in
  let s := deref (w_heap w) sell in
  Trade.mk (uuid_NewString (w_uuids w)) stockCode (Order.ID b) (Order.ID s) price qty
    (Order.UserID b) (Order.UserID s) (time_Now (w_ticks w)).

Definition fill_both (t1 t2 : Time) (buy sell : ref) (qty : Z) (h : heap) : heap :=
  let h1 := <[buy := Order.Fill t1 qty (deref h buy)]> h in
  <[sell := Order.Fill t2 qty (deref h1 sell)]> h1.

(** The events of a trade: the ticker's when it could be updated, the
    trade, and an update of each of the two orders. *)
Definition trade_events (ticker : error + Ticker.t) (tr : Trade.t) (buy sell : ref) : list Event.t :=
  match ticker with
  | inl _ => []
  | inr tk => [Event.mk TickerUpdated stockCode EmptyString (PTicker tk) (Ticker.UpdatedAt tk)]
  end ++
  [Event.mk TradeExecuted stockCode EmptyString (PTrade tr) (Trade.ExecutedAt tr);
   Event.mk OrderUpdated stockCode (Trade.BuyerUserID tr) (POrder buy) (Trade.ExecutedAt tr);
   Event.mk OrderUpdated stockCode (Trade.SellerUserID tr) (POrder sell) (Trade.ExecutedAt tr)].

Definition save_result (w : world) (buy sell : ref) (qty price : Z) : option error :=
  snd (tr_Save (trade_of w buy sell qty price) (w_trades w)).

Record trade_done (buy sell : ref) (qty price : Z) (w w' : world) : Prop := {
  td_heap : ∃ t1 t2, w_heap w' = fill_both t1 t2 buy sell qty (w_heap w);
  td_orders : ∃ t1 t2, w_orders w' =
    fst (or_Update t2 (deref (w_heap w') sell)
      (fst (or_Update t1 (deref (w_heap w') buy) (w_orders w))));
  td_market_bus : ∃ t, let res := mr_UpdateTickerFromTrade t stockCode price qty (w_market w) in
    w_market w' = fst res ∧
    publish_list (trade_events (snd res) (trade_of w buy sell qty price) buy sell) (w_bus w)
      = Some (w_bus w');
}.

Record trade_refused (w w' : world) : Prop := {
  tf_heap : w_heap w' = w_heap w;
  tf_orders : w_orders w' = w_orders w;
  tf_market : w_market w' = w_market w;
  tf_bus : w_bus w' = w_bus w;
}.

Record trade_effect (buy sell : ref) (qty price : Z) (w w' : world) : Prop := {
  te_case : match save_result w buy sell qty price with
            | None => trade_done buy sell qty price w w'
            | Some _ => trade_refused w w'
            end;
  te_trades : w_trades w' = fst (tr_Save (trade_of w buy sell qty price) (w_trades w));
  te_next : w_next w' = w_next w;
  te_uuids : w_uuids w' = S (w_uuids w);
}.

Ltac run_monad := unfold mbind, M_bind, mret, M_ret, call_trades, call_orders, call_market; simpl.

Lemma updateTicker_effect price qty (w : world) :
  let res := mr_UpdateTickerFromTrade (time_Now (w_ticks w)) stockCode price qty (w_market w) in
  let evs := match snd res with
             | inl _ => []
             | inr tk => [Event.mk TickerUpdated stockCode EmptyString (PTicker tk)
                            (Ticker.UpdatedAt tk)]
             end in
  match updateTicker stockCode price qty w with
  | NoFuel => False
  | Panic _ _ => publish_list evs (w_bus w) = None
  | Ret _ w' => publish_list evs (w_bus w) = Some (w_bus w') ∧ w_market w' = fst res ∧
      w_heap w' = w_heap w ∧ w_orders w' = w_orders w ∧ w_trades w' = w_trades w ∧
      w_next w' = w_next w ∧ w_uuids w' = w_uuids w
  end.
Proof.
  unfold updateTicker, now. run_monad.
  destruct (mr_UpdateTickerFromTrade _ _ _ _ _) as [r [e|tk]]; simpl; [by split_and!|].
  unfold publish. simpl. by destruct (bus_Publish _ _).
Qed.

Lemma executeTrade_effect buy sell qty price (w : world) :
  match executeTrade stockCode buy sell qty price w with
  | NoFuel => False
  | Panic _ _ => ∃ evs, publish_list evs (w_bus w) = None
  | Ret _ w' => trade_effect buy sell qty price w w'
  end.
Proof.
  unfold executeTrade, newUUID, load, now, save_trade. run_monad.
  fold (trade_of w buy sell qty price).
  destruct (tr_Save (trade_of w buy sell qty price) (w_trades w)) as [tr res] eqn:Hsave.
  destruct res as [err|]; simpl.
  { split; simpl; rewrite ?Hsave; try done. unfold save_result. rewrite Hsave. by split. }
  unfold fill, load, store, modify, now, update_order. run_monad. unfold now. run_monad.
  match goal with |- context [or_Update ?t ?o ?r] => destruct (or_Update t o r) as [r1 e1] eqn:U1 end.
  simpl.
  match goal with |- context [or_Update ?t ?o r1] => destruct (or_Update t o r1) as [r2 e2] eqn:U2 end.
  simpl.
  match goal with |- context [updateTicker stockCode price qty ?w1] =>
    pose proof (updateTicker_effect price qty w1) as Ht;
    destruct (updateTicker stockCode price qty w1) as [[] w2|s2 w2|] end; [| |done].
  2: { eexists. exact Ht. }
  simpl in Ht. destruct Ht as (Hb & Hm & Hh & Ho & Htr & Hn & Hu).
  unfold publish. run_monad.
  set (evs := [Event.mk TradeExecuted stockCode EmptyString
                 (PTrade (trade_of w buy sell qty price)) (time_Now (w_ticks w));
               Event.mk OrderUpdated stockCode (Order.UserID (deref (w_heap w) buy)) (POrder buy)
                 (time_Now (w_ticks w));
               Event.mk OrderUpdated stockCode (Order.UserID (deref (w_heap w) sell)) (POrder sell)
                 (time_Now (w_ticks w))]).
  assert (∀ x, publish_list evs (w_bus w2) = x →
          publish_list (trade_events (mr_UpdateTickerFromTrade
            (time_Now (S (S (S (S (S (w_ticks w))))))) stockCode price qty (w_market w)).2
            (trade_of w buy sell qty price) buy sell) (w_bus w) = x) as Hall.
  { intros x Hx. unfold trade_events. rewrite publish_list_app, Hb. exact Hx. }
  destruct (bus_Publish _ (w_bus w2)) as [b1|] eqn:P1;
    [|eexists; apply Hall; unfold evs; simpl; by rewrite P1]. simpl.
  destruct (bus_Publish _ b1) as [b2|] eqn:P2;
    [|eexists; apply Hall; unfold evs; simpl; by rewrite P1, P2]. simpl.
  destruct (bus_Publish _ b2) as [b3|] eqn:P3;
    [|eexists; apply Hall; unfold evs; simpl; by rewrite P1, P2, P3]. simpl.
  split; simpl; [|by rewrite Htr, Hsave|done|done].
  unfold save_result. rewrite Hsave. split; simpl.
  - rewrite Hh. by repeat eexists.
  - rewrite Ho, Hh. eexists _, _. rewrite U1. simpl. by rewrite U2.
  - eexists. split; [exact Hm|]. apply Hall. unfold evs. simpl. by rewrite P1, P2, P3.
Qed.

Lemma fill_both_id t1 t2 buy sell qty h r :
  Order.ID (deref (fill_both t1 t2 buy sell qty h) r) = Order.ID (deref h r).
Proof.
  unfold fill_both, deref. rewrite !lookup_insert. repeat case_decide; subst; simpl; try done.
  all: rewrite ?lookup_insert; case_decide; subst; done.
Qed.

(** ** One loop over two views of the book *)
Record side_view : Type := mkView {
  sv_side : Side;                              (* the side of the resting orders *)
  sv_buying : bool;                            (* the incoming order is the buyer *)
  sv_list : orderBook → list orderEntry;
  sv_other : orderBook → list orderEntry;
  sv_reduce : Z → orderBook → orderBook;
  sv_stop : Z → Z → bool;                      (* resting price, limit price *)
}.

Definition ask_view : side_view :=
  mkView SideSell true ob_asks ob_bids reduce_ask (λ p limit, p >? limit).
Definition bid_view : side_view :=
  mkView SideBuy false ob_bids ob_asks reduce_bid (λ p limit, p <? limit).

(** Who buys and who sells when [i] is incoming and [r] resting. *)
Definition buyer (sv : side_view) (i r : ref) : ref := if sv_buying sv then i else r.
Definition seller (sv : side_view) (i r : ref) : ref := if sv_buying sv then r else i.
Definition sv_trade (sv : side_view) (i r : ref) : Z → Z → M world () :=
  executeTrade stockCode (buyer sv i r) (seller sv i r).

Definition is_view (sv : side_view) : Prop := sv = ask_view ∨ sv = bid_view.

(** The book after a trade of [qty] against its best entry, the heap
    having gone from [h] to [h']. *)
Definition book_after (sv : side_view) (h h' : heap) (best : orderEntry) (qty : Z)
    (ob : orderBook) : orderBook :=
  if i64_sub (oe_remaining best) qty <=? 0
  then removeOrder h' (entry_id h best) (sv_reduce sv qty ob)
  else sv_reduce sv qty ob.

Definition turn_qty (h : heap) (i : ref) (best : orderEntry) : Z :=
  min64 (Order.RemainingQuantity (deref h i)) (oe_remaining best).

Fixpoint gen_loop (sv : side_view) (fuel : nat) (i : ref) (s : mstate) : res mstate () :=
  match fuel with
  | O => NoFuel
  | S fuel =>
      let h := w_heap (ms_world s) in
      match head (sv_list sv (ms_book s)) with
      | None => Ret () s
      | Some best =>
          if sv_stop sv (entry_price h best) (Order.Price (deref h i)) then Ret () s
          else if Order.RemainingQuantity (deref h i) <=? 0 then Ret () s
          else
            let qty := turn_qty h i best in
            match sv_trade sv i (oe_order best) qty (entry_price h best) (ms_world s) with
            | Ret _ w' =>
                gen_loop sv fuel i
                  (mkMS (book_after sv h (w_heap w') best qty (ms_book s)) w')
            | Panic e w' => Panic e (mkMS (ms_book s) w')
            | NoFuel => NoFuel
            end
      end
  end.

Lemma matchBuy_gen fuel buy s : matchBuy stockCode fuel buy s = gen_loop ask_view fuel buy s.
Proof.
  revert s. induction fuel as [|fuel IH]; intros s; [done|].
  unfold matchBuy; fold (@matchBuy D stockCode). simpl.
  unfold mbind at 1, M_bind at 1, get. cbv beta iota. unfold bestAsk.
  destruct (head (ob_asks (ms_book s))) as [best|]; [|done].
  destruct (_ >? _); [done|]. destruct (_ <=? 0); [done|].
  unfold mbind, M_bind, on_world, on_book, modify, turn_qty.
  unfold sv_trade. simpl.
  destruct (executeTrade _ _ _ _ _ _) as [[] w'|e w'|]; [|done|done].
  unfold book_after. destruct (_ <=? 0); simpl; apply IH.
Qed.

Lemma matchSell_gen fuel sell s : matchSell stockCode fuel sell s = gen_loop bid_view fuel sell s.
Proof.
  revert s. induction fuel as [|fuel IH]; intros s; [done|].
  unfold matchSell; fold (@matchSell D stockCode). simpl.
  unfold mbind at 1, M_bind at 1, get. cbv beta iota. unfold bestBid.
  destruct (head (ob_bids (ms_book s))) as [best|]; [|done].
  destruct (_ <? _); [done|]. destruct (_ <=? 0); [done|].
  unfold mbind, M_bind, on_world, on_book, modify, turn_qty.
  unfold sv_trade. simpl.
  destruct (executeTrade _ _ _ _ _ _) as [[] w'|e w'|]; [|done|done].
  unfold book_after. destruct (_ <=? 0); simpl; apply IH.
Qed.

(** ** Termination: no assumption on the state *)

Lemma i64_le x : 0 <= x → i64 x <= x.
Proof.
  intros Hx. destruct (Z.le_gt_cases x max_i64).
  - rewrite i64_id; i64_lia.
  - pose proof (i64_range x). i64_lia.
Qed.

Lemma view_list_after sv h h' best rest qty ob :
  is_view sv → sv_list sv ob = best :: rest →
  (∀ r, Order.ID (deref h' r) = Order.ID (deref h r)) →
  sv_list sv (book_after sv h h' best qty ob) =
  if i64_sub (oe_remaining best) qty <=? 0 then rest
  else mkEntry (oe_order best) (i64_sub (oe_remaining best) qty) :: rest.
Proof.
  intros Hv Hl Hid. unfold book_after.
  assert (entry_id h' (mkEntry (oe_order best) (i64_sub (oe_remaining best) qty)) =
          entry_id h best) as He by (unfold entry_id; simpl; apply Hid).
  destruct Hv as [-> | ->]; simpl in *;
    (destruct (_ <=? 0); simpl; rewrite Hl; simpl; [|done]);
    by rewrite He, String.eqb_refl.
Qed.

Lemma turn_ids_stable sv i r qty price w w' :
  sv_trade sv i r qty price w = Ret () w' →
  ∀ x, Order.ID (deref (w_heap w') x) = Order.ID (deref (w_heap w) x).
Proof.
  unfold sv_trade. intros Ht x. pose proof (executeTrade_effect (buyer sv i r) (seller sv i r) qty price w) as Heff.
  rewrite Ht in Heff. destruct Heff as [Hc _ _ _].
  destruct (save_result w _ _ qty price); [by rewrite (tf_heap _ _ Hc)|].
  destruct (td_heap _ _ _ _ _ _ Hc) as (t1 & t2 & ->). apply fill_both_id.
Qed.

Lemma turn_fuel_free sv i r qty price w :
  sv_trade sv i r qty price w ≠ NoFuel.
Proof.
  intros Hn. pose proof (executeTrade_effect (buyer sv i r) (seller sv i r) qty price w) as Heff.
  unfold sv_trade in Hn. by rewrite Hn in Heff.
Qed.

(** A turn with quantity left shortens the measure of the consumed side. *)
Lemma turn_decreases h i best rest :
  0 < Order.RemainingQuantity (deref h i) →
  let rem := i64_sub (oe_remaining best) (turn_qty h i best) in
  (side_fuel (if (rem <=? 0)%Z then rest else mkEntry (oe_order best) rem :: rest) <
   side_fuel (best :: rest))%nat.
Proof.
  intros Hi rem. unfold rem, turn_qty, min64, i64_sub.
  destruct (Z.ltb_spec (Order.RemainingQuantity (deref h i)) (oe_remaining best)) as [Hlt|Hge].
  - set (q := Order.RemainingQuantity (deref h i)) in *.
    pose proof (i64_le (oe_remaining best - q)).
    destruct (Z.leb_spec (i64 (oe_remaining best - q)) 0); simpl; lia.
  - replace (oe_remaining best - oe_remaining best) with 0 by lia.
    rewrite i64_id by i64_lia. simpl. lia.
Qed.

Lemma gen_loop_terminates sv fuel i s :
  is_view sv → (side_fuel (sv_list sv (ms_book s)) ≤ fuel)%nat → gen_loop sv fuel i s ≠ NoFuel.
Proof.
  intros Hv. revert s. induction fuel as [|fuel IH]; intros s Hf.
  { destruct (sv_list sv (ms_book s)); simpl in Hf; lia. }
  simpl. destruct (sv_list sv (ms_book s)) as [|best rest] eqn:Hl; [done|]. simpl.
  destruct (sv_stop _ _ _); [done|].
  destruct (Z.leb_spec (Order.RemainingQuantity (deref (w_heap (ms_world s)) i)) 0) as [|Hrem]; [done|].
  destruct (sv_trade _ _ _ _ _ _) as [[] w'|e w'|] eqn:Ht; [|done|by apply turn_fuel_free in Ht].
  apply IH. simpl. rewrite (view_list_after sv _ _ best rest);
    [|done|done|by eapply turn_ids_stable].
  pose proof (turn_decreases _ i best rest Hrem) as Hd. cbv zeta in Hd. lia.
Qed.

(** More fuel than enough changes nothing. *)
Lemma gen_loop_more sv fuel fuel' i s :
  gen_loop sv fuel i s ≠ NoFuel → (fuel ≤ fuel')%nat → gen_loop sv fuel' i s = gen_loop sv fuel i s.
Proof.
  revert fuel' s. induction fuel as [|fuel IH]; intros fuel' s Hn Hle; [done|].
  destruct fuel' as [|fuel']; [lia|]. simpl in *.
  destruct (head _); [|done]. destruct (sv_stop _ _ _); [done|]. destruct (_ <=? 0); [done|].
  destruct (sv_trade _ _ _ _ _ _); [|done|done]. apply IH; [done|lia].
Qed.

(** ** A trade between two well-formed orders *)
Section Open.
Context `{!BusLaws BusT}.

Lemma trade_bus_open buy sell qty price w w' :
bus_open (w_bus w) → trade_effect buy sell qty price w w' → bus_open (w_bus w').
Proof.
intros Hb [Hc _ _ _]. destruct (save_result w buy sell qty price).
- by rewrite (tf_bus _ _ Hc).
- destruct (td_market_bus _ _ _ _ _ _ Hc) as (t & _ & Hp).
edestruct publish_list_open as (b & Hp' & Hb'); [exact Hb|].
rewrite Hp' in Hp. by simplify_eq.
Qed.

Lemma executeTrade_ok buy sell ob os qty price w :
bus_open (w_bus w) → w_heap w !! buy = Some ob → w_heap w !! sell = Some os → buy ≠ sell →
∃ w', executeTrade stockCode buy sell qty price w = Ret () w' ∧
trade_effect buy sell qty price w w' ∧ bus_open (w_bus w') ∧
(∀ r, r ≠ buy → r ≠ sell → w_heap w' !! r = w_heap w !! r) ∧
match save_result w buy sell qty price with
| Some _ => w_heap w' = w_heap w
| None => ∃ t1 t2, w_heap w' !! buy = Some (Order.Fill t1 qty ob) ∧
                   w_heap w' !! sell = Some (Order.Fill t2 qty os)
end.
Proof.
intros Hb Hbuy Hsell Hne. pose proof (executeTrade_effect buy sell qty price w) as Heff.
destruct (executeTrade _ _ _ _ _ _) as [[] w'|e w'|]; [| |done].
2: { destruct Heff as [evs Hp]. edestruct publish_list_open as (b & Hp' & _); [exact Hb|].
   by rewrite Hp' in Hp. }
exists w'. split; [done|]. split; [done|]. split; [by eapply trade_bus_open|].
destruct Heff as [Hc _ _ _]. destruct (save_result w buy sell qty price).
{ rewrite (tf_heap _ _ Hc). done. }
destruct (td_heap _ _ _ _ _ _ Hc) as (t1 & t2 & ->). unfold fill_both. split.
- intros r Hr1 Hr2. by rewrite !lookup_insert_ne.
- exists t1, t2. rewrite lookup_insert_ne, !lookup_insert_eq by done.
unfold deref. rewrite lookup_insert_ne by done. by rewrite Hbuy, Hsell.
Qed.

(** The list left on the consumed side. *)
Definition consume (qty : Z) (best : orderEntry) (rest : list orderEntry) : list orderEntry :=
if i64_sub (oe_remaining best) qty <=? 0 then rest
else mkEntry (oe_order best) (i64_sub (oe_remaining best) qty) :: rest.

(** What a turn of a matching loop leaves behind. *)
Record turn_post (sv : side_view) (i : ref) (o : Order.t) (best : orderEntry)
(ob ob' : orderBook) (w w' : world) : Prop := {
tp_book : book_inv (w_heap w') ob';
tp_evolves : heap_evolves (w_heap w) (w_heap w');
tp_fresh : i ∉ refs (resting ob');
tp_bus : bus_open (w_bus w');
tp_other : sv_other sv ob' = sv_other sv ob;
tp_code : ob_stockCode ob' = ob_stockCode ob;
tp_next : w_next w' = w_next w;
tp_frame : ∀ r, r ≠ i → r ≠ oe_order best → w_heap w' !! r = w_heap w !! r;
tp_order : ∃ o' b b', w_heap w' !! i = Some o' ∧ order_wf o' ∧
w_heap w !! oe_order best = Some b ∧ w_heap w' !! oe_order best = Some b' ∧
let qty := turn_qty (w_heap w) i best in
match save_result w (buyer sv i (oe_order best)) (seller sv i (oe_order best)) qty
        (entry_price (w_heap w) best) with
| Some _ => o' = o ∧ b' = b
| None => ∃ t1 t2, o' = Order.Fill t1 qty o ∧ b' = Order.Fill t2 qty b
end;
tp_effect : trade_effect (buyer sv i (oe_order best)) (seller sv i (oe_order best))
(turn_qty (w_heap w) i best) (entry_price (w_heap w) best) w w';
tp_list : ∀ rest, sv_list sv ob = best :: rest →
sv_list sv ob' = consume (turn_qty (w_heap w) i best) best rest;
}.

Lemma turn_qty_bounds h i o best :
h !! i = Some o → 0 < Order.RemainingQuantity o → 0 < oe_remaining best →
0 < turn_qty h i best ∧ turn_qty h i best <= Order.RemainingQuantity o ∧
turn_qty h i best <= oe_remaining best.
Proof.
intros Hi Ho Hb. unfold turn_qty, min64. rewrite (deref_Some _ _ _ Hi).
destruct (Z.ltb_spec (Order.RemainingQuantity o) (oe_remaining best)); lia.
Qed.

Lemma consume_suffix qty best rest : refs (consume qty best rest) `suffix_of` refs (best :: rest).
Proof.
unfold consume. destruct (_ <=? 0); [by exists [oe_order best]|by exists []].
Qed.

Lemma consume_ok h h' sd qty best rest b' :
Forall (entry_ok h sd) (best :: rest) → NoDup (refs (best :: rest)) →
0 < qty <= oe_remaining best →
(∀ e, e ∈ rest → oe_order e ≠ oe_order best → h' !! oe_order e = h !! oe_order e) →
h' !! oe_order best = Some b' → order_wf b' → Order.Sd b' = sd →
oe_remaining best - qty <= Order.RemainingQuantity b' →
Forall (entry_ok h' sd) (consume qty best rest).
Proof.
intros Hok Hnd Hqty Hframe Hb' Hwf Hsd Hrem.
apply Forall_cons in Hok as [Hbest Hrest]. unfold refs in Hnd.
rewrite fmap_cons in Hnd. apply NoDup_cons in Hnd as [Hni _].
assert (Forall (entry_ok h' sd) rest) as Hrest'.
{ rewrite Forall_forall in *. intros e He. eapply entry_ok_frame; [by apply Hrest|].
apply Hframe; [done|]. intros Heq. apply Hni. rewrite <- Heq. by apply entry_ref_elem. }
assert (i64_sub (oe_remaining best) qty = oe_remaining best - qty) as Hsub.
{ destruct Hbest as (b & _ & Hbwf & _ & Hr). rewrite remaining_wf in Hr by done.
destruct Hbwf. apply i64_sub_id. i64_lia. }
unfold consume. rewrite Hsub. destruct (Z.leb_spec (oe_remaining best - qty) 0); [done|].
apply Forall_cons. split; [|done]. exists b'. simpl. split_and!; try done; lia.
Qed.

(** The index after the best entry was reduced or removed. *)
Lemma consume_index h h' l1 best rest l3 qty (index : gset string) :
heap_evolves h h' → Forall (λ e, is_Some (h !! oe_order e)) (l1 ++ (best :: rest) ++ l3) →
NoDup (entry_id h <$> l1 ++ (best :: rest) ++ l3) →
index = list_to_set (entry_id h <$> l1 ++ (best :: rest) ++ l3) →
(if i64_sub (oe_remaining best) qty <=? 0 then index ∖ {[entry_id h best]} else index) =
list_to_set (entry_id h' <$> l1 ++ consume qty best rest ++ l3).
Proof.
intros Hev Hal Hnd ->. unfold consume.
rewrite <- (entry_ids_evolve h h' _ Hev Hal) in *.
assert (entry_id h best = entry_id h' best) as ->.
{ symmetry. apply entry_id_evolves; [done|]. rewrite Forall_forall in Hal. apply Hal.
rewrite !elem_of_app. right. left. apply list_elem_of_here. }
destruct (_ <=? 0).
- rewrite <- app_comm_cons, fmap_app, fmap_cons in *. rewrite list_to_set_remove by done.
by rewrite !fmap_app.
- by rewrite !fmap_app, !fmap_cons.
Qed.

Lemma book_after_ask h h' ob best rest qty :
book_inv h ob → heap_evolves h h' → ob_asks ob = best :: rest →
book_after ask_view h h' best qty ob =
mkBook (ob_stockCode ob) (ob_bids ob) (consume qty best rest)
(list_to_set (entry_id h' <$> ob_bids ob ++ consume qty best rest)).
Proof.
intros Hinv Hev Hl. pose proof (resting_allocated _ _ Hinv) as Hal.
pose proof (bi_nodup _ _ Hinv) as Hnd. unfold resting in *. rewrite Hl in Hal, Hnd.
pose proof (consume_index h h' (ob_bids ob) best rest [] qty (ob_index ob) Hev) as Hix.
rewrite !app_nil_r in Hix. rewrite <- Hix; [clear Hix|done|done|].
2: { rewrite (bi_index _ _ Hinv). unfold resting. by rewrite Hl. }
assert (entry_id h' <$> ob_bids ob = entry_id h <$> ob_bids ob) as Hb
by (apply entry_ids_evolve; [done|]; by apply Forall_app in Hal as [? _]).
assert (entry_id h' (mkEntry (oe_order best) (i64_sub (oe_remaining best) qty)) = entry_id h best) as He.
{ apply (entry_id_evolves h h' best Hev). apply Forall_app in Hal as [_ Hal].
by apply Forall_cons in Hal as [? _]. }
unfold book_after, consume. simpl. unfold reduce_ask. rewrite Hl. simpl.
destruct (_ <=? 0); [|done]. unfold removeOrder. simpl. rewrite He, String.eqb_refl.
rewrite removeEntry_absent; [done|]. rewrite Hb, fmap_app in *.
apply NoDup_app in Hnd as (_ & Hnd & _). intros Hin. apply (Hnd _ Hin). apply list_elem_of_here.
Qed.

Lemma book_after_bid h h' ob best rest qty :
book_inv h ob → heap_evolves h h' → ob_bids ob = best :: rest →
book_after bid_view h h' best qty ob =
mkBook (ob_stockCode ob) (consume qty best rest) (ob_asks ob)
(list_to_set (entry_id h' <$> consume qty best rest ++ ob_asks ob)).
Proof.
intros Hinv Hev Hl. pose proof (resting_allocated _ _ Hinv) as Hal.
pose proof (bi_nodup _ _ Hinv) as Hnd. unfold resting in *. rewrite Hl in Hal, Hnd.
pose proof (consume_index h h' [] best rest (ob_asks ob) qty (ob_index ob) Hev) as Hix.
rewrite !app_nil_l in Hix. rewrite <- Hix; [clear Hix|done|done|].
2: { rewrite (bi_index _ _ Hinv). unfold resting. by rewrite Hl. }
assert (entry_id h' <$> ob_asks ob = entry_id h <$> ob_asks ob) as Hb
by (apply entry_ids_evolve; [done|]; by apply Forall_app in Hal as [_ ?]).
assert (entry_id h' (mkEntry (oe_order best) (i64_sub (oe_remaining best) qty)) = entry_id h best) as He.
{ apply (entry_id_evolves h h' best Hev). apply Forall_app in Hal as [Hal _].
by apply Forall_cons in Hal as [? _]. }
unfold book_after, consume. simpl. unfold reduce_bid. rewrite Hl. simpl.
destruct (_ <=? 0); [|done]. unfold removeOrder. simpl. rewrite He, String.eqb_refl.
rewrite (removeEntry_absent h' (ob_asks ob)); [done|]. rewrite Hb, fmap_app in *.
apply NoDup_app in Hnd as (_ & Hnd & _). intros Hin. apply (Hnd (entry_id h best)); [|done].
apply list_elem_of_here.
Qed.

Lemma sv_trade_ok sv i r o b qty price w :
bus_open (w_bus w) → w_heap w !! i = Some o → w_heap w !! r = Some b → i ≠ r →
∃ w', sv_trade sv i r qty price w = Ret () w' ∧
trade_effect (buyer sv i r) (seller sv i r) qty price w w' ∧ bus_open (w_bus w') ∧
(∀ x, x ≠ i → x ≠ r → w_heap w' !! x = w_heap w !! x) ∧
∃ o' b', w_heap w' !! i = Some o' ∧ w_heap w' !! r = Some b' ∧
match save_result w (buyer sv i r) (seller sv i r) qty price with
| Some _ => o' = o ∧ b' = b
| None => ∃ t1 t2, o' = Order.Fill t1 qty o ∧ b' = Order.Fill t2 qty b
end.
Proof.
intros Hb Hi Hr Hne. unfold sv_trade, buyer, seller.
destruct (sv_buying sv);
(edestruct executeTrade_ok as (w' & -> & Heff & Hb' & Hfr & Hh); [exact Hb|eauto..|]);
exists w'; (split; [done|]); (split; [done|]); (split; [done|]); (split; [by auto|]);
destruct (save_result _ _ _ _ _); try (rewrite Hh; eauto 10);
destruct Hh as (t1 & t2 & H1 & H2); eauto 10.
Qed.

(** Entries of the untouched side, and of the rest of the consumed one. *)
Lemma side_frame h h' sd l best :
Forall (entry_ok h sd) l → oe_order best ∉ refs l →
(∀ e, e ∈ l → oe_order e ≠ oe_order best → h' !! oe_order e = h !! oe_order e) →
Forall (entry_ok h' sd) l.
Proof.
intros Hok Hni Hfr. rewrite Forall_forall in *. intros e He.
eapply entry_ok_frame; [by apply Hok|]. apply Hfr; [done|].
intros Heq. apply Hni. rewrite <- Heq. by apply entry_ref_elem.
Qed.

Lemma turn_book sv best rest ob qty h h' b' :
is_view sv → book_inv h ob → heap_evolves h h' → sv_list sv ob = best :: rest →
0 < qty <= oe_remaining best →
(∀ e, e ∈ resting ob → oe_order e ≠ oe_order best → h' !! oe_order e = h !! oe_order e) →
h' !! oe_order best = Some b' → order_wf b' → Order.Sd b' = sv_side sv →
oe_remaining best - qty <= Order.RemainingQuantity b' →
let ob' := book_after sv h h' best qty ob in
book_inv h' ob' ∧ sv_list sv ob' = consume qty best rest ∧ sv_other sv ob' = sv_other sv ob ∧
ob_stockCode ob' = ob_stockCode ob ∧ (∀ r, r ∈ refs (resting ob') → r ∈ refs (resting ob)).
Proof.
intros Hv Hinv Hev Hl Hqty Hfr Hb' Hwf Hsd Hrem.
pose proof (resting_refs_nodup _ _ Hinv) as Hnd.
pose proof (bi_bids_ok _ _ Hinv) as Hbo. pose proof (bi_asks_ok _ _ Hinv) as Hao.
pose proof (consume_suffix qty best rest) as Hsuf.
destruct Hv as [-> | ->]; simpl in *.
- rewrite (book_after_ask h h' ob best rest qty) by done.
unfold resting in *. rewrite Hl in *. unfold refs in *. rewrite fmap_app in Hnd.
apply NoDup_app in Hnd as (_ & Hdis & Hnd).
split_and!; simpl; try done.
+ apply (book_inv_shrink h h'); try done; [by rewrite Hl| |].
  * eapply side_frame; [done| |intros; apply Hfr; [apply elem_of_app; auto|done]].
    intros Hin. apply (Hdis _ Hin). apply list_elem_of_here.
  * eapply consume_ok; try done. intros e He. apply Hfr. rewrite elem_of_app, elem_of_cons. auto.
+ intros r. rewrite !fmap_app, !elem_of_app. intros [?|Hr]; [auto|right].
  eapply elem_of_suffix; [|exact Hsuf]; exact Hr.
- rewrite (book_after_bid h h' ob best rest qty) by done.
unfold resting in *. rewrite Hl in *. unfold refs in *. rewrite fmap_app in Hnd.
apply NoDup_app in Hnd as (Hnd & Hdis & _).
split_and!; simpl; try done.
+ apply (book_inv_shrink h h'); try done; [by rewrite Hl| |].
  * eapply consume_ok; try done. intros e He. apply Hfr. rewrite elem_of_app, elem_of_cons. auto.
  * eapply side_frame; [done| |intros; apply Hfr; [apply elem_of_app; auto|done]].
    intros Hin. eapply Hdis; [|exact Hin]. apply list_elem_of_here.
+ intros r. rewrite !fmap_app, app_comm_cons, !elem_of_app. intros [Hr|?]; [left|auto].
  eapply elem_of_suffix; [|exact Hsuf]; exact Hr.
Qed.

(** ** One turn preserves the invariant *)
Lemma turn_ok sv i o best rest ob w :
is_view sv → book_inv (w_heap w) ob → bus_open (w_bus w) →
w_heap w !! i = Some o → order_wf o → i ∉ refs (resting ob) →
sv_list sv ob = best :: rest → 0 < Order.RemainingQuantity o →
let qty := turn_qty (w_heap w) i best in
∃ w', sv_trade sv i (oe_order best) qty (entry_price (w_heap w) best) w = Ret () w' ∧
turn_post sv i o best ob (book_after sv (w_heap w) (w_heap w') best qty ob) w w'.
Proof.
intros Hv Hinv Hbus Hi Hwf Hfresh Hl Hrem qty.
assert (best ∈ resting ob) as Hbest.
{ unfold resting. rewrite elem_of_app.
destruct Hv as [-> | ->]; simpl in Hl; rewrite Hl;
  [right|left]; apply list_elem_of_here. }
assert (i ≠ oe_order best) as Hne by (intros ->; by apply Hfresh, entry_ref_elem).
assert (entry_ok (w_heap w) (sv_side sv) best) as (b & Hb & Hbwf & Hbsd & Hbrem).
{ destruct Hinv as [_ _ Hbids Hasks _ _ _].
destruct Hv as [-> | ->]; simpl in *; rewrite Hl in *;
  [by apply Forall_cons in Hasks as [? _]|by apply Forall_cons in Hbids as [? _]]. }
destruct (turn_qty_bounds (w_heap w) i o best Hi Hrem) as (Hq0 & Hqo & Hqb); [lia|].
fold qty in Hq0, Hqo, Hqb.
destruct (sv_trade_ok sv i (oe_order best) o b qty (entry_price (w_heap w) best) w)
as (w' & Ht & Heff & Hbus' & Hframe & o' & b' & Hi' & Hb' & Hcase); [done..|].
assert (order_wf o' ∧ order_wf b' ∧ order_evolves o o' ∧ order_evolves b b' ∧
      oe_remaining best - qty <= Order.RemainingQuantity b')
as (Hwf' & Hbwf' & Heo & Heb & Hbrem').
{ destruct (save_result _ _ _ _ _).
- destruct Hcase as [-> ->]. split_and!; try done; lia.
- destruct Hcase as (t1 & t2 & -> & ->). rewrite fill_remaining by (done || lia).
  split_and!; try (apply fill_wf || apply fill_evolves); (done || lia). }
assert (heap_evolves (w_heap w) (w_heap w')) as Hev.
{ intros r x Hx. destruct (decide (r = i)) as [->|Hri]; [simplify_eq; eauto|].
destruct (decide (r = oe_order best)) as [->|Hrb]; [simplify_eq; eauto|].
exists x. rewrite Hframe by done. split; [done|reflexivity]. }
exists w'. split; [done|].
assert (∀ e, e ∈ resting ob → oe_order e ≠ oe_order best →
        w_heap w' !! oe_order e = w_heap w !! oe_order e) as Hkeep.
{ intros e He Hneb. apply Hframe; [|done]. intros Hei. apply Hfresh. rewrite <- Hei.
by apply entry_ref_elem. }
assert (Order.Sd b' = sv_side sv) as Hsd' by (rewrite <- Hbsd; apply Heb).
destruct (turn_book sv best rest ob qty (w_heap w) (w_heap w') b')
as (Hinv' & Hl' & Hother & Hcode & Hsub); try done.
split; try done.
- intros Hin. by apply Hfresh, Hsub.
- by destruct Heff.
- eauto 10.
- intros rest' Hl2. rewrite Hl in Hl2. by injection Hl2 as <-.
Qed.
End Open.
End Lemmas.
