(* ===== verification/MatchSpec.v ===== *)
(** * Reference matching: a walk of the opposite side in priority order

    The abstract specification the matching loops are proved to implement,
    with the facts about it that make matching correct.  A walk takes the
    resting entries in book order (best price first, first come first served
    at a price) and consumes each one before touching the next, while the
    price is within the limit and quantity is wanted. *)
From S2P Require Import Prelude Entity Repository Book BookProofs.

(** [f_qty] of the resting order [f_ref] at its price. *)
Record fill : Type := mkFill { f_ref : ref; f_qty : Z; f_price : Z }.

Definition fill_total (r : ref) (fs : list fill) : Z := sum_by f_qty (filter (λ f, f_ref f = r) fs).

Section Walk.
Variable price : ref → Z.       (* the price of a resting order *)
Variable stop : Z → bool.       (* beyond the limit of the incoming order *)

Fixpoint walk (want : Z) (es : list orderEntry) : list fill * list orderEntry :=
  match es with
  | [] => ([], [])
  | e :: rest =>
      let p := price (oe_order e) in
      if stop p || (want <=? 0) then ([], es)
      else if want <? oe_remaining e
      then ([mkFill (oe_order e) want p], mkEntry (oe_order e) (oe_remaining e - want) :: rest)
      else let '(fs, es') := walk (want - oe_remaining e) rest in
           (mkFill (oe_order e) (oe_remaining e) p :: fs, es')
  end.

(** The resting entries within the limit. *)
Fixpoint crossing (es : list orderEntry) : list orderEntry :=
  match es with
  | [] => []
  | e :: rest => if stop (price (oe_order e)) then [] else e :: crossing rest
  end.

(** As much as possible is traded, and never more than wanted. *)
Lemma walk_total want es :
  0 <= want → Forall (λ e, 0 < oe_remaining e) es →
  sum_by f_qty (walk want es).1 = Z.min want (sum_by oe_remaining (crossing es)).
Proof.
  revert want. induction es as [|e es IH]; intros want Hw Hpos; simpl; [rewrite !sum_by_nil; lia|].
  apply Forall_cons in Hpos as [He Hpos].
  destruct (stop _); simpl; [rewrite !sum_by_nil; lia|].
  assert (0 <= sum_by oe_remaining (crossing es)) as Hnn.
  { apply sum_by_nonneg. clear - Hpos. induction Hpos as [|x l Hx _ IH]; simpl; [constructor|].
    destruct (stop _); constructor; [lia|done]. }
  destruct (Z.leb_spec want 0); simpl; [rewrite sum_by_cons, sum_by_nil; lia|].
  destruct (Z.ltb_spec want (oe_remaining e)); simpl.
  - rewrite !sum_by_cons, sum_by_nil. simpl. lia.
  - specialize (IH (want - oe_remaining e)). destruct (walk _ _) as [fs es'].
    simpl in *. rewrite !sum_by_cons, IH by (done || lia). simpl. lia.
Qed.

(** Every fill is of positive size, at the price of its resting order, and
    that price is within the limit. *)
Lemma walk_fills want es :
  0 <= want → Forall (λ e, 0 < oe_remaining e) es →
  Forall (λ f, 0 < f_qty f ∧ f_price f = price (f_ref f) ∧ stop (f_price f) = false ∧
               f_ref f ∈ refs es) (walk want es).1.
Proof.
  revert want. induction es as [|e es IH]; intros want Hw Hpos; simpl; [constructor|].
  apply Forall_cons in Hpos as [He Hpos].
  destruct (stop _) eqn:Hst; simpl; [constructor|].
  destruct (Z.leb_spec want 0); simpl; [constructor|].
  destruct (Z.ltb_spec want (oe_remaining e)); simpl.
  - apply Forall_singleton. simpl. split_and!; [lia|done..|]. apply list_elem_of_here.
  - specialize (IH (want - oe_remaining e)). destruct (walk _ _) as [fs es']. simpl in *.
    apply Forall_cons. split; [simpl; split_and!; [lia|done..|]; apply list_elem_of_here|].
    eapply Forall_impl; [apply IH; (done || lia)|]. simpl. intros f (? & ? & ? & ?).
    split_and!; try done. by apply list_elem_of_further.
Qed.

(** Price-time priority: entries are exhausted in book order, and only the
    last one touched may keep a part of its quantity. *)
Definition full (e : orderEntry) : fill :=
  mkFill (oe_order e) (oe_remaining e) (price (oe_order e)).

Lemma walk_priority want es :
  ∃ gone rest, es = gone ++ rest ∧
    (walk want es = (full <$> gone, rest) ∨
     ∃ e rest' q, rest = e :: rest' ∧ 0 < q < oe_remaining e ∧
       walk want es = ((full <$> gone) ++ [mkFill (oe_order e) q (price (oe_order e))],
                       mkEntry (oe_order e) (oe_remaining e - q) :: rest')).
Proof.
  revert want. induction es as [|e es IH]; intros want; simpl.
  { exists [], []. by split; [|left]. }
  destruct (stop _ || (want <=? 0)) eqn:Hst.
  { exists [], (e :: es). by split; [|left]. }
  reflect_bools. destruct (Z.ltb_spec want (oe_remaining e)).
  { exists [], (e :: es). split; [done|]. right. exists e, es, want. by split_and!. }
  destruct (IH (want - oe_remaining e)) as (gone & rest & -> & [Hw|Hw]).
  - exists (e :: gone), rest. split; [done|]. left. by rewrite Hw.
  - destruct Hw as (x & rest' & q & -> & Hq & Hw).
    exists (e :: gone), (x :: rest'). split; [done|]. right. exists x, rest', q.
    split_and!; try done; try lia. by rewrite Hw.
Qed.

Lemma walk_refs_sub want es r : r ∈ refs (walk want es).2 → r ∈ refs es.
Proof.
  destruct (walk_priority want es) as (gone & rest & -> & [->|(e & rest' & q & -> & _ & ->)]);
    unfold refs; simpl; rewrite fmap_app, elem_of_app; auto.
Qed.
End Walk.

Lemma walk_ext price price' stop want es :
  Forall (λ e, price (oe_order e) = price' (oe_order e)) es →
  walk price stop want es = walk price' stop want es.
Proof.
  intros Hes. revert want. induction Hes as [|e es He _ IH]; intros want; simpl; [done|].
  rewrite He. destruct (_ || _); [done|]. destruct (_ <? _); [done|]. by rewrite IH.
Qed.

Lemma fill_total_cons r f fs :
  fill_total r (f :: fs) = (if decide (f_ref f = r) then f_qty f else 0) + fill_total r fs.
Proof. unfold fill_total. rewrite filter_cons. case_decide; [by rewrite sum_by_cons|done]. Qed.

Lemma fill_total_notin r fs : Forall (λ f, f_ref f ≠ r) fs → fill_total r fs = 0.
Proof. intros Hf. unfold fill_total. by rewrite filter_none. Qed.
