(* ===== verification/MatcherProofs.v ===== *)
(** * Correctness of the matching engine of one stock

    The invariant of [matchOrder], its refinement to a walk of the opposite
    side in price-time priority, and the events it publishes. *)
From S2P Require Import Prelude GoLib Entity Repository Book BookProofs Matcher MatcherLemmas.

Section Invariant.
Context {D : Deps} `{!BusLaws BusT}.
Variable stockCode : string.

(** The state of a matching loop for the incoming order [o] at [i]. *)
Record loop_inv (i : ref) (o : Order.t) (s : mstate) : Prop := {
  li_book : book_inv (w_heap (ms_world s)) (ms_book s);
  li_bus : bus_open (w_bus (ms_world s));
  li_order : w_heap (ms_world s) !! i = Some o;
  li_wf : order_wf o;
  li_fresh : i ∉ refs (resting (ms_book s));
}.

Definition no_more_match (sv : side_view) (o : Order.t) (s : mstate) : Prop :=
  Order.RemainingQuantity o <= 0 ∨
  ∀ best, head (sv_list sv (ms_book s)) = Some best →
    sv_stop sv (entry_price (w_heap (ms_world s)) best) (Order.Price o) = true.

Record loop_post (sv : side_view) (i : ref) (o : Order.t) (s : mstate) (o' : Order.t)
    (s' : mstate) : Prop := {
  lp_inv : loop_inv i o' s';
  lp_evolves : heap_evolves (w_heap (ms_world s)) (w_heap (ms_world s'));
  lp_done : no_more_match sv o' s';
  lp_other : sv_other sv (ms_book s') = sv_other sv (ms_book s);
  lp_code : ob_stockCode (ms_book s') = ob_stockCode (ms_book s);
  lp_next : w_next (ms_world s') = w_next (ms_world s);
  lp_frame : ∀ r, r ≠ i → r ∉ refs (sv_list sv (ms_book s)) →
    w_heap (ms_world s') !! r = w_heap (ms_world s) !! r;
}.

(** Unfolding one turn under the invariant. *)
Lemma gen_loop_cases sv fuel i o s :
  is_view sv → loop_inv i o s →
  gen_loop stockCode sv (S fuel) i s = Ret () s ∧ no_more_match sv o s ∨
  ∃ best rest w', let s' := mkMS (book_after sv (w_heap (ms_world s)) (w_heap w') best
                                    (turn_qty (w_heap (ms_world s)) i best) (ms_book s)) w' in
    sv_list sv (ms_book s) = best :: rest ∧ 0 < Order.RemainingQuantity o ∧
    sv_stop sv (entry_price (w_heap (ms_world s)) best) (Order.Price o) = false ∧
    gen_loop stockCode sv (S fuel) i s = gen_loop stockCode sv fuel i s' ∧
    turn_post stockCode sv i o best (ms_book s) (ms_book s') (ms_world s) w'.
Proof.
  intros Hv [Hb Hbus Hi Hwf Hfr]. simpl. rewrite (deref_Some _ _ _ Hi).
  destruct (sv_list sv (ms_book s)) as [|best rest] eqn:Hl; simpl.
  { left. split; [done|]. right. by rewrite Hl. }
  destruct (sv_stop _ _ _) eqn:Hst.
  { left. split; [done|]. right. rewrite Hl. by intros ? [= <-]. }
  destruct (Z.leb_spec (Order.RemainingQuantity o) 0); [left; split; [done|]; by left|].
  right. destruct (turn_ok stockCode sv i o best rest (ms_book s) (ms_world s))
    as (w' & Ht & Hpost); [done..|].
  exists best, rest, w'. rewrite Ht. by split_and!.
Qed.

Lemma turn_post_inv sv i o best ob ob' w w' :
  turn_post stockCode sv i o best ob ob' w w' →
  ∃ o', loop_inv i o' (mkMS ob' w').
Proof.
  intros [Hb Hev Hfr Hbus Hot Hc Hn Hframe (o' & b & b' & Hi & Hwf & _)].
  exists o'. by split.
Qed.

Lemma gen_loop_ok sv fuel i o s :
  is_view sv → loop_inv i o s → (side_fuel (sv_list sv (ms_book s)) ≤ fuel)%nat →
  ∃ s' o', gen_loop stockCode sv fuel i s = Ret () s' ∧ loop_post sv i o s o' s'.
Proof.
  intros Hv. revert o s. induction fuel as [|fuel IH]; intros o s Hinv Hf.
  { destruct (sv_list sv (ms_book s)); simpl in Hf; lia. }
  destruct (gen_loop_cases sv fuel i o s Hv Hinv)
    as [[Heq Hdone]|(best & rest & w' & Hl & Hrem & Hst & Heq & Hpost)].
  { exists s, o. split; [done|]. by split. }
  rewrite Heq. destruct (turn_post_inv _ _ _ _ _ _ _ _ Hpost) as [o1 Hinv1].
  pose proof (tp_list _ _ _ _ _ _ _ _ _ Hpost rest Hl) as Hl1.
  match goal with |- context [gen_loop _ _ _ _ ?s1] => set (s1' := s1) in * end.
  assert (side_fuel (sv_list sv (ms_book s1')) ≤ fuel)%nat as Hf1.
  { simpl in *. rewrite Hl1, Hl in *.
    assert (0 < Order.RemainingQuantity (deref (w_heap (ms_world s)) i)) as Hrem'
      by (rewrite (deref_Some _ _ _ (li_order _ _ _ Hinv)); done).
    pose proof (turn_decreases _ i best rest Hrem') as Hd. cbv zeta in Hd.
    unfold consume. lia. }
  destruct (IH o1 s1' Hinv1 Hf1) as (s' & o' & Heq' & [Hi' He' Hd' Ho' Hc' Hn' Hfr']).
  exists s', o'. split; [done|]. destruct Hpost as [_ He _ _ Ho Hc Hn Hfr _ _ _].
  split; simpl in *; try congruence; [by etrans|].
  intros r Hri Hrl. rewrite Hl in Hrl. unfold refs in Hrl.
  rewrite fmap_cons, not_elem_of_cons in Hrl. destruct Hrl as [Hrb Hrr].
  rewrite Hfr'; [by apply Hfr|done|]. rewrite Hl1. intros Hin.
  eapply elem_of_suffix in Hin; [|apply consume_suffix]. by apply elem_of_cons in Hin as [?|?].
Qed.

(** ** The rest of [matchOrder] *)

Lemma publishOrderBook_ok (s : mstate) :
  bus_open (w_bus (ms_world s)) →
  ∃ w', publishOrderBook stockCode s = Ret () (mkMS (ms_book s) w') ∧
    bus_open (w_bus w') ∧ w_heap w' = w_heap (ms_world s) ∧ w_next w' = w_next (ms_world s) ∧
    w_orders w' = w_orders (ms_world s) ∧ w_trades w' = w_trades (ms_world s) ∧
    w_uuids w' = w_uuids (ms_world s) ∧
    ∃ t, let d := getDepth (w_heap (ms_world s)) (ms_book s) depthLevels in
      let snapshot := OrderBook.mk (OrderBook.StockCode d) (OrderBook.Bids d) (OrderBook.Asks d) t in
      w_market w' = fst (mr_UpdateOrderBook snapshot (w_market (ms_world s))) ∧
      bus_Publish (Event.mk OrderBookUpdated stockCode EmptyString (PBook snapshot) t)
        (w_bus (ms_world s)) = Some (w_bus w').
Proof.
  intros Hb. unfold publishOrderBook, on_world, get, now, call_market, publish.
  unfold mbind, M_bind. simpl.
  destruct (mr_UpdateOrderBook _ _) as [mr e] eqn:Hm. simpl.
  edestruct bus_open_publish as (b' & Hp & Hb'); [exact Hb|]. rewrite Hp.
  eexists. split; [done|]. simpl. split_and!; try done.
  eexists. rewrite Hm. split; [done|exact Hp].
Qed.

(** Everything beyond the head of a sorted side is beyond it too. *)
Lemma view_stop_all sv h ob limit :
  is_view sv → book_inv h ob →
  (∀ best, head (sv_list sv ob) = Some best → sv_stop sv (entry_price h best) limit = true) →
  ∀ e, e ∈ sv_list sv ob → sv_stop sv (entry_price h e) limit = true.
Proof.
  intros Hv [Hbs Has _ _ _ _ _] Hhead e He.
  destruct Hv as [-> | ->]; simpl in *.
  - destruct (ob_asks ob) as [|best rest]; [by apply elem_of_nil in He|].
    specialize (Hhead best eq_refl). rewrite Z.gtb_ltb, Z.ltb_lt in *.
    apply elem_of_cons in He as [->|He]; [done|].
    apply StronglySorted_cons in Has as [Hall _]. rewrite Forall_forall in Hall.
    specialize (Hall e He). simpl in Hall. lia.
  - destruct (ob_bids ob) as [|best rest]; [by apply elem_of_nil in He|].
    specialize (Hhead best eq_refl). rewrite Z.ltb_lt in *.
    apply elem_of_cons in He as [->|He]; [done|].
    apply StronglySorted_cons in Hbs as [Hall _]. rewrite Forall_forall in Hall.
    specialize (Hall e He). simpl in Hall. lia.
Qed.

(** The view an incoming order of a given side consumes. *)
Definition view_of (sd : Side) : side_view := if (sd =? SideBuy)%string then ask_view else bid_view.

Lemma view_of_is sd : is_view (view_of sd).
Proof. unfold view_of. case_match; [by left|by right]. Qed.

Definition rest_in_book (h : heap) (i : ref) (o : Order.t) (ob : orderBook) : orderBook :=
  if Order.IsActive o && (Order.RemainingQuantity o >? 0) then addOrder h i ob else ob.

(** [matchOrder] is the loop, the insertion of the rest, and the snapshot. *)
Lemma matchOrder_loop i o s s1 o1 :
  Side_IsValid (Order.Sd o) = true → w_heap (ms_world s) !! i = Some o →
  gen_loop stockCode (view_of (Order.Sd o)) (side_fuel (sv_list (view_of (Order.Sd o)) (ms_book s))) i s
    = Ret () s1 →
  w_heap (ms_world s1) !! i = Some o1 →
  matchOrder stockCode i s =
  publishOrderBook stockCode
    (mkMS (rest_in_book (w_heap (ms_world s1)) i o1 (ms_book s1)) (ms_world s1)).
Proof.
  intros Hsd Hi Hloop Hi1. unfold matchOrder, get. unfold mbind, M_bind.
  rewrite (deref_Some _ _ _ Hi). unfold view_of in Hloop.
  destruct (Order.Sd o =? SideBuy)%string eqn:Hb.
  - rewrite matchBuy_gen. simpl in Hloop. rewrite Hloop, (deref_Some _ _ _ Hi1).
    unfold rest_in_book, on_book, modify. destruct (_ && _); [done|by destruct s1].
  - unfold Side_IsValid in Hsd. rewrite Hb in Hsd. simpl in Hsd. rewrite Hsd.
    rewrite matchSell_gen. simpl in Hloop. rewrite Hloop, (deref_Some _ _ _ Hi1).
    unfold rest_in_book, on_book, modify. destruct (_ && _); [done|by destruct s1].
Qed.

Lemma rest_in_book_inv i o s1 :
  loop_inv i o s1 → no_more_match (view_of (Order.Sd o)) o s1 →
  book_inv (w_heap (ms_world s1)) (rest_in_book (w_heap (ms_world s1)) i o (ms_book s1)).
Proof.
  intros [Hb Hbus Hi Hwf Hfr] Hdone. unfold rest_in_book.
  destruct (Order.IsActive o && (Order.RemainingQuantity o >? 0)) eqn:Hact; [|done].
  reflect_bools. destruct Hdone as [Hd|Hd]; [lia|].
  destruct (decide (Order.ID o ∈ ob_index (ms_book s1))) as [Hin|Hout].
  { rewrite addOrder_duplicate; [done|]. by rewrite (deref_Some _ _ _ Hi). }
  pose proof (view_stop_all _ _ _ _ (view_of_is (Order.Sd o)) Hb Hd) as Hall.
  unfold view_of in Hall.
  apply (addOrder_inv _ i o); try done; intros Hsd; rewrite Hsd in Hall; simpl in Hall.
  - intros a Ha. specialize (Hall a Ha). rewrite Z.gtb_ltb, Z.ltb_lt in Hall. done.
  - intros b Hbb. specialize (Hall b Hbb). rewrite Z.ltb_lt in Hall. done.
Qed.
End Invariant.

Section Fuel.
Context {D : Deps}.
Variable stockCode : string.

Lemma publishOrderBook_fuel_free s : publishOrderBook stockCode s ≠ NoFuel.
Proof.
  unfold publishOrderBook, on_world, get, now, call_market, publish. unfold mbind, M_bind. simpl.
  destruct (mr_UpdateOrderBook _ _) as [mr e]. simpl. by destruct (bus_Publish _ _).
Qed.

Lemma matchOrder_fuel_free r s :
  matchBuy stockCode (side_fuel (ob_asks (ms_book s))) r s ≠ NoFuel →
  matchSell stockCode (side_fuel (ob_bids (ms_book s))) r s ≠ NoFuel →
  matchOrder stockCode r s ≠ NoFuel.
Proof.
  intros Hb Hs. unfold matchOrder, get. unfold mbind, M_bind.
  destruct (_ =? SideBuy)%string; [|destruct (_ =? SideSell)%string].
  - destruct (matchBuy _ _ _ _) as [[] s1|e s1|]; [|done|done].
    destruct (_ && _); apply publishOrderBook_fuel_free.
  - destruct (matchSell _ _ _ _) as [[] s1|e s1|]; [|done|done].
    destruct (_ && _); apply publishOrderBook_fuel_free.
  - unfold mret, M_ret. destruct (_ && _); apply publishOrderBook_fuel_free.
Qed.
End Fuel.
