(* ===== verification/MatcherRefine.v ===== *)
(** * The matching loops implement the reference walk

    With a trade repository that accepts fresh trades, one run of a matching
    loop is exactly one [walk] of the opposite side: the same fills, recorded
    as trades in the same order, the same entries left, and each order filled
    by what the walk gave it. *)
From S2P Require Import Prelude GoLib Entity Repository Book BookProofs Matcher MatcherLemmas.
From S2P Require Import MatchSpec MatcherProofs.

Section Refine.
Context {D : Deps} `{!BusLaws BusT} `{!TradeRepositoryLaws TradeRepoT}.
Hypothesis uuid_inj : ∀ m n, uuid_NewString m = uuid_NewString n → m = n.
Variable stockCode : string.

(** The trades saved so far carry UUIDs that were drawn before. *)
Definition trades_ok (w : world) : Prop :=
  tr_inv (w_trades w) ∧
  ∀ t, t ∈ tr_view (w_trades w) → ∃ n, (n < w_uuids w)%nat ∧ Trade.ID t = uuid_NewString n.

Lemma trade_saved buy sell qty price w :
  trades_ok w →
  save_result stockCode w buy sell qty price = None ∧
  ∀ w', trade_effect stockCode buy sell qty price w w' →
    trades_ok w' ∧
    tr_view (w_trades w') = tr_view (w_trades w) ++ [trade_of stockCode w buy sell qty price].
Proof.
  intros [Hinv Hids]. set (t := trade_of stockCode w buy sell qty price).
  pose proof (tr_Save_law t (w_trades w) Hinv) as Hsave.
  assert (Trade.ID t ∉ Trade.ID <$> tr_view (w_trades w)) as Hfresh.
  { intros (t' & Ht & Ht')%list_elem_of_fmap. destruct (Hids t' Ht') as (n & Hn & Hn').
    rewrite Hn' in Ht. apply uuid_inj in Ht. lia. }
  rewrite bool_decide_false in Hsave by done.
  destruct Hsave as (r' & Hsave & Hinv' & Hview'). split.
  - unfold save_result. fold t. by rewrite Hsave.
  - intros w' [_ Htr _ Hu]. fold t in Htr. rewrite Hsave in Htr. simpl in Htr.
    unfold trades_ok. rewrite Htr, Hu. split; [|done]. split; [done|].
    intros t'. rewrite Hview', elem_of_snoc. intros [Ht'| ->].
    + destruct (Hids t' Ht') as (n & Hn & Hn'). exists n. split; [lia|done].
    + exists (w_uuids w). split; [lia|done].
Qed.

(** A trade without its UUID and time stamp. *)
Definition anon (t : Trade.t) : Trade.t :=
  Trade.mk EmptyString (Trade.StockCode t) (Trade.BuyOrderID t) (Trade.SellOrderID t)
    (Trade.Price t) (Trade.Quantity t) (Trade.BuyerUserID t) (Trade.SellerUserID t) 0.

(** The trade a fill of the incoming order [i] stands for. *)
Definition fill_trade (sv : side_view) (h : heap) (i : ref) (f : MatchSpec.fill) : Trade.t :=
  let b := deref h (buyer sv i (f_ref f)) in
  let s := deref h (seller sv i (f_ref f)) in
  Trade.mk EmptyString stockCode (Order.ID b) (Order.ID s) (f_price f) (f_qty f)
    (Order.UserID b) (Order.UserID s) 0.

Definition view_walk (sv : side_view) (o : Order.t) (s : mstate) : list MatchSpec.fill * list orderEntry :=
  walk (λ r, Order.Price (deref (w_heap (ms_world s)) r)) (λ p, sv_stop sv p (Order.Price o))
    (Order.RemainingQuantity o) (sv_list sv (ms_book s)).

Record walk_post (sv : side_view) (i : ref) (o : Order.t) (s s' : mstate)
    (fs : list MatchSpec.fill) (es : list orderEntry) : Prop := {
  wp_list : sv_list sv (ms_book s') = es;
  wp_filled : ∃ o', w_heap (ms_world s') !! i = Some o' ∧
    Order.FilledQuantity o' = Order.FilledQuantity o + sum_by f_qty fs;
  wp_resting : ∀ r, r ≠ i →
    Order.FilledQuantity (deref (w_heap (ms_world s')) r) =
    Order.FilledQuantity (deref (w_heap (ms_world s)) r) + fill_total r fs;
  wp_trades : anon <$> tr_view (w_trades (ms_world s')) =
    (anon <$> tr_view (w_trades (ms_world s))) ++
    (fill_trade sv (w_heap (ms_world s)) i <$> fs);
  wp_ok : trades_ok (ms_world s');
}.

Lemma walk_turn price stop want best rest :
  stop (price (oe_order best)) = false → 0 < want <= max_i64 → 0 < oe_remaining best <= max_i64 →
  let qty := min64 want (oe_remaining best) in
  walk price stop want (best :: rest) =
  let '(fs, es) := walk price stop (want - qty) (consume qty best rest) in
  (mkFill (oe_order best) qty (price (oe_order best)) :: fs, es).
Proof.
  intros Hst Hw Hr qty. simpl. rewrite Hst, (proj2 (Z.leb_gt _ _)) by lia. simpl.
  unfold consume, qty, min64. destruct (Z.ltb_spec want (oe_remaining best)).
  - rewrite i64_sub_id, (proj2 (Z.leb_gt _ _)) by i64_lia.
    rewrite Z.sub_diag. simpl. by rewrite orb_true_r.
  - rewrite i64_sub_id, Z.sub_diag by i64_lia. simpl. done.
Qed.

Lemma no_more_walk sv o s :
  no_more_match sv o s → view_walk sv o s = ([], sv_list sv (ms_book s)).
Proof.
  unfold view_walk. destruct (sv_list sv (ms_book s)) as [|e es] eqn:Hl; [done|].
  intros [H|H]; simpl.
  - rewrite (proj2 (Z.leb_le _ _)) by done. by rewrite orb_true_r.
  - specialize (H e). rewrite Hl in H. unfold entry_price in H. by rewrite H.
Qed.

Lemma loop_remaining i o s : loop_inv i o s → Order.RemainingQuantity o <= max_i64.
Proof. intros [_ _ _ Hwf _]. rewrite remaining_wf by done. destruct Hwf. lia. Qed.

Lemma view_entries_ok sv s i o e :
  is_view sv → loop_inv i o s → e ∈ sv_list sv (ms_book s) →
  entry_ok (w_heap (ms_world s)) (sv_side sv) e.
Proof.
  intros Hv [[_ _ Hb Ha _ _ _] _ _ _ _] He. rewrite Forall_forall in Hb, Ha.
  destruct Hv as [-> | ->]; simpl in *; auto.
Qed.

Lemma entry_ok_bounds h sd e : entry_ok h sd e → 0 < oe_remaining e <= max_i64.
Proof.
  intros (o & _ & Hwf & _ & Hr). rewrite remaining_wf in Hr by done. destruct Hwf. lia.
Qed.

(** The walk from the state after a turn. *)
Lemma turn_walk sv i o best rest s w' o1 :
  is_view sv → loop_inv i o s → sv_list sv (ms_book s) = best :: rest →
  0 < Order.RemainingQuantity o →
  sv_stop sv (entry_price (w_heap (ms_world s)) best) (Order.Price o) = false →
  let h := w_heap (ms_world s) in
  let qty := turn_qty h i best in
  let s1 := mkMS (book_after sv h (w_heap w') best qty (ms_book s)) w' in
  turn_post stockCode sv i o best (ms_book s) (ms_book s1) (ms_world s) w' →
  Order.Price o1 = Order.Price o → Order.RemainingQuantity o1 = Order.RemainingQuantity o - qty →
  view_walk sv o s =
  let '(fs, es) := view_walk sv o1 s1 in
  (mkFill (oe_order best) qty (entry_price h best) :: fs, es).
Proof.
  intros Hv Hinv Hl Hrem Hst h qty s1 Hpost Hp1 Hr1.
  assert (entry_ok h (sv_side sv) best) as Hbest
    by (eapply view_entries_ok; [done..|]; rewrite Hl; apply list_elem_of_here).
  unfold view_walk. rewrite Hl, walk_turn; cycle 1.
  { exact Hst. }
  { pose proof (loop_remaining _ _ _ Hinv). lia. }
  { by apply entry_ok_bounds in Hbest. }
  assert (min64 (Order.RemainingQuantity o) (oe_remaining best) = qty) as ->.
  { unfold qty, turn_qty, h. by rewrite (deref_Some _ _ _ (li_order _ _ _ Hinv)). }
  rewrite Hp1, Hr1. pose proof (tp_list _ _ _ _ _ _ _ _ _ Hpost rest Hl) as ->. fold h qty.
  rewrite (walk_ext _ (λ r, Order.Price (deref (w_heap (ms_world s1)) r))); [done|].
  apply Forall_forall. intros e He. symmetry. apply price_evolves; [apply Hpost|].
  assert (oe_order e ∈ refs (best :: rest)) as Hin.
  { eapply elem_of_suffix; [by apply entry_ref_elem|apply consume_suffix]. }
  apply list_elem_of_fmap in Hin as (e0 & -> & He0).
  eapply entry_ok_lookup, view_entries_ok; [done..|]. by rewrite Hl.
Qed.

(** The trade of a turn, anonymously. *)
Lemma anon_trade_of sv w i best :
  anon (trade_of stockCode w (buyer sv i (oe_order best)) (seller sv i (oe_order best))
          (turn_qty (w_heap w) i best) (entry_price (w_heap w) best)) =
  fill_trade sv (w_heap w) i
    (mkFill (oe_order best) (turn_qty (w_heap w) i best) (entry_price (w_heap w) best)).
Proof. done. Qed.

Lemma fill_trade_evolves sv h h' i f :
  heap_evolves h h' → is_Some (h !! i) → is_Some (h !! f_ref f) →
  fill_trade sv h' i f = fill_trade sv h i f.
Proof.
  intros Hev [o Ho] [b Hb]. destruct (Hev _ _ Ho) as (o' & Ho' & Eo).
  destruct (Hev _ _ Hb) as (b' & Hb' & Eb). unfold fill_trade, buyer, seller.
  destruct Eo as (E1 & E2 & _), Eb as (E3 & E4 & _).
  destruct (sv_buying sv);
    rewrite (deref_Some _ _ _ Ho), (deref_Some _ _ _ Ho'), (deref_Some _ _ _ Hb),
      (deref_Some _ _ _ Hb'), E1, E2, E3, E4; done.
Qed.

(** What one successful turn does to fills and trades. *)
Lemma turn_fills sv i o best s w' :
  let h := w_heap (ms_world s) in
  let qty := turn_qty h i best in
  let s1 := mkMS (book_after sv h (w_heap w') best qty (ms_book s)) w' in
  loop_inv i o s → trades_ok (ms_world s) → oe_order best ≠ i →
  0 < qty <= Order.RemainingQuantity o →
  (∀ b, h !! oe_order best = Some b → order_wf b ∧ qty <= Order.RemainingQuantity b) →
  turn_post stockCode sv i o best (ms_book s) (ms_book s1) (ms_world s) w' →
  trades_ok w' ∧
  tr_view (w_trades w') = tr_view (w_trades (ms_world s)) ++
    [trade_of stockCode (ms_world s) (buyer sv i (oe_order best)) (seller sv i (oe_order best))
       qty (entry_price h best)] ∧
  ∃ o1, loop_inv i o1 s1 ∧ Order.Price o1 = Order.Price o ∧
    Order.RemainingQuantity o1 = Order.RemainingQuantity o - qty ∧
    Order.FilledQuantity o1 = Order.FilledQuantity o + qty ∧
    ∀ r, r ≠ i → Order.FilledQuantity (deref (w_heap w') r) =
                 Order.FilledQuantity (deref h r) + if decide (oe_order best = r) then qty else 0.
Proof.
  intros h qty s1 Hinv Hok Hne Hq Hbest Hpost.
  destruct (trade_saved (buyer sv i (oe_order best)) (seller sv i (oe_order best)) qty
              (entry_price h best) (ms_world s) Hok) as [Hsave Hnext].
  destruct (Hnext w' (tp_effect _ _ _ _ _ _ _ _ _ Hpost)) as [Hok' Hview].
  split; [done|]. split; [done|].
  pose proof (tp_order _ _ _ _ _ _ _ _ _ Hpost) as (o1 & b & b1 & Hi & Hwf & Hb & Hb1 & Hc).
  fold h qty in Hc. cbv zeta in Hc. rewrite Hsave in Hc. destruct Hc as (t1 & t2 & Ho1 & Hb1').
  destruct (Hbest b Hb) as [Hbwf Hbq]. pose proof (li_wf _ _ _ Hinv) as Howf.
  exists o1. rewrite Ho1 at 2 3 4. rewrite fill_remaining, fill_filled by done.
  split; [split; apply Hpost || done|]. split_and!; try done.
  intros r Hr. case_decide as Hd.
  - subst r. rewrite (deref_Some _ _ _ Hb1). unfold h. rewrite (deref_Some _ _ _ Hb), Hb1'.
    apply fill_filled; [done|lia].
  - unfold deref. rewrite (tp_frame _ _ _ _ _ _ _ _ _ Hpost) by done. unfold h. lia.
Qed.

(** The fills of a walk from an invariant state are of allocated orders. *)
Lemma view_walk_refs sv i o s f :
  is_view sv → loop_inv i o s → 0 <= Order.RemainingQuantity o →
  f ∈ (view_walk sv o s).1 → f_ref f ∈ refs (sv_list sv (ms_book s)).
Proof.
  intros Hv Hinv Hrem Hf.
  assert (Forall (λ e, 0 < oe_remaining e) (sv_list sv (ms_book s))) as Hpos.
  { apply Forall_forall. intros e He.
    pose proof (entry_ok_bounds _ _ _ (view_entries_ok sv s i o e Hv Hinv He)). lia. }
  pose proof (walk_fills (λ r, Order.Price (deref (w_heap (ms_world s)) r))
    (λ p, sv_stop sv p (Order.Price o)) _ _ Hrem Hpos) as Hw.
  rewrite Forall_forall in Hw. by apply Hw in Hf as (_ & _ & _ & ?).
Qed.

(** A turn followed by the rest of the loop is one longer walk. *)
Lemma walk_post_cons sv i o o1 best s s1 s' fs es :
  let h := w_heap (ms_world s) in
  let qty := turn_qty h i best in
  tr_view (w_trades (ms_world s1)) = tr_view (w_trades (ms_world s)) ++
    [trade_of stockCode (ms_world s) (buyer sv i (oe_order best)) (seller sv i (oe_order best))
       qty (entry_price h best)] →
  heap_evolves h (w_heap (ms_world s1)) → is_Some (h !! i) →
  (∀ f, f ∈ fs → is_Some (h !! f_ref f)) →
  Order.FilledQuantity o1 = Order.FilledQuantity o + qty →
  (∀ r, r ≠ i → Order.FilledQuantity (deref (w_heap (ms_world s1)) r) =
                Order.FilledQuantity (deref h r) + if decide (oe_order best = r) then qty else 0) →
  walk_post sv i o1 s1 s' fs es →
  walk_post sv i o s s' (mkFill (oe_order best) qty (entry_price h best) :: fs) es.
Proof.
  intros h qty Htr Hev Hi Hal Hf1 Hfr [Hes (o' & Ho' & Hfo) Hres Htrs Hok]. split; [done| | | |done].
  - exists o'. split; [done|]. rewrite sum_by_cons, Hfo, Hf1. simpl. lia.
  - intros r Hr. rewrite Hres, Hfr, fill_total_cons by done. unfold h. simpl. lia.
  - rewrite Htrs, Htr, fmap_snoc, <- app_assoc. f_equal. rewrite fmap_cons, <- anon_trade_of.
    simpl. f_equal. apply list_fmap_ext. intros k f Hf%list_elem_of_lookup_2.
    apply fill_trade_evolves; auto.
Qed.

Lemma gen_loop_walk sv fuel i o s s' :
  is_view sv → loop_inv i o s → trades_ok (ms_world s) →
  gen_loop stockCode sv fuel i s = Ret () s' →
  walk_post sv i o s s' (view_walk sv o s).1 (view_walk sv o s).2.
Proof.
  intros Hv. revert o s. induction fuel as [|fuel IH]; intros o s Hinv Hok Hrun; [done|].
  destruct (gen_loop_cases stockCode sv fuel i o s Hv Hinv)
    as [[Heq Hdone]|(best & rest & w' & Hl & Hrem & Hst & Heq & Hpost)].
  { rewrite Hrun in Heq. injection Heq as ->. rewrite no_more_walk by done. simpl.
    split; [done| | |by rewrite app_nil_r|done].
    - exists o. split; [apply Hinv|]. rewrite sum_by_nil. lia.
    - intros r _. unfold fill_total. rewrite filter_nil, sum_by_nil. lia. }
  rewrite Heq in Hrun.
  assert (entry_ok (w_heap (ms_world s)) (sv_side sv) best) as Hbest
    by (eapply view_entries_ok; [done..|]; rewrite Hl; apply list_elem_of_here).
  assert (oe_order best ≠ i) as Hne.
  { intros <-. apply (li_fresh _ _ _ Hinv), entry_ref_elem. unfold resting.
    rewrite elem_of_app. destruct Hv as [-> | ->]; simpl in Hl; rewrite Hl;
      [right|left]; apply list_elem_of_here. }
  pose proof (entry_ok_bounds _ _ _ Hbest) as Hbb.
  destruct (turn_qty_bounds _ i o best (li_order _ _ _ Hinv) Hrem) as (Hq0 & Hq1 & Hq2); [lia|].
  destruct (turn_fills sv i o best s w') as (Hok' & Htr & o1 & Hinv1 & Hp1 & Hr1 & Hf1 & Hfr); try done.
  { intros b Hb. destruct Hbest as (b0 & Hb0 & Hwf0 & _ & Hr0). simplify_eq. split; [done|lia]. }
  rewrite (turn_walk sv i o best rest s w' o1) by done.
  assert (∀ f, f ∈ (view_walk sv o1 (mkMS (book_after sv (w_heap (ms_world s)) (w_heap w') best
            (turn_qty (w_heap (ms_world s)) i best) (ms_book s)) w')).1 →
          is_Some (w_heap (ms_world s) !! f_ref f)) as Hal.
  { intros f Hf. apply (view_walk_refs sv i o1) in Hf; [|done|done|lia].
    rewrite (tp_list _ _ _ _ _ _ _ _ _ Hpost rest Hl) in Hf.
    assert (f_ref f ∈ refs (best :: rest)) as Hin
      by (eapply elem_of_suffix; [exact Hf|apply consume_suffix]).
    apply list_elem_of_fmap in Hin as (e & -> & He). rewrite <- Hl in He.
    eapply entry_ok_lookup, view_entries_ok; done. }
  specialize (IH o1 _ Hinv1 Hok' Hrun).
  destruct (view_walk sv o1 _) as [fs es].
  eapply walk_post_cons; [| | | | | |exact IH];
    [exact Htr|apply Hpost|exists o; apply Hinv|exact Hal|exact Hf1|exact Hfr].
Qed.
End Refine.
