(* ===== verification/MatchOrder.v ===== *)
(** * One incoming order, from the channel to the book

    [matchOrder] on a well-formed order is the reference walk of the opposite
    side followed by the price-time insertion of what is left; the entries
    stay exact and the order repository stays in step with the heap. *)
From S2P Require Import Prelude GoLib Entity Repository Book BookProofs Matcher MatcherLemmas.
From S2P Require Import MatchSpec MatcherProofs MatcherRefine.

(** Every entry carries exactly the quantity its order still wants. *)
Definition book_exact (h : heap) (ob : orderBook) : Prop :=
  Forall (λ e, oe_remaining e = Order.RemainingQuantity (deref h (oe_order e))) (resting ob).

(** [x] is a stored copy of [o], up to the time of the last update. *)
Definition same_order (x o : Order.t) : Prop :=
  Order.ID x = Order.ID o ∧ Order.UserID x = Order.UserID o ∧
  Order.StockCode x = Order.StockCode o ∧ Order.Sd x = Order.Sd o ∧
  Order.Price x = Order.Price o ∧ Order.Quantity x = Order.Quantity o ∧
  Order.FilledQuantity x = Order.FilledQuantity o ∧ Order.Status x = Order.Status o ∧
  Order.CreatedAt x = Order.CreatedAt o.

#[global] Instance same_order_equiv : Equivalence same_order.
Proof.
  split; unfold same_order; [done|intros x y H; destruct_and!; by split_and!|].
  intros x y z H1 H2; destruct_and!; split_and!; congruence.
Qed.

Lemma update_same t o x :
  order_evolves x o → same_order (update_mutable t o x) o.
Proof. unfold order_evolves, same_order. simpl. intros; destruct_and!; split_and!; congruence. Qed.

(** The sort key of a side: bids descend, asks ascend. *)
Definition side_key (sd : Side) (p : Z) : Z := if (sd =? SideBuy)%string then - p else p.

(** [l'] is [l] with [e] inserted behind everything at least as good. *)
Definition priority_insert (h : heap) (sd : Side) (e : orderEntry) (l l' : list orderEntry) : Prop :=
  ∃ before after, l = before ++ after ∧ l' = before ++ e :: after ∧
    Forall (λ x, side_key sd (entry_price h x) <= side_key sd (entry_price h e)) before ∧
    Forall (λ x, side_key sd (entry_price h e) < side_key sd (entry_price h x)) after.

Lemma priority_insert_perm h sd e l l' : priority_insert h sd e l l' → l' ≡ₚ e :: l.
Proof. intros (b & a & -> & -> & _). by rewrite Permutation_middle. Qed.

(** The entries of a book, seen from the consumed side. *)
Lemma resting_view {D : Deps} sv ob e :
  is_view sv → e ∈ resting ob ↔ e ∈ sv_list sv ob ∨ e ∈ sv_other sv ob.
Proof. intros [-> | ->]; unfold resting; simpl; rewrite elem_of_app; tauto. Qed.

Lemma best_elsewhere {D : Deps} sv h ob best rest e :
  is_view sv → book_inv h ob → sv_list sv ob = best :: rest →
  e ∈ rest ∨ e ∈ sv_other sv ob → oe_order e ≠ oe_order best.
Proof.
  intros Hv Hinv Hl He Heq. pose proof (resting_refs_nodup _ _ Hinv) as Hnd.
  assert (NoDup (oe_order <$> best :: (rest ++ sv_other sv ob))) as Hnd'.
  { apply (NoDup_Permutation_proper _ (oe_order <$> resting ob)); [|done].
    apply fmap_Permutation. unfold resting. rewrite app_comm_cons, <- Hl.
    destruct Hv as [-> | ->]; simpl; [apply Permutation_app_comm|done]. }
  rewrite fmap_cons in Hnd'. apply NoDup_cons in Hnd' as [Hni _]. apply Hni.
  rewrite <- Heq. apply list_elem_of_fmap. exists e. rewrite elem_of_app. auto.
Qed.

Lemma i64_remaining_exact o q t :
  order_wf o → 0 < q <= Order.RemainingQuantity o →
  i64_sub (Order.RemainingQuantity o) q = Order.RemainingQuantity (Order.Fill t q o).
Proof.
  intros Hwf Hq. rewrite fill_remaining by done. apply i64_sub_id.
  rewrite remaining_wf in * by done. destruct Hwf. i64_lia.
Qed.

Section MatchOrder.
Context {D : Deps} `{!BusLaws BusT} `{!TradeRepositoryLaws TradeRepoT}.
Hypothesis uuid_inj : ∀ m n, uuid_NewString m = uuid_NewString n → m = n.
Variable stockCode : string.

(** A successful turn, with everything it is known to have done. *)
Lemma gen_loop_ind (P : mstate → Prop) sv i :
  is_view sv →
  (∀ o s best rest w',
     let h := w_heap (ms_world s) in
     let qty := turn_qty h i best in
     let s' := mkMS (book_after sv h (w_heap w') best qty (ms_book s)) w' in
     loop_inv i o s → trades_ok (ms_world s) → P s →
     sv_list sv (ms_book s) = best :: rest → oe_order best ≠ i →
     0 < qty <= oe_remaining best → qty <= Order.RemainingQuantity o →
     turn_post stockCode sv i o best (ms_book s) (ms_book s') (ms_world s) w' →
     save_result stockCode (ms_world s) (buyer sv i (oe_order best)) (seller sv i (oe_order best))
       qty (entry_price h best) = None →
     trade_done stockCode (buyer sv i (oe_order best)) (seller sv i (oe_order best)) qty
       (entry_price h best) (ms_world s) w' →
     P s') →
  ∀ fuel o s s', loop_inv i o s → trades_ok (ms_world s) → P s →
    gen_loop stockCode sv fuel i s = Ret () s' → P s'.
Proof.
  intros Hv Hstep fuel. induction fuel as [|fuel IH]; intros o s s' Hinv Hok HP Hrun; [done|].
  destruct (gen_loop_cases stockCode sv fuel i o s Hv Hinv)
    as [[Heq _]|(best & rest & w' & Hl & Hrem & Hst & Heq & Hpost)].
  { rewrite Hrun in Heq. by injection Heq as ->. }
  rewrite Heq in Hrun.
  assert (entry_ok (w_heap (ms_world s)) (sv_side sv) best) as Hbest
    by (eapply view_entries_ok; [done..|]; rewrite Hl; apply list_elem_of_here).
  assert (oe_order best ≠ i) as Hne.
  { intros <-. apply (li_fresh _ _ _ Hinv), entry_ref_elem. unfold resting.
    rewrite elem_of_app. destruct Hv as [-> | ->]; simpl in Hl; rewrite Hl;
      [right|left]; apply list_elem_of_here. }
  pose proof (entry_ok_bounds _ _ _ Hbest) as Hbb.
  destruct (turn_qty_bounds _ i o best (li_order _ _ _ Hinv) Hrem) as (Hq0 & Hq1 & Hq2); [lia|].
  destruct (turn_post_inv _ _ _ _ _ _ _ _ _ Hpost) as [o1 Hinv1].
  destruct (trade_saved uuid_inj stockCode (buyer sv i (oe_order best)) (seller sv i (oe_order best))
    (turn_qty (w_heap (ms_world s)) i best) (entry_price (w_heap (ms_world s)) best) (ms_world s) Hok)
    as [Hsave Hnext].
  pose proof (tp_effect _ _ _ _ _ _ _ _ _ Hpost) as Heff.
  destruct (Hnext w' Heff) as [Hok' _].
  refine (IH o1 _ s' Hinv1 Hok' _ Hrun).
  eapply Hstep; try done. pose proof (te_case _ _ _ _ _ _ _ Heff) as Hc. by rewrite Hsave in Hc.
Qed.

(** ** Orders stay well-formed *)
Definition heap_keeps_wf (h h' : heap) : Prop :=
  ∀ r x, h !! r = Some x → order_wf x → ∃ y, h' !! r = Some y ∧ order_wf y.

Lemma heap_wf_loop sv fuel i o s s' :
  is_view sv → loop_inv i o s → trades_ok (ms_world s) →
  gen_loop stockCode sv fuel i s = Ret () s' →
  heap_keeps_wf (w_heap (ms_world s)) (w_heap (ms_world s')).
Proof.
  intros Hv Hinv Hok Hrun. pose (P := λ s1, heap_keeps_wf (w_heap (ms_world s)) (w_heap (ms_world s1))).
  assert (P s) as HP by (intros r x Hx Hwf; eauto).
  refine (gen_loop_ind P sv i Hv _ fuel o s s' Hinv Hok HP Hrun). unfold P.
  clear - Hv. cbv zeta. intros o s1 best rest w' Hinv Hok HP Hl Hne Hq Hqo Hpost Hsave Hdone r x Hx Hwf.
  set (h := w_heap (ms_world s1)) in *. set (qty := turn_qty h i best) in *.
  destruct (HP r x Hx Hwf) as (y & Hy & Hywf). fold h in Hy.
  destruct (tp_order _ _ _ _ _ _ _ _ _ Hpost) as (o1 & b & b1 & Hi & Hiwf & Hb1 & Hb2 & Hc).
  fold h in Hb1. destruct (decide (r = i)) as [->|Hri]; [by exists o1|].
  destruct (decide (r = oe_order best)) as [->|Hrb].
  - exists b1. split; [done|]. cbv zeta in Hc. fold h qty in Hc. rewrite Hsave in Hc.
    destruct Hc as (t1 & t2 & _ & ->). apply fill_wf; [by simplify_eq|].
    destruct (view_entries_ok sv s1 i o best Hv Hinv) as (z & Hz & _ & _ & Hzr);
      [rewrite Hl; apply list_elem_of_here|]. fold h in Hz. simplify_eq. lia.
  - exists y. split; [|done]. simpl. rewrite (tp_frame _ _ _ _ _ _ _ _ _ Hpost) by done. exact Hy.
Qed.

Lemma uuids_loop sv fuel i o s s' :
  is_view sv → loop_inv i o s → trades_ok (ms_world s) →
  gen_loop stockCode sv fuel i s = Ret () s' →
  (w_uuids (ms_world s) ≤ w_uuids (ms_world s'))%nat.
Proof.
  intros Hv Hinv Hok Hrun. pose (P := λ s1, (w_uuids (ms_world s) ≤ w_uuids (ms_world s1))%nat).
  assert (P s) as HP by (unfold P; lia).
  refine (gen_loop_ind P sv i Hv _ fuel o s s' Hinv Hok HP Hrun). unfold P.
  clear - Hv. cbv zeta. intros o s1 best rest w' Hinv Hok HP Hl Hne Hq Hqo Hpost _ _. simpl.
  pose proof (te_uuids _ _ _ _ _ _ _ (tp_effect _ _ _ _ _ _ _ _ _ Hpost)). lia.
Qed.

(** ** Entries stay exact *)
Lemma book_exact_loop sv fuel i o s s' :
  is_view sv → loop_inv i o s → trades_ok (ms_world s) →
  book_exact (w_heap (ms_world s)) (ms_book s) →
  gen_loop stockCode sv fuel i s = Ret () s' →
  book_exact (w_heap (ms_world s')) (ms_book s').
Proof.
  intros Hv Hinv Hok Hex.
  refine (gen_loop_ind (λ s, book_exact (w_heap (ms_world s)) (ms_book s)) sv i Hv _ fuel o s s'
            Hinv Hok Hex).
  clear - Hv. intros o s best rest w' h qty s' Hinv Hok Hex Hl Hne Hq Hqo Hpost Hsave Hdone.
  pose proof (li_fresh _ _ _ Hinv) as Hfr.
  unfold book_exact in Hex. rewrite Forall_forall in Hex.
  assert (∀ e, e ∈ rest ∨ e ∈ sv_other sv (ms_book s) →
    oe_remaining e = Order.RemainingQuantity (deref (w_heap w') (oe_order e))) as Hkeep.
  { intros e He. pose proof (best_elsewhere sv _ _ best rest e Hv (li_book _ _ _ Hinv) Hl He) as Hneb.
    assert (e ∈ resting (ms_book s)) as Her.
    { apply (resting_view sv); [done|]. rewrite Hl, elem_of_cons. tauto. }
    rewrite (Hex e Her). unfold deref. rewrite (tp_frame _ _ _ _ _ _ _ _ _ Hpost); [done| |done].
    intros Heq. apply Hfr. rewrite <- Heq. by apply entry_ref_elem. }
  assert (best ∈ resting (ms_book s)) as Hb
    by (apply (resting_view sv); [done|]; rewrite Hl, elem_of_cons; auto).
  specialize (Hex best Hb).
  assert (entry_ok h (sv_side sv) best) as (b0 & Hb0 & Hwf0 & _ & Hrb)
    by (eapply view_entries_ok; [done..|]; rewrite Hl; apply list_elem_of_here).
  apply Forall_forall. intros e He. apply (resting_view sv) in He; [|done].
  rewrite (tp_other _ _ _ _ _ _ _ _ _ Hpost), (tp_list _ _ _ _ _ _ _ _ _ Hpost rest Hl) in He.
  destruct He as [He|He]; [|by auto]. unfold consume in He.
  destruct (i64_sub (oe_remaining best) (turn_qty (w_heap (ms_world s)) i best) <=? 0);
    [by auto|]. apply elem_of_cons in He as [->|He]; [|by auto]. simpl. fold h qty.
  destruct (tp_order _ _ _ _ _ _ _ _ _ Hpost) as (o1 & b & b1 & _ & _ & Hb1 & Hb2 & Hc).
  fold h in Hb1. rewrite Hb1 in Hb0. injection Hb0 as ->.
  rewrite (deref_Some _ _ _ Hb2). cbv zeta in Hc. fold h qty in Hc.
  rewrite Hsave in Hc. destruct Hc as (t1 & t2 & _ & ->).
  unfold h in Hb1. rewrite Hex, (deref_Some _ _ _ Hb1). apply i64_remaining_exact; [done|lia].
Qed.

(** ** The whole of [matchOrder] *)

(** An order that has just left the channel. *)
Record arrival (i : ref) (o : Order.t) (s : mstate) : Prop := {
  ar_book : book_inv (w_heap (ms_world s)) (ms_book s);
  ar_bus : bus_open (w_bus (ms_world s));
  ar_order : w_heap (ms_world s) !! i = Some o;
  ar_wf : order_wf o;
  ar_id : Order.ID o ∉ ob_index (ms_book s);
  ar_trades : trades_ok (ms_world s);
}.

Record match_post (i : ref) (o : Order.t) (s s' : mstate) (fs : list MatchSpec.fill)
    (es : list orderEntry) (o' : Order.t) : Prop := {
  mp_book : book_inv (w_heap (ms_world s')) (ms_book s');
  mp_bus : bus_open (w_bus (ms_world s'));
  mp_evolves : heap_evolves (w_heap (ms_world s)) (w_heap (ms_world s'));
  mp_next : w_next (ms_world s') = w_next (ms_world s);
  mp_code : ob_stockCode (ms_book s') = ob_stockCode (ms_book s);
  mp_uuids : (w_uuids (ms_world s) ≤ w_uuids (ms_world s'))%nat;
  mp_ok : trades_ok (ms_world s');
  mp_incoming : w_heap (ms_world s') !! i = Some o' ∧ order_wf o';
  mp_wf : heap_keeps_wf (w_heap (ms_world s)) (w_heap (ms_world s'));
  mp_filled : Order.FilledQuantity o' = Order.FilledQuantity o + sum_by f_qty fs;
  mp_resting : ∀ r, r ≠ i →
    Order.FilledQuantity (deref (w_heap (ms_world s')) r) =
    Order.FilledQuantity (deref (w_heap (ms_world s)) r) + fill_total r fs;
  mp_frame : ∀ r, r ≠ i → r ∉ refs (sv_list (view_of (Order.Sd o)) (ms_book s)) →
    w_heap (ms_world s') !! r = w_heap (ms_world s) !! r;
  mp_trades : anon <$> tr_view (w_trades (ms_world s')) =
    (anon <$> tr_view (w_trades (ms_world s))) ++
    (fill_trade stockCode (view_of (Order.Sd o)) (w_heap (ms_world s)) i <$> fs);
  mp_opposite : sv_list (view_of (Order.Sd o)) (ms_book s') = es;
  mp_own : let l := sv_other (view_of (Order.Sd o)) (ms_book s) in
    let l' := sv_other (view_of (Order.Sd o)) (ms_book s') in
    if 0 <? Order.RemainingQuantity o'
    then priority_insert (w_heap (ms_world s')) (Order.Sd o)
           (mkEntry i (Order.RemainingQuantity o')) l l'
    else l' = l;
}.

Lemma index_refs h ob id : book_inv h ob → id ∈ ob_index ob ↔
  ∃ r, r ∈ refs (resting ob) ∧ Order.ID (deref h r) = id.
Proof.
  intros Hinv. rewrite (bi_index _ _ Hinv), elem_of_list_to_set, entry_id_refs, list_elem_of_fmap.
  split; intros (r & H1 & H2); exists r; auto.
Qed.

Lemma arrival_loop i o s : arrival i o s → loop_inv i o s.
Proof.
  intros [Hb Hbus Hi Hwf Hid _]. split; try done. intros Hin. apply Hid.
  apply (index_refs _ _ _ Hb). exists i. by rewrite (deref_Some _ _ _ Hi).
Qed.

(** After the loop the incoming order's ID is still unused. *)
Lemma loop_id_fresh i o s s1 o1 :
  arrival i o s → loop_post (view_of (Order.Sd o)) i o s o1 s1 →
  sv_list (view_of (Order.Sd o)) (ms_book s1) = (view_walk (view_of (Order.Sd o)) o s).2 →
  Order.ID o1 ∉ ob_index (ms_book s1).
Proof.
  intros Har Hpost Hlist. set (sv := view_of (Order.Sd o)) in *.
  pose proof (ar_book _ _ _ Har) as Hb. pose proof (lp_inv _ _ _ _ _ _ Hpost) as Hinv1.
  destruct (lp_evolves _ _ _ _ _ _ Hpost i o (ar_order _ _ _ Har)) as (o1' & Ho1 & Hid & _).
  rewrite (li_order _ _ _ Hinv1) in Ho1. injection Ho1 as <-. rewrite Hid. intros Hin.
  apply (index_refs _ _ _ (li_book _ _ _ Hinv1)) in Hin as (r & Hr & Hrid).
  assert (r ∈ refs (resting (ms_book s))) as Hr0.
  { apply list_elem_of_fmap in Hr as (e & -> & He). apply (resting_view sv) in He; [|apply view_of_is].
    rewrite Hlist, (lp_other _ _ _ _ _ _ Hpost) in He. destruct He as [He|He].
    - apply entry_ref_elem, walk_refs_sub in He. apply list_elem_of_fmap in He as (e0 & -> & He0).
      apply entry_ref_elem, (resting_view sv); [apply view_of_is|auto].
    - apply entry_ref_elem, (resting_view sv); [apply view_of_is|auto]. }
  apply (ar_id _ _ _ Har), (index_refs _ _ _ Hb). exists r. split; [done|].
  rewrite <- Hrid. symmetry. apply id_evolves; [apply Hpost|].
  pose proof (resting_allocated _ _ Hb) as Hal. rewrite Forall_forall in Hal.
  apply list_elem_of_fmap in Hr0 as (e0 & -> & He0). auto.
Qed.

(** What is left of the order goes to its own side. *)
Lemma rest_in_book_own i o1 s1 :
  loop_inv i o1 s1 → Order.ID o1 ∉ ob_index (ms_book s1) →
  let sv := view_of (Order.Sd o1) in
  let ob' := rest_in_book (w_heap (ms_world s1)) i o1 (ms_book s1) in
  sv_list sv ob' = sv_list sv (ms_book s1) ∧ ob_stockCode ob' = ob_stockCode (ms_book s1) ∧
  if 0 <? Order.RemainingQuantity o1
  then priority_insert (w_heap (ms_world s1)) (Order.Sd o1) (mkEntry i (Order.RemainingQuantity o1))
         (sv_other sv (ms_book s1)) (sv_other sv ob')
  else sv_other sv ob' = sv_other sv (ms_book s1).
Proof.
  intros [Hb Hbus Hi Hwf Hfr] Hid sv ob'. unfold ob', rest_in_book. clear ob'.
  rewrite (active_wf _ Hwf), Z.gtb_ltb, andb_diag.
  destruct (0 <? Order.RemainingQuantity o1); [|done].
  pose proof (deref_Some _ _ _ Hi) as Hd.
  assert (∀ q, entry_price (w_heap (ms_world s1)) (mkEntry i q) = Order.Price o1) as Hpe
    by (intros q; unfold entry_price; simpl; by rewrite Hd).
  unfold sv, view_of, priority_insert, side_key.
  pose proof (owf_side _ Hwf) as Hside. unfold Side_IsValid in Hside.
  destruct (String.eqb_spec (Order.Sd o1) SideBuy) as [Hsd|Hsd]; simpl in Hside.
  - destruct (addOrder_bid (w_heap (ms_world s1)) i (ms_book s1)) as (be & af & Hl & -> & H1 & H2);
      rewrite ?Hd; try done; [apply Hb|]. rewrite Hd in *. simpl. split_and!; try done.
    exists be, af. rewrite Hpe. split_and!; try done.
    + eapply Forall_impl; [exact H1|]. simpl. lia.
    + eapply Forall_impl; [exact H2|]. simpl. lia.
  - apply String.eqb_eq in Hside.
    destruct (addOrder_ask (w_heap (ms_world s1)) i (ms_book s1)) as (be & af & Hl & -> & H1 & H2);
      rewrite ?Hd; try done; [apply Hb|]. rewrite Hd in *. simpl. split_and!; try done.
    exists be, af. rewrite Hpe. by split_and!.
Qed.

(** The parts of a run: the loop, the insertion, the snapshot. *)
Record run_parts (i : ref) (o : Order.t) (s s1 : mstate) (o1 : Order.t) (w' : world) : Prop := {
  rp_loop : gen_loop stockCode (view_of (Order.Sd o))
    (side_fuel (sv_list (view_of (Order.Sd o)) (ms_book s))) i s = Ret () s1;
  rp_post : loop_post (view_of (Order.Sd o)) i o s o1 s1;
  rp_walk : walk_post stockCode (view_of (Order.Sd o)) i o s s1
    (view_walk (view_of (Order.Sd o)) o s).1 (view_walk (view_of (Order.Sd o)) o s).2;
  rp_id : Order.ID o1 ∉ ob_index (ms_book s1);
  rp_side : Order.Sd o1 = Order.Sd o;
  rp_run : matchOrder stockCode i s =
    Ret () (mkMS (rest_in_book (w_heap (ms_world s1)) i o1 (ms_book s1)) w');
  rp_bus : bus_open (w_bus w');
  rp_heap : w_heap w' = w_heap (ms_world s1);
  rp_next : w_next w' = w_next (ms_world s1);
  rp_orders : w_orders w' = w_orders (ms_world s1);
  rp_trades : w_trades w' = w_trades (ms_world s1);
  rp_uuids : w_uuids w' = w_uuids (ms_world s1);
  rp_snapshot : ∃ t, bus_Publish
    (Event.mk OrderBookUpdated stockCode EmptyString
       (PBook (let d := getDepth (w_heap w') (rest_in_book (w_heap (ms_world s1)) i o1 (ms_book s1))
                          depthLevels in
               OrderBook.mk (OrderBook.StockCode d) (OrderBook.Bids d) (OrderBook.Asks d) t)) t)
    (w_bus (ms_world s1)) = Some (w_bus w');
}.

Lemma matchOrder_parts i o s : arrival i o s → ∃ s1 o1 w', run_parts i o s s1 o1 w'.
Proof.
  intros Har. pose proof (arrival_loop _ _ _ Har) as Hinv.
  destruct (gen_loop_ok stockCode (view_of (Order.Sd o)) _ i o s (view_of_is _) Hinv (Nat.le_refl _))
    as (s1 & o1 & Hrun & Hpost).
  pose proof (gen_loop_walk uuid_inj stockCode _ _ i o s s1 (view_of_is _) Hinv
                (ar_trades _ _ _ Har) Hrun) as Hwalk.
  pose proof (lp_inv _ _ _ _ _ _ Hpost) as Hinv1.
  destruct (lp_evolves _ _ _ _ _ _ Hpost i o (ar_order _ _ _ Har))
    as (x & Hx & _ & _ & _ & Hsd & _).
  rewrite (li_order _ _ _ Hinv1) in Hx. injection Hx as <-.
  destruct (publishOrderBook_ok stockCode
              (mkMS (rest_in_book (w_heap (ms_world s1)) i o1 (ms_book s1)) (ms_world s1)))
    as (w' & Hpub & Hbus' & Hh & Hn & Ho & Ht & Hu & t & _ & Hev); [apply Hinv1|].
  exists s1, o1, w'. split; try done.
  - by eapply loop_id_fresh, Hwalk.
  - rewrite (matchOrder_loop stockCode i o s s1 o1); [exact Hpub|apply Har|apply Har|exact Hrun|].
    apply Hinv1.
  - exists t. rewrite Hh. exact Hev.
Qed.

Lemma matchOrder_spec i o s :
  arrival i o s →
  ∃ s' o', matchOrder stockCode i s = Ret () s' ∧
    match_post i o s s' (view_walk (view_of (Order.Sd o)) o s).1
      (view_walk (view_of (Order.Sd o)) o s).2 o'.
Proof.
  intros Har. set (sv := view_of (Order.Sd o)).
  destruct (matchOrder_parts i o s Har)
    as (s1 & o1 & w' & [Hloop Hpost Hwalk Hid1 Hsd Hrun Hbus Hh Hn _ Ht Hu _]).
  fold sv in Hpost, Hwalk. destruct Hwalk as [Hlist (o1' & Ho1 & Hf1) Hres Htr Hok1].
  pose proof (lp_inv _ _ _ _ _ _ Hpost) as Hinv1.
  rewrite (li_order _ _ _ Hinv1) in Ho1. injection Ho1 as <-.
  destruct (rest_in_book_own i o1 s1 Hinv1 Hid1) as (Hopp & Hcode & Hown).
  assert (no_more_match (view_of (Order.Sd o1)) o1 s1) as Hdone by (rewrite Hsd; apply Hpost).
  pose proof (rest_in_book_inv i o1 s1 Hinv1 Hdone) as Hb'.
  eexists _, o1. split; [exact Hrun|].
  rewrite Hsd in *. fold sv in Hopp, Hown.
  split; simpl; rewrite ?Hh, ?Hn, ?Ht; try done.
  - apply Hpost.
  - apply Hpost.
  - rewrite Hcode. apply Hpost.
  - rewrite Hu. eapply uuids_loop; [apply view_of_is|by apply arrival_loop|apply Har|exact Hloop].
  - unfold trades_ok. by rewrite Ht, Hu.
  - split; apply Hinv1.
  - eapply heap_wf_loop; [apply view_of_is|by apply arrival_loop|apply Har|exact Hloop].
  - apply Hpost.
  - by rewrite <- Hlist.
  - fold sv. by rewrite <- (lp_other _ _ _ _ _ _ Hpost).
Qed.

(** The entries a run leaves are exact when those it met were. *)
Lemma rest_in_book_exact i o1 s1 :
  loop_inv i o1 s1 → book_exact (w_heap (ms_world s1)) (ms_book s1) →
  book_exact (w_heap (ms_world s1)) (rest_in_book (w_heap (ms_world s1)) i o1 (ms_book s1)).
Proof.
  intros [Hb Hbus Hi Hwf Hfr] Hex. unfold rest_in_book.
  destruct (Order.IsActive o1 && _); [|done].
  destruct (decide (Order.ID o1 ∈ ob_index (ms_book s1))) as [Hin|Hni].
  { rewrite addOrder_duplicate; [done|]. by rewrite (deref_Some _ _ _ Hi). }
  pose proof (deref_Some _ _ _ Hi) as Hd.
  unfold book_exact, resting in *. apply Forall_app in Hex as [Hexb Hexa].
  destruct (order_wf_side o1 Hwf) as [Hsd|Hsd].
  - destruct (addOrder_bid (w_heap (ms_world s1)) i (ms_book s1)) as (be & af & Hl & -> & _ & _);
      rewrite ?Hd; try done; [apply Hb|]. simpl. rewrite Hl in Hexb.
    rewrite !Forall_app, ?Forall_cons in *. simpl. destruct_and!. split_and!; by rewrite ?Hd.
  - destruct (addOrder_ask (w_heap (ms_world s1)) i (ms_book s1)) as (be & af & Hl & -> & _ & _);
      rewrite ?Hd; try done; [apply Hb|]. simpl. rewrite Hl in Hexa.
    rewrite !Forall_app, ?Forall_cons in *. simpl. destruct_and!. split_and!; by rewrite ?Hd.
Qed.

Lemma matchOrder_exact i o s s' :
  arrival i o s → book_exact (w_heap (ms_world s)) (ms_book s) →
  matchOrder stockCode i s = Ret () s' → book_exact (w_heap (ms_world s')) (ms_book s').
Proof.
  intros Har Hex Hrun. destruct (matchOrder_parts i o s Har) as (s1 & o1 & w' & Hp).
  rewrite (rp_run _ _ _ _ _ _ Hp) in Hrun. injection Hrun as <-. simpl.
  rewrite (rp_heap _ _ _ _ _ _ Hp). pose proof (rp_post _ _ _ _ _ _ Hp) as Hpost.
  apply rest_in_book_exact; [apply Hpost|].
  eapply book_exact_loop; [apply view_of_is|by apply arrival_loop|apply Har|done|apply Hp].
Qed.

(** ** The order repository follows the heap *)
Section Synced.
Context `{!OrderRepositoryLaws OrderRepoT}.
(** The pointer the engine was given for each order ID. *)
Variable own : gmap string ref.

(** Every stored order is a past state of its live order, and the current
    one unless its ID is in [X]. *)
Definition synced_upto (X : gset string) (h : heap) (r : OrderRepoT) : Prop :=
  or_inv r ∧
  ∀ id x, or_view r !! id = Some x →
    ∃ p o, own !! id = Some p ∧ h !! p = Some o ∧ order_evolves x o ∧ (id ∉ X → same_order x o).

Definition owned (h : heap) (p : ref) : Prop :=
  ∃ o, h !! p = Some o ∧ own !! Order.ID o = Some p.

Lemma owned_evolves h h' p : heap_evolves h h' → owned h p → owned h' p.
Proof.
  intros Hev (o & Ho & Hown). destruct (Hev _ _ Ho) as (o' & Ho' & Hid & _).
  exists o'. by rewrite Hid.
Qed.

Lemma synced_update X h r t p o :
  h !! p = Some o → own !! Order.ID o = Some p → synced_upto X h r →
  synced_upto (X ∖ {[Order.ID o]}) h (or_Update t o r).1.
Proof.
  intros Hp Hown [Hinv Hs]. pose proof (or_Update_law t o r Hinv) as Hlaw.
  destruct (or_view r !! Order.ID o) as [x|] eqn:Hx.
  - destruct Hlaw as (r' & t' & -> & Hinv' & Hview). simpl. split; [done|].
    intros id y. rewrite Hview. destruct (decide (id = Order.ID o)) as [->|Hne].
    + rewrite lookup_insert_eq. intros [= <-]. exists p, o.
      destruct (Hs _ _ Hx) as (p' & o' & Hp' & Ho' & Hev & _). simplify_eq.
      pose proof (update_same t' _ _ Hev) as Hsame. split_and!; try done.
      unfold same_order in Hsame. unfold order_evolves. destruct_and! Hsame.
      split_and!; try congruence. lia.
    + rewrite lookup_insert_ne by done. intros Hy.
      destruct (Hs _ _ Hy) as (p' & o' & Hp' & Ho' & Hev & Hsame). exists p', o'.
      split_and!; try done. intros Hni. apply Hsame. rewrite elem_of_difference, elem_of_singleton in Hni.
      tauto.
  - rewrite Hlaw. simpl. split; [done|]. intros id y Hy.
    destruct (Hs _ _ Hy) as (p' & o' & Hp' & Ho' & Hev & Hsame). exists p', o'.
    split_and!; try done. intros Hni. apply Hsame. rewrite elem_of_difference, elem_of_singleton in Hni.
    intros Hin. apply Hni. split; [done|]. congruence.
Qed.

Lemma synced_evolves X (h h' : heap) r :
  heap_evolves h h' → synced_upto ∅ h r →
  (∀ id p, own !! id = Some p → id ∉ X → h' !! p = h !! p) →
  synced_upto X h' r.
Proof.
  intros Hev [Hinv Hs] Hfr. split; [done|]. intros id x Hx.
  destruct (Hs _ _ Hx) as (p & o & Hp & Ho & Hxo & Hsame).
  destruct (Hev _ _ Ho) as (o' & Ho' & Hoo). exists p, o'. split_and!; try done; [by etrans|].
  intros Hni. rewrite (Hfr _ _ Hp Hni), Ho in Ho'. injection Ho' as <-. apply Hsame, not_elem_of_empty.
Qed.

Definition own_ids (h : heap) : Prop :=
  ∀ id p, own !! id = Some p → ∃ o, h !! p = Some o ∧ Order.ID o = id.

Lemma own_ids_evolves h h' : heap_evolves h h' → own_ids h → own_ids h'.
Proof.
  intros Hev Hown id p Hp. destruct (Hown _ _ Hp) as (o & Ho & <-).
  destruct (Hev _ _ Ho) as (o' & Ho' & Hid & _). eauto.
Qed.

Record sync_inv (i : ref) (s : mstate) : Prop := {
  sy_ids : own_ids (w_heap (ms_world s));
  sy_synced : synced_upto ∅ (w_heap (ms_world s)) (w_orders (ms_world s));
  sy_owned : ∀ p, p = i ∨ p ∈ refs (resting (ms_book s)) → owned (w_heap (ms_world s)) p;
}.

(** One trade: both orders change, then both are written back. *)
Lemma synced_trade buy sell qty price w w' :
  trade_done stockCode buy sell qty price w w' → heap_evolves (w_heap w) (w_heap w') →
  own_ids (w_heap w) → owned (w_heap w) buy → owned (w_heap w) sell →
  (∀ p, p ≠ buy → p ≠ sell → w_heap w' !! p = w_heap w !! p) →
  synced_upto ∅ (w_heap w) (w_orders w) → synced_upto ∅ (w_heap w') (w_orders w').
Proof.
  intros Hdone Hev Hids Hb Hs Hfr Hsync.
  pose proof (owned_evolves _ _ _ Hev Hb) as (b & Hb1 & Hb2).
  pose proof (owned_evolves _ _ _ Hev Hs) as (x & Hx1 & Hx2).
  pose proof (own_ids_evolves _ _ Hev Hids) as Hids'.
  destruct (td_orders _ _ _ _ _ _ _ Hdone) as (t1 & t2 & ->).
  rewrite (deref_Some _ _ _ Hb1), (deref_Some _ _ _ Hx1).
  set (ids := {[Order.ID b]} ∪ {[Order.ID x]} : gset string).
  assert (ids ∖ {[Order.ID b]} ∖ {[Order.ID x]} = ∅) as <-
    by (apply set_eq; intros y; unfold ids; rewrite !elem_of_difference, elem_of_union, !elem_of_singleton,
        elem_of_empty; tauto).
  eapply synced_update; [done..|]. eapply synced_update; [done..|].
  eapply synced_evolves; [done..|]. intros id p Hp Hni.
  destruct (Hids' _ _ Hp) as (o & Ho & Hid). unfold ids in Hni.
  rewrite elem_of_union, !elem_of_singleton in Hni.
  apply Hfr; intros ->; simplify_eq; tauto.
Qed.

(** ... and so does a whole run. *)
Lemma sync_loop sv fuel i o s s' :
  is_view sv → loop_inv i o s → trades_ok (ms_world s) → sync_inv i s →
  gen_loop stockCode sv fuel i s = Ret () s' → sync_inv i s'.
Proof.
  intros Hv Hinv Hok Hsy. refine (gen_loop_ind (sync_inv i) sv i Hv _ fuel o s s' Hinv Hok Hsy).
  clear - Hv uuid_inj. intros o s best rest w' h qty s' Hinv Hok [Hids Hsy Hown] Hl Hne Hq Hqo Hpost _ Hdone.
  pose proof (tp_evolves _ _ _ _ _ _ _ _ _ Hpost) as Hev.
  assert (oe_order best ∈ refs (resting (ms_book s))) as Hbest.
  { apply entry_ref_elem, (resting_view sv); [done|]. rewrite Hl, elem_of_cons. auto. }
  assert (∀ p, p = i ∨ p ∈ refs (resting (ms_book s)) → owned (w_heap w') p) as Hown'
    by (intros p Hp; eapply owned_evolves; [exact Hev|auto]).
  split.
  - by eapply own_ids_evolves.
  - eapply synced_trade; [exact Hdone|exact Hev|done|..|exact Hsy].
    + apply Hown. unfold buyer. destruct (sv_buying sv); auto.
    + apply Hown. unfold seller. destruct (sv_buying sv); auto.
    + intros p Hp1 Hp2. unfold buyer, seller in *. apply (tp_frame _ _ _ _ _ _ _ _ _ Hpost);
        destruct (sv_buying sv); done.
  - intros p [->|Hp]; [by apply Hown'; left|]. apply Hown'. right.
    apply list_elem_of_fmap in Hp as (e & -> & He). apply (resting_view sv) in He; [|done].
    rewrite (tp_other _ _ _ _ _ _ _ _ _ Hpost), (tp_list _ _ _ _ _ _ _ _ _ Hpost rest Hl) in He.
    destruct He as [He|He].
    + apply entry_ref_elem in He. eapply elem_of_suffix in He; [|apply consume_suffix].
      rewrite <- Hl in He. apply list_elem_of_fmap in He as (e0 & -> & He0).
      apply entry_ref_elem, (resting_view sv); auto.
    + apply entry_ref_elem, (resting_view sv); auto.
Qed.

(** Stored orders stay stored. *)
Definition stored_kept (r r' : OrderRepoT) : Prop :=
  or_inv r' ∧ ∀ id, is_Some (or_view r !! id) → is_Some (or_view r' !! id).

Lemma update_kept r0 t o r : stored_kept r0 r → stored_kept r0 (or_Update t o r).1.
Proof.
  intros [Hinv Hs]. pose proof (or_Update_law t o r Hinv) as Hlaw.
  destruct (or_view r !! Order.ID o) as [x|] eqn:Hx; [|by rewrite Hlaw].
  destruct Hlaw as (r' & t' & -> & Hinv' & Hview). split; [done|]. intros id Hid. simpl.
  rewrite Hview. destruct (decide (id = Order.ID o)) as [->|Hne].
  - rewrite lookup_insert_eq. by eexists.
  - rewrite lookup_insert_ne by done. by apply Hs.
Qed.

Lemma stored_loop sv fuel i o s s' :
  is_view sv → loop_inv i o s → trades_ok (ms_world s) → or_inv (w_orders (ms_world s)) →
  gen_loop stockCode sv fuel i s = Ret () s' →
  stored_kept (w_orders (ms_world s)) (w_orders (ms_world s')).
Proof.
  intros Hv Hinv Hok Hor Hrun.
  pose (P := λ s1, stored_kept (w_orders (ms_world s)) (w_orders (ms_world s1))).
  assert (P s) as HP by (split; [done|]; intros id Hid; exact Hid).
  refine (gen_loop_ind P sv i Hv _ fuel o s s' Hinv Hok HP Hrun). unfold P.
  clear. cbv zeta. intros o s1 best rest w' Hinv Hok HP Hl Hne Hq Hqo Hpost _ Hdone. simpl.
  destruct (td_orders _ _ _ _ _ _ _ Hdone) as (t1 & t2 & ->). by apply update_kept, update_kept.
Qed.

Lemma matchOrder_stored i o s s' :
  arrival i o s → or_inv (w_orders (ms_world s)) → matchOrder stockCode i s = Ret () s' →
  stored_kept (w_orders (ms_world s)) (w_orders (ms_world s')).
Proof.
  intros Har Hor Hrun. destruct (matchOrder_parts i o s Har) as (s1 & o1 & w' & Hp).
  rewrite (rp_run _ _ _ _ _ _ Hp) in Hrun. injection Hrun as <-. simpl.
  rewrite (rp_orders _ _ _ _ _ _ Hp).
  eapply stored_loop; [apply view_of_is|by apply arrival_loop|apply Har|done|apply Hp].
Qed.

Lemma matchOrder_sync i o s s' :
  arrival i o s → sync_inv i s → matchOrder stockCode i s = Ret () s' →
  own_ids (w_heap (ms_world s')) ∧ synced_upto ∅ (w_heap (ms_world s')) (w_orders (ms_world s')).
Proof.
  intros Har Hsy Hrun. destruct (matchOrder_parts i o s Har) as (s1 & o1 & w' & Hp).
  rewrite (rp_run _ _ _ _ _ _ Hp) in Hrun. injection Hrun as <-. simpl.
  rewrite (rp_heap _ _ _ _ _ _ Hp), (rp_orders _ _ _ _ _ _ Hp).
  destruct (sync_loop _ _ i o s s1 (view_of_is _) (arrival_loop _ _ _ Har) (ar_trades _ _ _ Har)
              Hsy (rp_loop _ _ _ _ _ _ Hp)); done.
Qed.
End Synced.
End MatchOrder.
