(* ===== verification/Engine.v ===== *)
(** * The engine: one matcher per stock ([internal/engine/engine.go] and the
    goroutine side of [internal/engine/matcher.go]).

    A matcher is its order channel and its book.  [run_turn] is one iteration
    of the range loop of the matcher's goroutine; the goroutines of different
    stocks interleave at turns, which touch disjoint orders and reach the
    shared repositories and the bus only through their own locked methods. *)
From S2P Require Import Prelude GoLib Entity Repository Book Matcher.

Section Engine.
Context {D : Deps}.

Record Matcher : Type := mkMatcher {
  m_stockCode : string;
  m_book : orderBook;
  m_ch : chan (option ref);    (* [None] is a nil pointer *)
}.

Definition newMatcher (stockCode : string) : Matcher :=
  mkMatcher stockCode (newOrderBook stockCode) (make_chan (option ref) matcherChanCap).

(** [submit]: [None] is the panic of a send on a closed channel. *)
Definition submit (o : option ref) (m : Matcher) : option (bool * Matcher) :=
  match chan_try_send o (m_ch m) with
  | Some (sent, c) => Some (sent, mkMatcher (m_stockCode m) (m_book m) c)
  | None => None
  end.

Record Engine : Type := mkEngine {
  e_matchers : gmap string Matcher;
  e_started : bool;            (* the goroutines were launched *)
  e_stopped : bool;            (* [stopOnce] fired *)
}.

Definition NewEngine (stocks : list Stock.t) : Engine :=
  mkEngine (foldl (λ m s, <[Stock.Code s := newMatcher (Stock.Code s)]> m) ∅ stocks) false false.

(** The engine next to the state it shares with the rest of the program. *)
Record estate : Type := mkES { es_engine : Engine; es_world : world }.

Definition set_matcher (code : string) (m : Matcher) (e : Engine) : Engine :=
  mkEngine (<[code := m]> (e_matchers e)) (e_started e) (e_stopped e).

Definition Start : M estate () :=
  modify (λ s, mkES (mkEngine (e_matchers (es_engine s)) true (e_stopped (es_engine s))) (es_world s)).

Definition SubmitOrder (order : ref) : M estate (option error) := λ s,
  let code := Order.StockCode (deref (w_heap (es_world s)) order) in
  match e_matchers (es_engine s) !! code with
  | None => Ret (Some (ErrOther ("unknown stock: " ++ code))) s
  | Some m =>
      match submit (Some order) m with
      | None => Panic "send on closed channel" s
      | Some (true, m') => Ret None (mkES (set_matcher code m' (es_engine s)) (es_world s))
      | Some (false, _) =>
          Ret (Some (ErrOther ("order queue full for " ++ code ++ ": backpressure"))) s
      end
  end.

Definition GetOrderBook (stockCode : string) (s : estate) : error + OrderBook.t :=
  mr_GetOrderBook stockCode (w_market (es_world s)).

(** One iteration of [for o := range m.ch] in the goroutine of [code]. *)
Inductive turn : Type := TurnDone | TurnExit | TurnWaits.

Definition run_turn (code : string) : M estate turn := λ s,
  match e_matchers (es_engine s) !! code with
  | None => Ret TurnExit s
  | Some m =>
      match chan_recv (m_ch m) with
      | RecvClosed => Ret TurnExit s
      | RecvBlocks => Ret TurnWaits s
      | Received None c =>
          Ret TurnDone
            (mkES (set_matcher code (mkMatcher (m_stockCode m) (m_book m) c) (es_engine s))
               (es_world s))
      | Received (Some o) c =>
          let put := λ ms, mkES (set_matcher code (mkMatcher (m_stockCode m) (ms_book ms) c)
                                   (es_engine s)) (ms_world ms) in
          match matchOrder (m_stockCode m) o (mkMS (m_book m) (es_world s)) with
          | Ret _ ms => Ret TurnDone (put ms)
          | Panic msg ms => Panic msg (put ms)
          | NoFuel => NoFuel
          end
      end
  end.

(** [run]: the goroutine until it exits or has to wait for an order. *)
Fixpoint run (fuel : nat) (code : string) : M estate turn :=
  match fuel with
  | O => out_of_fuel
  | S fuel =>
      t ← run_turn code;
      match t with
      | TurnDone => run fuel code
      | TurnExit | TurnWaits => mret t
      end
  end.

Definition queue_fuel (code : string) (s : estate) : nat :=
  match e_matchers (es_engine s) !! code with
  | Some m => S (length (ch_buf (m_ch m)))
  | None => 1
  end.

(** [Stop]: close every channel, then wait for the goroutines to drain
    them; here one goroutine after the other.  When the engine was never
    started the wait group is empty. *)
Fixpoint close_all (ms : list (string * Matcher)) : M estate () :=
  match ms with
  | [] => mret ()
  | (code, m) :: rest =>
      match chan_close (m_ch m) with
      | None => panic "close of closed channel"
      | Some c =>
          modify (λ s, mkES (set_matcher code (mkMatcher (m_stockCode m) (m_book m) c)
                               (es_engine s)) (es_world s));;
          close_all rest
      end
  end.

Fixpoint drain_all (codes : list string) : M estate () :=
  match codes with
  | [] => mret ()
  | code :: rest =>
      s ← get;
      run (queue_fuel code s) code;;
      drain_all rest
  end.

Definition Stop : M estate () :=
  s ← get;
  if e_stopped (es_engine s) then mret ()
  else
    modify (λ s, mkES (mkEngine (e_matchers (es_engine s)) (e_started (es_engine s)) true)
                   (es_world s));;
    close_all (map_to_list (e_matchers (es_engine s)));;
    if e_started (es_engine s) then drain_all (map_to_list (e_matchers (es_engine s))).*1
    else mret ().

(** A submission touches a channel only. *)
Lemma SubmitOrder_world r e (s s' : estate) : SubmitOrder r s = Ret e s' → es_world s' = es_world s.
Proof.
  unfold SubmitOrder. destruct (_ !! _) as [m|]; [|by intros [= _ <-]].
  destruct (submit (Some r) m) as [[[] m']|]; [by intros [= _ <-]..|done].
Qed.
End Engine.
