(* ===== verification/Validator.v ===== *)
(** * Input validation and response envelopes ([pkg/validator], [pkg/response]) *)
From S2P Require Import Prelude Float64 Entity.

(** ** [pkg/response] *)
Module FieldError.
Record t : Type := mk { Field : string; Message : string }.
End FieldError.

Module Meta.
Record t : Type := mk { Total : Z; Page : Z; PerPage : Z; Pages : Z }.
End Meta.

Record apiError : Type := mkApiError {
  ae_Code : string;
  ae_Message : string;
  ae_Details : list FieldError.t;
}.

(** The envelope for a payload of type [A]; an absent [data], [error] or
    [meta] is [None]. *)
Record envelope (A : Type) : Type := mkEnvelope {
  env_Success : bool;
  env_Data : option A;
  env_Error : option apiError;
  env_Meta : option Meta.t;
}.
Arguments mkEnvelope {A} _ _ _ _.
Arguments env_Success {A} _.
Arguments env_Data {A} _.
Arguments env_Error {A} _.
Arguments env_Meta {A} _.

(** What a handler writes: a status code and a body. *)
Record http_response (A : Type) : Type := mkResponse {
  hr_status : Z;
  hr_contentType : string;
  hr_body : envelope A;
}.
Arguments mkResponse {A} _ _ _.
Arguments hr_status {A} _.
Arguments hr_contentType {A} _.
Arguments hr_body {A} _.

Definition JSON {A} (status : Z) (data : A) : http_response A :=
  mkResponse status "application/json" (mkEnvelope true (Some data) None None).

Definition Paginated {A} (status : Z) (data : A) (meta : Meta.t) : http_response A :=
  mkResponse status "application/json" (mkEnvelope true (Some data) None (Some meta)).

Definition Error {A} (status : Z) (code message : string) : http_response A :=
  mkResponse status "application/json"
    (mkEnvelope false None (Some (mkApiError code message [])) None).

Definition StatusUnprocessableEntity : Z := 422.

Definition ValidationError {A} (details : list FieldError.t) : http_response A :=
  mkResponse StatusUnprocessableEntity "application/json"
    (mkEnvelope false None
       (Some (mkApiError "VALIDATION_ERROR" "request validation failed" details)) None).

(** [total] is an [int64], [perPage] an [int] of the same width. *)
Definition NewMeta (total page perPage : Z) : Meta.t :=
  let pages := if perPage >? 0
               then i64_quot (i64_sub (i64_add total perPage) 1) perPage else 0 in
  Meta.mk total page perPage pages.

(** ** [pkg/validator] *)
Definition MinPrice : Z := 1.
Definition MaxPrice : Z := 999999999.
Definition MinQuantity : Z := 1.
Definition MaxQuantity : Z := 1000000.
Definition DefaultPage : Z := 1.
Definition DefaultPerPage : Z := 20.
Definition MaxPerPage : Z := 100.

Module CreateOrderRequest.
Record t : Type := mk { StockCode : string; Sd : Side; Price : Z; Quantity : Z }.
Definition zero : t := mk EmptyString EmptyString 0 0.
End CreateOrderRequest.

Definition stockCode_errors (stockCode : string) : list FieldError.t :=
  if (stockCode =? EmptyString)%string
  then [FieldError.mk "stock_code" "stock_code is required"]
  else if negb (IsValidStockCode stockCode)
  then [FieldError.mk "stock_code" ("unknown stock code: " ++ stockCode)]
  else [].

Definition side_errors (side : string) : list FieldError.t :=
  if (side =? EmptyString)%string then [FieldError.mk "side" "side is required"]
  else if negb (Side_IsValid side) then [FieldError.mk "side" "side must be BUY or SELL"]
  else [].

Definition price_errors (price : Z) : list FieldError.t :=
  if price <? MinPrice then [FieldError.mk "price" "price must be at least 1"]
  else if price >? MaxPrice then [FieldError.mk "price" "price must not exceed 999999999"]
  else [].

Definition quantity_errors (quantity : Z) : list FieldError.t :=
  if quantity <? MinQuantity then [FieldError.mk "quantity" "quantity must be at least 1"]
  else if quantity >? MaxQuantity then [FieldError.mk "quantity" "quantity must not exceed 1000000"]
  else [].

Definition ValidateCreateOrder (stockCode side : string) (price quantity : Z)
    : CreateOrderRequest.t * list FieldError.t :=
  let errs := stockCode_errors stockCode ++ side_errors side ++ price_errors price ++
              quantity_errors quantity in
  if (0 <? length errs)%nat then (CreateOrderRequest.zero, errs)
  else (CreateOrderRequest.mk stockCode side price quantity, []).

Definition ParsePage (v : Z) : Z := if v <? 1 then DefaultPage else v.

Definition ParsePerPage (v : Z) : Z :=
  if v <? 1 then DefaultPerPage else if v >? MaxPerPage then MaxPerPage else v.

(** ** What validation accepts *)
Record request_valid (r : CreateOrderRequest.t) : Prop := {
  rv_stock : IsValidStockCode (CreateOrderRequest.StockCode r) = true;
  rv_side : Side_IsValid (CreateOrderRequest.Sd r) = true;
  rv_price : MinPrice <= CreateOrderRequest.Price r <= MaxPrice;
  rv_quantity : MinQuantity <= CreateOrderRequest.Quantity r <= MaxQuantity;
}.

Lemma stockCode_errors_nil s : stockCode_errors s = [] ↔ IsValidStockCode s = true.
Proof.
  unfold stockCode_errors. destruct (String.eqb_spec s EmptyString) as [->|Hs].
  - split; [done|]. intros H. vm_compute in H. done.
  - destruct (IsValidStockCode s); simpl; split; done.
Qed.

Lemma side_errors_nil s : side_errors s = [] ↔ Side_IsValid s = true.
Proof.
  unfold side_errors. destruct (String.eqb_spec s EmptyString) as [->|Hs].
  - split; [done|]. intros H. vm_compute in H. done.
  - destruct (Side_IsValid s); simpl; split; done.
Qed.

Lemma price_errors_nil p : price_errors p = [] ↔ MinPrice <= p <= MaxPrice.
Proof.
  unfold price_errors. rewrite Z.gtb_ltb.
  destruct (Z.ltb_spec p MinPrice), (Z.ltb_spec MaxPrice p); split; (done || lia).
Qed.

Lemma quantity_errors_nil q : quantity_errors q = [] ↔ MinQuantity <= q <= MaxQuantity.
Proof.
  unfold quantity_errors. rewrite Z.gtb_ltb.
  destruct (Z.ltb_spec q MinQuantity), (Z.ltb_spec MaxQuantity q); split; (done || lia).
Qed.

Lemma ValidateCreateOrder_valid stockCode side price quantity r :
  ValidateCreateOrder stockCode side price quantity = (r, []) →
  r = CreateOrderRequest.mk stockCode side price quantity ∧ request_valid r.
Proof.
  unfold ValidateCreateOrder. case_match eqn:Hl; [intros [= _ Hn]; rewrite Hn in Hl; done|].
  intros [= <-]. split; [done|].
  destruct (stockCode_errors stockCode ++ _) eqn:He; [|done].
  apply app_eq_nil in He as [H1 He]. apply app_eq_nil in He as [H2 He].
  apply app_eq_nil in He as [H3 H4].
  split; simpl; [by apply stockCode_errors_nil|by apply side_errors_nil
    |by apply price_errors_nil|by apply quantity_errors_nil].
Qed.
