(* ===== verification/Services.v ===== *)
(** * Application services ([internal/app/order], [internal/app/market],
    [internal/app/trade]) *)
From S2P Require Import Prelude GoLib Entity Repository Book Matcher Engine Validator.

Definition on_eworld {D : Deps} {A} (m : M world A) : M estate A := λ s,
  match m (es_world s) with
  | Ret a w => Ret a (mkES (es_engine s) w)
  | Panic e w => Panic e (mkES (es_engine s) w)
  | NoFuel => NoFuel
  end.

(** A state of which the shared world is a part: that of one process, or
    that of a process among others. *)
Class HasWorld `{D : Deps} (S : Type) : Type := on_shared : ∀ {A}, M world A → M S A.
#[global] Instance estate_HasWorld `{D : Deps} : HasWorld estate := @on_eworld D.

(** ** Orders *)
Module OrderService.
Section Create.
Context {D : Deps} {S : Type} `{!HasWorld S}.
(** [OrderSubmitter]: the engine, or a router in front of it. *)
Variable SubmitOrder : ref → M S (option error).

Definition CreateOrder (userID : string) (req : CreateOrderRequest.t) : M S (error + ref) :=
  now0 ← on_shared now;
  id ← on_shared newUUID;
  order ← on_shared (alloc (Order.mk id userID (CreateOrderRequest.StockCode req)
            (CreateOrderRequest.Sd req) (CreateOrderRequest.Price req)
            (CreateOrderRequest.Quantity req) 0 OrderStatusOpen now0 now0));
  o ← on_shared (load order);
  err ← on_shared (save_order o);
  match err with
  | Some e => mret (inl e)
  | None =>
      snapshot ← on_shared (alloc o);
      err ← SubmitOrder order;
      match err with
      | Some _ => mret (inr snapshot)
      | None =>
          on_shared (publish (Event.mk OrderCreated (Order.StockCode o) (Order.UserID o)
                                (POrder snapshot) now0));;
          mret (inr snapshot)
      end
  end.
End Create.

Section Service.
Context {D : Deps}.

Definition GetOrders (filter : OrderFilter.t) (s : estate) : outcome (list Order.t * Z) :=
  or_FindAll filter (w_orders (es_world s)).
Definition GetOrderByID (id : string) (s : estate) : error + Order.t :=
  or_FindByID id (w_orders (es_world s)).
End Service.
End OrderService.

(** ** Market data, with an optional read-through cache: a cache answers
    with an error, a miss ([inr None]) or a hit. *)
Module MarketService.
Record MarketCache : Type := mkCache {
  cache_GetTicker : string → error + option Ticker.t;
  cache_GetOrderBook : string → error + option OrderBook.t;
}.

Section Service.
Context {D : Deps}.
Variable cache : option MarketCache.

Definition GetTicker (stockCode : string) (s : estate) : error + Ticker.t :=
  match cache with
  | Some c => match cache_GetTicker c stockCode with
              | inr (Some t) => inr t
              | _ => mr_GetTicker stockCode (w_market (es_world s))
              end
  | None => mr_GetTicker stockCode (w_market (es_world s))
  end.

Definition GetAllTickers (s : estate) : list Ticker.t :=
  mr_GetAllTickers (w_market (es_world s)).

Definition GetOrderBook (stockCode : string) (s : estate) : error + OrderBook.t :=
  match cache with
  | Some c => match cache_GetOrderBook c stockCode with
              | inr (Some b) => inr b
              | _ => Engine.GetOrderBook stockCode s
              end
  | None => Engine.GetOrderBook stockCode s
  end.

Definition GetRecentTrades (stockCode : string) (limit : Z) (s : estate) : error + list Trade.t :=
  tr_FindByStockCode stockCode limit (w_trades (es_world s)).
End Service.
End MarketService.

(** ** Trade history *)
Module TradeService.
Section Service.
Context {D : Deps}.
Definition GetTradeHistory (filter : TradeFilter.t) (s : estate) : outcome (list Trade.t * Z) :=
  tr_FindAll filter (w_trades (es_world s)).
Definition GetTradesByStock (stockCode : string) (limit : Z) (s : estate) : error + list Trade.t :=
  tr_FindByStockCode stockCode limit (w_trades (es_world s)).
End Service.
End TradeService.
