(* ===== verification/System.v ===== *)
(** * The exchange as a transition system

    The steps of a running exchange: a client creates a validated order, the
    goroutine of a stock takes one turn, the engine stops, and the rest of
    the program (simulator, dispatcher, HTTP reads) touches the market data
    and the bus.  The invariant of its reachable states ties the books, the
    queues, the two repositories and the recorded trades together. *)
From S2P Require Import Prelude GoLib Entity Repository Book BookProofs Matcher MatcherLemmas.
From S2P Require Import MatchSpec MatcherProofs MatcherRefine MatchOrder Engine Validator Services.

(** Everything an order traded. *)
Definition traded (id : string) (ts : list Trade.t) : Z :=
  sum_by Trade.Quantity (filter (λ t, Trade.BuyOrderID t = id ∨ Trade.SellOrderID t = id) ts).

Definition queued (m : Matcher) : list ref := omap (λ x, x) (ch_buf (m_ch m)).

Section System.
Context {D : Deps} `{!BusLaws BusT} `{!TradeRepositoryLaws TradeRepoT}
        `{!OrderRepositoryLaws OrderRepoT}.

Record env_step (w w' : world) : Prop := {
  en_heap : w_heap w' = w_heap w;
  en_next : w_next w' = w_next w;
  en_orders : w_orders w' = w_orders w;
  en_trades : w_trades w' = w_trades w;
  en_uuids : (w_uuids w ≤ w_uuids w')%nat;
  en_bus : bus_open (w_bus w) → bus_open (w_bus w');
}.

Inductive sys_step (s : estate) : estate → Prop :=
| sys_create user req r s' :
    request_valid req → OrderService.CreateOrder SubmitOrder user req s = Ret r s' → sys_step s s'
| sys_turn code t s' : run_turn code s = Ret t s' → sys_step s s'
| sys_start s' : Start s = Ret () s' → sys_step s s'
| sys_stop s' : Stop s = Ret () s' → sys_step s s'
| sys_env w' : env_step (es_world s) w' → sys_step s (mkES (es_engine s) w').

(** The matcher of a stock, its queue and its book. *)
Record matcher_ok (own : gmap string ref) (h : heap) (code : string) (m : Matcher) : Prop := {
  mo_code : m_stockCode m = code;
  mo_book_code : ob_stockCode (m_book m) = code;
  mo_book : book_inv h (m_book m);
  mo_exact : book_exact h (m_book m);
  mo_chan : chan_wf (m_ch m);
  mo_queue : ∀ r, r ∈ queued m → ∃ o, h !! r = Some o ∧ order_wf o ∧
    own !! Order.ID o = Some r ∧ Order.StockCode o = code;
  mo_resting : ∀ r, r ∈ refs (resting (m_book m)) →
    owned own h r ∧ Order.StockCode (deref h r) = code;
  mo_nodup : NoDup (queued m ++ refs (resting (m_book m)));
}.

Record sys_inv (own : gmap string ref) (s : estate) : Prop := {
  si_next : ∀ r, is_Some (w_heap (es_world s) !! r) → (r < w_next (es_world s))%nat;
  si_ids : own_ids own (w_heap (es_world s));
  si_uuids : ∀ id, is_Some (own !! id) → ∃ n, (n < w_uuids (es_world s))%nat ∧ id = uuid_NewString n;
  si_trades : trades_ok (es_world s);
  si_trade_ids : ∀ t, t ∈ tr_view (w_trades (es_world s)) →
    is_Some (own !! Trade.BuyOrderID t) ∧ is_Some (own !! Trade.SellOrderID t);
  si_synced : synced_upto own ∅ (w_heap (es_world s)) (w_orders (es_world s));
  si_saved : ∀ id, is_Some (own !! id) → is_Some (or_view (w_orders (es_world s)) !! id);
  si_account : ∀ id p, own !! id = Some p → ∃ o, w_heap (es_world s) !! p = Some o ∧ order_wf o ∧
    Order.FilledQuantity o = traded id (tr_view (w_trades (es_world s)));
  si_bus : bus_open (w_bus (es_world s));
  si_matchers : ∀ code m, e_matchers (es_engine s) !! code = Some m →
    matcher_ok own (w_heap (es_world s)) code m;
  si_open : e_stopped (es_engine s) = false → ∀ code m,
    e_matchers (es_engine s) !! code = Some m → ch_closed (m_ch m) = false;
}.

(** ** Facts about [traded] *)
Lemma traded_app id l1 l2 : traded id (l1 ++ l2) = traded id l1 + traded id l2.
Proof. unfold traded. by rewrite filter_app, sum_by_app. Qed.

Lemma traded_cons id t l :
  traded id (t :: l) =
  (if decide (Trade.BuyOrderID t = id ∨ Trade.SellOrderID t = id) then Trade.Quantity t else 0) +
  traded id l.
Proof. unfold traded. rewrite filter_cons. case_decide; [by rewrite sum_by_cons|done]. Qed.

Lemma traded_anon id l : traded id (anon <$> l) = traded id l.
Proof. induction l as [|t l IH]; [done|]. rewrite fmap_cons, !traded_cons, IH. done. Qed.

Lemma traded_none id l :
  Forall (λ t, Trade.BuyOrderID t ≠ id ∧ Trade.SellOrderID t ≠ id) l → traded id l = 0.
Proof.
  induction 1 as [|t l Ht _ IH]; [done|]. rewrite traded_cons, IH, decide_False by tauto. done.
Qed.

(** The fills of the incoming order, and those of one resting order. *)
Lemma traded_incoming code sv h i fs :
  traded (Order.ID (deref h i)) (fill_trade code sv h i <$> fs) = sum_by f_qty fs.
Proof.
  induction fs as [|f fs IH]; [done|]. rewrite fmap_cons, traded_cons, IH, sum_by_cons.
  rewrite decide_True; [done|]. unfold fill_trade, buyer, seller. simpl.
  destruct (sv_buying sv); auto.
Qed.

Lemma traded_resting code sv own h i p fs :
  owned own h i → owned own h p → p ≠ i → Forall (λ f, owned own h (f_ref f)) fs →
  traded (Order.ID (deref h p)) (fill_trade code sv h i <$> fs) = fill_total p fs.
Proof.
  intros (oi & Hi & Hoi) (op & Hp & Hop) Hne Hfs.
  induction Hfs as [|f fs (x & Hf & Hof) _ IH]; [done|].
  rewrite fmap_cons, traded_cons, IH, fill_total_cons. f_equal.
  assert (Order.ID (deref h p) ≠ Order.ID (deref h i)) as Hni.
  { rewrite (deref_Some _ _ _ Hi), (deref_Some _ _ _ Hp). congruence. }
  assert (Order.ID (deref h (f_ref f)) = Order.ID (deref h p) ↔ f_ref f = p) as Hiff.
  { split; [|by intros ->]. rewrite (deref_Some _ _ _ Hf), (deref_Some _ _ _ Hp). congruence. }
  unfold fill_trade, buyer, seller. simpl.
  destruct (decide (f_ref f = p)) as [He|He].
  - rewrite decide_True; [done|]. rewrite He. destruct (sv_buying sv); auto.
  - rewrite decide_False; [done|]. destruct (sv_buying sv); intros [?|?]; try congruence; tauto.
Qed.

(** ** The parts of the invariant survive changes elsewhere *)
Lemma book_inv_frame h h' ob :
  heap_evolves h h' → (∀ r, r ∈ refs (resting ob) → h' !! r = h !! r) →
  book_inv h ob → book_inv h' ob.
Proof.
  intros Hev Hfr Hinv. destruct ob as [code bids asks index].
  assert (∀ e, e ∈ bids ++ asks → h' !! oe_order e = h !! oe_order e) as He
    by (intros e Hin; apply Hfr, entry_ref_elem; exact Hin).
  apply (book_inv_shrink h h' (mkBook code bids asks index)); try done.
  - pose proof (bi_bids_ok _ _ Hinv) as Hb. simpl in Hb. rewrite Forall_forall in *.
    intros e Hin. eapply entry_ok_frame; [by apply Hb|]. apply He, elem_of_app. auto.
  - pose proof (bi_asks_ok _ _ Hinv) as Ha. simpl in Ha. rewrite Forall_forall in *.
    intros e Hin. eapply entry_ok_frame; [by apply Ha|]. apply He, elem_of_app. auto.
  - rewrite (entry_ids_evolve h h'); [|done|exact (resting_allocated _ _ Hinv)].
    exact (bi_index _ _ Hinv).
Qed.

Lemma book_exact_frame h h' ob :
  (∀ r, r ∈ refs (resting ob) → h' !! r = h !! r) → book_exact h ob → book_exact h' ob.
Proof.
  unfold book_exact. rewrite !Forall_forall. intros Hfr Hex e He.
  rewrite (Hex e He). unfold deref. rewrite Hfr; [done|by apply entry_ref_elem].
Qed.

Lemma matcher_frame own own' h h' code m :
  heap_evolves h h' → own ⊆ own' →
  (∀ r, r ∈ queued m ∨ r ∈ refs (resting (m_book m)) → h' !! r = h !! r) →
  matcher_ok own h code m → matcher_ok own' h' code m.
Proof.
  intros Hev Hsub Hfr [Hc Hbc Hb Hx Hch Hq Hr Hnd]. split; try done.
  - eapply book_inv_frame; [done| |done]. intros r ?. apply Hfr. auto.
  - eapply book_exact_frame; [|done]. intros r ?. apply Hfr. auto.
  - intros r Hin. destruct (Hq r Hin) as (o & Ho & Hwf & Hown & Hsc).
    exists o. rewrite Hfr by auto. split_and!; try done. by eapply lookup_weaken.
  - intros r Hin. destruct (Hr r Hin) as [(o & Ho & Hown) Hsc]. unfold owned, deref in *.
    rewrite Hfr by auto. split; [|done]. exists o. split; [done|]. by eapply lookup_weaken.
Qed.
End System.
