(* ===== verification/SystemProofs.v ===== *)
(** * Every step of the exchange preserves its invariant

    A turn of a matcher, the creation of an order, stopping the engine and
    the rest of the program are treated in turn. *)
From S2P Require Import Prelude GoLib Entity Repository Book BookProofs Matcher MatcherLemmas.
From S2P Require Import MatchSpec MatcherProofs MatcherRefine MatchOrder Engine Validator Services.
From S2P Require Import System.

Section Proofs.
Context {D : Deps} `{!BusLaws BusT} `{!TradeRepositoryLaws TradeRepoT}
        `{!OrderRepositoryLaws OrderRepoT}.
Hypothesis uuid_inj : ∀ m n, uuid_NewString m = uuid_NewString n → m = n.

(** ** A turn of a matcher *)

Lemma match_refs code i o s s' fs es o' r :
  arrival i o s → match_post code i o s s' fs es o' →
  fs = (view_walk (view_of (Order.Sd o)) o s).1 → es = (view_walk (view_of (Order.Sd o)) o s).2 →
  r ∈ refs (resting (ms_book s')) → r = i ∨ r ∈ refs (resting (ms_book s)).
Proof.
  intros Har Hpost -> -> Hr. set (sv := view_of (Order.Sd o)) in *.
  assert (is_view sv) as Hv by apply view_of_is.
  apply list_elem_of_fmap in Hr as (e & -> & He). apply (resting_view sv) in He; [|done].
  destruct He as [He|He].
  - pose proof (mp_opposite _ _ _ _ _ _ _ _ Hpost) as Ho. fold sv in Ho. rewrite Ho in He.
    apply entry_ref_elem, walk_refs_sub in He. apply list_elem_of_fmap in He as (e0 & -> & He0).
    right. apply entry_ref_elem, (resting_view sv); auto.
  - pose proof (mp_own _ _ _ _ _ _ _ _ Hpost) as Ho. cbv zeta in Ho. fold sv in Ho.
    destruct (0 <? _).
    + rewrite (priority_insert_perm _ _ _ _ _ Ho) in He. apply elem_of_cons in He as [->|He]; [by left|].
      right. apply entry_ref_elem, (resting_view sv); auto.
    + rewrite Ho in He. right. apply entry_ref_elem, (resting_view sv); auto.
Qed.

(** The order at the head of a queue arrives at a book that fits. *)
Lemma queue_arrival own s code m i rest c :
  sys_inv own s → e_matchers (es_engine s) !! code = Some m →
  ch_buf (m_ch m) = Some i :: rest → c = mkChan rest (ch_cap (m_ch m)) (ch_closed (m_ch m)) →
  ∃ o, arrival i o (mkMS (m_book m) (es_world s)) ∧ own !! Order.ID o = Some i ∧
    Order.StockCode o = code ∧
    (∀ r, r ∈ queued (mkMatcher code (m_book m) c) → r ∈ queued m ∧ r ≠ i) ∧
    NoDup (queued (mkMatcher code (m_book m) c)) ∧ i ∉ refs (resting (m_book m)).
Proof.
  intros Hinv Hm Hbuf ->. pose proof (si_matchers _ _ Hinv code m Hm) as Hmo.
  assert (queued m = i :: omap (λ x, x) rest) as Hq by (unfold queued; by rewrite Hbuf).
  pose proof (mo_nodup _ _ _ _ Hmo) as Hnd. rewrite Hq in Hnd. simpl in Hnd.
  apply NoDup_cons in Hnd as [Hni Hnd]. rewrite elem_of_app in Hni.
  destruct (mo_queue _ _ _ _ Hmo i) as (o & Ho & Hwf & Hown & Hsc); [rewrite Hq; apply list_elem_of_here|].
  exists o. split_and!; try done.
  - split; simpl; try done; [apply Hmo|apply Hinv| |apply Hinv].
    intros Hin. apply (index_refs _ _ _ (mo_book _ _ _ _ Hmo)) in Hin as (r & Hr & Hid).
    destruct (mo_resting _ _ _ _ Hmo r Hr) as [(x & Hx & Hox) _].
    rewrite (deref_Some _ _ _ Hx) in Hid. rewrite Hid, Hown in Hox. injection Hox as <-. tauto.
  - intros r Hr. unfold queued in Hr. simpl in Hr. rewrite Hq, elem_of_cons. split; [by right|].
    intros ->. tauto.
  - unfold queued. simpl. by apply NoDup_app in Hnd as (? & _ & _).
  - tauto.
Qed.

(** A turn only writes orders of its own stock. *)
Lemma turn_frame own s code m i o s1 fs es o' r :
  sys_inv own s → e_matchers (es_engine s) !! code = Some m →
  arrival i o (mkMS (m_book m) (es_world s)) → 
  match_post code i o (mkMS (m_book m) (es_world s)) s1 fs es o' →
  r ≠ i → r ∉ refs (resting (m_book m)) →
  w_heap (ms_world s1) !! r = w_heap (es_world s) !! r.
Proof.
  intros Hinv Hm Har Hpost Hri Hrr. apply (mp_frame _ _ _ _ _ _ _ _ Hpost); [done|].
  intros Hin. apply Hrr. apply list_elem_of_fmap in Hin as (e & -> & He).
  apply entry_ref_elem. apply (resting_view _ _ _ (view_of_is (Order.Sd o))). by left.
Qed.

Lemma turn_fills_owned own s i o code m s1 o' :
  let sv := view_of (Order.Sd o) in
  let s0 := mkMS (m_book m) (es_world s) in
  sys_inv own s → e_matchers (es_engine s) !! code = Some m → arrival i o s0 →
  match_post code i o s0 s1 (view_walk sv o s0).1 (view_walk sv o s0).2 o' →
  Forall (λ f, owned own (w_heap (es_world s)) (f_ref f)) (view_walk sv o s0).1.
Proof.
  intros sv s0 Hinv Hm Har Hpost. pose proof (si_matchers _ _ Hinv code m Hm) as Hmo.
  pose proof (arrival_loop _ _ _ Har) as Hl. apply Forall_forall. intros f Hf.
  apply (mo_resting _ _ _ _ Hmo).
  assert (0 <= Order.RemainingQuantity o) as Hrem.
  { rewrite remaining_wf by apply Har. pose proof (ar_wf _ _ _ Har) as []. lia. }
  apply (view_walk_refs sv i o) in Hf; [|apply view_of_is|done|done].
  apply list_elem_of_fmap in Hf as (e & -> & He). apply entry_ref_elem.
  apply (resting_view sv); [apply view_of_is|by left].
Qed.

Lemma turn_account own s i o code m s1 o' :
  let sv := view_of (Order.Sd o) in
  let s0 := mkMS (m_book m) (es_world s) in
  sys_inv own s → e_matchers (es_engine s) !! code = Some m →
  arrival i o s0 → own !! Order.ID o = Some i →
  match_post code i o s0 s1 (view_walk sv o s0).1 (view_walk sv o s0).2 o' →
  (∀ id p, own !! id = Some p → ∃ x, w_heap (ms_world s1) !! p = Some x ∧ order_wf x ∧
     Order.FilledQuantity x = traded id (tr_view (w_trades (ms_world s1)))) ∧
  (∀ t, t ∈ tr_view (w_trades (ms_world s1)) →
     is_Some (own !! Trade.BuyOrderID t) ∧ is_Some (own !! Trade.SellOrderID t)).
Proof.
  intros sv s0 Hinv Hm Har Hown Hpost.
  pose proof (si_matchers _ _ Hinv code m Hm) as Hmo.
  pose proof (mp_trades _ _ _ _ _ _ _ _ Hpost) as Htr. simpl in Htr. fold sv in Htr.
  set (fs := (view_walk sv o s0).1) in *. set (h := w_heap (es_world s)) in *.
  pose proof (turn_fills_owned own s i o code m s1 o' Hinv Hm Har Hpost) as Hfso. fold sv s0 fs h in Hfso.
  assert (owned own h i) as Hoi by (exists o; split; [apply (ar_order _ _ _ Har)|done]).
  split.
  - intros id p Hp. destruct (si_account _ _ Hinv id p Hp) as (x & Hx & Hwf & Hacc).
    destruct (si_ids _ _ Hinv id p Hp) as (x' & Hx' & Hid). fold h in Hx, Hx'. simplify_eq.
    rewrite <- traded_anon, Htr, traded_app, traded_anon, <- Hacc.
    destruct (decide (p = i)) as [->|Hne].
    + destruct (mp_incoming _ _ _ _ _ _ _ _ Hpost) as [Ho' Hwf']. exists o'. split_and!; try done.
      pose proof (ar_order _ _ _ Har) as Hio. simpl in Hio. fold h in Hio. simplify_eq.
      rewrite (mp_filled _ _ _ _ _ _ _ _ Hpost). f_equal.
      rewrite <- (deref_Some _ _ _ Hx). by rewrite traded_incoming.
    + destruct (mp_evolves _ _ _ _ _ _ _ _ Hpost p x Hx) as (y & Hy & Hev).
      pose proof (mp_resting _ _ _ _ _ _ _ _ Hpost p Hne) as Hf.
      simpl in Hf. fold h in Hf. rewrite (deref_Some _ _ _ Hx), (deref_Some _ _ _ Hy) in Hf.
      destruct (mp_wf _ _ _ _ _ _ _ _ Hpost p x Hx Hwf) as (y' & Hy' & Hywf). simplify_eq.
      exists y. split_and!; [done|done|].
      rewrite Hf. f_equal. rewrite <- (deref_Some _ _ _ Hx). symmetry.
      apply (traded_resting code sv own h i p fs); [done|by exists x|done..].
  - intros t Ht.
    assert (anon t ∈ anon <$> tr_view (w_trades (ms_world s1))) as Hin
      by (apply list_elem_of_fmap; eauto).
    rewrite Htr, elem_of_app in Hin. destruct Hin as [Hin|Hin].
    + apply list_elem_of_fmap in Hin as (t0 & He & Ht0).
      pose proof (si_trade_ids _ _ Hinv t0 Ht0) as Hids.
      unfold anon in He. injection He as _ Hb Hs _ _ _ _. rewrite Hb, Hs. exact Hids.
    + apply list_elem_of_fmap in Hin as (f & He & Hf).
      rewrite Forall_forall in Hfso. destruct (Hfso f Hf) as (x & Hx & Hox).
      unfold anon, fill_trade in He. injection He as _ Hb Hs _ _ _ _. rewrite Hb, Hs.
      unfold buyer, seller. pose proof (ar_order _ _ _ Har) as Hio. simpl in Hio. fold h in Hio.
      destruct (sv_buying sv); rewrite (deref_Some _ _ _ Hx), (deref_Some _ _ _ Hio); eauto.
Qed.

(** The matcher that took the turn. *)
Lemma turn_matcher own s i o code m s1 o' rest c :
  let sv := view_of (Order.Sd o) in
  let s0 := mkMS (m_book m) (es_world s) in
  sys_inv own s → e_matchers (es_engine s) !! code = Some m →
  ch_buf (m_ch m) = Some i :: rest → c = mkChan rest (ch_cap (m_ch m)) (ch_closed (m_ch m)) →
  arrival i o s0 → own !! Order.ID o = Some i → Order.StockCode o = code →
  (∀ r, r ∈ queued (mkMatcher code (m_book m) c) → r ∈ queued m ∧ r ≠ i) →
  NoDup (queued (mkMatcher code (m_book m) c)) →
  match_post code i o s0 s1 (view_walk sv o s0).1 (view_walk sv o s0).2 o' →
  book_exact (w_heap (ms_world s1)) (ms_book s1) →
  matcher_ok own (w_heap (ms_world s1)) code (mkMatcher code (ms_book s1) c).
Proof.
  intros sv s0 Hinv Hm Hbuf -> Har Hown Hsc Hq Hqnd Hpost Hex.
  pose proof (si_matchers _ _ Hinv code m Hm) as Hmo.
  pose proof (mp_evolves _ _ _ _ _ _ _ _ Hpost) as Hev. simpl in Hev.
  assert (∀ r, r ∈ refs (resting (ms_book s1)) → r = i ∨ r ∈ refs (resting (m_book m))) as Hsub
    by (intros r; exact (match_refs code i o s0 s1 _ _ o' r Har Hpost eq_refl eq_refl)).
  assert (∀ r x, own !! Order.ID x = Some r → w_heap (es_world s) !! r = Some x →
            owned own (w_heap (ms_world s1)) r ∧
            Order.StockCode (deref (w_heap (ms_world s1)) r) = Order.StockCode x) as Hkeep.
  { intros r x Hr Hx. destruct (Hev r x Hx) as (y & Hy & Hid & _ & Hcode & _).
    split; [exists y; by rewrite Hid|]. by rewrite (deref_Some _ _ _ Hy). }
  split; simpl; try done.
  - rewrite (mp_code _ _ _ _ _ _ _ _ Hpost). apply Hmo.
  - apply Hpost.
  - pose proof (mo_chan _ _ _ _ Hmo) as Hc. unfold chan_wf in *. rewrite Hbuf in Hc. simpl in *. lia.
  - intros r Hr. destruct (Hq r Hr) as [Hr' Hri].
    destruct (mo_queue _ _ _ _ Hmo r Hr') as (x & Hx & Hxwf & Hxo & Hxc).
    exists x. split_and!; try done.
    rewrite (turn_frame own s code m i o s1 _ _ o' r Hinv Hm Har Hpost Hri); [done|].
    intros Hin. pose proof (mo_nodup _ _ _ _ Hmo) as Hnd. apply NoDup_app in Hnd as (_ & Hd & _).
    by apply (Hd r).
  - intros r Hr. destruct (Hsub r Hr) as [->|Hin].
    + rewrite <- Hsc. apply Hkeep; [done|apply (ar_order _ _ _ Har)].
    + destruct (mo_resting _ _ _ _ Hmo r Hin) as [(x & Hx & Hxo) Hxc].
      rewrite (deref_Some _ _ _ Hx) in Hxc. rewrite <- Hxc. by apply Hkeep.
  - apply NoDup_app. split_and!; [exact Hqnd| |].
    + intros r Hr Hin. destruct (Hq r Hr) as [Hr' Hri]. destruct (Hsub r Hin) as [->|Hin']; [done|].
      pose proof (mo_nodup _ _ _ _ Hmo) as Hnd. apply NoDup_app in Hnd as (_ & Hd & _).
      by apply (Hd r).
    + exact (resting_refs_nodup _ _ (mp_book _ _ _ _ _ _ _ _ Hpost)).
Qed.

(** The matchers of the other stocks. *)
Lemma turn_others own s i o code m s1 fs es o' code' m' :
  sys_inv own s → e_matchers (es_engine s) !! code = Some m →
  arrival i o (mkMS (m_book m) (es_world s)) → Order.StockCode o = code →
  match_post code i o (mkMS (m_book m) (es_world s)) s1 fs es o' →
  code' ≠ code → e_matchers (es_engine s) !! code' = Some m' →
  matcher_ok own (w_heap (ms_world s1)) code' m'.
Proof.
  intros Hinv Hm Har Hsc Hpost Hne Hm'.
  pose proof (si_matchers _ _ Hinv code m Hm) as Hmo.
  pose proof (si_matchers _ _ Hinv code' m' Hm') as Hmo'.
  apply (matcher_frame own own (w_heap (es_world s))); [apply Hpost|done| |exact Hmo'].
  intros r Hr. assert (∃ x, w_heap (es_world s) !! r = Some x ∧ Order.StockCode x = code') as (x & Hx & Hxc).
  { destruct Hr as [Hr|Hr].
    - destruct (mo_queue _ _ _ _ Hmo' r Hr) as (x & Hx & _ & _ & Hxc). eauto.
    - destruct (mo_resting _ _ _ _ Hmo' r Hr) as [(x & Hx & _) Hxc].
      rewrite (deref_Some _ _ _ Hx) in Hxc. eauto. }
  simpl. apply (turn_frame own s code m i o s1 fs es o' r); try done.
  - intros ->. pose proof (ar_order _ _ _ Har) as Hi. simpl in Hi. congruence.
  - intros Hin. destruct (mo_resting _ _ _ _ Hmo r Hin) as [_ Hc].
    rewrite (deref_Some _ _ _ Hx) in Hc. congruence.
Qed.

(** A nil order is taken and dropped. *)
Lemma drop_nil_inv own s code m rest :
  sys_inv own s → e_matchers (es_engine s) !! code = Some m → ch_buf (m_ch m) = None :: rest →
  sys_inv own (mkES (set_matcher code (mkMatcher (m_stockCode m) (m_book m)
                 (mkChan rest (ch_cap (m_ch m)) (ch_closed (m_ch m)))) (es_engine s)) (es_world s)).
Proof.
  intros Hinv Hm Hbuf. pose proof (si_matchers _ _ Hinv code m Hm) as [H1 H2 H3 H4 H5 H6 H7 H8].
  pose proof (si_open _ _ Hinv) as Hopen. destruct Hinv. split; simpl; try done.
  - apply insert_forall; [|by auto].
    assert (queued (mkMatcher (m_stockCode m) (m_book m)
              (mkChan rest (ch_cap (m_ch m)) (ch_closed (m_ch m)))) = queued m) as Hq
      by (unfold queued; by rewrite Hbuf).
    split; rewrite ?Hq; try done. unfold chan_wf in *. rewrite Hbuf in H5. simpl in *. lia.
  - intros Hst. apply insert_forall; [exact (Hopen Hst code m Hm)|]. intros code' m' _. by apply Hopen.
Qed.

(** A turn that matched an order. *)
Lemma match_turn_inv own s code m i rest o s1 o' :
  let c := mkChan rest (ch_cap (m_ch m)) (ch_closed (m_ch m)) in
  let s0 := mkMS (m_book m) (es_world s) in
  sys_inv own s → e_matchers (es_engine s) !! code = Some m → ch_buf (m_ch m) = Some i :: rest →
  arrival i o s0 → own !! Order.ID o = Some i → Order.StockCode o = code →
  (∀ r, r ∈ queued (mkMatcher code (m_book m) c) → r ∈ queued m ∧ r ≠ i) →
  NoDup (queued (mkMatcher code (m_book m) c)) →
  matchOrder code i s0 = Ret () s1 →
  match_post code i o s0 s1 (view_walk (view_of (Order.Sd o)) o s0).1 (view_walk (view_of (Order.Sd o)) o s0).2 o' →
  sys_inv own (mkES (set_matcher code (mkMatcher code (ms_book s1) c) (es_engine s)) (ms_world s1)).
Proof.
  intros c s0 Hinv Hm Hbuf Har Hown Hsc Hq Hqnd Hrun Hpost.
  pose proof (si_matchers _ _ Hinv code m Hm) as Hmo.
  assert (sync_inv own i s0) as Hsy.
  { split; [apply Hinv|apply Hinv|]. simpl. intros p [->|Hp].
    - exists o. split; [apply (ar_order _ _ _ Har)|done].
    - by apply (mo_resting _ _ _ _ Hmo). }
  destruct (matchOrder_sync uuid_inj code own i o _ s1 Har Hsy Hrun) as [Hids Hsync].
  pose proof (matchOrder_exact uuid_inj code i o _ s1 Har (mo_exact _ _ _ _ Hmo) Hrun) as Hex.
  destruct (turn_account own s i o code m s1 o' Hinv Hm Har Hown Hpost) as [Hacc Htids].
  pose proof (turn_matcher own s i o code m s1 o' rest _ Hinv Hm Hbuf eq_refl Har Hown Hsc Hq Hqnd
                Hpost Hex) as Hmine.
  destruct (matchOrder_stored uuid_inj code i o _ s1 Har (proj1 (si_synced _ _ Hinv)) Hrun)
    as [_ Hstored].
  split; simpl; try done.
  - intros r Hr. rewrite (mp_next _ _ _ _ _ _ _ _ Hpost). simpl. apply (si_next _ _ Hinv).
    destruct (decide (r = i)) as [->|Hri]; [exists o; apply (ar_order _ _ _ Har)|].
    destruct (decide (r ∈ refs (resting (m_book m)))) as [Hin|Hout].
    + destruct (mo_resting _ _ _ _ Hmo r Hin) as [(x & Hx & _) _]. eauto.
    + destruct Hr as [x Hx]. exists x. etransitivity; [symmetry|exact Hx].
      exact (turn_frame own s code m i o s1 _ _ o' r Hinv Hm Har Hpost Hri Hout).
  - intros id Hid. destruct (si_uuids _ _ Hinv id Hid) as (n & Hn & ->). exists n.
    pose proof (mp_uuids _ _ _ _ _ _ _ _ Hpost) as Hu. simpl in Hu. split; [lia|done].
  - apply Hpost.
  - intros id Hid. apply Hstored. by apply (si_saved _ _ Hinv).
  - apply Hpost.
  - apply insert_forall; [done|]. intros code' m' Hne. by eapply turn_others.
  - intros Hst. pose proof (si_open _ _ Hinv Hst) as Hopen.
    apply insert_forall; [exact (Hopen code m Hm)|]. intros code' m' _. apply Hopen.
Qed.

Lemma run_turn_inv own code s :
  sys_inv own s → ∃ t s', run_turn code s = Ret t s' ∧ sys_inv own s'.
Proof.
  intros Hinv. unfold run_turn.
  destruct (e_matchers (es_engine s) !! code) as [m|] eqn:Hm; [|eauto].
  pose proof (si_matchers _ _ Hinv code m Hm) as Hmo.
  unfold chan_recv. destruct (ch_buf (m_ch m)) as [|[i|] rest] eqn:Hbuf;
    [destruct (ch_closed (m_ch m)); eauto| |].
  - rewrite (mo_code _ _ _ _ Hmo).
    destruct (queue_arrival own s code m i rest _ Hinv Hm Hbuf eq_refl)
      as (o & Har & Hown & Hsc & Hq & Hqnd & Hni).
    destruct (matchOrder_spec uuid_inj code i o _ Har) as (s1 & o' & Hrun & Hpost).
    rewrite Hrun. eexists _, _. split; [done|]. by eapply match_turn_inv.
  - eexists _, _. split; [done|]. by apply drop_nil_inv.
Qed.

(** ** The creation of an order *)

Definition new_order (user : string) (req : CreateOrderRequest.t) (w : world) : Order.t :=
  Order.mk (uuid_NewString (w_uuids w)) user (CreateOrderRequest.StockCode req)
    (CreateOrderRequest.Sd req) (CreateOrderRequest.Price req) (CreateOrderRequest.Quantity req)
    0 OrderStatusOpen (time_Now (w_ticks w)) (time_Now (w_ticks w)).

Lemma new_order_wf user req w : request_valid req → order_wf (new_order user req w).
Proof.
  intros [_ Hsd Hp Hq]. unfold MinPrice, MaxPrice, MinQuantity, MaxQuantity in *.
  split; simpl; try done; [i64_lia|i64_lia|lia|].
  unfold order_status_of. destruct (Z.geb_spec 0 (CreateOrderRequest.Quantity req)); [lia|done].
Qed.

(** The heap with the order and its snapshot. *)
Definition heap_with (w : world) (o : Order.t) : heap :=
  <[S (w_next w) := o]> (<[w_next w := o]> (w_heap w)).

Lemma heap_with_old own s o r :
  sys_inv own s → is_Some (w_heap (es_world s) !! r) →
  heap_with (es_world s) o !! r = w_heap (es_world s) !! r.
Proof.
  intros Hinv Hr. pose proof (si_next _ _ Hinv r Hr). unfold heap_with.
  rewrite !lookup_insert_ne by lia. done.
Qed.

Lemma heap_with_evolves own s o :
  sys_inv own s → heap_evolves (w_heap (es_world s)) (heap_with (es_world s) o).
Proof.
  intros Hinv r x Hx. exists x. rewrite (heap_with_old own) by eauto. split; [done|reflexivity].
Qed.

Lemma heap_with_new w o : heap_with w o !! w_next w = Some o.
Proof. unfold heap_with. rewrite lookup_insert_ne by lia. apply lookup_insert_eq. Qed.

Lemma id_unused own s : sys_inv own s → own !! uuid_NewString (w_uuids (es_world s)) = None.
Proof.
  intros Hinv. destruct (own !! uuid_NewString (w_uuids (es_world s))) eqn:Ho; [|done].
  destruct (si_uuids _ _ Hinv _ ltac:(eauto)) as (n & Hn & He). apply uuid_inj in He. lia.
Qed.

Lemma own_allocated own s id p :
  sys_inv own s → own !! id = Some p → is_Some (w_heap (es_world s) !! p).
Proof. intros Hinv Hp. destruct (si_ids _ _ Hinv _ _ Hp) as (x & Hx & _). eauto. Qed.

Lemma heap_with_next own s o r :
  sys_inv own s → is_Some (heap_with (es_world s) o !! r) → (r < S (S (w_next (es_world s))))%nat.
Proof.
  unfold heap_with. intros Hinv Hr. destruct (decide (r = S (w_next (es_world s)))) as [->|H1]; [lia|].
  destruct (decide (r = w_next (es_world s))) as [->|H2]; [lia|].
  rewrite !lookup_insert_ne in Hr by done. pose proof (si_next _ _ Hinv r Hr). lia.
Qed.

Lemma saved_view own s o r1 :
  sys_inv own s → or_Save o (w_orders (es_world s)) = (r1, None) →
  or_inv r1 ∧ or_view r1 = <[Order.ID o := o]> (or_view (w_orders (es_world s))).
Proof.
  intros Hinv Hsave. destruct (si_synced _ _ Hinv) as [Hor _].
  pose proof (or_Save_law o (w_orders (es_world s)) Hor) as Hlaw.
  destruct (or_view (w_orders (es_world s)) !! Order.ID o) as [x|].
  - rewrite Hlaw in Hsave. discriminate Hsave.
  - destruct Hlaw as (r' & Hr' & Hor' & Hview). rewrite Hsave in Hr'. by injection Hr' as <-.
Qed.

(** Saving a fresh order and allocating it and its snapshot. *)
Lemma saved_inv own s o w1 r1 :
  sys_inv own s → order_wf o → Order.ID o = uuid_NewString (w_uuids (es_world s)) →
  Order.FilledQuantity o = 0 →
  or_Save o (w_orders (es_world s)) = (r1, None) →
  w_heap w1 = heap_with (es_world s) o → w_next w1 = S (S (w_next (es_world s))) →
  w_orders w1 = r1 → w_trades w1 = w_trades (es_world s) → w_bus w1 = w_bus (es_world s) →
  w_uuids w1 = S (w_uuids (es_world s)) →
  sys_inv (<[Order.ID o := w_next (es_world s)]> own) (mkES (es_engine s) w1).
Proof.
  intros Hinv Hwf Hid Hf Hsave Hh Hn Ho Ht Hb Hu. pose proof (id_unused own s Hinv) as Hnone.
  rewrite <- Hid in Hnone. set (own' := <[Order.ID o := w_next (es_world s)]> own).
  assert (own ⊆ own') as Hsub by (by apply insert_subseteq).
  pose proof (heap_with_evolves own s o Hinv) as Hev.
  destruct (si_synced _ _ Hinv) as [_ Hsync]. destruct (saved_view own s o r1 Hinv Hsave) as [Hor' Hview].
  split; simpl; rewrite ?Hh, ?Hn, ?Ho, ?Ht, ?Hb, ?Hu.
  - intros r. by apply (heap_with_next own).
  - unfold own_ids, own'. apply insert_forall; [exists o; by rewrite heap_with_new|]. intros id p _.
    by apply (own_ids_evolves _ _ _ Hev (si_ids _ _ Hinv)).
  - intros id. unfold own'. destruct (decide (id = Order.ID o)) as [->|Hne].
    + intros _. exists (w_uuids (es_world s)). split; [lia|done].
    + rewrite lookup_insert_ne by done. intros Hin.
      destruct (si_uuids _ _ Hinv id Hin) as (n & Hn' & ->). exists n. split; [lia|done].
  - destruct (si_trades _ _ Hinv) as [Htr Hids]. split; rewrite ?Ht, ?Hu; [done|].
    intros t Hin. destruct (Hids t Hin) as (n & Hn' & He). exists n. split; [lia|done].
  - intros t Hin. destruct (si_trade_ids _ _ Hinv t Hin) as [H1 H2].
    split; eapply lookup_weaken_is_Some; done.
  - split; [done|]. intros id y. rewrite Hview. unfold own'.
    destruct (decide (id = Order.ID o)) as [->|Hne].
    + rewrite !lookup_insert_eq. intros [= <-]. exists (w_next (es_world s)), o.
      rewrite heap_with_new. split_and!; try done.
    + rewrite !lookup_insert_ne by done. intros Hy.
      destruct (Hsync id y Hy) as (p & z & Hp & Hz & Hyz). exists p, z.
      rewrite (heap_with_old own) by eauto. exact (conj Hp (conj Hz Hyz)).
  - intros id. unfold own'. rewrite Hview. destruct (decide (id = Order.ID o)) as [->|Hne].
    + rewrite !lookup_insert_eq. by eexists.
    + rewrite !lookup_insert_ne by done. apply (si_saved _ _ Hinv).
  - unfold own'. apply insert_forall.
    + exists o. rewrite heap_with_new. split_and!; try done.
      rewrite Hf, traded_none; [done|]. apply Forall_forall. intros t Hin.
      destruct (si_trade_ids _ _ Hinv t Hin) as [[p1 H1] [p2 H2]]. split; congruence.
    + intros id p _ Hp. destruct (si_account _ _ Hinv id p Hp) as (x & Hxp & Hxw & Hacc). exists x.
      rewrite (heap_with_old own) by eauto. done.
  - apply Hinv.
  - clear Hsave. intros code m Hm. pose proof (si_matchers _ _ Hinv code m Hm) as Hmo.
    apply (matcher_frame own own' (w_heap (es_world s))); [done|done| |done].
    intros r [Hr|Hr]; apply (heap_with_old own); try done.
    + destruct (mo_queue _ _ _ _ Hmo r Hr) as (x & Hx' & _). eauto.
    + destruct (mo_resting _ _ _ _ Hmo r Hr) as [(x & Hx' & _) _]. eauto.
  - apply (si_open _ _ Hinv).
Qed.

(** Queueing an order no matcher knows yet. *)
Lemma submit_inv own s r o e s' :
  sys_inv own s → w_heap (es_world s) !! r = Some o → order_wf o → own !! Order.ID o = Some r →
  (∀ m, e_matchers (es_engine s) !! Order.StockCode o = Some m →
     (r ∉ queued m) ∧ (r ∉ refs (resting (m_book m)))) →
  SubmitOrder r s = Ret e s' → sys_inv own s' ∧ es_world s' = es_world s.
Proof.
  intros Hinv Hr Hwf Hown Hfresh. unfold SubmitOrder. rewrite (deref_Some _ _ _ Hr).
  destruct (e_matchers (es_engine s) !! Order.StockCode o) as [m|] eqn:Hm; [|by intros [= _ <-]].
  destruct (Hfresh m eq_refl) as [Hq Hb]. unfold submit.
  destruct (chan_try_send (Some r) (m_ch m)) as [[[|] c]|] eqn:Hc; [| |done]; [|by intros [= _ <-]].
  intros [= _ <-]. split; [|done]. pose proof (si_matchers _ _ Hinv) as Hms.
  destruct (chan_try_send_buf _ _ _ _ Hc) as (_ & Hcl & _ & Hbuf).
  pose proof (si_open _ _ Hinv) as Hopen. destruct Hinv. split; simpl; try done; cycle 1.
  { intros Hst code' m'. destruct (decide (code' = Order.StockCode o)) as [->|Hne];
      [rewrite lookup_insert_eq; by intros [= <-]|rewrite lookup_insert_ne by done; by apply Hopen]. }
  intros code' m'. destruct (decide (code' = Order.StockCode o)) as [->|Hne];
    [rewrite lookup_insert_eq; intros [= <-]|rewrite lookup_insert_ne by done; auto].
  destruct (Hms _ m Hm) as [H1 H2 H3 H4 H5 H6 H7 H8].
  assert (queued (mkMatcher (m_stockCode m) (m_book m) c) = queued m ++ [r]) as Hqq.
  { unfold queued. simpl. by rewrite Hbuf, omap_app. }
  split; simpl; rewrite ?Hqq; try done.
  - by eapply chan_try_send_wf.
  - intros x. rewrite elem_of_snoc. intros [Hx| ->]; [by apply H6|]. by exists o.
  - rewrite <- app_assoc. apply NoDup_app in H8 as (Hn1 & Hn2 & Hn3). apply NoDup_app. split_and!.
    + done.
    + intros x Hx. rewrite elem_of_app, list_elem_of_singleton. intros [->|Hx']; [done|].
      by apply (Hn2 x).
    + simpl. by apply NoDup_cons.
Qed.

Definition saved_world (w : world) (o : Order.t) (r1 : OrderRepoT) : world :=
  mkWorld (heap_with w o) (S (S (w_next w))) r1 (w_trades w) (w_market w) (w_bus w)
    (S (w_uuids w)) (S (w_ticks w)).

(** [CreateOrder] up to the call of the engine. *)
Lemma CreateOrder_unfold user req s :
  let w := es_world s in let o := new_order user req w in
  OrderService.CreateOrder SubmitOrder user req s =
  match or_Save o (w_orders w) with
  | (r1, Some e) => Ret (inl e) (mkES (es_engine s)
      (mkWorld (<[w_next w := o]> (w_heap w)) (S (w_next w)) r1 (w_trades w) (w_market w) (w_bus w)
         (S (w_uuids w)) (S (w_ticks w))))
  | (r1, None) =>
      (err ← SubmitOrder (w_next w);
       match err with
       | Some _ => mret (inr (S (w_next w)))
       | None => on_eworld (publish (Event.mk OrderCreated (Order.StockCode o) (Order.UserID o)
                   (POrder (S (w_next w))) (time_Now (w_ticks w))));; mret (inr (S (w_next w)))
       end) (mkES (es_engine s) (saved_world w o r1))
  end.
Proof.
  intros w o. unfold OrderService.CreateOrder, on_shared, estate_HasWorld, on_eworld, now, newUUID, alloc, load, save_order,
    call_orders. unfold mbind, M_bind, mret, M_ret. simpl.
  unfold deref at 1. simpl. rewrite lookup_insert_eq. simpl. fold w. fold (new_order user req w).
  fold o. destruct (or_Save o (w_orders w)) as [r1 [e|]]; simpl; [done|].
  unfold deref. rewrite lookup_insert_eq. done.
Qed.

Lemma fresh_unknown own s code m :
  sys_inv own s → e_matchers (es_engine s) !! code = Some m →
  (w_next (es_world s) ∉ queued m) ∧ (w_next (es_world s) ∉ refs (resting (m_book m))).
Proof.
  intros Hinv Hm. pose proof (si_matchers _ _ Hinv code m Hm) as Hmo. split; intros Hin.
  - destruct (mo_queue _ _ _ _ Hmo _ Hin) as (o & Ho & _).
    pose proof (si_next _ _ Hinv _ (ltac:(eauto) : is_Some (w_heap (es_world s) !! w_next (es_world s)))). lia.
  - destruct (mo_resting _ _ _ _ Hmo _ Hin) as [(o & Ho & _) _].
    pose proof (si_next _ _ Hinv _ (ltac:(eauto) : is_Some (w_heap (es_world s) !! w_next (es_world s)))). lia.
Qed.

(** A fresh order is always saved. *)
Lemma fresh_saved own s o :
  sys_inv own s → Order.ID o = uuid_NewString (w_uuids (es_world s)) →
  ∃ r1, or_Save o (w_orders (es_world s)) = (r1, None).
Proof.
  intros Hinv Hid. destruct (si_synced _ _ Hinv) as [Hor Hsync].
  pose proof (or_Save_law o (w_orders (es_world s)) Hor) as Hlaw.
  destruct (or_view (w_orders (es_world s)) !! Order.ID o) as [x|] eqn:Hx.
  - destruct (Hsync _ _ Hx) as (p & _ & Hp & _). rewrite Hid, (id_unused own s Hinv) in Hp. done.
  - destruct Hlaw as (r' & Hr' & _). eauto.
Qed.

Lemma sys_inv_bus own s b :
  sys_inv own s → bus_open b → sys_inv own (mkES (es_engine s) (set_bus b (es_world s))).
Proof. intros [] Hb. split; simpl; done. Qed.

Lemma CreateOrder_inv own user req s r s' :
  sys_inv own s → request_valid req →
  OrderService.CreateOrder SubmitOrder user req s = Ret r s' → ∃ own', sys_inv own' s' ∧ own ⊆ own'.
Proof.
  intros Hinv Hreq Hrun. set (w := es_world s) in *. set (o := new_order user req w).
  destruct (fresh_saved own s o Hinv eq_refl) as [r1 Hsave].
  rewrite CreateOrder_unfold in Hrun. cbv zeta in Hrun. fold w o in Hrun, Hsave.
  rewrite Hsave in Hrun.
  set (own' := <[Order.ID o := w_next w]> own).
  assert (sys_inv own' (mkES (es_engine s) (saved_world w o r1))) as Hinv'
    by (eapply saved_inv; try done; by apply new_order_wf).
  assert (own ⊆ own') as Hsub by (apply insert_subseteq, (id_unused own s Hinv)).
  exists own'. split; [|done]. unfold mbind, M_bind in Hrun.
  destruct (SubmitOrder (w_next w) (mkES (es_engine s) (saved_world w o r1))) as [e s1|?|] eqn:Hsub';
    [|done|done].
  destruct (submit_inv own' _ (w_next w) o e s1 Hinv') as [Hinv1 Hw1]; try done.
  - apply heap_with_new.
  - by apply new_order_wf.
  - unfold own'. apply lookup_insert_eq.
  - intros m Hm. simpl in Hm. by apply (fresh_unknown own s (Order.StockCode o) m).
  - destruct e as [e|]; [by injection Hrun as _ <-|].
    unfold on_eworld, publish in Hrun. rewrite Hw1 in Hrun. simpl in Hrun.
    edestruct (bus_open_publish) as (b' & Hp & Hb'); [exact (si_bus _ _ Hinv)|].
    fold w in Hp. rewrite Hp in Hrun. injection Hrun as _ <-.
    pose proof (sys_inv_bus _ _ b' Hinv1 Hb') as Hres. by rewrite Hw1 in Hres.
Qed.

(** ** Stopping *)
Lemma close_one own s code m c :
  sys_inv own s → e_stopped (es_engine s) = true → e_matchers (es_engine s) !! code = Some m → chan_close (m_ch m) = Some c →
  sys_inv own (mkES (set_matcher code (mkMatcher (m_stockCode m) (m_book m) c) (es_engine s)) (es_world s)).
Proof.
  intros Hinv Hst Hm Hc. pose proof (si_matchers _ _ Hinv) as Hms.
  destruct Hinv. split; simpl; try (done || congruence).
  intros code' m'. destruct (decide (code' = code)) as [->|Hne];
    [rewrite lookup_insert_eq; intros [= <-]|rewrite lookup_insert_ne by done; auto].
  unfold chan_close in Hc. destruct (ch_closed (m_ch m)); [done|]. injection Hc as <-.
  destruct (Hms _ _ Hm) as [H1 H2 H3 H4 H5 H6 H7 H8]. by split.
Qed.

Lemma close_all_inv own l s s' :
  NoDup l.*1 → (∀ code m, (code, m) ∈ l → e_matchers (es_engine s) !! code = Some m) →
  e_stopped (es_engine s) = true → sys_inv own s → close_all l s = Ret () s' → sys_inv own s'.
Proof.
  revert s. induction l as [|[code m] l IH]; intros s Hnd Hl Hst Hinv Hrun.
  { by injection Hrun as <-. }
  rewrite fmap_cons in Hnd. apply NoDup_cons in Hnd as [Hni Hnd]. simpl in Hrun, Hni.
  assert (e_matchers (es_engine s) !! code = Some m) as Hm by (apply Hl, list_elem_of_here).
  destruct (chan_close (m_ch m)) as [c|] eqn:Hc; [|done].
  unfold mbind, M_bind, modify in Hrun.
  refine (IH _ Hnd _ _ (close_one own s code m c Hinv Hst Hm Hc) Hrun); [|exact Hst].
  intros code' m' Hin. simpl. rewrite lookup_insert_ne; [by apply Hl, list_elem_of_further|].
  intros ->. apply Hni, list_elem_of_fmap. by exists (code', m').
Qed.

Lemma run_inv own fuel code s t s' :
  sys_inv own s → run fuel code s = Ret t s' → sys_inv own s'.
Proof.
  revert s. induction fuel as [|fuel IH]; intros s Hinv Hrun; [done|]. simpl in Hrun.
  destruct (run_turn_inv own code s Hinv) as (t1 & s1 & Ht & Hinv1).
  unfold mbind, M_bind in Hrun. rewrite Ht in Hrun.
  destruct t1; [by eapply IH|by injection Hrun as _ <-..].
Qed.

Lemma drain_all_inv own codes s s' :
  sys_inv own s → drain_all codes s = Ret () s' → sys_inv own s'.
Proof.
  revert s. induction codes as [|code codes IH]; intros s Hinv Hrun.
  { by injection Hrun as <-. }
  simpl in Hrun. unfold get in Hrun. unfold mbind, M_bind in Hrun.
  destruct (run (queue_fuel code s) code s) as [t s1|?|] eqn:Ht; [|done|done].
  eapply IH; [|exact Hrun]. by eapply run_inv.
Qed.

Lemma sys_inv_flags own s st sp :
  sys_inv own s → (sp = false → e_stopped (es_engine s) = false) →
  sys_inv own (mkES (mkEngine (e_matchers (es_engine s)) st sp) (es_world s)).
Proof.
  intros Hinv Hsp. pose proof (si_open _ _ Hinv) as Hopen. destruct Hinv.
  split; simpl; try done. intros ->. by apply Hopen, Hsp.
Qed.

Lemma Stop_inv own s s' : sys_inv own s → Stop s = Ret () s' → sys_inv own s'.
Proof.
  intros Hinv. unfold Stop, get, modify. unfold mbind, M_bind.
  destruct (e_stopped (es_engine s)); [by intros [= <-]|]. simpl.
  set (s0 := mkES _ _). assert (sys_inv own s0) as Hinv0 by (by apply sys_inv_flags).
  destruct (close_all _ s0) as [[] s1|?|] eqn:Hc; [|done|done]. intros Hrun.
  assert (sys_inv own s1) as Hinv1.
  { eapply (close_all_inv own _ s0); [apply NoDup_fst_map_to_list| |reflexivity|exact Hinv0|exact Hc].
    intros code m Hin. by apply elem_of_map_to_list in Hin. }
  destruct (e_started _); [|by injection Hrun as <-]. by eapply drain_all_inv.
Qed.

(** ** [Stop] terminates and drains *)
Definition channels_closed (s : estate) : Prop :=
  ∀ code m, e_matchers (es_engine s) !! code = Some m → ch_closed (m_ch m) = true.
Definition drained (code : string) (s : estate) : Prop :=
  ∀ m, e_matchers (es_engine s) !! code = Some m → ch_buf (m_ch m) = [].

Lemma run_turn_shape own code s m :
  sys_inv own s → e_matchers (es_engine s) !! code = Some m → ch_closed (m_ch m) = true →
  match ch_buf (m_ch m) with
  | [] => run_turn code s = Ret TurnExit s
  | _ :: rest => ∃ s' m', run_turn code s = Ret TurnDone s' ∧
      e_matchers (es_engine s') = <[code := m']> (e_matchers (es_engine s)) ∧
      e_stopped (es_engine s') = e_stopped (es_engine s) ∧ ch_buf (m_ch m') = rest ∧ ch_closed (m_ch m') = true
  end.
Proof.
  intros Hinv Hm Hc. pose proof (run_turn_inv own code s Hinv) as (t & s' & Hrun & _).
  unfold run_turn in *. rewrite Hm in *. unfold chan_recv in *.
  destruct (ch_buf (m_ch m)) as [|[i|] rest]; [by rewrite Hc| |].
  - destruct (matchOrder _ _ _) as [[] ms|e ms|]; [|done|done].
    eexists _, _. split; [done|]. simpl. by split_and!.
  - eexists _, _. split; [done|]. simpl. by split_and!.
Qed.

Lemma run_drains own fuel code s m :
  sys_inv own s → e_matchers (es_engine s) !! code = Some m → channels_closed s →
  (length (ch_buf (m_ch m)) < fuel)%nat →
  ∃ s', run fuel code s = Ret TurnExit s' ∧ sys_inv own s' ∧ channels_closed s' ∧ drained code s' ∧
    e_stopped (es_engine s') = e_stopped (es_engine s) ∧
    ∀ code', drained code' s → drained code' s'.
Proof.
  revert s m. induction fuel as [|fuel IH]; intros s m Hinv Hm Hcl Hf; [lia|].
  pose proof (run_turn_shape own code s m Hinv Hm (Hcl _ _ Hm)) as Hshape.
  simpl. unfold mbind, M_bind.
  destruct (ch_buf (m_ch m)) as [|x rest] eqn:Hbuf.
  { rewrite Hshape. exists s. split_and!; try done. intros m' Hm'. by simplify_eq. }
  destruct Hshape as (s1 & m1 & Hrun & Hms & Hsp & Hb1 & Hc1). rewrite Hrun.
  destruct (run_turn_inv own code s Hinv) as (t & s1' & Hrun' & Hinv1).
  rewrite Hrun in Hrun'. injection Hrun' as <- <-.
  destruct (IH s1 m1) as (s' & Hr & Hi & Hc' & Hd & Hsp' & Hk); try done.
  - rewrite Hms. apply lookup_insert_eq.
  - intros code' m'. rewrite Hms. destruct (decide (code' = code)) as [->|Hne].
    + rewrite lookup_insert_eq. by intros [= <-].
    + rewrite lookup_insert_ne by done. apply Hcl.
  - rewrite Hb1. simpl in Hf. lia.
  - exists s'. split_and!; try done; [congruence|]. intros code' Hd'. apply Hk. intros m'. rewrite Hms.
    destruct (decide (code' = code)) as [->|Hne].
    + specialize (Hd' m Hm). by rewrite Hbuf in Hd'.
    + rewrite lookup_insert_ne by done. apply Hd'.
Qed.

Lemma drain_all_total own codes s :
  sys_inv own s → channels_closed s →
  ∃ s', drain_all codes s = Ret () s' ∧ sys_inv own s' ∧ channels_closed s' ∧
    e_stopped (es_engine s') = e_stopped (es_engine s) ∧
    (∀ code, code ∈ codes → drained code s') ∧ (∀ code, drained code s → drained code s').
Proof.
  revert s. induction codes as [|code codes IH]; intros s Hinv Hcl.
  { exists s. split_and!; try done. by intros code ?%elem_of_nil. }
  simpl. unfold get. unfold mbind, M_bind, queue_fuel.
  assert (∃ t s1, run (match e_matchers (es_engine s) !! code with
                      | Some m => S (length (ch_buf (m_ch m))) | None => 1%nat end) code s = Ret t s1 ∧
            sys_inv own s1 ∧ channels_closed s1 ∧ drained code s1 ∧
            e_stopped (es_engine s1) = e_stopped (es_engine s) ∧ ∀ code', drained code' s → drained code' s1)
    as (t & s1 & Hrun & Hinv1 & Hcl1 & Hd1 & Hsp1 & Hk1).
  { destruct (e_matchers (es_engine s) !! code) as [m|] eqn:Hm.
    - destruct (run_drains own (S (length (ch_buf (m_ch m)))) code s m) as (s1 & Hs1); [done..|lia|].
      destruct Hs1. eauto.
    - exists TurnExit, s. simpl. unfold mbind, M_bind, run_turn. rewrite Hm. split_and!; try done.
      intros m Hm'. congruence. }
  rewrite Hrun. destruct (IH s1 Hinv1 Hcl1) as (s' & Hr & Hi & Hcl' & Hsp' & Hd & Hk).
  exists s'. split_and!; try done; [congruence| |auto].
  intros code' [->|Hin]%elem_of_cons; auto.
Qed.

Lemma close_all_total l s :
  NoDup l.*1 → (∀ code m, (code, m) ∈ l → e_matchers (es_engine s) !! code = Some m) →
  (∀ code m, (code, m) ∈ l → ch_closed (m_ch m) = false) →
  ∃ s', close_all l s = Ret () s' ∧ e_stopped (es_engine s') = e_stopped (es_engine s) ∧
    (∀ code m, e_matchers (es_engine s') !! code = Some m →
       code ∈ l.*1 ∧ ch_closed (m_ch m) = true ∨ e_matchers (es_engine s) !! code = Some m) ∧
    (∀ code, code ∈ l.*1 → ∀ m, e_matchers (es_engine s') !! code = Some m → ch_closed (m_ch m) = true).
Proof.
  revert s. induction l as [|[code m] l IH]; intros s Hnd Hl Hop.
  { exists s. split_and!; try done; [by right|]. by intros code ?%elem_of_nil. }
  rewrite fmap_cons in Hnd. apply NoDup_cons in Hnd as [Hni Hnd]. simpl in Hni.
  simpl. unfold chan_close. rewrite (Hop code m) by apply list_elem_of_here.
  unfold mbind, M_bind, modify.
  match goal with |- context [close_all l ?s1] => set (s1' := s1) end.
  destruct (IH s1' Hnd) as (s' & Hr & Hw & Hcases & Hall).
  { intros code' m' Hin. simpl. rewrite lookup_insert_ne; [by apply Hl, list_elem_of_further|].
    intros ->. apply Hni, list_elem_of_fmap. by exists (code', m'). }
  { intros code' m' Hin. by eapply Hop, list_elem_of_further. }
  exists s'. split_and!; [done|done| |].
  - intros code' m' Hm'. destruct (Hcases code' m' Hm') as [[Hin Hc]|Hm1].
    + left. split; [by apply list_elem_of_further|done].
    + simpl in Hm1. destruct (decide (code' = code)) as [->|Hne].
      * rewrite lookup_insert_eq in Hm1. injection Hm1 as <-. left. split; [apply list_elem_of_here|done].
      * rewrite lookup_insert_ne in Hm1 by done. by right.
  - intros code' [->|Hin]%elem_of_cons m' Hm'; [|by eapply Hall].
    destruct (Hcases code m' Hm') as [[Hin _]|Hm1]; [done|].
    simpl in Hm1. rewrite lookup_insert_eq in Hm1. by injection Hm1 as <-.
Qed.

Lemma Stop_total own s :
  sys_inv own s → e_stopped (es_engine s) = false → e_started (es_engine s) = true →
  ∃ s', Stop s = Ret () s' ∧ sys_inv own s' ∧ (∀ code, drained code s') ∧ channels_closed s' ∧
    e_stopped (es_engine s') = true.
Proof.
  intros Hinv Hst Hsd. unfold Stop, get, modify. unfold mbind, M_bind. rewrite Hst. simpl.
  set (l := map_to_list (e_matchers (es_engine s))).
  set (s0 := mkES (mkEngine (e_matchers (es_engine s)) (e_started (es_engine s)) true) (es_world s)).
  assert (sys_inv own s0) as Hinv0 by (by apply sys_inv_flags).
  assert (∀ code m, (code, m) ∈ l → e_matchers (es_engine s) !! code = Some m) as Hl
    by (intros code m Hin; by apply elem_of_map_to_list in Hin).
  destruct (close_all_total l s0) as (s1 & Hc & Hsp1 & Hcases & Hall).
  { apply NoDup_fst_map_to_list. }
  { exact Hl. }
  { intros code m Hin. by apply (si_open _ _ Hinv Hst code m), Hl. }
  rewrite Hc, Hsd.
  assert (sys_inv own s1) as Hinv1
    by (eapply (close_all_inv own l s0); [apply NoDup_fst_map_to_list|exact Hl|reflexivity|done|done]).
  assert (∀ code m, e_matchers (es_engine s1) !! code = Some m → code ∈ l.*1) as Hin1.
  { intros code m Hm. destruct (Hcases code m Hm) as [[? _]|Hm0]; [done|].
    apply list_elem_of_fmap. exists (code, m). split; [done|]. by apply elem_of_map_to_list. }
  destruct (drain_all_total own l.*1 s1 Hinv1) as (s' & Hr & Hi & Hcl & Hsp & Hd & Hk).
  { intros code m Hm. eapply Hall; [|done]. by eapply Hin1. }
  exists s'. split_and!; [done|done| |done|by rewrite Hsp]. intros code.
  destruct (e_matchers (es_engine s1) !! code) as [m|] eqn:Hm; [by eapply Hd, Hin1|].
  apply Hk. intros m Hm'. congruence.
Qed.

(** ** Every step *)
Lemma env_inv own s w' : sys_inv own s → env_step (es_world s) w' → sys_inv own (mkES (es_engine s) w').
Proof.
  intros Hinv [Hh Hn Ho Ht Hu Hb]. pose proof (si_uuids _ _ Hinv) as Huu.
  pose proof (si_trades _ _ Hinv) as [Hi Hids].
  destruct Hinv. split; simpl; rewrite ?Hh, ?Hn, ?Ho, ?Ht; auto.
  - intros id Hid. destruct (Huu id Hid) as (n & Hn' & ->). exists n. split; [lia|done].
  - split; rewrite Ht; [done|]. intros t Hin.
    destruct (Hids t Hin) as (n & Hn' & He). exists n. split; [lia|done].
Qed.

Lemma sys_step_inv own s s' :
  sys_inv own s → sys_step s s' → ∃ own', sys_inv own' s' ∧ own ⊆ own'.
Proof.
  intros Hinv Hstep. destruct Hstep as [user req r s' Hreq Hrun|code t s' Hrun|s' Hrun|s' Hrun|w' Henv].
  - by eapply CreateOrder_inv.
  - destruct (run_turn_inv own code s Hinv) as (t1 & s1 & Ht & Hinv1).
    rewrite Hrun in Ht. injection Ht as _ <-. eauto.
  - injection Hrun as <-. exists own. split; [|done]. by apply sys_inv_flags.
  - exists own. split; [|done]. by eapply Stop_inv.
  - exists own. split; [|done]. by apply env_inv.
Qed.

(** ** The initial state *)
Lemma foldl_insert_lookup (l : list Stock.t) (m0 : gmap string Matcher) code m :
  foldl (λ m s, <[Stock.Code s := newMatcher (Stock.Code s)]> m) m0 l !! code = Some m →
  m = newMatcher code ∨ m0 !! code = Some m.
Proof.
  revert m0. induction l as [|x l IH]; intros m0 Hm; simpl in Hm; [by right|].
  apply IH in Hm as [->|Hm]; [by left|].
  destruct (decide (Stock.Code x = code)) as [<-|Hne].
  - rewrite lookup_insert_eq in Hm. injection Hm as <-. by left.
  - rewrite lookup_insert_ne in Hm by done. by right.
Qed.

Lemma init_inv stocks w :
  w_heap w = ∅ → or_inv (w_orders w) → or_view (w_orders w) = ∅ →
  tr_inv (w_trades w) → tr_view (w_trades w) = [] → bus_open (w_bus w) →
  sys_inv ∅ (mkES (NewEngine stocks) w).
Proof.
  intros Hh Ho Hov Ht Htv Hb. split; simpl; rewrite ?Hh, ?Htv; try done.
  - intros r [x Hx]. by rewrite lookup_empty in Hx.
  - intros id [x Hx]. by rewrite lookup_empty in Hx.
  - split; [done|]. rewrite Htv. by intros t ?%elem_of_nil.
  - by intros t ?%elem_of_nil.
  - split; [done|]. rewrite Hov. intros id x Hx. by rewrite lookup_empty in Hx.
  - intros id [x Hx]. by rewrite lookup_empty in Hx.
  - intros code m Hm. unfold NewEngine in Hm. simpl in Hm.
    apply foldl_insert_lookup in Hm as [->|Hm]; [|by rewrite lookup_empty in Hm].
    split; [done|done|apply book_inv_empty|constructor|unfold chan_wf; simpl; lia| | |constructor].
    + by intros r ?%elem_of_nil.
    + by intros r ?%elem_of_nil.
  - intros _ code m Hm. apply foldl_insert_lookup in Hm as [->|Hm]; [done|].
    by rewrite lookup_empty in Hm.
Qed.

Inductive reachable (s0 : estate) : estate → Prop :=
| reach_init : reachable s0 s0
| reach_step s s' : reachable s0 s → sys_step s s' → reachable s0 s'.

Lemma reachable_inv own s0 s :
  sys_inv own s0 → reachable s0 s → ∃ own', sys_inv own' s ∧ own ⊆ own'.
Proof.
  intros H0 Hr. induction Hr as [|s s' _ (own1 & Hinv & Hsub) Hstep]; [by exists own|].
  destruct (sys_step_inv own1 s s' Hinv Hstep) as (own2 & Hinv2 & Hsub2).
  exists own2. split; [done|]. by etrans.
Qed.
End Proofs.
