(* ===== verification/Hub.v ===== *)
(** * The WebSocket hub ([internal/transport/ws])

    One goroutine owns the client and subscription maps and selects over six
    request channels; clients are pointers, each with its bounded outbound
    queue, which the hub closes when it drops the client. *)
From S2P Require Import Prelude GoLib Entity Repository.

Definition MaxTotalConnections : Z := 1000.
Definition MaxConnPerIP : Z := 10.
Definition MaxSubsPerClient : Z := 20.
Definition sendCap : nat := Z.to_nat 256.

(** ** Messages *)
Record Subscription : Type := mkSubscription { sub_Channel : string; sub_Stock : string }.

#[global] Instance Subscription_eq_dec : EqDecision Subscription.
Proof. solve_decision. Defined.

#[global] Instance Subscription_countable : Countable Subscription.
Proof.
  refine (inj_countable' (λ s, (sub_Channel s, sub_Stock s)) (λ p, mkSubscription p.1 p.2) _).
  by intros [].
Defined.

Record ClientMessage : Type := mkClientMessage {
  cm_Action : string;
  cm_Channel : string;
  cm_Stock : string;
}.

Section Hub.
(** The payloads events carry, the bytes on the wire and [json.Marshal]. *)
Context {P B : Type}.

Record ServerMessage : Type := mkServerMessage {
  sm_Type : string;
  sm_Channel : string;
  sm_Stock : string;
  sm_Data : option P;
  sm_Message : string;
}.

Variable marshal : ServerMessage → option B.

Definition error_message (text : string) : ServerMessage :=
  mkServerMessage "error" EmptyString EmptyString None text.
Definition ack_message (ty : string) (s : Subscription) : ServerMessage :=
  mkServerMessage ty (sub_Channel s) (sub_Stock s) None EmptyString.

(** ** State *)
Definition cid : Type := nat.     (* a [*Client] *)

Record Client : Type := mkClient {
  cl_send : chan B;
  cl_userID : string;
  cl_ip : string;
}.

Definition NewClient (userID ip : string) : Client := mkClient (make_chan B sendCap) userID ip.

Record subscribeReq : Type := mkSubReq { sr_client : cid; sr_sub : Subscription }.
Record unsubscribeReq : Type := mkUnsubReq { ur_client : cid; ur_sub : Subscription }.
Record broadcastMsg : Type := mkBroadcast { bm_sub : Subscription; bm_data : B }.
Record directSendReq : Type := mkDirect { dr_client : cid; dr_msg : ServerMessage }.

Record Hub : Type := mkHub {
  h_register : chan cid;
  h_unregister : chan cid;
  h_subscribe : chan subscribeReq;
  h_unsubscribe : chan unsubscribeReq;
  h_broadcast : chan broadcastMsg;
  h_directSend : chan directSendReq;
  h_clients : gset cid;
  h_subs : gmap Subscription (gset cid);
  h_clientSubs : gmap cid (gset Subscription);
  h_ipCount : gmap string Z;
  h_conns : gmap cid Client;     (* the clients the pointers reach *)
}.

Definition NewHub : Hub :=
  mkHub (make_chan cid 64) (make_chan cid 64) (make_chan subscribeReq 64)
    (make_chan unsubscribeReq 64) (make_chan broadcastMsg (Z.to_nat 256))
    (make_chan directSendReq (Z.to_nat 256)) ∅ ∅ ∅ ∅ ∅.

Definition set_register c (h : Hub) : Hub :=
  mkHub c (h_unregister h) (h_subscribe h) (h_unsubscribe h) (h_broadcast h) (h_directSend h)
    (h_clients h) (h_subs h) (h_clientSubs h) (h_ipCount h) (h_conns h).
Definition set_unregister c (h : Hub) : Hub :=
  mkHub (h_register h) c (h_subscribe h) (h_unsubscribe h) (h_broadcast h) (h_directSend h)
    (h_clients h) (h_subs h) (h_clientSubs h) (h_ipCount h) (h_conns h).
Definition set_subscribe c (h : Hub) : Hub :=
  mkHub (h_register h) (h_unregister h) c (h_unsubscribe h) (h_broadcast h) (h_directSend h)
    (h_clients h) (h_subs h) (h_clientSubs h) (h_ipCount h) (h_conns h).
Definition set_unsubscribe c (h : Hub) : Hub :=
  mkHub (h_register h) (h_unregister h) (h_subscribe h) c (h_broadcast h) (h_directSend h)
    (h_clients h) (h_subs h) (h_clientSubs h) (h_ipCount h) (h_conns h).
Definition set_broadcast c (h : Hub) : Hub :=
  mkHub (h_register h) (h_unregister h) (h_subscribe h) (h_unsubscribe h) c (h_directSend h)
    (h_clients h) (h_subs h) (h_clientSubs h) (h_ipCount h) (h_conns h).
Definition set_directSend c (h : Hub) : Hub :=
  mkHub (h_register h) (h_unregister h) (h_subscribe h) (h_unsubscribe h) (h_broadcast h) c
    (h_clients h) (h_subs h) (h_clientSubs h) (h_ipCount h) (h_conns h).
Definition set_state (clients : gset cid) (subs : gmap Subscription (gset cid))
    (clientSubs : gmap cid (gset Subscription)) (ipCount : gmap string Z) (h : Hub) : Hub :=
  mkHub (h_register h) (h_unregister h) (h_subscribe h) (h_unsubscribe h) (h_broadcast h)
    (h_directSend h) clients subs clientSubs ipCount (h_conns h).
Definition set_conns (conns : gmap cid Client) (h : Hub) : Hub :=
  mkHub (h_register h) (h_unregister h) (h_subscribe h) (h_unsubscribe h) (h_broadcast h)
    (h_directSend h) (h_clients h) (h_subs h) (h_clientSubs h) (h_ipCount h) conns.

Definition conn (h : Hub) (c : cid) : Client :=
  default (mkClient (mkChan [] 0 false) EmptyString EmptyString) (h_conns h !! c).
Definition client_subs (h : Hub) (c : cid) : gset Subscription := default ∅ (h_clientSubs h !! c).
Definition subscribers (h : Hub) (s : Subscription) : gset cid := default ∅ (h_subs h !! s).
Definition ip_count (h : Hub) (ip : string) : Z := default 0 (h_ipCount h !! ip).

(** ** Sending and dropping; [None] is a run-time panic *)

(** [client.send <- data] in a select with a default branch. *)
Definition try_send (c : cid) (data : B) (h : Hub) : option (bool * Hub) :=
  match chan_try_send data (cl_send (conn h c)) with
  | None => None
  | Some (sent, ch) =>
      Some (sent, set_conns (<[c := mkClient ch (cl_userID (conn h c)) (cl_ip (conn h c))]> (h_conns h)) h)
  end.

Definition sendJSON (c : cid) (msg : ServerMessage) (h : Hub) : option Hub :=
  match marshal msg with
  | None => Some h
  | Some data => snd <$> try_send c data h
  end.

Definition close_send (c : cid) (h : Hub) : option Hub :=
  match chan_close (cl_send (conn h c)) with
  | None => None
  | Some ch =>
      Some (set_conns (<[c := mkClient ch (cl_userID (conn h c)) (cl_ip (conn h c))]> (h_conns h)) h)
  end.

(** [delete(h.subs[sub], client)]; a missing inner map is left missing. *)
Definition drop_subscriber (c : cid) (m : gmap Subscription (gset cid)) (s : Subscription)
    : gmap Subscription (gset cid) :=
  match m !! s with
  | Some cs => <[s := cs ∖ {[c]}]> m
  | None => m
  end.

Definition removeClient (c : cid) (h : Hub) : option Hub :=
  if bool_decide (c ∈ h_clients h) then
    let ip := cl_ip (conn h c) in
    let count := i64_sub (ip_count h ip) 1 in
    close_send c
      (set_state (h_clients h ∖ {[c]})
         (foldl (drop_subscriber c) (h_subs h) (elements (client_subs h c)))
         (delete c (h_clientSubs h))
         (if count <=? 0 then delete ip (h_ipCount h) else <[ip := count]> (h_ipCount h)) h)
  else Some h.

(** ** The cases of the select in [Run] *)

Definition on_register (c : cid) (h : Hub) : option Hub :=
  let ip := cl_ip (conn h c) in
  if Z.of_nat (size (h_clients h)) >=? MaxTotalConnections then
    h' ← sendJSON c (error_message "max connections reached") h; close_send c h'
  else if ip_count h ip >=? MaxConnPerIP then
    h' ← sendJSON c (error_message "max connections per IP reached") h; close_send c h'
  else
    Some (set_state ({[c]} ∪ h_clients h) (h_subs h) (<[c := ∅]> (h_clientSubs h))
            (<[ip := i64_add (ip_count h ip) 1]> (h_ipCount h)) h).

Definition on_unregister (c : cid) (h : Hub) : option Hub := removeClient c h.

Definition on_subscribe (req : subscribeReq) (h : Hub) : option Hub :=
  let c := sr_client req in
  let s := sr_sub req in
  if negb (bool_decide (c ∈ h_clients h)) then Some h
  else if Z.of_nat (size (client_subs h c)) >=? MaxSubsPerClient then
    sendJSON c (error_message "max subscriptions reached") h
  else if bool_decide (s ∈ client_subs h c) then Some h
  else
    sendJSON c (ack_message "subscribed" s)
      (set_state (h_clients h) (<[s := {[c]} ∪ subscribers h s]> (h_subs h))
         (<[c := {[s]} ∪ client_subs h c]> (h_clientSubs h)) (h_ipCount h) h).

Definition on_unsubscribe (req : unsubscribeReq) (h : Hub) : option Hub :=
  let c := ur_client req in
  let s := ur_sub req in
  if negb (bool_decide (c ∈ h_clients h)) then Some h
  else
    sendJSON c (ack_message "unsubscribed" s)
      (set_state (h_clients h) (drop_subscriber c (h_subs h) s)
         (<[c := client_subs h c ∖ {[s]}]> (h_clientSubs h)) (h_ipCount h) h).

Definition on_directSend (req : directSendReq) (h : Hub) : option Hub :=
  if bool_decide (dr_client req ∈ h_clients h) then sendJSON (dr_client req) (dr_msg req) h
  else Some h.

(** The two loops of the broadcast case: offer the data to every
    subscriber, collecting those whose queue is full, then drop these. *)
Definition offer (data : B) (acc : option (Hub * list cid)) (c : cid) : option (Hub * list cid) :=
  st ← acc;
  let '(h, toKick) := st in
  r ← try_send c data h;
  let '(sent, h') := r in
  Some (h', if sent : bool then toKick else toKick ++ [c]).

Definition kick_all (cs : list cid) (h : Hub) : option Hub :=
  foldl (λ acc c, h ← acc; removeClient c h) (Some h) cs.

Definition on_broadcast (msg : broadcastMsg) (h : Hub) : option Hub :=
  r ← foldl (offer (bm_data msg)) (Some (h, [])) (elements (subscribers h (bm_sub msg)));
  let '(h', toKick) := r in kick_all toKick h'.

Definition on_done (h : Hub) : option Hub := kick_all (elements (h_clients h)) h.

(** One iteration of [Run]: the select takes any ready case. *)
Inductive run_step (h : Hub) : option Hub → Prop :=
| run_register c ch : chan_recv (h_register h) = Received c ch →
    run_step h (on_register c (set_register ch h))
| run_unregister c ch : chan_recv (h_unregister h) = Received c ch →
    run_step h (on_unregister c (set_unregister ch h))
| run_subscribe r ch : chan_recv (h_subscribe h) = Received r ch →
    run_step h (on_subscribe r (set_subscribe ch h))
| run_unsubscribe r ch : chan_recv (h_unsubscribe h) = Received r ch →
    run_step h (on_unsubscribe r (set_unsubscribe ch h))
| run_directSend r ch : chan_recv (h_directSend h) = Received r ch →
    run_step h (on_directSend r (set_directSend ch h))
| run_broadcast m ch : chan_recv (h_broadcast h) = Received m ch →
    run_step h (on_broadcast m (set_broadcast ch h))
| run_done : run_step h (on_done h).     (* [ctx] cancelled: the loop ends *)

(** ** Calls from other goroutines; the hub never closes its own channels,
    so a non-blocking send either queues or drops. *)
Definition enqueue {A} (x : A) (c : chan A) : chan A :=
  match chan_try_send x c with Some (_, c') => c' | None => c end.

Definition Broadcast (channel stock : string) (payload : P) (h : Hub) : Hub :=
  match marshal (mkServerMessage channel EmptyString stock (Some payload) EmptyString) with
  | None => h
  | Some data =>
      set_broadcast (enqueue (mkBroadcast (mkSubscription channel stock) data) (h_broadcast h)) h
  end.

Definition BroadcastToUser (channel userID : string) (payload : P) (h : Hub) : Hub :=
  Broadcast channel userID payload h.

Definition SendJSONSafe (c : cid) (msg : ServerMessage) (h : Hub) : Hub :=
  set_directSend (enqueue (mkDirect c msg) (h_directSend h)) h.

(** [handleMessage]: subscription requests block when the hub lags
    ([None]: the reader waits). *)
Definition push {A} (x : A) (c : chan A) : option (chan A) :=
  match chan_try_send x c with Some (true, c') => Some c' | _ => None end.

Definition handleMessage (c : cid) (msg : ClientMessage) (h : Hub) : option Hub :=
  let stock := if (cm_Channel msg =? "order.update")%string then cl_userID (conn h c)
               else cm_Stock msg in
  if (cm_Action msg =? "subscribe")%string then
    (λ ch, set_subscribe ch h) <$>
      push (mkSubReq c (mkSubscription (cm_Channel msg) stock)) (h_subscribe h)
  else if (cm_Action msg =? "unsubscribe")%string then
    (λ ch, set_unsubscribe ch h) <$>
      push (mkUnsubReq c (mkSubscription (cm_Channel msg) stock)) (h_unsubscribe h)
  else if (cm_Action msg =? "ping")%string then
    Some (SendJSONSafe c (mkServerMessage "pong" EmptyString EmptyString None EmptyString) h)
  else Some (SendJSONSafe c (error_message ("unknown action: " ++ cm_Action msg)) h).

(** [readPump]: a frame is unmarshalled and handled; when reading fails the
    client asks to be unregistered. *)
Variable unmarshal : B → option ClientMessage.

Definition readPump_frame (c : cid) (data : B) (h : Hub) : option Hub :=
  match unmarshal data with
  | None => Some (SendJSONSafe c (error_message "invalid JSON") h)
  | Some msg => handleMessage c msg h
  end.

Definition readPump_exit (c : cid) (h : Hub) : option Hub :=
  (λ ch, set_unregister ch h) <$> push c (h_unregister h).

(** [writePump] takes the next outbound message. *)
Inductive write_result : Type :=
| WriteMsg (data : B) (h : Hub)
| WriteClose                    (* queue closed and drained: close the connection *)
| WriteWaits.

Definition writePump_turn (c : cid) (h : Hub) : write_result :=
  match chan_recv (cl_send (conn h c)) with
  | Received data ch =>
      WriteMsg data (set_conns (<[c := mkClient ch (cl_userID (conn h c)) (cl_ip (conn h c))]> (h_conns h)) h)
  | RecvClosed => WriteClose
  | RecvBlocks => WriteWaits
  end.

(** [ServeHTTP] after the upgrade: a new client asks to be registered. *)
Definition ServeHTTP (userID : option string) (ip : string) (c : cid) (h : Hub) : option Hub :=
  let userID := match userID with
                | Some id => if (id =? EmptyString)%string then "anonymous"%string else id
                | None => "anonymous"%string
                end in
  let h := set_conns (<[c := NewClient userID ip]> (h_conns h)) h in
  (λ ch, set_register ch h) <$> push c (h_register h).
End Hub.
