(* ===== verification/HubProofs.v ===== *)
(** * The hub keeps its maps consistent and never panics

    The invariant ties the four maps together and bounds them by the
    connection limits; every case of the select and every outside call
    preserves it, and none sends on or closes a closed queue. *)
From S2P Require Import Prelude GoLib Entity Repository Hub.

(** ** Counting the clients of one address *)
Lemma size_filter_remove (Q : cid → Prop) `{∀ c, Decision (Q c)} c (X : gset cid) :
  c ∈ X →
  Z.of_nat (size (filter Q (X ∖ {[c]}))) =
  Z.of_nat (size (filter Q X)) - if decide (Q c) then 1 else 0.
Proof.
  intros Hc. case_decide as Hq.
  - assert (filter Q (X ∖ {[c]}) = filter Q X ∖ {[c]}) as ->.
    { apply set_eq. intros x. rewrite elem_of_filter, !elem_of_difference, elem_of_filter. tauto. }
    assert ({[c]} ⊆ filter Q X) as Hsub.
    { intros x ->%elem_of_singleton. by apply elem_of_filter. }
    rewrite size_difference by done. pose proof (subseteq_size _ _ Hsub).
    rewrite size_singleton in *. lia.
  - assert (filter Q (X ∖ {[c]}) = filter Q X) as ->; [|lia].
    apply set_eq. intros x. rewrite !elem_of_filter, elem_of_difference, elem_of_singleton.
    split; [tauto|]. intros [Hx HX]. split_and!; try done. by intros ->.
Qed.

Lemma size_filter_add (Q : cid → Prop) `{∀ c, Decision (Q c)} c (X : gset cid) :
  c ∉ X →
  Z.of_nat (size (filter Q ({[c]} ∪ X))) =
  Z.of_nat (size (filter Q X)) + if decide (Q c) then 1 else 0.
Proof.
  intros Hc. case_decide as Hq.
  - assert (filter Q ({[c]} ∪ X) = {[c]} ∪ filter Q X) as ->.
    { apply set_eq. intros x. rewrite elem_of_filter, !elem_of_union, elem_of_filter, elem_of_singleton.
      split; [tauto|]. intros [->|?]; tauto. }
    rewrite size_union; [|intros x ->%elem_of_singleton [_ ?]%elem_of_filter; done]. rewrite size_singleton. lia.
  - assert (filter Q ({[c]} ∪ X) = filter Q X) as ->; [|lia].
    apply set_eq. intros x. rewrite !elem_of_filter, elem_of_union, elem_of_singleton.
    split; [|tauto]. intros [Hx [->|HX]]; done.
Qed.
Section Proofs.
Context {P B : Type}.
Variable marshal : @ServerMessage P → option B.
Local Abbreviation Hub := (@Hub P B).

Definition ip_of (h : Hub) (c : cid) : string := cl_ip (conn h c).
Definition closed (h : Hub) (c : cid) : bool := ch_closed (cl_send (conn h c)).

Record hub_inv (h : Hub) : Prop := {
  hi_dom : ∀ c, is_Some (h_clientSubs h !! c) ↔ c ∈ h_clients h;
  hi_subs : ∀ c s, c ∈ subscribers h s ↔ s ∈ client_subs h c;
  hi_ip : ∀ ip, ip_count h ip = Z.of_nat (size (filter (λ c, ip_of h c = ip) (h_clients h)));
  hi_ip_pos : ∀ ip n, h_ipCount h !! ip = Some n → 0 < n;
  hi_total : Z.of_nat (size (h_clients h)) <= MaxTotalConnections;
  hi_per_ip : ∀ ip, ip_count h ip <= MaxConnPerIP;
  hi_per_client : ∀ c, Z.of_nat (size (client_subs h c)) <= MaxSubsPerClient;
  hi_open : ∀ c, c ∈ h_clients h → closed h c = false;
  hi_pending : NoDup (ch_buf (h_register h)) ∧
    ∀ c, c ∈ ch_buf (h_register h) → (c ∉ h_clients h) ∧ closed h c = false;
  hi_known : ∀ c, c ∈ h_clients h ∨ c ∈ ch_buf (h_register h) → is_Some (h_conns h !! c);
}.

(** States that differ only in the contents of outbound queues and of the
    request channels other than [register]. *)
Record same_core (h h' : Hub) : Prop := {
  sc_register : ch_buf (h_register h') = ch_buf (h_register h);
  sc_clients : h_clients h' = h_clients h;
  sc_subs : h_subs h' = h_subs h;
  sc_clientSubs : h_clientSubs h' = h_clientSubs h;
  sc_ipCount : h_ipCount h' = h_ipCount h;
  sc_ip : ∀ c, ip_of h' c = ip_of h c;
  sc_closed : ∀ c, closed h' c = closed h c;
  sc_known : ∀ c, is_Some (h_conns h !! c) → is_Some (h_conns h' !! c);
}.

#[global] Instance same_core_preorder : PreOrder same_core.
Proof.
  split; [by split|]. intros x y z [] []. split; try congruence; auto.
Qed.

Lemma filter_ip_ext h h' ip (X : gset cid) :
  (∀ c, ip_of h' c = ip_of h c) →
  filter (λ c, ip_of h' c = ip) X = filter (λ c, ip_of h c = ip) X.
Proof. intros Hip. apply set_eq. intros c. rewrite !elem_of_filter, Hip. done. Qed.

Lemma hub_inv_core h h' : same_core h h' → hub_inv h → hub_inv h'.
Proof.
  intros [H1 H2 H3 H4 H5 H6 H7 H8] [I1 I2 I3 I4 I5 I6 I7 I8 [I9 I10] I11].
  unfold subscribers, client_subs, ip_count in *. split; unfold subscribers, client_subs, ip_count.
  all: rewrite ?H1, ?H2, ?H3, ?H4, ?H5; try done.
  - intros ip. rewrite I3. by rewrite (filter_ip_ext h h').
  - intros c Hc. rewrite H7. auto.
  - split; [done|]. intros c Hc. rewrite H7. auto.
  - intros c Hc. auto.
Qed.

(** ** Sending *)
Lemma conn_insert (h : Hub) c c' cl :
  conn (set_conns (<[c := cl]> (h_conns h)) h) c' = if decide (c = c') then cl else conn h c'.
Proof.
  unfold conn. simpl. case_decide as Hd; [subst; by rewrite lookup_insert_eq|].
  by rewrite lookup_insert_ne.
Qed.

Lemma try_send_ok c data (h : Hub) :
  closed h c = false →
  ∃ sent h', try_send c data h = Some (sent, h') ∧ same_core h h'.
Proof.
  intros Hc. unfold try_send. destruct (chan_try_send_open data (cl_send (conn h c)) Hc)
    as (sent & ch & Hs). rewrite Hs. eexists _, _. split; [done|].
  pose proof (chan_try_send_buf _ _ _ _ Hs) as (_ & Hcl & _).
  split; try done; unfold ip_of, closed; intros x; rewrite ?conn_insert.
  - case_decide; by subst.
  - case_decide; [subst; simpl; unfold closed in Hc; congruence|done].
  - intros Hx. simpl. destruct (decide (c = x)) as [->|Hne]; [rewrite lookup_insert_eq; by eexists|].
    by rewrite lookup_insert_ne.
Qed.

Lemma sendJSON_ok c msg (h : Hub) :
  closed h c = false → ∃ h', sendJSON marshal c msg h = Some h' ∧ same_core h h'.
Proof.
  intros Hc. unfold sendJSON. destruct (marshal msg) as [data|]; [|exists h; by split].
  destruct (try_send_ok c data h Hc) as (sent & h' & Hs & Hcore). rewrite Hs. by exists h'.
Qed.

(** ** Dropping a client *)
Lemma drop_one_lookup c (m : gmap Subscription (gset cid)) x s :
  default ∅ (drop_subscriber c m x !! s) =
  if decide (s = x) then default ∅ (m !! s) ∖ {[c]} else default ∅ (m !! s).
Proof.
  unfold drop_subscriber. destruct (decide (s = x)) as [->|Hne].
  - destruct (m !! x) as [cs|] eqn:Hm; [by rewrite lookup_insert_eq|].
    rewrite Hm. simpl. by rewrite difference_diag_L || (symmetry; apply empty_difference_L).
  - destruct (m !! x) as [cs|] eqn:Hm; [|done]. by rewrite lookup_insert_ne.
Qed.

Lemma drop_all_lookup c l (m : gmap Subscription (gset cid)) s :
  default ∅ (foldl (drop_subscriber c) m l !! s) =
  if decide (s ∈ l) then default ∅ (m !! s) ∖ {[c]} else default ∅ (m !! s).
Proof.
  revert m. induction l as [|x l IH]; intros m; cbn [foldl].
  { rewrite decide_False; [done|]. apply not_elem_of_nil. }
  rewrite IH, drop_one_lookup. destruct (decide (s = x)) as [->|Hne].
  - rewrite (decide_True (P := x ∈ x :: l)) by apply list_elem_of_here.
    destruct (decide (x ∈ l)); [|done]. rewrite difference_difference_l_L. by rewrite union_idemp_L.
  - destruct (decide (s ∈ l)) as [Hl|Hl].
    + by rewrite (decide_True (P := s ∈ x :: l)) by (by apply list_elem_of_further).
    + rewrite (decide_False (P := s ∈ x :: l)); [done|]. by intros [->|?]%elem_of_cons.
Qed.


Lemma ip_count_delete (m : gmap string Z) ip ip' :
  default 0 (delete ip m !! ip') = if decide (ip = ip') then 0 else default 0 (m !! ip').
Proof.
  case_decide as Hd; [subst; by rewrite lookup_delete_eq|]. by rewrite lookup_delete_ne.
Qed.

Lemma ip_count_insert (m : gmap string Z) ip n ip' :
  default 0 (<[ip := n]> m !! ip') = if decide (ip = ip') then n else default 0 (m !! ip').
Proof.
  case_decide as Hd; [subst; by rewrite lookup_insert_eq|]. by rewrite lookup_insert_ne.
Qed.

(** The state of [removeClient] before the queue is closed. *)
Definition removed (c : cid) (h : Hub) : Hub :=
  let ip := cl_ip (conn h c) in
  let count := i64_sub (ip_count h ip) 1 in
  set_state (h_clients h ∖ {[c]})
    (foldl (drop_subscriber c) (h_subs h) (elements (client_subs h c)))
    (delete c (h_clientSubs h))
    (if count <=? 0 then delete ip (h_ipCount h) else <[ip := count]> (h_ipCount h)) h.

Lemma removed_subscribers c h s :
  hub_inv h → subscribers (removed c h) s = subscribers h s ∖ {[c]}.
Proof.
  intros Hinv. unfold subscribers, removed. simpl. rewrite drop_all_lookup.
  case_decide as Hs; [done|]. rewrite elem_of_elements, <- (hi_subs _ Hinv) in Hs.
  unfold subscribers in Hs. apply set_eq. intros x. rewrite elem_of_difference, elem_of_singleton.
  split; [|tauto]. intros Hx. split; [done|]. by intros ->.
Qed.

Lemma removed_client_subs c h c' :
  client_subs (removed c h) c' = if decide (c = c') then ∅ else client_subs h c'.
Proof.
  unfold client_subs, removed. simpl. case_decide as Hd; [subst; by rewrite lookup_delete_eq|].
  by rewrite lookup_delete_ne.
Qed.

Lemma ip_count_bounds h ip : hub_inv h → 0 <= ip_count h ip <= MaxConnPerIP.
Proof. intros Hinv. split; [|by apply hi_per_ip]. rewrite (hi_ip _ Hinv). lia. Qed.

Lemma removed_ip c h ip :
  hub_inv h → c ∈ h_clients h →
  ip_count (removed c h) ip = ip_count h ip - if decide (ip_of h c = ip) then 1 else 0.
Proof.
  intros Hinv Hc. unfold removed. pose proof (ip_count_bounds h (ip_of h c) Hinv) as Hb.
  unfold MaxConnPerIP in Hb.
  assert (1 <= ip_count h (ip_of h c)) as H1.
  { rewrite (hi_ip _ Hinv).
    assert (size (filter (λ x, ip_of h x = ip_of h c) (h_clients h)) ≠ 0%nat); [|lia].
    intros Hz. apply size_empty_inv in Hz. apply (not_elem_of_empty (C := gset cid) c), Hz.
    by apply elem_of_filter. }
  fold (ip_of h c). rewrite i64_sub_id by i64_lia.
  unfold ip_count at 1. simpl.
  destruct (Z.leb_spec (ip_count h (ip_of h c) - 1) 0).
  - rewrite ip_count_delete. case_decide as Hd; [subst; lia|]. unfold ip_count. lia.
  - rewrite ip_count_insert. case_decide as Hd; [subst; lia|]. unfold ip_count. lia.
Qed.

Lemma removed_inv c h : hub_inv h → c ∈ h_clients h → hub_inv (removed c h).
Proof.
  intros Hinv Hc. assert (∀ x, ip_of (removed c h) x = ip_of h x) as Hip by done.
  split.
  - intros x. simpl. rewrite elem_of_difference, elem_of_singleton, <- (hi_dom _ Hinv).
    destruct (decide (x = c)) as [->|Hne].
    + rewrite lookup_delete_eq. split; [by intros [? ?]|tauto].
    + rewrite lookup_delete_ne by done. tauto.
  - intros x s. rewrite removed_subscribers, removed_client_subs by done.
    rewrite elem_of_difference, elem_of_singleton, (hi_subs _ Hinv). case_decide as Hd.
    + subst. split; [tauto|]. by intros ?%elem_of_empty.
    + split; [tauto|]. intros Hs. split; [done|congruence].
  - intros ip. rewrite removed_ip, (hi_ip _ Hinv) by done. symmetry.
    exact (size_filter_remove (λ x, ip_of h x = ip) c (h_clients h) Hc).
  - intros ip n. pose proof (hi_ip_pos _ Hinv ip n) as Hp. simpl.
    destruct (Z.leb_spec (i64_sub (ip_count h (cl_ip (conn h c))) 1) 0).
    + rewrite lookup_delete_Some. tauto.
    + rewrite lookup_insert_Some. intros [[_ <-]|[_ ?]]; [lia|auto].
  - simpl. pose proof (hi_total _ Hinv). etrans; [|done]. apply inj_le, subseteq_size, subseteq_difference_l.
    done.
  - intros ip. rewrite removed_ip by done. pose proof (hi_per_ip _ Hinv ip). case_decide; lia.
  - intros x. rewrite removed_client_subs. case_decide; [|apply hi_per_client, Hinv].
    rewrite size_empty. unfold MaxSubsPerClient. lia.
  - intros x. simpl. rewrite elem_of_difference. intros [Hx _]. by apply (hi_open _ Hinv).
  - destruct (hi_pending _ Hinv) as [Hnd Hp]. split; [done|]. intros x Hx. simpl.
    destruct (Hp x Hx). split; [|done]. rewrite elem_of_difference. tauto.
  - intros x Hx. apply (hi_known _ Hinv). simpl in Hx. rewrite elem_of_difference in Hx. tauto.
Qed.

(** Closing the queue of a client that is neither connected nor pending. *)
Lemma close_send_ok c h :
  hub_inv h → c ∉ h_clients h → c ∉ ch_buf (h_register h) → closed h c = false →
  ∃ h', close_send c h = Some h' ∧ hub_inv h' ∧ closed h' c = true ∧
    h_clients h' = h_clients h ∧ h_subs h' = h_subs h ∧ h_clientSubs h' = h_clientSubs h ∧
    h_ipCount h' = h_ipCount h ∧ h_register h' = h_register h ∧
    (∀ x, x ≠ c → conn h' x = conn h x) ∧ (∀ x, ip_of h' x = ip_of h x).
Proof.
  intros Hinv Hc Hp Hcl. unfold close_send, chan_close. unfold closed in Hcl. rewrite Hcl.
  eexists. split; [done|].
  set (h' := set_conns _ h).
  assert (∀ x, ip_of h' x = ip_of h x) as Hip.
  { intros x. unfold ip_of, h'. rewrite conn_insert. case_decide; by subst. }
  assert (∀ x, x ≠ c → conn h' x = conn h x) as Hother.
  { intros x Hx. unfold h'. rewrite conn_insert. by rewrite decide_False by congruence. }
  split_and!; try done.
  - destruct Hinv as [I1 I2 I3 I4 I5 I6 I7 I8 [I9 I10] I11]. split; try done.
    + intros ip. rewrite (filter_ip_ext h h') by done. apply I3.
    + intros x Hx. unfold closed. rewrite Hother; [by apply I8|]. intros ->. by apply Hc.
    + split; [done|]. intros x Hx. unfold closed. rewrite Hother; [by apply I10|]. intros ->. by apply Hp.
    + intros x Hx. simpl. destruct (decide (c = x)) as [->|Hne]; [rewrite lookup_insert_eq; by eexists|].
      rewrite lookup_insert_ne by done. by apply I11.
  - unfold closed, h'. by rewrite conn_insert, decide_True.
Qed.

Record dropped (c : cid) (h h' : Hub) : Prop := {
  dr_inv : hub_inv h';
  dr_clients : h_clients h' = h_clients h ∖ {[c]};
  dr_subscribers : ∀ s, subscribers h' s = subscribers h s ∖ {[c]};
  dr_register : h_register h' = h_register h;
  dr_conn : ∀ x, x ≠ c → conn h' x = conn h x;
}.

Lemma removeClient_ok c h :
  hub_inv h → ∃ h', removeClient c h = Some h' ∧ dropped c h h' ∧
    (c ∈ h_clients h → closed h' c = true).
Proof.
  intros Hinv. unfold removeClient. case_bool_decide as Hc.
  - fold (removed c h). pose proof (removed_inv c h Hinv Hc) as Hinv'.
    destruct (close_send_ok c (removed c h)) as (h' & -> & Hi & Hcl & H1 & H2 & H3 & H4 & H5 & H6 & H7); try done.
    + simpl. rewrite elem_of_difference, elem_of_singleton. tauto.
    + intros Hin. by apply (proj2 (hi_pending _ Hinv)) in Hin as [? _].
    + by apply (hi_open _ Hinv).
    + exists h'. split_and!; try done. split; try done.
      intros s. rewrite <- removed_subscribers by done. unfold subscribers. by rewrite H2.
  - exists h. split_and!; try done. split; try done.
    + apply set_eq. intros x. rewrite elem_of_difference, elem_of_singleton.
      split; [|tauto]. intros Hx. split; [done|]. by intros ->.
    + intros s. apply set_eq. intros x. rewrite elem_of_difference, elem_of_singleton.
      split; [|tauto]. intros Hx. split; [done|]. intros ->. apply Hc, (hi_dom _ Hinv).
      apply (hi_subs _ Hinv) in Hx. unfold client_subs in Hx. destruct (h_clientSubs h !! c); [by eexists|].
      by apply elem_of_empty in Hx.
Qed.

(** ** The cases of the select *)

(** A client taken from the register queue. *)
Definition newcomer (c : cid) (h : Hub) : Prop :=
  (c ∉ h_clients h) ∧ (c ∉ ch_buf (h_register h)) ∧ closed h c = false ∧ is_Some (h_conns h !! c).

Lemma newcomer_core c h h' : same_core h h' → newcomer c h → newcomer c h'.
Proof.
  intros [H1 H2 _ _ _ _ H7 H8] (Hc & Hp & Hcl & Hk). unfold newcomer. rewrite H1, H2, H7. auto.
Qed.

Lemma reject_ok c msg h :
  hub_inv h → newcomer c h →
  ∃ h', (h' ← sendJSON marshal c msg h; close_send c h') = Some h' ∧ hub_inv h' ∧
    h_clients h' = h_clients h ∧ closed h' c = true.
Proof.
  intros Hinv Hnew. destruct (sendJSON_ok c msg h) as (h1 & Hs & Hcore); [apply Hnew|].
  rewrite Hs. simpl. pose proof (newcomer_core c h h1 Hcore Hnew) as (Hc & Hp & Hcl & _).
  destruct (close_send_ok c h1) as (h' & Hr & Hi & Hx & H1 & _); try done; [by eapply hub_inv_core|].
  exists h'. split_and!; try done. rewrite H1. apply Hcore.
Qed.

(** The hub right after accepting a client. *)
Definition accepted (c : cid) (h : Hub) : Hub :=
  set_state ({[c]} ∪ h_clients h) (h_subs h) (<[c := ∅]> (h_clientSubs h))
    (<[ip_of h c := i64_add (ip_count h (ip_of h c)) 1]> (h_ipCount h)) h.

Lemma accepted_inv c h :
  hub_inv h → newcomer c h → Z.of_nat (size (h_clients h)) < MaxTotalConnections →
  ip_count h (ip_of h c) < MaxConnPerIP → hub_inv (accepted c h).
Proof.
  intros Hinv (Hc & Hp & Hcl & Hk) Htot Hip.
  assert (client_subs h c = ∅) as Hnone.
  { unfold client_subs. destruct (h_clientSubs h !! c) eqn:Hs; [|done].
    exfalso. apply Hc, (hi_dom _ Hinv). by eexists. }
  assert (∀ x, client_subs (accepted c h) x = client_subs h x) as Hcs.
  { intros x. unfold client_subs at 1, accepted. simpl. destruct (decide (c = x)) as [->|Hne].
    - by rewrite lookup_insert_eq, Hnone.
    - by rewrite lookup_insert_ne. }
  pose proof (ip_count_bounds h (ip_of h c) Hinv) as Hb. unfold MaxConnPerIP in *.
  assert (∀ ip, ip_count (accepted c h) ip =
            ip_count h ip + if decide (ip_of h c = ip) then 1 else 0) as Hcount.
  { intros ip. unfold ip_count at 1, accepted. simpl. rewrite ip_count_insert.
    case_decide as Hd; [|unfold ip_count; lia]. subst. apply i64_add_id. i64_lia. }
  split.
  - intros x. simpl. rewrite elem_of_union, elem_of_singleton, <- (hi_dom _ Hinv).
    destruct (decide (c = x)) as [->|Hne].
    + rewrite lookup_insert_eq. split; [by left|by eexists].
    + rewrite lookup_insert_ne by done. split; [by right|]. intros [->|?]; done.
  - intros x s. rewrite Hcs. apply (hi_subs _ Hinv).
  - intros ip. rewrite Hcount, (hi_ip _ Hinv). symmetry.
    exact (size_filter_add (λ x, ip_of h x = ip) c (h_clients h) Hc).
  - intros ip n. simpl. rewrite lookup_insert_Some. intros [[_ <-]|[_ Hn]].
    + rewrite i64_add_id by i64_lia. lia.
    + by apply (hi_ip_pos _ Hinv ip).
  - simpl. rewrite size_union; [|intros x ->%elem_of_singleton ?; done]. rewrite size_singleton. lia.
  - intros ip. rewrite Hcount. pose proof (hi_per_ip _ Hinv ip). unfold MaxConnPerIP in *.
    case_decide as Hd; [subst; lia|lia].
  - intros x. rewrite Hcs. by apply hi_per_client.
  - intros x. simpl. rewrite elem_of_union, elem_of_singleton. intros [->|Hx]; [done|].
    by apply (hi_open _ Hinv).
  - destruct (hi_pending _ Hinv) as [Hnd Hpend]. split; [done|]. intros x Hx. simpl.
    destruct (Hpend x Hx). split; [|done]. rewrite elem_of_union, elem_of_singleton.
    intros [->|?]; done.
  - intros x. simpl. rewrite elem_of_union, elem_of_singleton. intros [[->|Hx]|Hx]; [done|..];
      apply (hi_known _ Hinv); auto.
Qed.

Lemma on_register_ok c h :
  hub_inv h → newcomer c h →
  ∃ h', on_register marshal c h = Some h' ∧ hub_inv h' ∧
    if (Z.of_nat (size (h_clients h)) <? MaxTotalConnections) && (ip_count h (ip_of h c) <? MaxConnPerIP)
    then h' = accepted c h else h_clients h' = h_clients h ∧ closed h' c = true.
Proof.
  intros Hinv Hnew. unfold on_register. fold (ip_of h c). rewrite !Z.geb_leb.
  destruct (Z.leb_spec MaxTotalConnections (Z.of_nat (size (h_clients h)))) as [Hge|Hlt].
  { rewrite (proj2 (Z.ltb_ge _ _)) by done. simpl.
    destruct (reject_ok c (error_message "max connections reached") h Hinv Hnew) as (h' & ? & ? & ? & ?).
    exists h'. by split_and!. }
  rewrite (proj2 (Z.ltb_lt _ _)) by done. simpl.
  destruct (Z.leb_spec MaxConnPerIP (ip_count h (ip_of h c))) as [Hge|Hlt2].
  { rewrite (proj2 (Z.ltb_ge _ _)) by done.
    destruct (reject_ok c (error_message "max connections per IP reached") h Hinv Hnew) as (h' & ? & ? & ? & ?).
    exists h'. by split_and!. }
  rewrite (proj2 (Z.ltb_lt _ _)) by done. exists (accepted c h). split_and!; try done.
  by apply accepted_inv.
Qed.

Lemma client_known h c : hub_inv h → c ∈ h_clients h → client_subs h c = default ∅ (h_clientSubs h !! c).
Proof. done. Qed.

(** Changing the subscriptions of one connected client. *)
Lemma resub_inv c s h (X : gset cid → gset cid) (Y : gset Subscription → gset Subscription) subs' :
  hub_inv h → c ∈ h_clients h →
  (∀ s', default ∅ (subs' !! s') = if decide (s' = s) then X (subscribers h s) else subscribers h s') →
  (∀ c' s', c' ∈ (if decide (s' = s) then X (subscribers h s) else subscribers h s') ↔
            s' ∈ (if decide (c' = c) then Y (client_subs h c) else client_subs h c')) →
  Z.of_nat (size (Y (client_subs h c))) <= MaxSubsPerClient →
  hub_inv (set_state (h_clients h) subs' (<[c := Y (client_subs h c)]> (h_clientSubs h)) (h_ipCount h) h).
Proof.
  intros Hinv Hc Hsubs Hbij Hsize.
  set (h' := set_state _ _ _ _ h).
  assert (∀ x, client_subs h' x = if decide (x = c) then Y (client_subs h c) else client_subs h x) as Hcs.
  { intros x. unfold client_subs at 1, h'. simpl. destruct (decide (x = c)) as [->|Hne].
    - by rewrite lookup_insert_eq.
    - by rewrite lookup_insert_ne. }
  pose proof Hinv as [I1 I2 I3 I4 I5 I6 I7 I8 I9 I10]. split; try done.
  - intros x. simpl. destruct (decide (x = c)) as [->|Hne].
    + rewrite lookup_insert_eq. split; [done|by eexists].
    + rewrite lookup_insert_ne by done. apply I1.
  - intros x s'. rewrite Hcs, <- Hbij, <- Hsubs. done.
  - intros x. rewrite Hcs. case_decide; [done|apply I7].
Qed.

(** What handling a subscription request preserves. *)
Definition keeps_clients (h h' : Hub) : Prop :=
  hub_inv h' ∧ h_clients h' = h_clients h ∧ ch_buf (h_register h') = ch_buf (h_register h).

Lemma keeps_clients_refl h : hub_inv h → keeps_clients h h.
Proof. done. Qed.

Lemma sendJSON_keeps c msg h h0 :
  hub_inv h → c ∈ h_clients h → h_clients h = h_clients h0 →
  ch_buf (h_register h) = ch_buf (h_register h0) →
  ∃ h', sendJSON marshal c msg h = Some h' ∧ keeps_clients h0 h' ∧ same_core h h'.
Proof.
  intros Hinv Hc Hcl Hreg.
  destruct (sendJSON_ok c msg h (hi_open _ Hinv c Hc)) as (h' & Hs & Hcore).
  exists h'. split_and!; try done.
  pose proof (sc_register _ _ Hcore). pose proof (sc_clients _ _ Hcore).
  split_and!; [by eapply hub_inv_core|congruence..].
Qed.

Lemma on_subscribe_ok req h :
  hub_inv h → ∃ h', on_subscribe marshal req h = Some h' ∧ keeps_clients h h' ∧
    ∀ x s, x ∈ subscribers h' s ↔ x ∈ subscribers h s ∨
      (x = sr_client req ∧ s = sr_sub req ∧ x ∈ h_clients h ∧
       Z.of_nat (size (client_subs h x)) < MaxSubsPerClient).
Proof.
  intros Hinv. unfold on_subscribe. set (c := sr_client req). set (s := sr_sub req).
  destruct (bool_decide (c ∈ h_clients h)) eqn:Hc; simpl.
  2:{ apply bool_decide_eq_false in Hc. exists h. split_and!; try done. intros x s'.
      split; [by left|]. intros [?|(-> & _ & ? & _)]; done. }
  apply bool_decide_eq_true in Hc. rewrite Z.geb_leb.
  destruct (Z.leb_spec MaxSubsPerClient (Z.of_nat (size (client_subs h c)))) as [Hge|Hlt].
  { destruct (sendJSON_keeps c (error_message "max subscriptions reached") h h) as (h' & Hs & Hk & Hcore);
      try done.
    exists h'. split_and!; try done. intros x s'. unfold subscribers. rewrite (sc_subs _ _ Hcore).
    split; [by left|]. intros [?|(-> & _ & _ & ?)]; [done|lia]. }
  case_bool_decide as Hs.
  { exists h. split_and!; try done. intros x s'. split; [by left|]. intros [?|(-> & -> & _)]; [done|].
    by apply (hi_subs _ Hinv). }
  set (h1 := set_state _ _ _ _ h).
  assert (∀ s', subscribers h1 s' = if decide (s' = s) then {[c]} ∪ subscribers h s else subscribers h s')
    as Hsub.
  { intros s'. unfold subscribers at 1, h1. simpl. destruct (decide (s' = s)) as [->|Hne].
    - by rewrite lookup_insert_eq.
    - by rewrite lookup_insert_ne. }
  assert (hub_inv h1) as Hinv1.
  { apply (resub_inv c s h (λ X, {[c]} ∪ X) (λ Y, {[s]} ∪ Y)); try done.
    - intros x s'. pose proof (hi_subs _ Hinv x s'). pose proof (hi_subs _ Hinv x s).
      pose proof (hi_subs _ Hinv c s').
      case_decide; case_decide; subst; rewrite ?elem_of_union, ?elem_of_singleton; try tauto.
    - rewrite size_union; [rewrite size_singleton; lia|]. intros x ->%elem_of_singleton. done. }
  destruct (sendJSON_keeps c (ack_message "subscribed" s) h1 h) as (h' & Hr & Hk & Hcore); try done.
  exists h'. split_and!; try done. intros x s'. unfold subscribers at 1.
  rewrite (sc_subs _ _ Hcore). fold (subscribers h1 s'). rewrite Hsub.
  case_decide as Hd; [|tauto]. subst s'. rewrite elem_of_union, elem_of_singleton.
  split; [|tauto]. intros [->|?]; tauto.
Qed.

Lemma on_unsubscribe_ok req h :
  hub_inv h → ∃ h', on_unsubscribe marshal req h = Some h' ∧ keeps_clients h h' ∧
    ∀ x s, x ∈ subscribers h' s ↔ x ∈ subscribers h s ∧ ¬ (x = ur_client req ∧ s = ur_sub req).
Proof.
  intros Hinv. unfold on_unsubscribe. set (c := ur_client req). set (s := ur_sub req).
  destruct (bool_decide (c ∈ h_clients h)) eqn:Hc; simpl.
  2:{ apply bool_decide_eq_false in Hc. exists h. split_and!; try done. intros x s'.
      split; [|tauto]. intros Hx. split; [done|]. intros [-> ->]. apply Hc, (hi_dom _ Hinv).
      apply (hi_subs _ Hinv) in Hx. unfold client_subs in Hx.
      destruct (h_clientSubs h !! c); [by eexists|]. by apply elem_of_empty in Hx. }
  apply bool_decide_eq_true in Hc. set (h1 := set_state _ _ _ _ h).
  assert (∀ s', subscribers h1 s' = if decide (s' = s) then subscribers h s ∖ {[c]} else subscribers h s')
    as Hsub.
  { intros s'. unfold subscribers at 1, h1. simpl. rewrite drop_one_lookup. by case_decide; subst. }
  assert (hub_inv h1) as Hinv1.
  { apply (resub_inv c s h (λ X, X ∖ {[c]}) (λ Y, Y ∖ {[s]})); try done.
    - intros x s'. pose proof (hi_subs _ Hinv x s'). pose proof (hi_subs _ Hinv x s).
      pose proof (hi_subs _ Hinv c s').
      case_decide; case_decide; subst; rewrite ?elem_of_difference, ?elem_of_singleton; tauto.
    - pose proof (hi_per_client _ Hinv c). etrans; [|done].
      apply inj_le, subseteq_size, subseteq_difference_l. done. }
  destruct (sendJSON_keeps c (ack_message "unsubscribed" s) h1 h) as (h' & Hr & Hk & Hcore); try done.
  exists h'. split_and!; try done. intros x s'. unfold subscribers at 1.
  rewrite (sc_subs _ _ Hcore). fold (subscribers h1 s'). rewrite Hsub.
  case_decide as Hd; [|tauto]. subst s'. rewrite elem_of_difference, elem_of_singleton. tauto.
Qed.

Lemma on_directSend_ok req h :
  hub_inv h → ∃ h', on_directSend marshal req h = Some h' ∧ keeps_clients h h'.
Proof.
  intros Hinv. unfold on_directSend. case_bool_decide as Hc; [|by exists h].
  destruct (sendJSON_keeps (dr_client req) (dr_msg req) h h) as (h' & Hs & Hk & _); try done.
  by exists h'.
Qed.
End Proofs.
