(* ===== verification/HubRun.v ===== *)
(** * Broadcasting, shutting down and running the hub

    The reachable states of a hub whose loop interleaves with any number of
    connecting, subscribing, reading, writing and disconnecting clients. *)
From S2P Require Import Prelude GoLib Entity Repository Hub HubProofs.

Section Broadcasting.
Context {P B : Type}.
Variable marshal : @ServerMessage P → option B.
Local Abbreviation Hub := (@Hub P B).

(** What client [x] has been sent and not yet written to its connection. *)
Definition outbox (h : Hub) (x : cid) : list B := ch_buf (cl_send (conn h x)).
Definition has_room (h : Hub) (x : cid) : bool :=
  (length (outbox h x) <? ch_cap (cl_send (conn h x)))%nat.

Lemma try_send_room c data (h : Hub) :
  closed h c = false →
  ∃ h', try_send c data h = Some (has_room h c, h') ∧ same_core h h' ∧
    outbox h' c = outbox h c ++ (if has_room h c then [data] else []) ∧
    ∀ x, x ≠ c → conn h' x = conn h x.
Proof.
  intros Hc. destruct (try_send_ok c data h Hc) as (sent & h' & Hs & Hcore).
  revert Hs. unfold try_send, chan_try_send. unfold closed in Hc. rewrite Hc.
  fold (outbox h c). fold (has_room h c).
  destruct (has_room h c) eqn:Hroom; intros [= <- <-]; (eexists; split_and!; [done|done| |]).
  all: try (intros x Hx; rewrite conn_insert; by rewrite decide_False by congruence).
  all: unfold outbox; rewrite conn_insert, decide_True by done; simpl; by rewrite ?app_nil_r.
Qed.

Lemma offers_ok data (l : list cid) (h : Hub) kicked :
  NoDup l → (∀ c, c ∈ l → closed h c = false) →
  ∃ h', foldl (offer data) (Some (h, kicked)) l =
          Some (h', kicked ++ filter (λ c, has_room h c = false) l) ∧
    same_core h h' ∧
    (∀ x, outbox h' x = outbox h x ++ if bool_decide (x ∈ l) && has_room h x then [data] else []) ∧
    (∀ x, x ∉ l → conn h' x = conn h x).
Proof.
  revert h kicked. induction l as [|c l IH]; intros h kicked Hnd Hopen.
  { exists h. rewrite filter_nil, app_nil_r. split_and!; try done.
    intros x. rewrite bool_decide_eq_false_2 by apply not_elem_of_nil. by rewrite app_nil_r. }
  apply NoDup_cons in Hnd as [Hc Hnd].
  destruct (try_send_room c data h) as (h1 & Hs & Hcore & Hout & Hother).
  { apply Hopen, list_elem_of_here. }
  assert (∀ x, x ∈ l → has_room h1 x = has_room h x) as Hroom.
  { intros x Hx. unfold has_room, outbox. rewrite Hother; [done|]. by intros ->. }
  destruct (IH h1 (if has_room h c then kicked else kicked ++ [c]) Hnd) as (h' & Hf & Hcore' & Hout' & Ho').
  { intros x Hx. rewrite (sc_closed _ _ Hcore). apply Hopen. by apply list_elem_of_further. }
  exists h'. split_and!.
  - assert (offer data (Some (h, kicked)) c =
            Some (h1, if has_room h c then kicked else kicked ++ [c])) as Hoff.
    { unfold offer. simpl. by rewrite Hs. }
    cbn [foldl]. rewrite Hoff, Hf. f_equal. f_equal.
    rewrite filter_cons, (filter_ext_in (λ c, has_room h1 c = false) (λ c, has_room h c = false)).
    + destruct (has_room h c); [by rewrite decide_False by done|]. rewrite decide_True by done.
      by rewrite <- app_assoc.
    + intros x Hx. by rewrite Hroom.
  - by transitivity h1.
  - intros x. rewrite Hout'. destruct (decide (x = c)) as [->|Hne].
    + rewrite Hout, bool_decide_eq_false_2 by done.
      rewrite bool_decide_eq_true_2 by apply list_elem_of_here. simpl. by rewrite app_nil_r.
    + assert (outbox h1 x = outbox h x) as -> by (unfold outbox; by rewrite Hother).
      destruct (decide (x ∈ l)) as [Hx|Hx].
      * rewrite !bool_decide_eq_true_2; [|by apply list_elem_of_further|done]. by rewrite Hroom.
      * rewrite !bool_decide_eq_false_2; [done| |done]. by intros [?|?]%elem_of_cons.
  - intros x [Hne Hx]%not_elem_of_cons. rewrite Ho' by done. by apply Hother.
Qed.

Lemma kick_all_ok (cs : list cid) (h : Hub) :
  hub_inv h → NoDup cs →
  ∃ h', kick_all cs h = Some h' ∧ hub_inv h' ∧
    h_clients h' = h_clients h ∖ list_to_set cs ∧
    (∀ s, subscribers h' s = subscribers h s ∖ list_to_set cs) ∧
    h_register h' = h_register h ∧
    (∀ x, x ∉ cs → conn h' x = conn h x) ∧
    (∀ x, x ∈ cs → x ∈ h_clients h → closed h' x = true).
Proof.
  unfold kick_all. revert h. induction cs as [|c cs IH]; intros h Hinv Hnd.
  { exists h. simpl. split_and!; try done.
    - by rewrite difference_empty_L.
    - intros s. by rewrite difference_empty_L.
    - by intros x ?%elem_of_nil. }
  apply NoDup_cons in Hnd as [Hc Hnd].
  destruct (removeClient_ok c h Hinv) as (h1 & Hr & [D1 D2 D3 D4 D5] & Hcl).
  destruct (IH h1 D1 Hnd) as (h' & Hk & Hi & Hcs & Hsubs & Hreg & Hconn & Hclosed).
  exists h'. cbn [foldl]. cbn. rewrite Hr. rewrite Hk. split_and!; try done.
  - by rewrite Hcs, D2, difference_difference_l_L.
  - intros s. by rewrite Hsubs, D3, difference_difference_l_L.
  - by rewrite Hreg.
  - intros x [Hne Hx]%not_elem_of_cons. rewrite Hconn by done. by apply D5.
  - intros x [->|Hx]%elem_of_cons Hin.
    + unfold closed. rewrite Hconn by done. by apply Hcl.
    + apply Hclosed; [done|]. rewrite D2, elem_of_difference, elem_of_singleton.
      split; [done|]. by intros ->.
Qed.
End Broadcasting.

(** ** The request channels are never closed *)
Section Channels.
Context {P B : Type}.
Variable marshal : @ServerMessage P → option B.
Local Abbreviation Hub := (@Hub P B).

(** What none of the cases changes: the request channels. *)
Record same_chans (h h' : Hub) : Prop := {
  sch_register : h_register h' = h_register h;
  sch_unregister : h_unregister h' = h_unregister h;
  sch_subscribe : h_subscribe h' = h_subscribe h;
  sch_unsubscribe : h_unsubscribe h' = h_unsubscribe h;
  sch_broadcast : h_broadcast h' = h_broadcast h;
  sch_directSend : h_directSend h' = h_directSend h;
}.

#[global] Instance same_chans_preorder : PreOrder same_chans.
Proof. split; [by split|]. intros x y z [] []. split; congruence. Qed.

Definition chans_open (h : Hub) : Prop :=
  ch_closed (h_register h) = false ∧ ch_closed (h_unregister h) = false ∧
  ch_closed (h_subscribe h) = false ∧ ch_closed (h_unsubscribe h) = false ∧
  ch_closed (h_broadcast h) = false ∧ ch_closed (h_directSend h) = false.

Lemma chans_open_same h h' : same_chans h h' → chans_open h → chans_open h'.
Proof. unfold chans_open. by intros [-> -> -> -> -> ->]. Qed.

Lemma try_send_chans c data (h : Hub) b h' : try_send c data h = Some (b, h') → same_chans h h'.
Proof. unfold try_send. case_match; [|done]. case_match. by intros [= <- <-]. Qed.

Lemma sendJSON_chans c msg (h h' : Hub) : sendJSON marshal c msg h = Some h' → same_chans h h'.
Proof.
  unfold sendJSON. case_match; [|by intros [= <-]].
  destruct (try_send c b h) as [[]|] eqn:Hs; simpl; [|done]. intros [= <-]. by eapply try_send_chans.
Qed.

Lemma close_send_chans c (h h' : Hub) : close_send c h = Some h' → same_chans h h'.
Proof. unfold close_send. case_match; [|done]. by intros [= <-]. Qed.

Lemma removeClient_chans c (h h' : Hub) : removeClient c h = Some h' → same_chans h h'.
Proof.
  unfold removeClient. case_match; [|by intros [= <-]].
  intros Hc%close_send_chans. etrans; [|exact Hc]. by split.
Qed.

Lemma kick_all_chans cs (h h' : Hub) : kick_all cs h = Some h' → same_chans h h'.
Proof.
  unfold kick_all. revert h. induction cs as [|c cs IH]; intros h; cbn [foldl]; [by intros [= <-]|].
  simpl. destruct (removeClient c h) as [h1|] eqn:Hr.
  - intros Hk. etrans; [by eapply removeClient_chans|]. by apply IH.
  - intros Hk. exfalso. clear IH Hr. induction cs as [|? cs IH]; [done|]. by apply IH.
Qed.

Lemma offers_chans data l (h : Hub) k h' k' :
  foldl (offer data) (Some (h, k)) l = Some (h', k') → same_chans h h'.
Proof.
  revert h k. induction l as [|c l IH]; intros h k; cbn [foldl]; [by intros [= <- <-]|].
  simpl. destruct (try_send c data h) as [[b h1]|] eqn:Hs; simpl.
  - intros Hf. etrans; [by eapply try_send_chans|]. by eapply IH.
  - intros Hf. exfalso. clear IH Hs. induction l as [|? l IH]; [done|]. by apply IH.
Qed.

Lemma on_register_chans c (h h' : Hub) : on_register marshal c h = Some h' → same_chans h h'.
Proof.
  unfold on_register. repeat case_match; try (by intros [= <-]).
  all: destruct (sendJSON marshal c _ h) as [h1|] eqn:Hs; simpl; [|done]; intros Hc.
  all: etrans; [by eapply sendJSON_chans|by eapply close_send_chans].
Qed.

Lemma sub_chans (h h1 h' : Hub) c msg :
  same_chans h h1 → sendJSON marshal c msg h1 = Some h' → same_chans h h'.
Proof. intros. etrans; [done|]. by eapply sendJSON_chans. Qed.

Lemma on_subscribe_chans r (h h' : Hub) : on_subscribe marshal r h = Some h' → same_chans h h'.
Proof.
  unfold on_subscribe. repeat case_match; try (by intros [= <-]); by apply sub_chans.
Qed.

Lemma on_unsubscribe_chans r (h h' : Hub) : on_unsubscribe marshal r h = Some h' → same_chans h h'.
Proof. unfold on_unsubscribe. case_match; [by intros [= <-]|]. by apply sub_chans. Qed.

Lemma on_directSend_chans r (h h' : Hub) : on_directSend marshal r h = Some h' → same_chans h h'.
Proof. unfold on_directSend. case_match; [by apply sub_chans|by intros [= <-]]. Qed.

Lemma on_broadcast_chans m (h h' : Hub) : on_broadcast m h = Some h' → same_chans h h'.
Proof.
  unfold on_broadcast. destruct (foldl _ _ _) as [[h1 k]|] eqn:Hf; simpl; [|done].
  intros Hk. etrans; [by eapply offers_chans|by eapply kick_all_chans].
Qed.
End Channels.
