(* ===== verification/HubTheorems.v ===== *)
(** * What the hub guarantees in every reachable state *)
From S2P Require Import Prelude GoLib Entity Repository Hub HubProofs HubRun.

Section Running.
Context {P B : Type}.
Variable marshal : @ServerMessage P → option B.
Variable unmarshal : B → option ClientMessage.
Local Abbreviation Hub := (@Hub P B).

(** What the other goroutines do to the hub. *)
Inductive client_step (h : Hub) : Hub → Prop :=
| cs_connect userID ip c h' :
    h_conns h !! c = None → ServeHTTP userID ip c h = Some h' → client_step h h'
| cs_frame c data h' : readPump_frame unmarshal c data h = Some h' → client_step h h'
| cs_leave c h' : readPump_exit c h = Some h' → client_step h h'
| cs_write c data h' : writePump_turn c h = WriteMsg data h' → client_step h h'
| cs_broadcast channel stock payload : client_step h (Broadcast marshal channel stock payload h).

Inductive hub_reachable : Hub → Prop :=
| hub_init : hub_reachable NewHub
| hub_turn h h' : hub_reachable h → run_step marshal h (Some h') → hub_reachable h'
| hub_client h h' : hub_reachable h → client_step h h' → hub_reachable h'.

Definition hub_ok (h : Hub) : Prop := hub_inv h ∧ chans_open h.

Lemma NewHub_ok : hub_ok NewHub.
Proof.
  split; [|by split_and!].
  assert (∀ c, @client_subs P B NewHub c = ∅) as Hcs.
  { intros c. unfold client_subs. simpl. by rewrite lookup_empty. }
  assert (∀ s, @subscribers P B NewHub s = ∅) as Hsubs.
  { intros s. unfold subscribers. simpl. by rewrite lookup_empty. }
  assert (∀ ip, @ip_count P B NewHub ip = 0) as Hip.
  { intros ip. unfold ip_count. simpl. by rewrite lookup_empty. }
  split.
  - intros c. simpl. rewrite lookup_empty, elem_of_empty. split; [by intros [? ?]|done].
  - intros c s. by rewrite Hcs, Hsubs, !elem_of_empty.
  - intros ip. rewrite Hip. change (h_clients NewHub) with (∅ : gset cid).
    rewrite (filter_empty_L (C := gset cid) (A := cid)); [done|apply _].
  - intros ip n. simpl. by rewrite lookup_empty.
  - done.
  - intros ip. by rewrite Hip.
  - intros c. rewrite Hcs. done.
  - intros c. simpl. by intros ?%elem_of_empty.
  - split; [constructor|]. by intros c ?%elem_of_nil.
  - intros c [?%elem_of_empty|?%elem_of_nil]; done.
Qed.

(** Receiving a request leaves the rest of the state alone. *)
Lemma set_register_ok c ch (h : Hub) :
  hub_ok h → chan_recv (h_register h) = Received c ch →
  hub_ok (set_register ch h) ∧ newcomer c (set_register ch h).
Proof.
  intros [Hinv Ho] Hr. apply chan_recv_Received in Hr as (Hbuf & Hcl & _).
  destruct Hinv as [I1 I2 I3 I4 I5 I6 I7 I8 [I9 I10] I11].
  rewrite Hbuf in I9, I10, I11. apply NoDup_cons in I9 as [Hc Hnd].
  destruct (I10 c (list_elem_of_here _ _)) as [Hnc Hclosed].
  split; [split|].
  - split; try done.
    + split; [done|]. intros x Hx. by apply I10, list_elem_of_further.
    + intros x [Hx|Hx]; apply I11; [by left|]. right. by apply list_elem_of_further.
  - unfold chans_open in *. simpl. rewrite Hcl. done.
  - split_and!; try done. apply I11. right. apply list_elem_of_here.
Qed.

Lemma hub_inv_same_state (h h' : Hub) :
  same_core h h' → chans_open h' → hub_ok h → hub_ok h'.
Proof. intros Hs Ho [Hinv _]. split; [by eapply hub_inv_core|done]. Qed.

Ltac set_chan_ok :=
  let Hok := fresh in let Hr := fresh in
  intros Hok Hr; apply chan_recv_Received in Hr as (_ & Hr & _);
  refine (hub_inv_same_state _ _ _ _ Hok); [by split|];
  destruct Hok as [_ Hok]; unfold chans_open in *; simpl; rewrite Hr; exact Hok.

Lemma set_unregister_ok c ch (h : Hub) :
  hub_ok h → chan_recv (h_unregister h) = Received c ch → hub_ok (set_unregister ch h).
Proof. set_chan_ok. Qed.
Lemma set_subscribe_ok r ch (h : Hub) :
  hub_ok h → chan_recv (h_subscribe h) = Received r ch → hub_ok (set_subscribe ch h).
Proof. set_chan_ok. Qed.
Lemma set_unsubscribe_ok r ch (h : Hub) :
  hub_ok h → chan_recv (h_unsubscribe h) = Received r ch → hub_ok (set_unsubscribe ch h).
Proof. set_chan_ok. Qed.
Lemma set_directSend_ok r ch (h : Hub) :
  hub_ok h → chan_recv (h_directSend h) = Received r ch → hub_ok (set_directSend ch h).
Proof. set_chan_ok. Qed.
Lemma set_broadcast_ok m ch (h : Hub) :
  hub_ok h → chan_recv (h_broadcast h) = Received m ch → hub_ok (set_broadcast ch h).
Proof. set_chan_ok. Qed.

Lemma subscriber_client (h : Hub) c s : hub_inv h → c ∈ subscribers h s → c ∈ h_clients h.
Proof.
  intros Hinv Hc. apply (hi_dom _ Hinv). apply (hi_subs _ Hinv) in Hc. unfold client_subs in Hc.
  destruct (h_clientSubs h !! c); [by eexists|]. by apply elem_of_empty in Hc.
Qed.

(** The effect of one broadcast. *)
Record broadcast_effect (m : @broadcastMsg B) (h h' : Hub) : Prop := {
  be_room : ∀ x, x ∈ subscribers h (bm_sub m) → has_room h x = true →
    x ∈ h_clients h' ∧ outbox h' x = outbox h x ++ [bm_data m];
  be_full : ∀ x, x ∈ subscribers h (bm_sub m) → has_room h x = false →
    (x ∉ h_clients h') ∧ (∀ s, x ∉ subscribers h' s) ∧ closed h' x = true;
  be_other : ∀ x, x ∉ subscribers h (bm_sub m) →
    conn h' x = conn h x ∧ (x ∈ h_clients h' ↔ x ∈ h_clients h);
}.

Lemma on_broadcast_ok m (h : Hub) :
  hub_inv h → ∃ h', on_broadcast m h = Some h' ∧ hub_inv h' ∧ broadcast_effect m h h'.
Proof.
  intros Hinv. unfold on_broadcast. set (l := elements (subscribers h (bm_sub m))).
  destruct (offers_ok (bm_data m) l h []) as (h1 & Hf & Hcore & Hout & Hoth).
  { apply NoDup_elements. }
  { intros c Hc. apply elem_of_elements in Hc. apply (hi_open _ Hinv). by eapply subscriber_client. }
  rewrite Hf. simpl. set (k := filter _ l).
  assert (hub_inv h1) as Hinv1 by by eapply hub_inv_core.
  destruct (kick_all_ok k h1 Hinv1) as (h' & Hk & Hi & Hcs & Hsubs & _ & Hconn & Hclosed).
  { apply NoDup_filter, NoDup_elements. }
  assert (∀ x, x ∈ k ↔ x ∈ subscribers h (bm_sub m) ∧ has_room h x = false) as Hink.
  { intros x. unfold k, l. rewrite list_elem_of_filter, elem_of_elements. tauto. }
  assert (∀ x, x ∈ h_clients h' ↔ x ∈ h_clients h ∧ x ∉ k) as Hincs.
  { intros x. rewrite Hcs, (sc_clients _ _ Hcore), elem_of_difference, elem_of_list_to_set. done. }
  exists h'. split_and!; try done. split.
  - intros x Hx Hroom. assert (x ∉ k) as Hnk by (rewrite Hink; intros [_ ?]; congruence).
    rewrite Hincs. split; [split; [by eapply subscriber_client|done]|].
    unfold outbox at 1. rewrite Hconn by done. fold (outbox h1 x). rewrite Hout, Hroom.
    by rewrite bool_decide_eq_true_2 by by apply elem_of_elements.
  - intros x Hx Hroom. assert (x ∈ k) as Hkx by by apply Hink.
    split_and!.
    + rewrite Hincs. tauto.
    + intros s. rewrite Hsubs, elem_of_difference, elem_of_list_to_set. tauto.
    + apply Hclosed; [done|]. rewrite (sc_clients _ _ Hcore). by eapply subscriber_client.
  - intros x Hx. assert (x ∉ k) as Hnk by (rewrite Hink; tauto).
    rewrite Hincs. split; [|tauto]. rewrite Hconn by done. apply Hoth.
    by unfold l; rewrite elem_of_elements.
Qed.

Lemma on_done_ok (h : Hub) :
  hub_inv h → ∃ h', on_done h = Some h' ∧ hub_inv h' ∧ h_clients h' = ∅ ∧
    ∀ x, x ∈ h_clients h → closed h' x = true.
Proof.
  intros Hinv. unfold on_done.
  destruct (kick_all_ok (elements (h_clients h)) h Hinv) as (h' & Hk & Hi & Hcs & _ & _ & _ & Hcl).
  { apply NoDup_elements. }
  exists h'. split_and!; try done.
  - rewrite Hcs, list_to_set_elements_L. apply difference_diag_L.
  - intros x Hx. apply Hcl; [by apply elem_of_elements|done].
Qed.

(** Every case of the select runs to its end. *)
Lemma run_step_ok (h : Hub) r : hub_ok h → run_step marshal h r → ∃ h', r = Some h' ∧ hub_ok h'.
Proof.
  intros Hok Hstep.
  assert (∀ h0 h', hub_ok h0 → same_chans h0 h' → hub_inv h' → hub_ok h') as Hfin.
  { intros h0 h' [_ Ho] Hs Hi. split; [done|]. by eapply chans_open_same. }
  destruct Hstep as [c ch Hr|c ch Hr|q ch Hr|q ch Hr|q ch Hr|m ch Hr|].
  - destruct (set_register_ok c ch h Hok Hr) as [Hok' Hnew].
    destruct (on_register_ok marshal c _ (proj1 Hok') Hnew) as (h' & Hs & Hi & _).
    exists h'. split; [done|]. apply (Hfin _ _ Hok'); [by eapply on_register_chans|done].
  - pose proof (set_unregister_ok c ch h Hok Hr) as Hok'.
    destruct (removeClient_ok c _ (proj1 Hok')) as (h' & Hs & [Hi _ _ _ _] & _).
    exists h'. split; [done|]. apply (Hfin _ _ Hok'); [by eapply removeClient_chans|done].
  - pose proof (set_subscribe_ok q ch h Hok Hr) as Hok'.
    destruct (on_subscribe_ok marshal q _ (proj1 Hok')) as (h' & Hs & [Hi _] & _).
    exists h'. split; [done|]. apply (Hfin _ _ Hok'); [by eapply on_subscribe_chans|done].
  - pose proof (set_unsubscribe_ok q ch h Hok Hr) as Hok'.
    destruct (on_unsubscribe_ok marshal q _ (proj1 Hok')) as (h' & Hs & [Hi _] & _).
    exists h'. split; [done|]. apply (Hfin _ _ Hok'); [by eapply on_unsubscribe_chans|done].
  - pose proof (set_directSend_ok q ch h Hok Hr) as Hok'.
    destruct (on_directSend_ok marshal q _ (proj1 Hok')) as (h' & Hs & [Hi _]).
    exists h'. split; [done|]. apply (Hfin _ _ Hok'); [by eapply on_directSend_chans|done].
  - pose proof (set_broadcast_ok m ch h Hok Hr) as Hok'.
    destruct (on_broadcast_ok m _ (proj1 Hok')) as (h' & Hs & Hi & _).
    exists h'. split; [done|]. apply (Hfin _ _ Hok'); [by eapply on_broadcast_chans|done].
  - destruct (on_done_ok h (proj1 Hok)) as (h' & Hs & Hi & _).
    exists h'. split; [done|]. apply (Hfin _ _ Hok); [by eapply kick_all_chans|done].
Qed.

(** ** Calls of the other goroutines *)
Lemma push_Some {A} (x : A) c c' :
  push x c = Some c' → ch_buf c' = ch_buf c ++ [x] ∧ ch_closed c' = ch_closed c.
Proof.
  unfold push. destruct (chan_try_send x c) as [[[] ch]|] eqn:Hs; [|done..].
  intros [= <-]. apply chan_try_send_buf in Hs as (-> & -> & _ & ->). done.
Qed.

Lemma enqueue_closed {A} (x : A) c : ch_closed (enqueue x c) = ch_closed c.
Proof.
  unfold enqueue. destruct (chan_try_send x c) as [[b ch]|] eqn:Hs; [|done].
  by apply chan_try_send_buf in Hs as (-> & -> & _).
Qed.

Lemma SendJSONSafe_ok c msg (h : Hub) : hub_ok h → hub_ok (SendJSONSafe c msg h).
Proof.
  intros Hok. refine (hub_inv_same_state _ _ _ _ Hok); [by split|].
  destruct Hok as [_ Ho]. unfold chans_open in *. simpl. by rewrite enqueue_closed.
Qed.

Lemma Broadcast_ok channel stock p (h : Hub) : hub_ok h → hub_ok (Broadcast marshal channel stock p h).
Proof.
  intros Hok. unfold Broadcast. case_match; [|done].
  refine (hub_inv_same_state _ _ _ _ Hok); [by split|].
  destruct Hok as [_ Ho]. unfold chans_open in *. simpl. by rewrite enqueue_closed.
Qed.

Ltac push_ok Hok :=
  match goal with
  | |- _ <$> push ?x ?c = Some _ → _ =>
      let ch := fresh "ch" in let Hp := fresh "Hp" in
      destruct (push x c) as [ch|] eqn:Hp; simpl; [|done]; intros [= <-];
      apply push_Some in Hp as [_ Hp];
      refine (hub_inv_same_state _ _ _ _ Hok); [by split|];
      destruct Hok as [_ Ho]; unfold chans_open in *; simpl; by rewrite Hp
  end.

Lemma readPump_exit_ok c (h h' : Hub) : hub_ok h → readPump_exit c h = Some h' → hub_ok h'.
Proof. intros Hok. unfold readPump_exit. push_ok Hok. Qed.

Lemma handleMessage_ok c msg (h h' : Hub) : hub_ok h → handleMessage c msg h = Some h' → hub_ok h'.
Proof.
  intros Hok. unfold handleMessage. destruct (cm_Action msg =? "subscribe")%string; [push_ok Hok|].
  destruct (cm_Action msg =? "unsubscribe")%string; [push_ok Hok|].
  case_match; intros [= <-]; by apply SendJSONSafe_ok.
Qed.

Lemma writePump_turn_ok c data (h h' : Hub) :
  hub_ok h → writePump_turn c h = WriteMsg data h' → hub_ok h'.
Proof.
  intros Hok. unfold writePump_turn. destruct (chan_recv _) as [d ch| |] eqn:Hr; [|done..].
  intros [= <- <-]. apply chan_recv_Received in Hr as (_ & Hcl & _).
  refine (hub_inv_same_state _ _ _ _ Hok); [|apply Hok]. split; try done.
  - intros x. unfold ip_of. rewrite conn_insert. by case_decide; subst.
  - intros x. unfold closed. rewrite conn_insert. by case_decide; subst.
  - intros x Hx. simpl. destruct (decide (c = x)) as [->|Hne]; [rewrite lookup_insert_eq; by eexists|].
    by rewrite lookup_insert_ne.
Qed.

Lemma ServeHTTP_ok userID ip c (h h' : Hub) :
  hub_ok h → h_conns h !! c = None → ServeHTTP userID ip c h = Some h' → hub_ok h'.
Proof.
  intros [Hinv Ho] Hc. unfold ServeHTTP.
  destruct (push c _) as [ch|] eqn:Hp; simpl; [|done]. intros [= <-].
  apply push_Some in Hp as [Hbuf Hcl]. simpl in Hbuf, Hcl.
  set (id := match userID with Some _ => _ | None => _ end).
  destruct Hinv as [I1 I2 I3 I4 I5 I6 I7 I8 [I9 I10] I11].
  assert (∀ x, x ∈ h_clients h ∨ x ∈ ch_buf (h_register h) → x ≠ c) as Hfresh.
  { intros x Hx ->. apply I11 in Hx as [? ?]. congruence. }
  set (h' := set_register _ _).
  assert (∀ x, conn h' x = if decide (c = x) then NewClient id ip else conn h x) as Hconn.
  { intros x. exact (conn_insert h c x (NewClient id ip)). }
  assert (∀ x, x ≠ c → ip_of h' x = ip_of h x) as Hip.
  { intros x Hx. unfold ip_of. rewrite Hconn. by rewrite decide_False by congruence. }
  assert (∀ x, closed h x = false → closed h' x = false) as Hclosed.
  { intros x Hx. unfold closed. rewrite Hconn. by case_decide. }
  split.
  - split; try done.
    + intros a. unfold h'. simpl. unfold ip_count in *. simpl. rewrite I3. do 2 f_equal.
      apply set_eq. intros x. rewrite !elem_of_filter. split; intros [Hx Hin]; (split; [|done]).
      * rewrite Hip; [done|]. apply Hfresh. by left.
      * rewrite <- Hx. symmetry. apply Hip. apply Hfresh. by left.
    + intros x Hx. by apply Hclosed, I8.
    + simpl. rewrite Hbuf. split.
      * apply NoDup_app. split_and!; [done| |apply NoDup_singleton].
        intros x Hx ->%list_elem_of_singleton. by apply (Hfresh c); [right|].
      * intros x [Hx|Hx]%elem_of_snoc; [|subst x].
        -- destruct (I10 x Hx). split; [done|]. by apply Hclosed.
        -- split; [intros ?; by apply (Hfresh c); [left|]|]. unfold closed. by rewrite Hconn, decide_True.
    + intros x. simpl. rewrite Hbuf, elem_of_snoc.
      destruct (decide (c = x)) as [->|Hne]; [rewrite lookup_insert_eq; intros; by eexists|].
      rewrite lookup_insert_ne by done. intros [?|[?|?]]; [apply I11..|congruence]; tauto.
  - unfold chans_open in *. simpl. by rewrite Hcl.
Qed.

Lemma client_step_ok (h h' : Hub) : hub_ok h → client_step h h' → hub_ok h'.
Proof.
  intros Hok [userID ip c h1 Hc Hs|c data h1 Hs|c h1 Hs|c data h1 Hs|channel stock p].
  - by eapply ServeHTTP_ok.
  - revert Hs. unfold readPump_frame. case_match; [by apply handleMessage_ok|].
    intros [= <-]. by apply SendJSONSafe_ok.
  - by eapply readPump_exit_ok.
  - by eapply writePump_turn_ok.
  - by apply Broadcast_ok.
Qed.

Lemma hub_reachable_ok (h : Hub) : hub_reachable h → hub_ok h.
Proof.
  induction 1 as [|h h' _ IH Hs|h h' _ IH Hs]; [apply NewHub_ok| |by eapply client_step_ok].
  by destruct (run_step_ok h (Some h') IH Hs) as (h1 & [= ->] & Hok).
Qed.
End Running.

Section Theorems.
Context {P B : Type}.
Variable marshal : @ServerMessage P → option B.
Variable unmarshal : B → option ClientMessage.
Local Abbreviation Hub := (@Hub P B).
Local Abbreviation reachable := (hub_reachable marshal unmarshal).

(** C14. Whatever the clients do and in whatever order [Run] serves its
    channels, no iteration of the hub's loop panics (no send on, and no
    second close of, a client's queue), the connection limits hold in total
    and per address, the per-address counters count the connected clients,
    no client exceeds its subscriptions, and the two subscription maps are
    inverse to each other and mention connected clients only. *)
Theorem hub_safe (h : Hub) :
  reachable h →
  (∀ r, run_step marshal h r → ∃ h', r = Some h' ∧ reachable h') ∧
  Z.of_nat (size (h_clients h)) <= MaxTotalConnections ∧
  (∀ ip, ip_count h ip = Z.of_nat (size (filter (λ c, ip_of h c = ip) (h_clients h))) ∧
         ip_count h ip <= MaxConnPerIP) ∧
  (∀ c, Z.of_nat (size (client_subs h c)) <= MaxSubsPerClient) ∧
  (∀ c s, c ∈ subscribers h s ↔ c ∈ h_clients h ∧ s ∈ client_subs h c) ∧
  (∀ c, c ∈ h_clients h → closed h c = false).
Proof.
  intros Hr. destruct (hub_reachable_ok marshal unmarshal h Hr) as [Hinv Ho]. split_and!.
  - intros r Hs. destruct (run_step_ok marshal h r) as (h' & -> & _); [done..|].
    exists h'. split; [done|]. by eapply hub_turn.
  - apply (hi_total _ Hinv).
  - intros ip. split; [apply (hi_ip _ Hinv)|apply (hi_per_ip _ Hinv)].
  - apply (hi_per_client _ Hinv).
  - intros c s. rewrite <- (hi_subs _ Hinv). split; [|tauto].
    intros Hc. split; [by eapply subscriber_client|done].
  - apply (hi_open _ Hinv).
Qed.

(** C15. Serving a broadcast appends the data once to the queue of every
    subscriber with room and keeps it connected, drops every subscriber
    whose queue is full (out of every map, its queue closed), and touches no
    other client. *)
Theorem hub_broadcast_effect (h : Hub) m ch :
  reachable h → chan_recv (h_broadcast h) = Received m ch →
  ∃ h', on_broadcast m (set_broadcast ch h) = Some h' ∧ reachable h' ∧
    (∀ x, x ∈ subscribers h (bm_sub m) → has_room h x = true →
       x ∈ h_clients h' ∧ outbox h' x = outbox h x ++ [bm_data m]) ∧
    (∀ x, x ∈ subscribers h (bm_sub m) → has_room h x = false →
       (x ∉ h_clients h') ∧ (∀ s, x ∉ subscribers h' s) ∧ closed h' x = true) ∧
    (∀ x, x ∉ subscribers h (bm_sub m) →
       conn h' x = conn h x ∧ (x ∈ h_clients h' ↔ x ∈ h_clients h)).
Proof.
  intros Hr Hm. destruct (hub_reachable_ok marshal unmarshal h Hr) as [Hinv Ho].
  destruct (set_broadcast_ok m ch h (conj Hinv Ho) Hm) as [Hinv' _].
  destruct (on_broadcast_ok m _ Hinv') as (h' & Hs & _ & [H1 H2 H3]).
  exists h'. split_and!; try done. eapply hub_turn; [exact Hr|]. rewrite <- Hs. by constructor.
Qed.

(** C16. A client asking to be registered is accepted exactly when both
    the total and its address are below their limits; a refused client
    leaves the maps as they were and has its queue closed. *)
Theorem hub_admission (h : Hub) c ch :
  reachable h → chan_recv (h_register h) = Received c ch →
  ∃ h', on_register marshal c (set_register ch h) = Some h' ∧
    (c ∈ h_clients h' ↔
       Z.of_nat (size (h_clients h)) < MaxTotalConnections ∧ ip_count h (ip_of h c) < MaxConnPerIP) ∧
    (c ∉ h_clients h' → h_clients h' = h_clients h ∧ closed h' c = true) ∧
    (c ∈ h_clients h' → h_clients h' = {[c]} ∪ h_clients h ∧
       ip_count h' (ip_of h c) = ip_count h (ip_of h c) + 1 ∧ client_subs h' c = ∅).
Proof.
  intros Hr Hc. pose proof (hub_reachable_ok marshal unmarshal h Hr) as Hok.
  destruct (set_register_ok c ch h Hok Hc) as [[Hinv _] Hnew].
  destruct (on_register_ok marshal c _ Hinv Hnew) as (h' & Hs & _ & Heff).
  assert (c ∉ h_clients h) as Hnc by apply Hnew.
  exists h'. split; [done|].
  change (h_clients (set_register ch h)) with (h_clients h) in Heff.
  change (ip_count (set_register ch h) (ip_of (set_register ch h) c)) with (ip_count h (ip_of h c)) in Heff.
  destruct (Z.ltb_spec (Z.of_nat (size (h_clients h))) MaxTotalConnections) as [H1|H1];
    [destruct (Z.ltb_spec (ip_count h (ip_of h c)) MaxConnPerIP) as [H2|H2]|].
  - simpl in Heff. subst h'.
    assert (h_clients (accepted c (set_register ch h)) = {[c]} ∪ h_clients h) as -> by done.
    assert (c ∈ {[c]} ∪ h_clients h) by (rewrite elem_of_union, elem_of_singleton; by left).
    split_and!; [done|done|]. intros _. split_and!; [done| |].
    + unfold ip_count at 1, accepted. simpl. rewrite ip_count_insert, decide_True by done.
      pose proof (ip_count_bounds h (ip_of h c) (proj1 Hok)) as Hb. unfold MaxConnPerIP in Hb.
      apply i64_add_id. change (in_i64 (ip_count h (ip_of h c) + 1)). i64_lia.
    + unfold client_subs. simpl. by rewrite lookup_insert_eq.
  - simpl in Heff. destruct Heff as [Hcs Hcl]. rewrite Hcs. split_and!; [split; [done|lia]|done..].
  - simpl in Heff. destruct Heff as [Hcs Hcl]. rewrite Hcs. split_and!; [split; [done|lia]|done..].
Qed.

(** A subscription request adds exactly the requested entry, and only
    for a connected client below its limit; an unsubscription removes exactly
    that entry; neither connects or drops a client. *)
Theorem hub_subscriptions (h : Hub) :
  reachable h →
  (∀ req ch, chan_recv (h_subscribe h) = Received req ch →
     ∃ h', on_subscribe marshal req (set_subscribe ch h) = Some h' ∧ h_clients h' = h_clients h ∧
       ∀ x s, x ∈ subscribers h' s ↔ x ∈ subscribers h s ∨
         (x = sr_client req ∧ s = sr_sub req ∧ x ∈ h_clients h ∧
          Z.of_nat (size (client_subs h x)) < MaxSubsPerClient)) ∧
  (∀ req ch, chan_recv (h_unsubscribe h) = Received req ch →
     ∃ h', on_unsubscribe marshal req (set_unsubscribe ch h) = Some h' ∧ h_clients h' = h_clients h ∧
       ∀ x s, x ∈ subscribers h' s ↔ x ∈ subscribers h s ∧ ¬ (x = ur_client req ∧ s = ur_sub req)).
Proof.
  intros Hr. pose proof (hub_reachable_ok marshal unmarshal h Hr) as Hok. split; intros req ch Hc.
  - pose proof (set_subscribe_ok req ch h Hok Hc) as [Hinv _].
    destruct (on_subscribe_ok marshal req _ Hinv) as (h' & Hs & (_ & Hcl & _) & Heff).
    by exists h'.
  - pose proof (set_unsubscribe_ok req ch h Hok Hc) as [Hinv _].
    destruct (on_unsubscribe_ok marshal req _ Hinv) as (h' & Hs & (_ & Hcl & _) & Heff).
    by exists h'.
Qed.

(** When the context is cancelled the hub drops every client: the
    client and counter maps end empty and every connected client's queue is
    closed, so its [writePump] drains the queue and then stops. *)
Theorem hub_shutdown (h : Hub) :
  reachable h →
  ∃ h', on_done h = Some h' ∧ h_clients h' = ∅ ∧
    (∀ s, subscribers h' s = ∅) ∧ (∀ ip, ip_count h' ip = 0) ∧
    (∀ c, c ∈ h_clients h → closed h' c = true).
Proof.
  intros Hr. destruct (hub_reachable_ok marshal unmarshal h Hr) as [Hinv _].
  destruct (on_done_ok h Hinv) as (h' & Hs & Hi & Hcs & Hcl). exists h'. split_and!; try done.
  - intros s. apply elem_of_equiv_empty_L. intros c Hc.
    apply (subscriber_client _ _ _ Hi) in Hc. rewrite Hcs in Hc. by apply elem_of_empty in Hc.
  - intros ip. rewrite (hi_ip _ Hi), Hcs.
    rewrite (filter_empty_L (C := gset cid) (A := cid)); [done|apply _].
Qed.
End Theorems.

(** ** A concrete hub *)
Module HubDemo.
Definition Msg : Type := @ServerMessage nat.
Definition enc : Msg → option Msg := Some.
Definition dec (m : Msg) : option ClientMessage :=
  Some (mkClientMessage (sm_Type m) (sm_Channel m) (sm_Stock m)).
Definition St : Type := @Hub nat Msg.
Definition or_same (h : St) (o : option St) : St := default h o.

Definition connect (c : cid) (h : St) : St := or_same h (ServeHTTP (Some "alice") "10.0.0.1" c h).
Definition turn_register (h : St) : St :=
  match chan_recv (h_register h) with
  | Received c ch => or_same h (on_register enc c (set_register ch h))
  | _ => h
  end.
Definition turn_unregister (h : St) : St :=
  match chan_recv (h_unregister h) with
  | Received c ch => or_same h (on_unregister c (set_unregister ch h))
  | _ => h
  end.
Definition turn_subscribe (h : St) : St :=
  match chan_recv (h_subscribe h) with
  | Received r ch => or_same h (on_subscribe enc r (set_subscribe ch h))
  | _ => h
  end.
Definition frame (c : cid) (m : Msg) (h : St) : St := or_same h (readPump_frame dec c m h).

Definition h0 : St := NewHub.
Definition h1 : St := connect 0%nat h0.
Definition h2 : St := turn_register h1.
Definition h3 : St := frame 0%nat (mkServerMessage "subscribe" "trade" "BBCA" None "") h2.
Definition h4 : St := turn_subscribe h3.
Definition h5 : St := Broadcast enc "trade" "BBCA" 7%nat h4.

Lemma h1_reachable : hub_reachable enc dec h1.
Proof. eapply hub_client; [apply hub_init|]. by eapply (cs_connect _ _ _ (Some "alice"%string) "10.0.0.1" 0%nat). Qed.
Lemma h2_reachable : hub_reachable enc dec h2.
Proof. eapply hub_turn; [apply h1_reachable|]. by apply (run_register enc h1 0%nat (make_chan _ 64)). Qed.
Lemma h3_reachable : hub_reachable enc dec h3.
Proof. eapply hub_client; [apply h2_reachable|]. by apply (cs_frame enc dec h2 0%nat (mkServerMessage "subscribe" "trade" "BBCA" None "") h3). Qed.
Lemma h4_reachable : hub_reachable enc dec h4.
Proof.
  eapply hub_turn; [apply h3_reachable|].
  by apply (run_subscribe enc h3 (mkSubReq 0%nat (mkSubscription "trade" "BBCA")) (make_chan _ 64)).
Qed.
Lemma h5_reachable : hub_reachable enc dec h5.
Proof. eapply hub_client; [apply h4_reachable|]. apply cs_broadcast. Qed.

Lemma hub_safe_witness : size (h_clients h5) = 1%nat ∧ Z.of_nat (size (h_clients h5)) <= MaxTotalConnections.
Proof. split; [vm_compute; done|]. apply (hub_safe enc dec h5), h5_reachable. Defined.

Lemma hub_broadcast_effect_witness :
  ∃ h', on_broadcast (mkBroadcast (mkSubscription "trade" "BBCA") (mkServerMessage "trade" "" "BBCA" (Some 7%nat) ""))
          (set_broadcast (make_chan _ 256) h5) = Some h' ∧
    outbox h' 0%nat = [mkServerMessage "subscribed" "trade" "BBCA" None ""] ++
      [mkServerMessage "trade" "" "BBCA" (Some 7%nat) ""].
Proof.
  destruct (hub_broadcast_effect enc dec h5
    (mkBroadcast (mkSubscription "trade" "BBCA") (mkServerMessage "trade" "" "BBCA" (Some 7%nat) ""))
    (make_chan _ 256) h5_reachable) as (h' & Hs & _ & Hroom & _); [vm_compute; reflexivity|].
  exists h'. split; [exact Hs|].
  destruct (Hroom 0%nat) as [_ Hout]; [apply (bool_decide_unpack _); vm_compute; exact I|vm_compute; reflexivity|].
  transitivity (outbox h5 0%nat ++ [mkServerMessage "trade" "" "BBCA" (Some 7%nat) ""]);
    [exact Hout|vm_compute; reflexivity].
Defined.

Lemma hub_admission_witness :
  ∃ h', on_register enc 0%nat (set_register (make_chan _ 64) h1) = Some h' ∧ 0%nat ∈ h_clients h'.
Proof.
  destruct (hub_admission enc dec h1 0%nat (make_chan _ 64) h1_reachable) as (h' & Hs & Hiff & _);
    [vm_compute; reflexivity|].
  exists h'. split; [exact Hs|]. apply Hiff. split; vm_compute; reflexivity.
Defined.

Lemma hub_subscriptions_witness :
  ∃ h', on_subscribe enc (mkSubReq 0%nat (mkSubscription "trade" "BBCA")) (set_subscribe (make_chan _ 64) h3) = Some h' ∧
    0%nat ∈ subscribers h' (mkSubscription "trade" "BBCA").
Proof.
  destruct (hub_subscriptions enc dec h3 h3_reachable) as [Hsub _].
  destruct (Hsub (mkSubReq 0%nat (mkSubscription "trade" "BBCA")) (make_chan _ 64)) as (h' & Hs & _ & Heff);
    [vm_compute; reflexivity|].
  exists h'. split; [exact Hs|]. apply Heff. right. split_and!; [done|done| |vm_compute; reflexivity].
  apply (bool_decide_unpack _). vm_compute. exact I.
Defined.

Lemma hub_shutdown_witness : ∃ h', on_done h5 = Some h' ∧ closed h' 0%nat = true.
Proof.
  destruct (hub_shutdown enc dec h5 h5_reachable) as (h' & Hs & _ & _ & _ & Hcl).
  exists h'. split; [exact Hs|]. apply Hcl, (bool_decide_unpack _). vm_compute. exact I.
Defined.

(** A client that leaves before its registration is served: the select may
    take [unregister] first, where the client is still unknown, and then
    accept it; the connection is gone and nothing is left to remove it. *)
Definition l1 : St := or_same h1 (readPump_exit 0%nat h1).
Definition l2 : St := turn_unregister l1.
Definition l3 : St := turn_register l2.

Lemma left_before_registered :
  hub_reachable enc dec l3 ∧ 0%nat ∈ h_clients l3 ∧
  ch_buf (h_register l3) = [] ∧ ch_buf (h_unregister l3) = [].
Proof.
  split_and!; [|apply (bool_decide_unpack _); vm_compute; exact I|done|done].
  eapply hub_turn; [eapply hub_turn; [eapply hub_client; [apply h1_reachable|]|]|].
  - by apply (cs_leave enc dec h1 0%nat l1).
  - by apply (run_unregister enc l1 0%nat (make_chan _ 64)).
  - by apply (run_register enc l2 0%nat (make_chan _ 64)).
Qed.
End HubDemo.
