(* ===== verification/HubOrder.v ===== *)
(** * The order of what a client reads from the hub

    A message on its way to a client is queued for the hub and then in the
    client's own queue.  What of these messages an observer recognises, in the
    order the client will read them, is the client's line; no step of the hub
    or of a client reorders it, repeats anything in it or adds to it, except
    that a broadcast joins at the end. *)
From S2P Require Import Prelude GoLib Entity Repository Hub.

Section Observe.
Context {P B T : Type}.
Variable marshal : @ServerMessage P → option B.
Variable unmarshal : B → option ClientMessage.
(** What the observer recognises in the bytes of a message and in the
    message; only messages with data mean anything to it. *)
Variable obs : B → option T.
Variable obs_msg : @ServerMessage P → option T.
Hypothesis obs_marshal : ∀ m data, marshal m = Some data → obs data = obs_msg m.
Hypothesis obs_data : ∀ m, sm_Data m = None → obs_msg m = None.
Local Abbreviation Hub := (@Hub P B).

Definition seen (h : Hub) (c : cid) : list T := omap obs (ch_buf (cl_send (conn h c))).
Definition waiting (h : Hub) : list T := omap (λ m, obs (bm_data m)) (ch_buf (h_broadcast h)).
Definition line (h : Hub) (c : cid) : list T := seen h c ++ waiting h.

(** Direct answers carry nothing. *)
Definition direct_quiet (h : Hub) : Prop := Forall (λ r, obs_msg (dr_msg r) = None) (ch_buf (h_directSend h)).

(** Nothing observable happens. *)
Record quiet (h h' : Hub) : Prop := {
  q_seen c : seen h' c = seen h c;
  q_broadcast : h_broadcast h' = h_broadcast h;
  q_direct : h_directSend h' = h_directSend h;
}.

#[export] Instance quiet_preorder : PreOrder quiet.
Proof. split; [by split|]. intros h1 h2 h3 [A1 A2 A3] [B1 B2 B3]. split; [intros c|..]; congruence. Qed.

Lemma conn_insert_eq c x (h : Hub) : conn (set_conns (<[c := x]> (h_conns h)) h) c = x.
Proof. unfold conn. simpl. by rewrite lookup_insert_eq. Qed.
Lemma conn_insert_ne c c' x (h : Hub) : c' ≠ c → conn (set_conns (<[c := x]> (h_conns h)) h) c' = conn h c'.
Proof. intros Hne. unfold conn. simpl. by rewrite lookup_insert_ne. Qed.

Lemma insert_quiet c x (h : Hub) :
  ch_buf (cl_send x) = ch_buf (cl_send (conn h c)) → quiet h (set_conns (<[c := x]> (h_conns h)) h).
Proof.
  intros Hx. split; try done. intros c'. unfold seen. destruct (decide (c' = c)) as [->|Hne].
  - by rewrite conn_insert_eq, Hx.
  - by rewrite conn_insert_ne.
Qed.

Lemma try_send_buf c data (h h' : Hub) sent :
  try_send c data h = Some (sent, h') →
  (∀ c', ch_buf (cl_send (conn h' c')) =
    ch_buf (cl_send (conn h c')) ++ (if sent && bool_decide (c' = c) then [data] else [])) ∧
  h_broadcast h' = h_broadcast h ∧ h_directSend h' = h_directSend h.
Proof.
  unfold try_send, chan_try_send. destruct (ch_closed _); [done|].
  destruct (_ <? _)%nat; intros [= <- <-]; (split; [|done]); intros c'; simpl.
  - case_bool_decide as Hc; [subst c'; by rewrite conn_insert_eq|by rewrite conn_insert_ne, app_nil_r].
  - rewrite app_nil_r. destruct (decide (c' = c)) as [->|Hc]; [by rewrite conn_insert_eq|by rewrite conn_insert_ne].
Qed.

Lemma sendJSON_quiet c msg (h h' : Hub) : obs_msg msg = None → sendJSON marshal c msg h = Some h' → quiet h h'.
Proof.
  intros Hm. unfold sendJSON. destruct (marshal msg) as [data|] eqn:Hd; [|by intros [= <-]].
  destruct (try_send c data h) as [[sent h1]|] eqn:Ht; [|done]. intros [= <-].
  destruct (try_send_buf _ _ _ _ _ Ht) as (Hb & H1 & H2). split; [|done..]. intros c'.
  unfold seen. rewrite Hb, omap_app.
  destruct (sent && _); simpl; rewrite ?(obs_marshal _ _ Hd), ?Hm; by rewrite app_nil_r.
Qed.

Lemma close_send_quiet c (h h' : Hub) : close_send c h = Some h' → quiet h h'.
Proof.
  unfold close_send, chan_close. destruct (ch_closed _); [done|]. intros [= <-]. by apply insert_quiet.
Qed.

Lemma set_state_quiet a b c d (h : Hub) : quiet h (set_state a b c d h).
Proof. by split. Qed.

Lemma removeClient_quiet c (h h' : Hub) : removeClient c h = Some h' → quiet h h'.
Proof.
  unfold removeClient. case_bool_decide; [|by intros [= <-]]. intros Hc%close_send_quiet.
  etrans; [apply set_state_quiet|exact Hc].
Qed.

Lemma kick_all_quiet cs (h h' : Hub) : kick_all cs h = Some h' → quiet h h'.
Proof.
  assert (∀ cs, foldl (λ acc c, h ← acc; removeClient c h) (@None Hub) cs = None) as Hnone
    by (intros l; induction l; [done|simpl; done]).
  unfold kick_all. revert h. induction cs as [|c cs IH]; intros h; simpl; [by intros [= <-]|].
  destruct (removeClient c h) as [h1|] eqn:Hr; [|by rewrite Hnone]. intros Hk.
  etrans; [by eapply removeClient_quiet|by apply IH].
Qed.

(** ** The cases of the loop *)
Lemma on_register_quiet c (h h' : Hub) : on_register marshal c h = Some h' → quiet h h'.
Proof.
  unfold on_register.
  assert (∀ text h', (h1 ← sendJSON marshal c (error_message text) h; close_send c h1) = Some h' → quiet h h') as Hrej.
  { intros text h1. destruct (sendJSON _ _ _ _) as [h2|] eqn:Hs; [|done]. intros Hc.
    etrans; [eapply sendJSON_quiet; [|exact Hs]; by apply obs_data|by eapply close_send_quiet]. }
  destruct (_ >=? _); [apply Hrej|]. destruct (_ >=? _); [apply Hrej|]. intros [= <-]. apply set_state_quiet.
Qed.

Lemma on_subscribe_quiet r (h h' : Hub) : on_subscribe marshal r h = Some h' → quiet h h'.
Proof.
  unfold on_subscribe. case_bool_decide; simpl; [|by intros [= <-]].
  destruct (_ >=? _); [apply sendJSON_quiet; by apply obs_data|]. case_bool_decide; [by intros [= <-]|].
  intros Hs. apply sendJSON_quiet in Hs; [|by apply obs_data]. etrans; [apply set_state_quiet|exact Hs].
Qed.

Lemma on_unsubscribe_quiet r (h h' : Hub) : on_unsubscribe marshal r h = Some h' → quiet h h'.
Proof.
  unfold on_unsubscribe. case_bool_decide; simpl; [|by intros [= <-]].
  intros Hs. apply sendJSON_quiet in Hs; [|by apply obs_data]. etrans; [apply set_state_quiet|exact Hs].
Qed.

Lemma on_directSend_quiet r (h h' : Hub) :
  obs_msg (dr_msg r) = None → on_directSend marshal r h = Some h' → quiet h h'.
Proof. intros Hm. unfold on_directSend. case_bool_decide; [by apply sendJSON_quiet|by intros [= <-]]. Qed.

(** A broadcast offers its data to every subscriber once. *)
Lemma offers_seen data cs (h h' : Hub) kicked kicked' :
  NoDup cs → foldl (offer data) (Some (h, kicked)) cs = Some (h', kicked') →
  (∀ c, seen h' c `sublist_of` seen h c ++ option_list (obs data) ∧ (c ∉ cs → seen h' c = seen h c)) ∧
  h_broadcast h' = h_broadcast h ∧ h_directSend h' = h_directSend h.
Proof.
  assert (∀ cs, foldl (offer (P := P) data) None cs = None) as Hnone by (intros l; induction l; [done|simpl; done]).
  intros Hnd. revert h kicked. induction Hnd as [|c cs Hc _ IH]; intros h kicked; simpl.
  { intros [= <- <-]. split; [|done]. intros c. split; [by apply sublist_inserts_r|done]. }
  destruct (try_send c data h) as [[sent h1]|] eqn:Ht; simpl; [|by rewrite Hnone]. intros Hf.
  destruct (try_send_buf _ _ _ _ _ Ht) as (Hb & H1 & H2). destruct (IH _ _ Hf) as (Hs & H3 & H4).
  split; [|split; congruence]. intros c'. destruct (Hs c') as [Hsub Hsame]. rewrite not_elem_of_cons.
  assert (seen h1 c' = seen h c' ++ (if sent && bool_decide (c' = c) then option_list (obs data) else [])) as H1c.
  { unfold seen. rewrite Hb, omap_app. f_equal. by destruct (sent && _). }
  destruct (decide (c' = c)) as [->|Hne].
  - rewrite Hsame, H1c by done. split; [|by intros []].
    destruct (sent && _); [done|rewrite app_nil_r; by apply sublist_inserts_r].
  - rewrite bool_decide_eq_false_2, andb_false_r, app_nil_r in H1c by done. rewrite <- H1c. split; [done|].
    intros [_ Hni]. by apply Hsame.
Qed.

Lemma on_broadcast_seen m (h h' : Hub) :
  on_broadcast m h = Some h' →
  (∀ c, seen h' c `sublist_of` seen h c ++ option_list (obs (bm_data m))) ∧
  h_broadcast h' = h_broadcast h ∧ h_directSend h' = h_directSend h.
Proof.
  unfold on_broadcast. destruct (foldl _ _ _) as [[h1 kicked]|] eqn:Hf; [|done]. simpl.
  intros [Hq Hb Hd]%kick_all_quiet. destruct (offers_seen _ _ _ _ _ _ (NoDup_elements _) Hf) as (Hs & H1 & H2).
  split; [|split; congruence]. intros c. rewrite Hq. apply Hs.
Qed.

Lemma quiet_line h h' c : quiet h h' → line h' c = line h c.
Proof. intros [Hs Hb _]. unfold line, waiting. by rewrite Hs, Hb. Qed.

Lemma quiet_direct h h' : quiet h h' → direct_quiet h → direct_quiet h'.
Proof. intros [_ _ Hd]. unfold direct_quiet. by rewrite Hd. Qed.

Local Ltac by_quiet tac :=
  let Hq := fresh in intros Hq; apply tac in Hq; split; [intros c'; by rewrite (quiet_line _ _ _ Hq)|by apply (quiet_direct _ _ Hq)].

(** An iteration of the hub's loop. *)
Lemma run_step_line (h h' : Hub) :
  direct_quiet h → run_step marshal h (Some h') →
  (∀ c, line h' c `sublist_of` line h c) ∧ direct_quiet h'.
Proof.
  intros Hd Hstep. generalize (eq_refl (Some h')). revert Hstep. generalize (Some h') at 1 2. intros r Hstep.
  destruct Hstep as [c ch Hc|c ch Hc|r0 ch Hc|r0 ch Hc|r0 ch Hc|m ch Hc|];
    [by_quiet on_register_quiet|by_quiet removeClient_quiet|
      by_quiet on_subscribe_quiet|by_quiet on_unsubscribe_quiet| | |by_quiet kick_all_quiet].
  - apply chan_recv_Received in Hc as (Hbuf & _ & _). unfold direct_quiet in Hd. rewrite Hbuf in Hd.
    apply Forall_cons in Hd as [Hm Hd]. intros Hq%(on_directSend_quiet _ _ _ Hm).
    split; [intros c'; by rewrite (quiet_line _ _ _ Hq)|by apply (quiet_direct _ _ Hq)].
  - apply chan_recv_Received in Hc as (Hbuf & _ & _). intros (Hs & Hb & Hdir)%on_broadcast_seen.
    split; [|unfold direct_quiet; by rewrite Hdir]. intros c. unfold line, waiting. rewrite Hb, Hbuf. simpl.
    etrans; [apply sublist_app; [apply Hs|reflexivity]|]. rewrite <- app_assoc. apply sublist_app; [done|].
    by destruct (obs (bm_data m)).
Qed.

(** ** The other goroutines *)
Lemma SendJSONSafe_line c msg (h : Hub) :
  obs_msg msg = None → direct_quiet h →
  (∀ c', line (SendJSONSafe c msg h) c' = line h c') ∧ direct_quiet (SendJSONSafe c msg h).
Proof.
  intros Hm Hd. split; [done|]. unfold direct_quiet, SendJSONSafe, enqueue, chan_try_send in *. simpl.
  destruct (ch_closed _); [done|]. destruct (_ <? _)%nat; [|done]. simpl. apply Forall_app. split; [done|].
  by apply Forall_singleton.
Qed.

Lemma readPump_frame_line c data (h h' : Hub) :
  direct_quiet h → readPump_frame unmarshal c data h = Some h' →
  (∀ c', line h' c' = line h c') ∧ direct_quiet h'.
Proof.
  intros Hd. unfold readPump_frame, handleMessage.
  assert (∀ text, obs_msg (error_message text) = None) as Herr by (intros; by apply obs_data).
  destruct (unmarshal data) as [msg|]; [|intros [= <-]; by apply SendJSONSafe_line].
  destruct (_ =? _)%string; [destruct (push _ _); [by intros [= <-]|done]|].
  destruct (_ =? _)%string; [destruct (push _ _); [by intros [= <-]|done]|].
  destruct (_ =? _)%string; intros [= <-]; apply SendJSONSafe_line; auto.
Qed.

Lemma ServeHTTP_line userID ip c (h h' : Hub) :
  h_conns h !! c = None → ServeHTTP userID ip c h = Some h' →
  (∀ c', line h' c' = line h c') ∧ (direct_quiet h → direct_quiet h').
Proof.
  intros Hc. unfold ServeHTTP. destruct (push _ _) as [ch|]; [|done]. intros [= <-]. split; [|done].
  intros c'. set (x := NewClient _ ip).
  apply (quiet_line h (set_conns (<[c := x]> (h_conns h)) h)), insert_quiet. unfold conn. by rewrite Hc.
Qed.

Lemma Broadcast_line channel stock p (h : Hub) :
  (∀ c, line (Broadcast marshal channel stock p h) c `sublist_of`
     line h c ++ option_list (obs_msg (mkServerMessage channel EmptyString stock (Some p) EmptyString))) ∧
  (direct_quiet h → direct_quiet (Broadcast marshal channel stock p h)).
Proof.
  unfold Broadcast. destruct (marshal _) as [data|] eqn:Hm; [|split; [|done]; intros c; by apply sublist_inserts_r].
  split; [|done]. intros c. rewrite <- (obs_marshal _ _ Hm). unfold line, waiting, enqueue, chan_try_send. simpl.
  destruct (ch_closed _); [by apply sublist_inserts_r|]. destruct (_ <? _)%nat; [|by apply sublist_inserts_r].
  simpl. rewrite omap_app, app_assoc. simpl. by destruct (obs data).
Qed.

(** The frame a client's writer takes is the first of its line. *)
Lemma writePump_line c data (h h' : Hub) :
  writePump_turn c h = WriteMsg data h' →
  line h c = option_list (obs data) ++ line h' c ∧ (∀ c', c' ≠ c → line h' c' = line h c') ∧
  (direct_quiet h → direct_quiet h').
Proof.
  unfold writePump_turn. destruct (chan_recv _) as [d ch| |] eqn:Hr; [|done..]. intros [= -> <-].
  apply chan_recv_Received in Hr as (Hbuf & _ & _). unfold line, seen. split_and!; [| |done].
  - rewrite Hbuf, conn_insert_eq. simpl. by destruct (obs data).
  - intros c' Hne. by rewrite conn_insert_ne.
Qed.
End Observe.
