(* ===== verification/MemoryProofs.v ===== *)
(** * The in-memory repositories keep the laws of their interfaces

    Both indexes of each repository stay coherent, [Update] reaches the
    listed copy through the shared pointer, and [FindAll] slices the matching
    entries into pages. *)
From S2P Require Import Prelude GoLib Float64 Entity Repository MemoryRepo.

(** ** Orders *)
Module OrderRepoProofs.
Import OrderRepo.

(** [byID] and [ordered] reach the same allocated copies, one per ID. *)
Record wf (r : t) : Prop := {
  wf_fresh : ∀ p, is_Some (heap r !! p) → (p < next r)%nat;
  wf_byID : ∀ id p, byID r !! id = Some p → ∃ o, heap r !! p = Some o ∧ Order.ID o = id;
  wf_ordered : ∀ p, p ∈ ordered r ↔ ∃ id, byID r !! id = Some p;
  wf_nodup : NoDup (ordered r);
}.

Definition view (r : t) : gmap string Order.t := deref r <$> byID r.

Lemma view_lookup r id : view r !! id = deref r <$> byID r !! id.
Proof. unfold view. by rewrite lookup_fmap. Qed.

Lemma orders_New_wf : wf New.
Proof.
  split; simpl.
  - intros p [o Ho]. by rewrite lookup_empty in Ho.
  - intros id p Hp. by rewrite lookup_empty in Hp.
  - intros p. split; [by intros ?%elem_of_nil|]. intros [id Hp]. by rewrite lookup_empty in Hp.
  - constructor.
Qed.

Lemma byID_inj r id1 id2 p : wf r → byID r !! id1 = Some p → byID r !! id2 = Some p → id1 = id2.
Proof.
  intros Hwf H1 H2. destruct (wf_byID _ Hwf _ _ H1) as (o1 & Ho1 & <-).
  destruct (wf_byID _ Hwf _ _ H2) as (o2 & Ho2 & <-). by simplify_eq.
Qed.

Lemma byID_fresh r id p : wf r → byID r !! id = Some p → (p < next r)%nat.
Proof. intros Hwf Hp. destruct (wf_byID _ Hwf _ _ Hp) as (o & Ho & _). apply (wf_fresh _ Hwf). eauto. Qed.

Lemma deref_id r id p : wf r → byID r !! id = Some p → Order.ID (deref r p) = id.
Proof. intros Hwf Hp. destruct (wf_byID _ Hwf _ _ Hp) as (o & Ho & <-). unfold deref. by rewrite Ho. Qed.

Lemma orders_Save_new o r :
  wf r → byID r !! Order.ID o = None →
  ∃ r', Save o r = (r', None) ∧ wf r' ∧ view r' = <[Order.ID o := o]> (view r) ∧
        deref r' <$> ordered r' = (deref r <$> ordered r) ++ [o].
Proof.
  intros Hwf Hnone. unfold Save. rewrite Hnone. eexists. split; [done|].
  assert (∀ p, (p < next r)%nat →
    deref (mk (<[next r := o]> (heap r)) (S (next r)) (<[Order.ID o := next r]> (byID r))
             (ordered r ++ [next r])) p = deref r p) as Hold.
  { intros p Hp. unfold deref. simpl. by rewrite lookup_insert_ne by lia. }
  assert (∀ p, p ∈ ordered r → (p < next r)%nat) as Hlt.
  { intros p Hp. apply (wf_ordered _ Hwf) in Hp as [id Hid]. by eapply byID_fresh. }
  split_and!.
  - split; simpl.
    + intros p. destruct (decide (p = next r)) as [->|Hne]; [lia|].
      rewrite lookup_insert_ne by done. intros Hp%(wf_fresh _ Hwf). lia.
    + intros id p. destruct (decide (id = Order.ID o)) as [->|Hne].
      * rewrite lookup_insert_eq. intros [= <-]. exists o. by rewrite lookup_insert_eq.
      * rewrite lookup_insert_ne by done. intros Hp. pose proof (byID_fresh _ _ _ Hwf Hp).
        destruct (wf_byID _ Hwf _ _ Hp) as (x & Hx & Hid). exists x.
        rewrite lookup_insert_ne by lia. done.
    + intros p. rewrite elem_of_snoc, (wf_ordered _ Hwf). split.
      * intros [[id Hid]| ->]; [|exists (Order.ID o); apply lookup_insert_eq].
        exists id. rewrite lookup_insert_ne; [done|congruence].
      * intros [id Hid]. destruct (decide (id = Order.ID o)) as [->|Hne].
        -- rewrite lookup_insert_eq in Hid. injection Hid as <-. by right.
        -- rewrite lookup_insert_ne in Hid by done. left. eauto.
    + apply NoDup_app. split_and!; [apply Hwf| |apply NoDup_singleton].
      intros p Hp ->%list_elem_of_singleton. apply Hlt in Hp. lia.
  - apply map_eq. intros id. rewrite view_lookup. simpl.
    destruct (decide (id = Order.ID o)) as [->|Hne].
    + rewrite !lookup_insert_eq. simpl. unfold deref. simpl. by rewrite lookup_insert_eq.
    + rewrite !lookup_insert_ne, view_lookup by done.
      destruct (byID r !! id) as [p|] eqn:Hp; [|done]. simpl. f_equal.
      apply Hold. by eapply byID_fresh.
  - simpl. rewrite fmap_snoc. f_equal.
    + apply list_fmap_ext. intros k p Hp%list_elem_of_lookup_2. by apply Hold, Hlt.
    + unfold deref. simpl. by rewrite lookup_insert_eq.
Qed.

Lemma Update_known now o r p :
  wf r → byID r !! Order.ID o = Some p →
  ∃ r', Update now o r = (r', None) ∧ wf r' ∧
    view r' = <[Order.ID o := update_mutable now o (deref r p)]> (view r) ∧
    deref r' <$> ordered r' =
      (λ x, if (Order.ID x =? Order.ID o)%string then update_mutable now o x else x)
        <$> (deref r <$> ordered r).
Proof.
  intros Hwf Hp. unfold Update. rewrite Hp. eexists. split; [done|].
  destruct (wf_byID _ Hwf _ _ Hp) as (x & Hx & Hid).
  assert (∀ q, q ≠ p → deref (mk (<[p := update_mutable now o (deref r p)]> (heap r)) (next r)
            (byID r) (ordered r)) q = deref r q) as Hold
    by (intros q Hq; unfold deref; simpl; by rewrite lookup_insert_ne).
  split_and!.
  - split; simpl; [..|apply Hwf|apply Hwf].
    + intros q. destruct (decide (q = p)) as [->|Hne]; [|rewrite lookup_insert_ne by done; apply Hwf].
      intros _. apply (wf_fresh _ Hwf). eauto.
    + intros id q Hq. destruct (decide (q = p)) as [->|Hne].
      * eexists. rewrite lookup_insert_eq. split; [done|]. simpl.
        rewrite (deref_id _ _ _ Hwf Hp). by eapply byID_inj.
      * rewrite lookup_insert_ne by done. by apply (wf_byID _ Hwf).
  - apply map_eq. intros id. rewrite view_lookup. simpl.
    destruct (decide (id = Order.ID o)) as [->|Hne].
    + rewrite Hp, lookup_insert_eq. simpl. unfold deref at 1. simpl. by rewrite lookup_insert_eq.
    + rewrite lookup_insert_ne, view_lookup by done.
      destruct (byID r !! id) as [q|] eqn:Hq; [|done]. simpl. f_equal. apply Hold.
      intros ->. apply Hne. by eapply byID_inj.
  - simpl. rewrite <- list_fmap_compose. apply list_fmap_ext.
    intros k q Hq%list_elem_of_lookup_2. simpl.
    apply (wf_ordered _ Hwf) in Hq as [id Hq]. rewrite (deref_id _ _ _ Hwf Hq).
    destruct (String.eqb_spec id (Order.ID o)) as [->|Hne].
    + rewrite Hp in Hq. injection Hq as <-. unfold deref at 1. simpl. by rewrite lookup_insert_eq.
    + apply Hold. intros ->. apply Hne. by eapply byID_inj.
Qed.
End OrderRepoProofs.

#[global] Program Instance mem_orders_laws : OrderRepositoryLaws OrderRepo.t := {|
  or_inv := OrderRepoProofs.wf;
  or_view := OrderRepoProofs.view;
|}.
Next Obligation.
  intros o r Hwf. rewrite OrderRepoProofs.view_lookup.
  destruct (OrderRepo.byID r !! Order.ID o) as [p|] eqn:Hp; simpl.
  - unfold OrderRepo.Save. by rewrite Hp.
  - destruct (OrderRepoProofs.orders_Save_new o r Hwf Hp) as (r' & H1 & H2 & H3 & _). eauto.
Qed.
Next Obligation.
  intros id r Hwf. rewrite OrderRepoProofs.view_lookup. simpl. unfold OrderRepo.FindByID.
  by destruct (OrderRepo.byID r !! id).
Qed.
Next Obligation.
  intros now o r Hwf. rewrite OrderRepoProofs.view_lookup.
  destruct (OrderRepo.byID r !! Order.ID o) as [p|] eqn:Hp; simpl.
  - destruct (OrderRepoProofs.Update_known now o r p Hwf Hp) as (r' & H1 & H2 & H3 & _). eauto.
  - unfold OrderRepo.Update. by rewrite Hp.
Qed.

(** ** Trades *)
Module TradeRepoProofs.
Import TradeRepo.

Record wf (r : t) : Prop := {
  wf_byID : ∀ id, is_Some (byID r !! id) ↔ id ∈ Trade.ID <$> all r;
  wf_value : ∀ id x, byID r !! id = Some x → x ∈ all r ∧ Trade.ID x = id;
  wf_byStock : ∀ code, stock_trades code r = filter (λ x, Trade.StockCode x = code) (all r);
  wf_nodup : NoDup (Trade.ID <$> all r);
}.

Lemma trades_New_wf : wf New.
Proof.
  split; simpl.
  - intros id. rewrite lookup_empty. split; [by intros []|by intros ?%elem_of_nil].
  - intros id x. by rewrite lookup_empty.
  - done.
  - constructor.
Qed.

Lemma trades_Save_new x r :
  wf r → Trade.ID x ∉ Trade.ID <$> all r →
  ∃ r', Save x r = (r', None) ∧ wf r' ∧ all r' = all r ++ [x].
Proof.
  intros Hwf Hni. unfold Save. destruct (byID r !! Trade.ID x) as [y|] eqn:Hy.
  { exfalso. apply Hni, (wf_byID _ Hwf). eauto. }
  eexists. split; [done|]. split; [|done]. split; simpl.
  - intros id. rewrite fmap_snoc, elem_of_snoc, <- (wf_byID _ Hwf).
    destruct (decide (id = Trade.ID x)) as [->|Hne].
    + rewrite lookup_insert_eq. split; [by right|by eexists].
    + rewrite lookup_insert_ne by done. split; [by left|]. by intros [?|?].
  - intros id y. destruct (decide (id = Trade.ID x)) as [->|Hne].
    + rewrite lookup_insert_eq. intros [= <-]. rewrite elem_of_snoc. auto.
    + rewrite lookup_insert_ne by done. intros Hl%(wf_value _ Hwf). rewrite elem_of_snoc. tauto.
  - intros code. unfold stock_trades. simpl. rewrite filter_app, filter_cons, filter_nil.
    destruct (decide (Trade.StockCode x = code)) as [<-|Hne].
    + rewrite lookup_insert_eq. simpl. by rewrite <- (wf_byStock _ Hwf).
    + rewrite lookup_insert_ne by done. rewrite app_nil_r. apply (wf_byStock _ Hwf).
  - rewrite fmap_snoc. apply NoDup_app. split_and!; [apply Hwf| |apply NoDup_singleton].
    intros id Hid ->%list_elem_of_singleton. done.
Qed.
End TradeRepoProofs.

#[global] Program Instance mem_trades_laws : TradeRepositoryLaws TradeRepo.t := {|
  tr_inv := TradeRepoProofs.wf;
  tr_view := TradeRepo.all;
|}.
Next Obligation.
  intros x r Hwf. case_bool_decide as Hin.
  - simpl. unfold TradeRepo.Save. apply (TradeRepoProofs.wf_byID _ Hwf) in Hin as [y ->]. done.
  - by apply TradeRepoProofs.trades_Save_new.
Qed.

(** ** Pages *)
Definition page_of {A} (page perPage : nat) (l : list A) : list A :=
  take perPage (drop (page * perPage) l).

Lemma pages_concat {A} (n perPage : nat) (l : list A) :
  (0 < perPage)%nat → (length l ≤ n * perPage)%nat →
  concat ((λ k, page_of k perPage l) <$> seq 0 n) = l.
Proof.
  intros Hp. revert l. induction n as [|n IH]; intros l Hl.
  { destruct l; [done|simpl in Hl; lia]. }
  rewrite <- cons_seq, <- fmap_S_seq, fmap_cons, <- list_fmap_compose. simpl.
  unfold page_of at 1. simpl. rewrite drop_0.
  transitivity (take perPage l ++ drop perPage l); [f_equal|by apply take_drop].
  rewrite <- (IH (drop perPage l)) by (rewrite length_drop; lia). f_equal.
  apply list_fmap_ext. intros k x _. unfold page_of. simpl. by rewrite drop_drop.
Qed.

(** Within the range of [int] a page is what it should be, and beyond the
    last page the result is empty. *)
Lemma paginate_page {A} page perPage (l : list A) :
  1 <= page <= max_i64 → 1 <= perPage → (page - 1) * perPage <= max_i64 → Z.of_nat (length l) + perPage <= max_i64 →
  paginate page perPage l = OK (page_of (Z.to_nat (page - 1)) (Z.to_nat perPage) l).
Proof.
  intros Hpg Hpp Hmul Hlen. unfold paginate, page_of.
  rewrite !(proj2 (Z.leb_gt _ _)) by lia.
  assert (0 <= (page - 1) * perPage) by nia.
  rewrite (i64_sub_id page 1), (i64_mul_id (page - 1) perPage) by (split; i64_lia).
  replace (Z.to_nat (page - 1) * Z.to_nat perPage)%nat with (Z.to_nat ((page - 1) * perPage))
    by (rewrite Z2Nat.inj_mul by lia; done).
  set (start := (page - 1) * perPage) in *. rewrite Z.geb_leb.
  destruct (Z.leb_spec (Z.of_nat (length l)) start).
  { rewrite drop_ge by lia. by rewrite take_nil. }
  rewrite (i64_add_id start perPage) by (split; i64_lia). rewrite Z.gtb_ltb.
  destruct (Z.ltb_spec (Z.of_nat (length l)) (start + perPage)).
  - rewrite go_slice_Some by lia. rewrite !take_ge by (rewrite length_drop; lia). done.
  - rewrite go_slice_Some by lia. do 3 f_equal. lia.
Qed.

(** Beyond it the product [(page - 1) * perPage] wraps to a negative start
    and the slice expression panics. *)
Lemma paginate_overflow {A} page perPage (l : list A) :
  1 <= page <= max_i64 → 1 <= perPage → max_i64 < (page - 1) * perPage < pow64 →
  paginate page perPage l = Crash "slice bounds out of range".
Proof.
  intros Hpg Hpp Hmul. unfold paginate. rewrite !(proj2 (Z.leb_gt _ _)) by lia.
  rewrite (i64_sub_id page 1) by (split; i64_lia).
  assert (i64_mul (page - 1) perPage = (page - 1) * perPage - pow64) as ->.
  { unfold i64_mul, i64. replace ((page - 1) * perPage - min_i64)
      with (((page - 1) * perPage - min_i64 - pow64) + 1 * pow64) by lia.
    rewrite Z.mod_add by (unfold pow64; lia). rewrite Z.mod_small by i64_lia. lia. }
  rewrite Z.geb_leb, (proj2 (Z.leb_gt _ _)) by (unfold pow64 in *; lia).
  rewrite go_slice_neg by lia. done.
Qed.

Lemma page_of_fmap {A B} (f : A → B) k n l : page_of k n (f <$> l) = f <$> page_of k n l.
Proof. unfold page_of. by rewrite fmap_take, fmap_drop. Qed.
