(* ===== verification/EventBusProofs.v ===== *)
(** * Delivery guarantees of the event bus

    Events leave the buffer in publication order, each to the handlers of its
    type in subscription order; a full buffer drops the new event; [Stop]
    returns only when everything buffered was delivered. *)
From S2P Require Import Prelude GoLib Entity Repository EventBus.

#[global] Program Instance eventbus_laws H : BusLaws (EventBus H) := {|
  bus_open := λ b, ch_closed (eb_ch b) = false;
|}.
Next Obligation.
  intros H e b Hb. simpl in *. unfold Publish.
  destruct (chan_try_send_open e (eb_ch b) Hb) as (sent & c & Hc).
  pose proof (chan_try_send_buf _ _ _ _ Hc) as (_ & Hcl & _). rewrite Hc. by eexists.
Qed.

Section Delivery.
Context {H St : Type}.
(** Handlers that neither panic nor touch the bus: what each does to the
    rest of the program. *)
Variable effect : H → Event.t → St → St.

Definition run_effect (h : H) (e : Event.t) (st : EventBus H * St) : option (EventBus H * St) :=
  Some (fst st, effect h e (snd st)).

Definition handlers_of (b : EventBus H) (e : Event.t) : list H :=
  sub_handler <$> subs_of (Event.Ty e) b.

Definition deliver_effect (b : EventBus H) (s : St) (e : Event.t) : St :=
  foldl (λ s h, effect h e s) s (handlers_of b e).

Lemma deliver_run e b s : deliver run_effect e (b, s) = Some (b, deliver_effect b s e).
Proof.
  unfold deliver, deliver_effect, handlers_of. simpl.
  generalize (sub_handler <$> subs_of (Event.Ty e) b). intros hs. revert s.
  induction hs as [|h hs IH]; intros s; simpl; [done|apply IH].
Qed.

Definition emptied (b : EventBus H) : EventBus H :=
  mkBus (eb_subs b) (mkChan [] (ch_cap (eb_ch b)) (ch_closed (eb_ch b))) true
    (eb_started b) (eb_stopped b).

(** The dispatcher of a closed bus delivers the whole buffer, in order,
    and exits. *)
Lemma dispatch_closed fuel b s :
  ch_closed (eb_ch b) = true → (length (ch_buf (eb_ch b)) < fuel)%nat →
  dispatch run_effect fuel (b, s) =
  Some (Exited (emptied b, foldl (deliver_effect b) s (ch_buf (eb_ch b)))).
Proof.
  destruct b as [subs [buf cap closed] d st sp]. simpl. intros ->.
  revert fuel s. induction buf as [|e buf IH]; intros fuel s Hf;
    (destruct fuel as [|fuel]; [simpl in Hf; lia|]); simpl; [done|].
  unfold set_ch. simpl. rewrite deliver_run. simpl in Hf. rewrite IH by lia. done.
Qed.

Definition stopped_bus (b : EventBus H) : EventBus H :=
  mkBus (eb_subs b) (mkChan [] (ch_cap (eb_ch b)) true) true (eb_started b) true.

Lemma Stop_drains fuel b s :
  eb_stopped b = false → eb_started b = true → ch_closed (eb_ch b) = false →
  (length (ch_buf (eb_ch b)) < fuel)%nat →
  Stop run_effect fuel (b, s) =
  Stopped (stopped_bus b, foldl (deliver_effect b) s (ch_buf (eb_ch b))).
Proof.
  destruct b as [subs [buf cap closed] d st sp]. simpl. intros -> -> -> Hf.
  unfold Stop, chan_close. simpl. by rewrite dispatch_closed.
Qed.
End Delivery.

(** Publishing a sequence into an open bus keeps the longest prefix that
    fits and drops the rest. *)
Lemma Publish_buf {H} e (b b' : EventBus H) :
  Publish e b = Some b' →
  eb_subs b' = eb_subs b ∧ ch_cap (eb_ch b') = ch_cap (eb_ch b) ∧ eb_started b' = eb_started b ∧
  eb_stopped b' = eb_stopped b ∧ ch_closed (eb_ch b') = false ∧
  ch_buf (eb_ch b') =
    if (length (ch_buf (eb_ch b)) <? ch_cap (eb_ch b))%nat then ch_buf (eb_ch b) ++ [e]
    else ch_buf (eb_ch b).
Proof.
  unfold Publish, chan_try_send. destruct (ch_closed (eb_ch b)) eqn:Hc; [done|].
  destruct (_ <? _)%nat; intros Hb; injection Hb as <-; simpl; by split_and!.
Qed.

Fixpoint publish_all {H} (es : list Event.t) (b : EventBus H) : option (EventBus H) :=
  match es with
  | [] => Some b
  | e :: es => match Publish e b with Some b' => publish_all es b' | None => None end
  end.

Lemma publish_all_prefix {H} es (b : EventBus H) :
  ch_closed (eb_ch b) = false → chan_wf (eb_ch b) →
  ∃ b', publish_all es b = Some b' ∧ eb_subs b' = eb_subs b ∧ ch_closed (eb_ch b') = false ∧
    eb_started b' = eb_started b ∧ eb_stopped b' = eb_stopped b ∧
    ch_buf (eb_ch b') =
      ch_buf (eb_ch b) ++ take (ch_cap (eb_ch b) - length (ch_buf (eb_ch b))) es.
Proof.
  revert b. induction es as [|e es IH]; intros b Hc Hwf; simpl.
  { exists b. split_and!; try done. by rewrite take_nil, app_nil_r. }
  assert (∃ b1, Publish e b = Some b1) as [b1 Hp].
  { destruct (chan_try_send_open e (eb_ch b) Hc) as (x & c & Hx). unfold Publish. rewrite Hx. eauto. }
  rewrite Hp.
  pose proof (Publish_buf _ _ _ Hp) as (Hs & Hcap & Hst & Hsp & Hc1 & Hb).
  assert (chan_wf (eb_ch b1)) as Hwf1.
  { unfold chan_wf in *. rewrite Hb, Hcap. destruct (Nat.ltb_spec (length (ch_buf (eb_ch b))) (ch_cap (eb_ch b)));
      rewrite ?length_app; simpl; lia. }
  destruct (IH b1 Hc1 Hwf1) as (b' & -> & Hs' & Hc' & Hst' & Hsp' & Hb').
  exists b'. split_and!; try congruence. rewrite Hb', Hb, Hcap. unfold chan_wf in Hwf.
  destruct (Nat.ltb_spec (length (ch_buf (eb_ch b))) (ch_cap (eb_ch b))) as [Hlt|Hge].
  - rewrite length_app, <- app_assoc. simpl. f_equal.
    replace (ch_cap (eb_ch b) - length (ch_buf (eb_ch b)))%nat
      with (S (ch_cap (eb_ch b) - (length (ch_buf (eb_ch b)) + 1)))%nat by lia. done.
  - replace (ch_cap (eb_ch b) - length (ch_buf (eb_ch b)))%nat with 0%nat by lia.
    by rewrite !take_0.
Qed.

(** ** Subscriptions *)
Lemma Subscribe_last {H} id ty (fn : H) b ty' :
  subs_of ty' (Subscribe id ty fn b) =
  if decide (ty = ty') then subs_of ty b ++ [mkSub id fn] else subs_of ty' b.
Proof.
  unfold Subscribe, set_subs, subs_of. simpl. case_decide as Hd.
  - subst. by rewrite lookup_insert_eq.
  - by rewrite lookup_insert_ne.
Qed.

(** Every subscription ID is registered once. *)
Definition sub_ids {H} (b : EventBus H) : list string :=
  (map_to_list (eb_subs b)) ≫= (λ p, sub_id <$> snd p).

Lemma remove_sub_filter {H} id (l : list (subscription H)) :
  NoDup (sub_id <$> l) → remove_sub id l = filter (λ s, sub_id s ≠ id) l.
Proof.
  induction l as [|x l IH]; [done|]. rewrite fmap_cons, NoDup_cons. intros [Hni Hnd].
  simpl. rewrite filter_cons. destruct (String.eqb_spec (sub_id x) id) as [<-|Hne].
  - rewrite decide_False by tauto. symmetry. apply filter_all, Forall_forall.
    intros y Hy Heq. apply Hni, list_elem_of_fmap. eauto.
  - rewrite decide_True by done. by rewrite IH.
Qed.
