(* ===== verification/MemDeps.v ===== *)
(** * The single-process configuration of the exchange

    [cmd/server/main.go] wires the in-memory repositories and the in-process
    bus; the UUID supply is any injective one, here decimal numerals, and the
    clock any function of the number of readings. *)
From stdpp Require Import pretty.
From S2P Require Import Prelude GoLib Entity Repository MemoryRepo EventBus MemoryProofs.
From S2P Require Import EventBusProofs Book Matcher.

#[global] Instance mem_deps : Deps := {|
  OrderRepoT := OrderRepo.t;
  TradeRepoT := TradeRepo.t;
  MarketRepoT := MarketRepo.t;
  BusT := EventBus unit;
  uuid_NewString n := pretty n;
  time_Now := Z.of_nat;
|}.

Lemma mem_uuid_inj (m n : nat) : uuid_NewString m = uuid_NewString n → m = n.
Proof. simpl. intros Heq. by apply (inj pretty) in Heq. Qed.

(** The state the server starts in, with the given stocks registered. *)
Definition mem_world (stocks : list Stock.t) : world :=
  mkWorld ∅ 0%nat OrderRepo.New TradeRepo.New
    (foldl (λ m s, MarketRepo.InitStock 0 0 s m) MarketRepo.New stocks) NewEventBus 0%nat 0%nat.
