(* ===== verification/SystemTheorems.v ===== *)
(** * What every reachable state of the exchange satisfies *)
From S2P Require Import Prelude GoLib Entity Repository MemoryRepo EventBus MemoryProofs.
From S2P Require Import EventBusProofs Book BookProofs Matcher MatcherLemmas MatchSpec.
From S2P Require Import MatcherProofs MatcherRefine MatchOrder Engine Validator Services System.
From S2P Require Import SystemProofs MemDeps.

(** The state a server starts in. *)
Record fresh_world `{D : Deps} `{!BusLaws BusT} `{!TradeRepositoryLaws TradeRepoT}
    `{!OrderRepositoryLaws OrderRepoT} (w : world) : Prop := {
  fw_heap : w_heap w = ∅;
  fw_orders : or_inv (w_orders w);
  fw_no_orders : or_view (w_orders w) = ∅;
  fw_trades : tr_inv (w_trades w);
  fw_no_trades : tr_view (w_trades w) = [];
  fw_bus : bus_open (w_bus w);
}.

Section Theorems.
Context {D : Deps} `{!BusLaws BusT} `{!TradeRepositoryLaws TradeRepoT}
        `{!OrderRepositoryLaws OrderRepoT}.
Hypothesis uuid_inj : ∀ m n, uuid_NewString m = uuid_NewString n → m = n.

Lemma fresh_reachable stocks w s :
  fresh_world w → reachable (mkES (NewEngine stocks) w) s → ∃ own, sys_inv own s.
Proof.
  intros [] Hr. destruct (reachable_inv uuid_inj ∅ _ s (init_inv stocks w ltac:(done) ltac:(done)
    ltac:(done) ltac:(done) ltac:(done) ltac:(done)) Hr) as (own & Hinv & _). eauto.
Qed.

Lemma stored_accounts own s id x :
  sys_inv own s → or_FindByID id (w_orders (es_world s)) = inr x →
  Order.ID x = id ∧
  Order.FilledQuantity x = traded id (tr_view (w_trades (es_world s))) ∧
  0 <= Order.FilledQuantity x <= Order.Quantity x ∧
  Order.Status x = order_status_of (Order.FilledQuantity x) (Order.Quantity x).
Proof.
  intros Hinv Hx.
  destruct (si_synced _ _ Hinv) as [Hor Hsync].
  rewrite (or_FindByID_law id _ Hor) in Hx.
  destruct (or_view (w_orders (es_world s)) !! id) as [y|] eqn:Hy; [|done]. injection Hx as ->.
  destruct (Hsync id x Hy) as (p & o & Hp & Ho & _ & Hsame).
  destruct (Hsame (not_elem_of_empty id)) as (Eid & _ & _ & _ & _ & Eq & Ef & Es & _).
  destruct (si_ids _ _ Hinv id p Hp) as (o1 & Ho1 & Hid). simplify_eq.
  destruct (si_account _ _ Hinv _ p Hp) as (o2 & Ho2 & Hwf & Hacc). simplify_eq.
  rewrite Eid, Eq, Ef, Es. destruct Hwf as [_ _ _ Hf Hs]. split_and!; done || lia.
Qed.

(** C9.  Books stay sound.  In every reachable state of the exchange,
    whatever the interleaving of order submissions, matcher turns of
    different stocks and the rest of the program, the book of each stock is
    sorted by price on both sides and never crossed, every entry is of a
    distinct well-formed order of that stock and carries exactly the
    quantity that order still wants, and the order queue is within its
    capacity. *)
Theorem reachable_books_sound stocks w s code m :
  fresh_world w → reachable (mkES (NewEngine stocks) w) s →
  e_matchers (es_engine s) !! code = Some m →
  let h := w_heap (es_world s) in
  key_sorted (λ e, - entry_price h e) (ob_bids (m_book m)) ∧
  key_sorted (entry_price h) (ob_asks (m_book m)) ∧
  (∀ b a, b ∈ ob_bids (m_book m) → a ∈ ob_asks (m_book m) → entry_price h b < entry_price h a) ∧
  NoDup (entry_id h <$> resting (m_book m)) ∧
  Forall (λ e, 0 < oe_remaining e ∧
               oe_remaining e = Order.RemainingQuantity (deref h (oe_order e)) ∧
               Order.StockCode (deref h (oe_order e)) = code) (resting (m_book m)) ∧
  (length (ch_buf (m_ch m)) ≤ ch_cap (m_ch m))%nat.
Proof.
  intros Hw Hr Hm h. destruct (fresh_reachable stocks w s Hw Hr) as [own Hinv].
  destruct (si_matchers _ _ Hinv code m Hm) as [_ _ [Hb Ha Hbo Hao Hnd _ Hun] Hex Hch _ Hres _].
  split_and!; try done. apply Forall_forall. intros e He.
  unfold book_exact in Hex. rewrite Forall_forall in Hex, Hbo, Hao. split_and!.
  - apply elem_of_app in He as [He|He]; [apply Hbo in He|apply Hao in He];
      apply entry_ok_bounds in He; lia.
  - by apply Hex.
  - apply Hres. by apply entry_ref_elem.
Qed.

(** The accounts balance.  In every reachable state, the filled
    quantity of each order in the order repository is exactly the total of
    the recorded trades it took part in, never exceeds the order, and the
    stored status is the one that quantity dictates. *)
Theorem reachable_fills_accounted stocks w s id x :
  fresh_world w → reachable (mkES (NewEngine stocks) w) s →
  or_FindByID id (w_orders (es_world s)) = inr x →
  Order.ID x = id ∧
  Order.FilledQuantity x = traded id (tr_view (w_trades (es_world s))) ∧
  0 <= Order.FilledQuantity x <= Order.Quantity x ∧
  Order.Status x = order_status_of (Order.FilledQuantity x) (Order.Quantity x).
Proof.
  intros Hw Hr. destruct (fresh_reachable stocks w s Hw Hr) as [own Hinv]. by apply (stored_accounts own).
Qed.


(** C12.  Creating a validated order while the engine runs always
    succeeds: the order is saved OPEN and unfilled under a new ID, the
    returned snapshot is a copy of it, and the order is queued for the
    matcher of its stock - unless the stock has no matcher or its queue is
    full, in which case the error is swallowed: the order stays saved but
    is queued nowhere and no event announces it. *)
Theorem create_order_outcome stocks w s user req :
  fresh_world w → reachable (mkES (NewEngine stocks) w) s →
  e_stopped (es_engine s) = false → request_valid req →
  let o := new_order user req (es_world s) in
  let p := w_next (es_world s) in
  ∃ s', OrderService.CreateOrder SubmitOrder user req s = Ret (inr (S p)) s' ∧
    deref (w_heap (es_world s')) (S p) = o ∧ deref (w_heap (es_world s')) p = o ∧
    or_FindByID (Order.ID o) (w_orders (es_world s')) = inr o ∧
    match e_matchers (es_engine s) !! Order.StockCode o with
    | Some m =>
        if (length (ch_buf (m_ch m)) <? ch_cap (m_ch m))%nat
        then ∃ m', e_matchers (es_engine s') = <[Order.StockCode o := m']> (e_matchers (es_engine s)) ∧
               ch_buf (m_ch m') = ch_buf (m_ch m) ++ [Some p] ∧ m_book m' = m_book m ∧
               bus_Publish (Event.mk OrderCreated (Order.StockCode o) user (POrder (S p))
                 (Order.CreatedAt o)) (w_bus (es_world s)) = Some (w_bus (es_world s'))
        else es_engine s' = es_engine s ∧ w_bus (es_world s') = w_bus (es_world s)
    | None => es_engine s' = es_engine s ∧ w_bus (es_world s') = w_bus (es_world s)
    end.
Proof.
  intros Hw Hr Hst Hreq o p. destruct (fresh_reachable stocks w s Hw Hr) as [own Hinv].
  rewrite CreateOrder_unfold. cbv zeta. fold o p.
  destruct (fresh_saved uuid_inj own s o Hinv eq_refl) as [r1 Hsave]. rewrite Hsave.
  assert (or_FindByID (Order.ID o) r1 = inr o) as Hfind.
  { pose proof (proj1 (si_synced _ _ Hinv)) as Hor. pose proof (or_Save_law o _ Hor) as Hlaw.
    destruct (or_view (w_orders (es_world s)) !! Order.ID o); [by rewrite Hlaw in Hsave|].
    destruct Hlaw as (r' & Hr' & Hor' & Hview). rewrite Hr' in Hsave. injection Hsave as <-.
    by rewrite or_FindByID_law, Hview, lookup_insert_eq. }
  assert (deref (heap_with (es_world s) o) (S p) = o) as Hsnap
    by (unfold deref, heap_with; by rewrite lookup_insert_eq).
  pose proof (deref_Some _ _ _ (heap_with_new (es_world s) o)) as Horig. fold p in Horig.
  unfold mbind, M_bind, SubmitOrder. simpl. rewrite Horig.
  change (Order.StockCode o) with (CreateOrderRequest.StockCode req).
  destruct (e_matchers (es_engine s) !! CreateOrderRequest.StockCode req) as [m|] eqn:Hm;
    [|eexists; split; [done|by split_and!]].
  pose proof (si_open _ _ Hinv Hst _ m Hm) as Hopen. unfold submit, chan_try_send. rewrite Hopen.
  destruct (length (ch_buf (m_ch m)) <? ch_cap (m_ch m))%nat; [|eexists; split; [done|by split_and!]].
  unfold on_eworld, publish. simpl.
  edestruct (bus_open_publish) as (b' & Hp & Hb'); [exact (si_bus _ _ Hinv)|].
  rewrite Hp. eexists. split; [done|]. simpl. split_and!; try done.
  eexists. by split_and!.
Qed.

End Theorems.

(** ** A concrete run: a sell order rests, a smaller buy order trades with it *)
Definition is_ret {W A} (r : res W A) : bool := match r with Ret _ _ => true | _ => false end.
Definition state_of {W A} (d : W) (r : res W A) : W := match r with Ret _ w => w | _ => d end.

Lemma is_ret_state {W A} (d : W) (r : res W A) : is_ret r = true → ∃ a, r = Ret a (state_of d r).
Proof. destruct r; [eauto|done|done]. Qed.

Module SystemDemo.
Definition world0 : world := mem_world DefaultStocks.
Definition state0 : estate := mkES (NewEngine DefaultStocks) world0.
Definition sell : CreateOrderRequest.t := CreateOrderRequest.mk "BBCA" SideSell 9500 100.
Definition buy : CreateOrderRequest.t := CreateOrderRequest.mk "BBCA" SideBuy 9550 40.
Definition state1 : estate := state_of state0 (Start state0).
Definition state2 : estate := state_of state1 (OrderService.CreateOrder SubmitOrder "alice" sell state1).
Definition state3 : estate := state_of state2 (OrderService.CreateOrder SubmitOrder "bob" buy state2).
Definition state4 : estate := state_of state3 (run_turn "BBCA" state3).
Definition state5 : estate := state_of state4 (run_turn "BBCA" state4).

Lemma fresh0 : fresh_world world0.
Proof.
  split; [done|apply OrderRepoProofs.orders_New_wf|vm_compute; reflexivity|apply TradeRepoProofs.trades_New_wf
    |done|done].
Qed.

Lemma valid sd price qty :
  Side_IsValid sd = true → MinPrice <= price <= MaxPrice → MinQuantity <= qty <= MaxQuantity →
  request_valid (CreateOrderRequest.mk "BBCA" sd price qty).
Proof. intros. by split. Qed.

Lemma valid_sell : request_valid sell.
Proof. apply valid; [done|vm_compute; split; discriminate|vm_compute; split; discriminate]. Qed.
Lemma valid_buy : request_valid buy.
Proof. apply valid; [done|vm_compute; split; discriminate|vm_compute; split; discriminate]. Qed.

Lemma reach1 : reachable state0 state1.
Proof. eapply reach_step; [apply reach_init|]. by apply sys_start. Qed.

Lemma reach3 : reachable state0 state3.
Proof.
  destruct (is_ret_state state1 (OrderService.CreateOrder SubmitOrder "alice" sell state1)) as [r1 H1];
    [vm_compute; reflexivity|].
  destruct (is_ret_state state2 (OrderService.CreateOrder SubmitOrder "bob" buy state2)) as [r2 H2];
    [vm_compute; reflexivity|].
  apply (reach_step state0 state2); [apply (reach_step state0 state1); [apply reach1|]|].
  - exact (sys_create state1 "alice" sell r1 state2 valid_sell H1).
  - exact (sys_create state2 "bob" buy r2 state3 valid_buy H2).
Qed.

Lemma reach5 : reachable state0 state5.
Proof.
  destruct (is_ret_state state3 (run_turn "BBCA" state3)) as [r1 H1]; [vm_compute; reflexivity|].
  destruct (is_ret_state state4 (run_turn "BBCA" state4)) as [r2 H2]; [vm_compute; reflexivity|].
  apply (reach_step state0 state4); [apply (reach_step state0 state3); [apply reach3|]|].
  - exact (sys_turn state3 "BBCA" r1 state4 H1).
  - exact (sys_turn state4 "BBCA" r2 state5 H2).
Qed.

(** The matcher of BBCA in a state. *)
Definition bbca (s : estate) : Matcher :=
  default (newMatcher "BBCA") (e_matchers (es_engine s) !! "BBCA").

Lemma bbca_lookup s :
  bool_decide (is_Some (e_matchers (es_engine s) !! "BBCA")) = true →
  e_matchers (es_engine s) !! "BBCA" = Some (bbca s).
Proof. intros [m Hm]%bool_decide_eq_true. unfold bbca. by rewrite Hm. Qed.
End SystemDemo.

Lemma reachable_books_sound_witness :
  ob_asks (m_book (SystemDemo.bbca SystemDemo.state5)) = [mkEntry 0%nat 60] ∧
  Forall (λ e, 0 < oe_remaining e) (resting (m_book (SystemDemo.bbca SystemDemo.state5))).
Proof.
  split; [vm_compute; reflexivity|].
  destruct (reachable_books_sound mem_uuid_inj DefaultStocks SystemDemo.world0 SystemDemo.state5 "BBCA"
    (SystemDemo.bbca SystemDemo.state5) SystemDemo.fresh0 SystemDemo.reach5) as (_ & _ & _ & _ & Hall & _).
  - apply SystemDemo.bbca_lookup. vm_compute. reflexivity.
  - eapply Forall_impl; [exact Hall|]. intros e He. apply He.
Defined.

Definition demo_stored (id : string) (s : estate) : Order.t :=
  match or_FindByID id (w_orders (es_world s)) with inr o => o | inl _ => Order.zero end.

Lemma reachable_fills_accounted_witness :
  Order.Status (demo_stored "0" SystemDemo.state5) = OrderStatusPartial ∧
  traded "0" (tr_view (w_trades (es_world SystemDemo.state5))) = 40.
Proof.
  assert (or_FindByID "0" (w_orders (es_world SystemDemo.state5)) =
          inr (demo_stored "0" SystemDemo.state5)) as Hfind.
  { assert ((match or_FindByID "0" (w_orders (es_world SystemDemo.state5)) with
             | inr _ => true | inl _ => false end) = true) as Hr by (vm_compute; reflexivity).
    unfold demo_stored. by destruct (or_FindByID "0" (w_orders (es_world SystemDemo.state5))). }
  destruct (reachable_fills_accounted mem_uuid_inj DefaultStocks SystemDemo.world0 SystemDemo.state5 "0"
    (demo_stored "0" SystemDemo.state5) SystemDemo.fresh0 SystemDemo.reach5 Hfind) as (_ & Hf & _ & Hs).
  rewrite <- Hf, Hs. split; vm_compute; reflexivity.
Defined.


Lemma create_order_outcome_witness :
  ∃ s', OrderService.CreateOrder SubmitOrder "carol" SystemDemo.buy SystemDemo.state5 = Ret (inr 5%nat) s'.
Proof.
  destruct (create_order_outcome mem_uuid_inj DefaultStocks SystemDemo.world0 SystemDemo.state5 "carol"
    SystemDemo.buy SystemDemo.fresh0 SystemDemo.reach5) as (s' & Hrun & _).
  - vm_compute. reflexivity.
  - exact SystemDemo.valid_buy.
  - exists s'. exact Hrun.
Defined.

