(* ===== verification/Tracking.v ===== *)
(** * No accepted order is lost

    The completeness side of the exchange's invariant: an order a matcher
    was given is queued, resting or filled, whatever happens afterwards. *)
From S2P Require Import Prelude GoLib Entity Repository Book BookProofs Matcher MatcherLemmas.
From S2P Require Import MatchSpec MatcherProofs MatcherRefine MatchOrder Engine Validator Services.
From S2P Require Import System SystemProofs MemDeps SystemTheorems.

(** An entry a walk exhausts is filled by what was left of it. *)
Lemma walk_exhausts price stop want es e :
  NoDup (refs es) → e ∈ es →
  oe_order e ∈ refs (walk price stop want es).2 ∨
  fill_total (oe_order e) (walk price stop want es).1 = oe_remaining e.
Proof.
  intros Hnd He.
  destruct (walk_priority price stop want es) as (gone & rest & -> & Hw). unfold refs in Hnd.
  rewrite fmap_app in Hnd. apply NoDup_app in Hnd as (Hg & Hdis & _).
  apply elem_of_app in He as [He|He].
  - right. assert (∀ fs, Forall (λ f, f_ref f ≠ oe_order e) fs →
      fill_total (oe_order e) ((full price <$> gone) ++ fs) = oe_remaining e) as Hsum.
    { intros fs Hfs. apply list_elem_of_split in He as (g1 & g2 & ->).
      rewrite fmap_app, fmap_cons in Hg. rewrite <- Permutation_middle in Hg.
      apply NoDup_cons in Hg as [Hni _]. rewrite elem_of_app in Hni.
      assert (∀ l, oe_order e ∉ oe_order <$> l → Forall (λ f, f_ref f ≠ oe_order e) (full price <$> l)) as Hout.
      { intros l Hl. apply Forall_fmap, Forall_forall. intros x Hx Hxe. apply Hl. simpl in Hxe. rewrite <- Hxe.
        by apply list_elem_of_fmap_2. }
      unfold fill_total. rewrite fmap_app, fmap_cons, !filter_app, filter_cons_True by done.
      rewrite (filter_none _ (full price <$> g1)) by (apply Hout; tauto).
      rewrite (filter_none _ (full price <$> g2)) by (apply Hout; tauto).
      rewrite (filter_none _ fs) by done. unfold sum_by. simpl. lia. }
    destruct Hw as [->|(x & rest' & q & -> & _ & ->)]; simpl.
    + rewrite <- (app_nil_r (full price <$> gone)). apply Hsum. constructor.
    + apply Hsum. apply Forall_singleton. simpl. intros Hx.
      apply (Hdis (oe_order e)); [by apply list_elem_of_fmap_2|]. rewrite <- Hx. apply list_elem_of_here.
  - left. destruct Hw as [->|(x & rest' & q & -> & _ & ->)]; simpl; [by apply entry_ref_elem|].
    apply elem_of_cons in He as [->|He]; [apply list_elem_of_here|].
    apply list_elem_of_further. by apply list_elem_of_fmap_2.
Qed.

Lemma resting_wf h ob e :
  book_inv h ob → e ∈ resting ob → ∃ x, h !! oe_order e = Some x ∧ order_wf x.
Proof.
  intros Hb He. pose proof (bi_bids_ok _ _ Hb) as H1. pose proof (bi_asks_ok _ _ Hb) as H2.
  rewrite Forall_forall in H1, H2.
  apply elem_of_app in He as [He|He]; [destruct (H1 e He) as (x & ? & ? & _)|destruct (H2 e He) as (x & ? & ? & _)];
    by exists x.
Qed.

Section Tracking.
Context {D : Deps} `{!BusLaws BusT} `{!TradeRepositoryLaws TradeRepoT}
        `{!OrderRepositoryLaws OrderRepoT}.
Hypothesis uuid_inj : ∀ m n, uuid_NewString m = uuid_NewString n → m = n.

(** Queued or resting at the matcher of its stock. *)
Definition pending (s : estate) (r : ref) : Prop :=
  ∃ code m, e_matchers (es_engine s) !! code = Some m ∧ (r ∈ queued m ∨ r ∈ refs (resting (m_book m))).

Definition completed (h : heap) (r : ref) : Prop :=
  ∃ o, h !! r = Some o ∧ order_wf o ∧ Order.FilledQuantity o = Order.Quantity o.

Definition tracked (s : estate) (r : ref) : Prop := pending s r ∨ completed (w_heap (es_world s)) r.

Definition keeps (s s' : estate) : Prop :=
  heap_evolves (w_heap (es_world s)) (w_heap (es_world s')) ∧ ∀ r, tracked s r → tracked s' r.

#[local] Instance keeps_preorder : PreOrder keeps.
Proof.
  split; [by intros s; split|]. intros s1 s2 s3 [E1 H1] [E2 H2]. split; [by etrans|]. intros r Hr. by apply H2, H1.
Qed.

(** A step after which the engine and the heap are as before. *)
Lemma keeps_same s s' :
  e_matchers (es_engine s') = e_matchers (es_engine s) → w_heap (es_world s') = w_heap (es_world s) → keeps s s'.
Proof. intros He Hh. unfold keeps, tracked, pending. by rewrite He, Hh. Qed.

Lemma completed_evolves h h' r :
  heap_evolves h h' → heap_keeps_wf h h' → completed h r → completed h' r.
Proof.
  intros Hev Hwf (o & Hr & Ho & Hf). destruct (Hwf r o Hr Ho) as (y & Hy & Hyw).
  destruct (Hev r o Hr) as (y' & Hy' & Heo). simplify_eq. exists y. split_and!; [done|done|].
  destruct Heo as (_ & _ & _ & _ & _ & Hq & _ & Hle). pose proof (owf_filled _ Hyw). lia.
Qed.

(** A match leaves the orders it touches in the book or fills them. *)
Lemma match_tracked code i o s s' o' r :
  arrival i o s → book_exact (w_heap (ms_world s)) (ms_book s) →
  match_post code i o s s' (view_walk (view_of (Order.Sd o)) o s).1 (view_walk (view_of (Order.Sd o)) o s).2 o' →
  r = i ∨ r ∈ refs (resting (ms_book s)) →
  r ∈ refs (resting (ms_book s')) ∨ completed (w_heap (ms_world s')) r.
Proof.
  intros Har Hex Hpost Hr. set (sv := view_of (Order.Sd o)) in *.
  assert (is_view sv) as Hv by apply view_of_is.
  pose proof (mp_own _ _ _ _ _ _ _ _ Hpost) as Hown. cbv zeta in Hown. fold sv in Hown.
  assert (∀ e, e ∈ sv_list sv (ms_book s') ∨ e ∈ sv_other sv (ms_book s') → oe_order e ∈ refs (resting (ms_book s')))
    as Hin by (intros e He; by apply entry_ref_elem, (resting_view sv)).
  destruct (mp_incoming _ _ _ _ _ _ _ _ Hpost) as [Ho' Hwf'].
  destruct (decide (r = i)) as [->|Hne].
  { destruct (Z.ltb_spec 0 (Order.RemainingQuantity o')) as [Hrem|Hrem].
    - left. refine (Hin (mkEntry i _) (or_intror _)). rewrite (priority_insert_perm _ _ _ _ _ Hown).
      apply list_elem_of_here.
    - right. exists o'. split_and!; [done|done|]. rewrite (remaining_wf o' Hwf') in Hrem.
      pose proof (owf_filled _ Hwf'). lia. }
  destruct Hr as [->|Hr]; [done|]. apply list_elem_of_fmap in Hr as (e & -> & He).
  pose proof (proj1 (Forall_forall _ _) Hex e He) as Hrem.
  apply (resting_view sv) in He as He'; [|done]. destruct He' as [Hopp|Hmine]; cycle 1.
  { left. destruct (0 <? _); [|apply Hin; right; by rewrite Hown].
    apply Hin. right. rewrite (priority_insert_perm _ _ _ _ _ Hown). by apply list_elem_of_further. }
  destruct (walk_exhausts (λ r, Order.Price (deref (w_heap (ms_world s)) r)) (λ p, sv_stop sv p (Order.Price o))
    (Order.RemainingQuantity o) (sv_list sv (ms_book s)) e) as [Hstay|Hgone]; [|done| |].
  - pose proof (resting_refs_nodup _ _ (ar_book _ _ _ Har)) as Hnd. unfold resting in Hnd.
    rewrite fmap_app in Hnd. apply NoDup_app in Hnd as (H1 & _ & H2).
    destruct Hv as [-> | ->]; simpl; done.
  - left. pose proof (mp_opposite _ _ _ _ _ _ _ _ Hpost) as Hopp'. fold sv in Hopp'. unfold view_walk in Hopp'.
    rewrite <- Hopp' in Hstay. apply list_elem_of_fmap in Hstay as (e' & -> & He'). apply Hin. by left.
  - right. destruct (resting_wf _ _ e (ar_book _ _ _ Har) He) as (x & Hx & Hxw).
    pose proof (mp_resting _ _ _ _ _ _ _ _ Hpost (oe_order e) Hne) as Hfill. fold sv in Hfill.
    unfold view_walk in Hfill. rewrite Hgone, Hrem in Hfill.
    destruct (mp_evolves _ _ _ _ _ _ _ _ Hpost _ x Hx) as (y & Hy & Hxy).
    destruct (mp_wf _ _ _ _ _ _ _ _ Hpost _ x Hx Hxw) as (y' & Hy' & Hyw). simplify_eq.
    rewrite (deref_Some _ _ _ Hx), (deref_Some _ _ _ Hy), (remaining_wf x Hxw) in Hfill.
    destruct Hxy as (_ & _ & _ & _ & _ & Hq & _). exists y. split_and!; [done|done|lia].
Qed.

(** ** Every step keeps what is tracked *)
Lemma turn_keeps own code s t s' :
  sys_inv own s → run_turn code s = Ret t s' → keeps s s'.
Proof.
  intros Hinv Hrun. unfold run_turn in Hrun.
  destruct (e_matchers (es_engine s) !! code) as [m|] eqn:Hm; [|by injection Hrun as _ <-].
  pose proof (si_matchers _ _ Hinv code m Hm) as Hmo.
  unfold chan_recv in Hrun. destruct (ch_buf (m_ch m)) as [|[i|] rest] eqn:Hbuf.
  - destruct (ch_closed (m_ch m)); by injection Hrun as _ <-.
  - rewrite (mo_code _ _ _ _ Hmo) in Hrun.
    destruct (queue_arrival own s code m i rest _ Hinv Hm Hbuf eq_refl) as (o & Har & _ & _ & _ & _ & _).
    destruct (matchOrder_spec uuid_inj code i o _ Har) as (s1 & o' & Hok & Hpost).
    rewrite Hok in Hrun. injection Hrun as _ <-. split; [apply Hpost|]. intros r [(code' & m' & Hm' & Hr)|Hr].
    + destruct (decide (code' = code)) as [->|Hne]; cycle 1.
      { left. exists code', m'. simpl. by rewrite lookup_insert_ne. }
      assert (m' = m) as -> by congruence.
      assert ((r ∈ queued (mkMatcher code (m_book m) (mkChan rest (ch_cap (m_ch m)) (ch_closed (m_ch m))))) ∨
              (r = i ∨ r ∈ refs (resting (m_book m)))) as [Hq|Hr'].
      { destruct Hr as [Hq|Hb]; [|by right; right]. unfold queued in Hq. rewrite Hbuf in Hq.
        apply elem_of_cons in Hq as [->|Hq]; [by right; left|by left]. }
      * left. eexists code, _. simpl. rewrite lookup_insert_eq. split; [done|]. by left.
      * destruct (match_tracked code i o _ s1 o' r Har (mo_exact _ _ _ _ Hmo) Hpost Hr') as [Hb|Hc]; [|by right].
        left. eexists code, _. simpl. rewrite lookup_insert_eq. split; [done|]. by right.
    + right. simpl. eapply completed_evolves; [apply Hpost|apply Hpost|exact Hr].
  - injection Hrun as _ <-. split; [done|]. intros r [(code' & m' & Hm' & Hr)|Hr]; [|by right]. left.
    destruct (decide (code' = code)) as [->|Hne]; [|exists code', m'; simpl; by rewrite lookup_insert_ne].
    assert (m' = m) as -> by congruence. eexists code, _. simpl. rewrite lookup_insert_eq. split; [done|].
    unfold queued in *. by rewrite Hbuf in Hr.
Qed.

Lemma run_keeps own fuel code s t s' :
  sys_inv own s → run fuel code s = Ret t s' → keeps s s'.
Proof.
  revert s. induction fuel as [|fuel IH]; intros s Hinv Hrun; [done|]. simpl in Hrun.
  destruct (run_turn_inv uuid_inj own code s Hinv) as (t1 & s1 & Ht & Hinv1).
  pose proof (turn_keeps own code s t1 s1 Hinv Ht) as Hk. unfold mbind, M_bind in Hrun. rewrite Ht in Hrun.
  destruct t1; [|by injection Hrun as _ <-..]. etrans; [exact Hk|by apply IH].
Qed.

Lemma drain_keeps own codes s s' : sys_inv own s → drain_all codes s = Ret () s' → keeps s s'.
Proof.
  revert s. induction codes as [|code codes IH]; intros s Hinv Hrun; [by injection Hrun as <-|].
  simpl in Hrun. unfold get, mbind, M_bind in Hrun.
  destruct (run (queue_fuel code s) code s) as [t s1|?|] eqn:Ht; [|done|done].
  etrans; [by eapply run_keeps|]. apply IH; [by eapply (run_inv uuid_inj)|done].
Qed.

(** A change of the queue of one matcher that drops nothing. *)
Lemma requeue_keeps s code m ch :
  e_matchers (es_engine s) !! code = Some m → (∀ r, Some r ∈ ch_buf (m_ch m) → Some r ∈ ch_buf ch) →
  keeps s (mkES (set_matcher code (mkMatcher (m_stockCode m) (m_book m) ch) (es_engine s)) (es_world s)).
Proof.
  intros Hm Hsub. split; [done|]. intros r [(code' & m' & Hm' & Hr)|Hr]; [left|by right].
  destruct (decide (code' = code)) as [->|Hne]; [|exists code', m'; simpl; by rewrite lookup_insert_ne].
  assert (m' = m) as -> by congruence. eexists code, _. simpl. rewrite lookup_insert_eq. split; [done|].
  destruct Hr as [Hq|Hb]; [left|by right]. unfold queued in *. simpl.
  apply list_elem_of_omap in Hq as (x & Hx & ->). apply list_elem_of_omap. exists (Some r). auto.
Qed.

Lemma close_keeps l s s' :
  NoDup l.*1 → (∀ code m, (code, m) ∈ l → e_matchers (es_engine s) !! code = Some m) →
  close_all l s = Ret () s' → keeps s s'.
Proof.
  revert s. induction l as [|[code m] l IH]; intros s Hnd Hl Hrun; [by injection Hrun as <-|].
  rewrite fmap_cons in Hnd. apply NoDup_cons in Hnd as [Hni Hnd]. simpl in Hrun, Hni.
  destruct (chan_close (m_ch m)) as [c|] eqn:Hc; [|done]. unfold mbind, M_bind, modify in Hrun.
  etrans; [apply (requeue_keeps s code m c); [by apply Hl, list_elem_of_here|]|apply (IH _ Hnd); [|exact Hrun]].
  - unfold chan_close in Hc. destruct (ch_closed (m_ch m)); [done|]. by injection Hc as <-.
  - intros code' m' Hin. simpl. rewrite lookup_insert_ne; [by apply Hl, list_elem_of_further|].
    intros ->. apply Hni, list_elem_of_fmap. by exists (code', m').
Qed.

Lemma Stop_keeps own s s' : sys_inv own s → Stop s = Ret () s' → keeps s s'.
Proof.
  intros Hinv. unfold Stop, get, modify, mbind, M_bind.
  destruct (e_stopped (es_engine s)) eqn:Hst; [by intros [= <-]|].
  set (s0 := mkES (mkEngine _ _ true) _). assert (keeps s s0) as H0 by done.
  destruct (close_all _ s0) as [[] s1|?|] eqn:Hc; [|done|done]. intros Hrun.
  assert (∀ code m, (code, m) ∈ map_to_list (e_matchers (es_engine s)) → e_matchers (es_engine s0) !! code = Some m)
    as Hl by (intros code m Hin; by apply elem_of_map_to_list in Hin).
  etrans; [exact H0|]. etrans; [exact (close_keeps _ _ _ (NoDup_fst_map_to_list _) Hl Hc)|].
  destruct (e_started _); [|by injection Hrun as <-].
  eapply drain_keeps; [|exact Hrun]. eapply (close_all_inv own _ s0);
    [apply NoDup_fst_map_to_list|exact Hl|done|by apply sys_inv_flags|exact Hc].
Qed.

Lemma create_keeps own user req s r s' :
  sys_inv own s → OrderService.CreateOrder SubmitOrder user req s = Ret r s' → keeps s s'.
Proof.
  intros Hinv. rewrite CreateOrder_unfold. cbv zeta. set (o := new_order user req (es_world s)).
  assert (∀ w', w_heap w' = heap_with (es_world s) o → keeps s (mkES (es_engine s) w')) as Hsaved.
  { intros w' Hw. split; [cbn [es_world]; rewrite Hw; by apply (heap_with_evolves own)|]. intros r0 [Hp|(x & Hx & Hc)]; [by left|right]. exists x. cbn [es_world].
    rewrite Hw, (heap_with_old own) by eauto. done. }
  destruct (fresh_saved uuid_inj own s o Hinv eq_refl) as [r1 Hsave]. rewrite Hsave.
  set (s1 := mkES (es_engine s) (saved_world (es_world s) o r1)).
  assert (keeps s s1) as H1 by (by apply Hsaved). unfold mbind, M_bind.
  assert (∀ e s2, SubmitOrder (w_next (es_world s)) s1 = Ret e s2 → keeps s1 s2) as Hsub.
  { intros e s2. unfold SubmitOrder. destruct (_ !! _) as [m|] eqn:Hm; [|by intros [= _ <-]]. unfold submit.
    destruct (chan_try_send _ (m_ch m)) as [[[] ch]|] eqn:Hs; [| |done]; [|by intros [= _ <-]].
    intros [= _ <-]. refine (requeue_keeps s1 _ m ch Hm _). intros x Hx.
    destruct (chan_try_send_buf _ _ _ _ Hs) as (_ & _ & _ & ->). apply elem_of_app. by left. }
  destruct (SubmitOrder _ s1) as [[e|] s2|?|] eqn:Hs; [| |done|done].
  - intros [= _ <-]. etrans; [exact H1|by eapply Hsub].
  - unfold on_eworld, publish. destruct (bus_Publish _ _) as [b|]; [|done]. intros [= _ <-].
    etrans; [exact H1|]. etrans; [by eapply Hsub|]. by apply keeps_same.
Qed.

Lemma step_keeps own s s' : sys_inv own s → sys_step s s' → keeps s s'.
Proof.
  intros Hinv [user req r s2 Hreq Hrun|code t s2 Hrun|s2 Hrun|s2 Hrun|w' Henv].
  - by eapply create_keeps.
  - by eapply turn_keeps.
  - injection Hrun as <-. by apply keeps_same.
  - by eapply Stop_keeps.
  - apply keeps_same; [done|apply Henv].
Qed.

Lemma reachable_keeps own s s' : sys_inv own s → reachable s s' → keeps s s'.
Proof.
  intros Hinv. induction 1 as [|s1 s2 Hr IH Hstep]; [done|].
  destruct (reachable_inv uuid_inj own s s1 Hinv Hr) as (own1 & Hinv1 & _).
  etrans; [exact IH|by eapply step_keeps].
Qed.

(** The order as it is created, where it is stored. *)
Lemma created_order own user req s r s' :
  sys_inv own s → OrderService.CreateOrder SubmitOrder user req s = Ret r s' →
  w_heap (es_world s') !! w_next (es_world s) = Some (new_order user req (es_world s)).
Proof.
  intros Hinv. rewrite CreateOrder_unfold. cbv zeta. set (o := new_order user req (es_world s)).
  destruct (fresh_saved uuid_inj own s o Hinv eq_refl) as [r1 Hsave]. rewrite Hsave.
  unfold mbind, M_bind. destruct (SubmitOrder _ _) as [[e|] s2|?|] eqn:Hs; [| |done|done];
    apply SubmitOrder_world in Hs.
  - intros [= _ <-]. rewrite Hs. apply heap_with_new.
  - unfold on_eworld, publish. destruct (bus_Publish _ _) as [b|]; [|done]. intros [= _ <-].
    simpl. rewrite Hs. apply heap_with_new.
Qed.

Lemma pending_owned own s p o :
  sys_inv own s → pending s p → w_heap (es_world s) !! p = Some o → own !! Order.ID o = Some p.
Proof.
  intros Hinv (code & m & Hm & Hp) Ho. pose proof (si_matchers _ _ Hinv code m Hm) as Hmo.
  destruct Hp as [Hq|Hb].
  - destruct (mo_queue _ _ _ _ Hmo p Hq) as (x & Hx & _ & Hown & _). congruence.
  - destruct (mo_resting _ _ _ _ Hmo p Hb) as [(x & Hx & Hown) _]. congruence.
Qed.

Lemma pending_at own s p o :
  sys_inv own s → pending s p → w_heap (es_world s) !! p = Some o → order_wf o →
  ∃ m, e_matchers (es_engine s) !! Order.StockCode o = Some m ∧
    (p ∈ queued m ∨ ∃ e, e ∈ resting (m_book m) ∧ oe_order e = p ∧ 0 < oe_remaining e ∧
       oe_remaining e = Order.Quantity o - Order.FilledQuantity o).
Proof.
  intros Hinv (code & m & Hm & Hp) Ho Hwf. pose proof (si_matchers _ _ Hinv code m Hm) as Hmo. exists m.
  destruct Hp as [Hq|Hb].
  - destruct (mo_queue _ _ _ _ Hmo p Hq) as (x & Hx & _ & _ & Hc). assert (x = o) as -> by congruence.
    rewrite Hc. split; [done|by left].
  - destruct (mo_resting _ _ _ _ Hmo p Hb) as [_ Hc]. rewrite (deref_Some _ _ _ Ho) in Hc. rewrite Hc.
    split; [done|right]. apply list_elem_of_fmap in Hb as (e & -> & He). exists e.
    pose proof (proj1 (Forall_forall _ _) (mo_exact _ _ _ _ Hmo) e He) as Hx.
    cbv beta in Hx. rewrite (deref_Some _ _ _ Ho), (remaining_wf o Hwf) in Hx.
    destruct (mo_book _ _ _ _ Hmo) as [_ _ H1 H2 _ _ _]. rewrite Forall_forall in H1, H2.
    split_and!; try done. apply elem_of_app in He as [He|He]; [apply H1 in He|apply H2 in He];
      apply entry_ok_bounds in He; lia.
Qed.

Lemma stored_value own s id p o :
  sys_inv own s → own !! id = Some p → w_heap (es_world s) !! p = Some o →
  ∃ x, or_FindByID id (w_orders (es_world s)) = inr x ∧ same_order x o.
Proof.
  intros Hinv Hown Ho. destruct (si_synced _ _ Hinv) as [Hor Hs].
  destruct (si_saved _ _ Hinv id ltac:(eauto)) as [x Hx]. exists x.
  rewrite (or_FindByID_law id _ Hor), Hx. split; [done|].
  destruct (Hs id x Hx) as (p' & o' & Hp' & Ho' & _ & Hsame). simplify_eq. apply Hsame, not_elem_of_empty.
Qed.

(** C10. An accepted order is never lost.  When the engine took the order of a
    valid request, then in every state reached afterwards, whatever else is
    created, matched or stopped in between, the order waits in the queue of its
    stock, or rests in its book with exactly the quantity that the recorded
    trades leave of it, or is stored FILLED and the recorded trades sum up to
    the quantity requested. *)
Theorem accepted_orders_never_lost stocks w s user req r s1 s2 :
  fresh_world w → reachable (mkES (NewEngine stocks) w) s → request_valid req →
  OrderService.CreateOrder SubmitOrder user req s = Ret r s1 →
  let p := w_next (es_world s) in
  let id := uuid_NewString (w_uuids (es_world s)) in
  let quantity := CreateOrderRequest.Quantity req in
  let filled := traded id (tr_view (w_trades (es_world s2))) in
  pending s1 p → reachable s1 s2 →
  (∃ m, e_matchers (es_engine s2) !! CreateOrderRequest.StockCode req = Some m ∧
     (p ∈ queued m ∨
      ∃ e, e ∈ resting (m_book m) ∧ oe_order e = p ∧ 0 < oe_remaining e ∧ oe_remaining e = quantity - filled)) ∨
  (∃ x, or_FindByID id (w_orders (es_world s2)) = inr x ∧ Order.Quantity x = quantity ∧
     filled = quantity ∧ Order.FilledQuantity x = quantity ∧ Order.Status x = OrderStatusFilled).
Proof.
  intros Hw Hr Hreq Hrun p id quantity filled Hpend Hr2.
  destruct (fresh_reachable uuid_inj stocks w s Hw Hr) as [own Hinv].
  destruct (CreateOrder_inv uuid_inj own user req s r s1 Hinv Hreq Hrun) as (own1 & Hinv1 & _).
  pose proof (created_order own user req s r s1 Hinv Hrun) as Ho1. fold p in Ho1.
  set (o1 := new_order user req (es_world s)) in *.
  pose proof (pending_owned own1 s1 p o1 Hinv1 Hpend Ho1) as Hown1.
  destruct (reachable_inv uuid_inj own1 s1 s2 Hinv1 Hr2) as (own2 & Hinv2 & Hsub).
  pose proof (lookup_weaken _ _ _ _ Hown1 Hsub) as Hown2.
  destruct (si_account _ _ Hinv2 _ p Hown2) as (o2 & Ho2 & Hwf2 & Hacc).
  destruct (reachable_keeps own1 s1 s2 Hinv1 Hr2) as [Hevs Hkeeps].
  destruct (Hevs p o1 Ho1) as (o2' & Ho2' & Hev). simplify_eq.
  destruct Hev as (Hid & _ & Hcode & _ & _ & Hq & _).
  destruct (Hkeeps p (or_introl Hpend)) as [Hp2|(x & Hx & _ & Hf)].
  - left. destruct (pending_at own2 s2 p o2 Hinv2 Hp2 Ho2 Hwf2) as (m & Hm & Hcase). exists m.
    rewrite Hcode in Hm. split; [exact Hm|]. rewrite Hq, Hacc in Hcase. exact Hcase.
  - right. simplify_eq. destruct (stored_value own2 s2 _ p _ Hinv2 Hown2 Ho2) as (y & Hy & Hsame).
    destruct Hsame as (_ & _ & _ & _ & _ & Eq & Ef & Es & _). exists y.
    pose proof (owf_status _ Hwf2) as Hst. rewrite Hf in Hst.
    unfold filled, quantity, id. rewrite Eq, Ef, Es, Hst, Hf, Hq. split_and!; try done.
    + etrans; [symmetry; exact Hacc|]. by rewrite Hf.
    + unfold order_status_of. simpl. destruct (Z.geb_spec (CreateOrderRequest.Quantity req) (CreateOrderRequest.Quantity req)); [done|lia].
Qed.
End Tracking.

(** ** A concrete run: the sell order of SystemTheorems, from its creation on *)
Module TrackDemo.
Import SystemDemo.

Lemma later : reachable state2 state5.
Proof.
  destruct (is_ret_state state2 (OrderService.CreateOrder SubmitOrder "bob" buy state2)) as [r2 H2];
    [vm_compute; reflexivity|].
  destruct (is_ret_state state3 (run_turn "BBCA" state3)) as [r3 H3]; [vm_compute; reflexivity|].
  destruct (is_ret_state state4 (run_turn "BBCA" state4)) as [r4 H4]; [vm_compute; reflexivity|].
  apply (reach_step state2 state4); [apply (reach_step state2 state3); [apply (reach_step state2 state2)|]|].
  - apply reach_init.
  - exact (sys_create state2 "bob" buy r2 state3 valid_buy H2).
  - exact (sys_turn state3 "BBCA" r3 state4 H3).
  - exact (sys_turn state4 "BBCA" r4 state5 H4).
Qed.

Lemma sell_taken : pending state2 (w_next (es_world state1)).
Proof.
  exists "BBCA"%string, (bbca state2). split; [apply bbca_lookup; vm_compute; reflexivity|]. left.
  assert (bool_decide (w_next (es_world state1) ∈ queued (bbca state2)) = true) as Hb by (vm_compute; reflexivity).
  by apply bool_decide_eq_true in Hb.
Qed.

Lemma accepted_orders_never_lost_witness :
  ∃ e, e ∈ resting (m_book (bbca state5)) ∧ oe_remaining e = 60.
Proof.
  destruct (is_ret_state state1 (OrderService.CreateOrder SubmitOrder "alice" sell state1)) as [r1 H1];
    [vm_compute; reflexivity|].
  assert (traded "0" (tr_view (w_trades (es_world state5))) = 40) as Ht by (vm_compute; reflexivity).
  destruct (accepted_orders_never_lost mem_uuid_inj DefaultStocks world0 state1 "alice" sell r1 state2 state5
    fresh0 reach1 valid_sell H1 sell_taken later) as [(m & Hm & Hcase)|(x & _ & _ & Hf & _)].
  - assert (m = bbca state5) as -> by (unfold bbca; change "BBCA"%string with (CreateOrderRequest.StockCode sell);
      by rewrite Hm).
    destruct Hcase as [Hq|(e & He & _ & _ & Hrem)].
    + assert (queued (bbca state5) = []) as Hnil by (vm_compute; reflexivity). rewrite Hnil in Hq.
      apply elem_of_nil in Hq as [].
    + exists e. split; [exact He|]. rewrite Hrem. change (100 - traded "0" (tr_view (w_trades (es_world state5))) = 60).
      rewrite Ht. reflexivity.
  - exfalso. change (traded "0" (tr_view (w_trades (es_world state5))) = 100) in Hf. rewrite Ht in Hf. discriminate Hf.
Defined.
End TrackDemo.
