(* ===== verification/Partition.v ===== *)
(** * Partitioning of stocks over instances ([pkg/partition], [internal/partition])

    FNV-1a hashing of the stock code modulo the number of instances, the
    subset of stocks an instance owns, and the router that submits an order
    locally or publishes it for its owner. *)
From Stdlib Require Import OrdersEx.
From S2P Require Import Prelude GoLib Entity Repository Book Matcher Engine Services.
From S2P Require Import MemDeps SystemTheorems.

(** ** [hash/fnv]'s New64a and its Write *)
Definition fnv_offset64 : Z := 14695981039346656037.
Definition fnv_prime64 : Z := 1099511628211.

Definition byte_of (c : ascii) : Z := Z.of_N (N_of_ascii c).

Fixpoint fnv1a_write (h : Z) (s : string) : Z :=
  match s with
  | EmptyString => h
  | String c rest => fnv1a_write (u64 (Z.lxor h (byte_of c) * fnv_prime64)) rest
  end.

Definition fnv1a (s : string) : Z := fnv1a_write fnv_offset64 s.

(** ** [sort.Strings] *)
Definition string_le (x y : string) : Prop := (x <=? y)%string = true.

#[global] Instance string_le_dec : RelDecision string_le.
Proof. intros x y. unfold string_le. apply _. Defined.

Definition sort_strings (l : list string) : list string := merge_sort string_le l.

(** ** [pkg/partition] *)
Record Partitioner : Type := mkPartitioner {
  instanceIndex : Z;
  totalInstances : Z;
}.

Definition New (instanceIndex totalInstances : Z) : error + Partitioner :=
  if totalInstances <? 1 then inl (ErrOther "partition: totalInstances must be >= 1")
  else if (instanceIndex <? 0) || (instanceIndex >=? totalInstances)
  then inl (ErrOther "partition: instanceIndex out of range")
  else inr (mkPartitioner instanceIndex totalInstances).

Definition OwnerIndex (stockCode : string) (total : Z) : Z :=
  if total <=? 0 then 0 else i64 (fnv1a stockCode mod u64 total).

Definition OwnsStock (p : Partitioner) (stockCode : string) : bool :=
  OwnerIndex stockCode (totalInstances p) =? instanceIndex p.

Definition OwnedStocks (p : Partitioner) (allStocks : list string) : list string :=
  sort_strings (filter (λ s, OwnsStock p s = true) allStocks).

Definition InstanceIndex (p : Partitioner) : Z := instanceIndex p.
Definition TotalInstances (p : Partitioner) : Z := totalInstances p.

(** ** [internal/partition]: the router of one instance.  The NATS publisher
    is a collaborator: publishing either succeeds or fails with a text. *)
Section Router.
Context {D : Deps} {S : Type} `{!HasWorld S}.

Variable local_SubmitOrder : ref → M S (option error).
Variable Publish : string → Order.t → M S (option error).

Definition engine_subject (stockCode : string) : string := ("engine.orders." ++ stockCode)%string.

Definition Router_SubmitOrder (p : Partitioner) (order : ref) : M S (option error) :=
  o ← on_shared (load order);
  if OwnsStock p (Order.StockCode o) then local_SubmitOrder order
  else
    let subject := engine_subject (Order.StockCode o) in
    err ← Publish subject o;
    match err with
    | Some e => mret (Some (ErrOther ("partition router: forward to " ++ subject)))
    | None => mret None
    end.
End Router.

Lemma Router_on_estate {D : Deps} local pub p order (s : estate) :
  Router_SubmitOrder local pub p order s =
  let o := deref (w_heap (es_world s)) order in
  if OwnsStock p (Order.StockCode o) then local order s
  else (err ← pub (engine_subject (Order.StockCode o)) o;
        match err with
        | Some _ => mret (Some (ErrOther ("partition router: forward to " ++ engine_subject (Order.StockCode o))))
        | None => mret None
        end) s.
Proof.
  destruct s as [en w]. unfold Router_SubmitOrder, on_shared, estate_HasWorld, on_eworld, load.
  unfold mbind at 1, M_bind at 1. cbn. by destruct (OwnsStock p _).
Qed.

(** The subscriptions of [wireEngineNATSOrders]: subject and queue group. *)
Definition engine_subscriptions (p : Partitioner) (allStocks : list string) : list (string * string) :=
  (λ sc, (engine_subject sc, ("engine-" ++ sc)%string)) <$> OwnedStocks p allStocks.

(** The callback of these subscriptions, in the process of the owner: the
    order is decoded into memory of its own and submitted; both errors are only
    logged. *)
Section Receiver.
Context {D : Deps} {B : Type}.
Variable unmarshal_order : B → option Order.t.

Definition engine_order_handler (data : B) : M estate () :=
  match unmarshal_order data with
  | None => mret ()
  | Some o => r ← on_eworld (alloc o); _ ← SubmitOrder r; mret ()
  end.

(** With an open channel that has room, the decoded order is the last queued. *)
Lemma engine_order_handler_queues data o m (s : estate) :
  unmarshal_order data = Some o → e_matchers (es_engine s) !! Order.StockCode o = Some m →
  ch_closed (m_ch m) = false → (length (ch_buf (m_ch m)) < ch_cap (m_ch m))%nat →
  ∃ s' r m', engine_order_handler data s = Ret () s' ∧ r = w_next (es_world s) ∧
    w_heap (es_world s') = <[r := o]> (w_heap (es_world s)) ∧
    e_matchers (es_engine s') = <[Order.StockCode o := m']> (e_matchers (es_engine s)) ∧
    ch_buf (m_ch m') = ch_buf (m_ch m) ++ [Some r] ∧ m_book m' = m_book m.
Proof.
  intros Hu Hm Hopen Hroom. unfold engine_order_handler. rewrite Hu.
  unfold on_eworld, alloc, SubmitOrder, submit, chan_try_send, mbind, M_bind. simpl.
  unfold deref at 1. rewrite lookup_insert_eq. simpl. rewrite Hm, Hopen.
  rewrite (proj2 (Nat.ltb_lt _ _) Hroom). do 3 eexists. split; [done|]. simpl. unfold deref.
  by rewrite lookup_insert_eq.
Qed.
End Receiver.

(** ** Every stock has exactly one owner *)
Lemma u64_range x : 0 <= u64 x < pow64.
Proof. apply Z.mod_pos_bound. done. Qed.

Lemma fnv1a_write_range s h : 0 <= h < pow64 → 0 <= fnv1a_write h s < pow64.
Proof.
  revert h. induction s as [|c s IH]; intros h Hh; simpl; [done|]. apply IH, u64_range.
Qed.

Lemma OwnerIndex_range s total : 1 <= total <= max_i64 → 0 <= OwnerIndex s total < total.
Proof.
  intros Ht. unfold OwnerIndex. rewrite (proj2 (Z.leb_gt _ _)) by lia.
  assert (u64 total = total) as -> by (unfold u64; apply Z.mod_small; i64_lia).
  pose proof (Z.mod_pos_bound (fnv1a s) total).
  rewrite i64_id by i64_lia. lia.
Qed.

Lemma New_ok i total p :
  New i total = inr p ↔ (1 <= total ∧ 0 <= i < total) ∧ p = mkPartitioner i total.
Proof.
  unfold New. rewrite Z.geb_leb.
  destruct (Z.ltb_spec total 1); [split; [done|lia]|].
  destruct (Z.ltb_spec i 0); simpl; [split; [done|lia]|].
  destruct (Z.leb_spec total i); simpl; [split; [done|lia]|].
  split; [by intros [= <-]|]. by intros [_ ->].
Qed.

(** ** Sorting *)
#[global] Instance string_le_total : Total string_le.
Proof. intros x y. apply String.leb_total. Qed.

#[global] Instance string_le_antisymm : AntiSymm eq string_le.
Proof. intros x y. apply String.leb_antisym. Qed.

#[global] Instance string_le_trans : Transitive string_le.
Proof.
  intros x y z. unfold string_le, String.leb.
  pose proof (@StrictOrder_Transitive _ _ String_as_OT.lt_strorder x y z) as Htr.
  unfold String_as_OT.lt in Htr.
  destruct (x ?= y)%string eqn:E1; [|intros _|done].
  - apply String.compare_eq_iff in E1 as ->. done.
  - destruct (y ?= z)%string eqn:E2; [|intros _|done].
    + apply String.compare_eq_iff in E2 as ->. by rewrite E1.
    + change ((x ?= y)%string = Lt → (y ?= z)%string = Lt → (x ?= z)%string = Lt) in Htr.
      by rewrite (Htr E1 E2).
Qed.

Lemma sort_strings_perm l : sort_strings l ≡ₚ l.
Proof. apply merge_sort_Permutation. Qed.

Lemma sort_strings_sorted l : Sorted string_le (sort_strings l).
Proof. apply Sorted_merge_sort, _. Qed.

Lemma sort_strings_ext l1 l2 : l1 ≡ₚ l2 → sort_strings l1 = sort_strings l2.
Proof.
  intros Hp. apply (Sorted_unique string_le); [apply sort_strings_sorted..|].
  by rewrite !sort_strings_perm.
Qed.

Lemma OwnedStocks_elem p l s : s ∈ OwnedStocks p l ↔ s ∈ l ∧ OwnsStock p s = true.
Proof.
  unfold OwnedStocks. rewrite sort_strings_perm, list_elem_of_filter. tauto.
Qed.

Lemma engine_subject_inj c1 c2 : engine_subject c1 = engine_subject c2 → c1 = c2.
Proof. unfold engine_subject. intros Heq. injection Heq as Heq. exact Heq. Qed.

Lemma subscribed_owner p l s :
  engine_subject s ∈ (engine_subscriptions p l).*1 ↔ s ∈ l ∧ OwnsStock p s = true.
Proof.
  rewrite <- OwnedStocks_elem. unfold engine_subscriptions. rewrite <- list_fmap_compose.
  rewrite list_elem_of_fmap. split.
  - intros (x & He & Hx). apply engine_subject_inj in He as ->. done.
  - intros Hs. by exists s.
Qed.

(** ** Theorems *)

(** Every stock has exactly one owner: in a cluster of [total]
    instances there is one index, and only one, whose partitioner (which
    [New] accepts) owns the stock, whatever the stock code. *)
Theorem unique_owner s total :
  1 <= total <= max_i64 →
  ∃ i p, New i total = inr p ∧ OwnsStock p s = true ∧
    ∀ j q, New j total = inr q → OwnsStock q s = true → j = i.
Proof.
  intros Ht. pose proof (OwnerIndex_range s total Ht) as Hr.
  exists (OwnerIndex s total), (mkPartitioner (OwnerIndex s total) total). split_and!.
  - apply New_ok. split; [lia|done].
  - unfold OwnsStock. simpl. apply Z.eqb_refl.
  - intros j q Hq Ho. apply New_ok in Hq as [_ ->]. unfold OwnsStock in Ho. simpl in Ho.
    apply Z.eqb_eq in Ho. done.
Qed.

Lemma unique_owner_witness :
  ∃ i p, New i 3 = inr p ∧ OwnsStock p "BBCA" = true.
Proof.
  destruct (unique_owner "BBCA" 3) as (i & p & Hn & Ho & _); [split; discriminate|].
  exists i, p. split; [exact Hn|exact Ho].
Defined.

(** The instances of a cluster. *)
Definition cluster (total : nat) : list Partitioner :=
  (λ i, mkPartitioner (Z.of_nat i) (Z.of_nat total)) <$> seq 0 total.

Lemma filter_owner_nil (ids : list nat) total s :
  (∀ i, i ∈ ids → Z.of_nat i ≠ OwnerIndex s (Z.of_nat total)) →
  concat ((λ i, filter (λ x, OwnsStock (mkPartitioner (Z.of_nat i) (Z.of_nat total)) x = true) [s]) <$> ids) = [].
Proof.
  induction ids as [|i ids IH]; intros Hn; [done|]. rewrite fmap_cons. simpl.
  rewrite filter_cons, decide_False.
  - apply IH. intros j Hj. apply Hn. by apply list_elem_of_further.
  - unfold OwnsStock. simpl. rewrite Z.eqb_eq. intros He. by apply (Hn i); [apply list_elem_of_here|].
Qed.

Lemma concat_filter_one total s :
  (0 < total)%nat → Z.of_nat total <= max_i64 →
  concat ((λ i, filter (λ x, OwnsStock (mkPartitioner (Z.of_nat i) (Z.of_nat total)) x = true) [s])
            <$> seq 0 total) = [s].
Proof.
  intros H0 Hmax. pose proof (OwnerIndex_range s (Z.of_nat total)) as Hr.
  set (k := Z.to_nat (OwnerIndex s (Z.of_nat total))).
  assert (Z.of_nat k = OwnerIndex s (Z.of_nat total)) as Hk by (unfold k; rewrite Z2Nat.id; lia).
  assert (seq 0 total = seq 0 k ++ k :: seq (S k) (total - k - 1)) as ->.
  { replace total with (k + S (total - k - 1))%nat at 1 by lia. by rewrite seq_app. }
  rewrite fmap_app, concat_app, filter_owner_nil; cycle 1.
  { intros i Hi He. apply elem_of_seq in Hi. lia. }
  rewrite fmap_cons. cbn [concat app].
  rewrite filter_owner_nil; cycle 1.
  { intros i Hi He. apply elem_of_seq in Hi. lia. }
  rewrite filter_cons, decide_True, filter_nil; [done|].
  unfold OwnsStock. simpl. rewrite Hk. apply Z.eqb_refl.
Qed.

Lemma concat_filter_perm total l :
  (0 < total)%nat → Z.of_nat total <= max_i64 →
  concat ((λ i, filter (λ x, OwnsStock (mkPartitioner (Z.of_nat i) (Z.of_nat total)) x = true) l)
            <$> seq 0 total) ≡ₚ l.
Proof.
  intros H0 Hmax. induction l as [|s l IH].
  { assert (∀ ids : list nat, concat ((λ i, filter (λ x,
      OwnsStock (mkPartitioner (Z.of_nat i) (Z.of_nat total)) x = true) []) <$> ids) = []) as ->; [|done].
    induction ids as [|i ids IHi]; [done|]. rewrite fmap_cons. exact IHi. }
  set (own := λ (x : list string) (i : nat), filter (λ y, OwnsStock (mkPartitioner (Z.of_nat i) (Z.of_nat total)) y = true) x).
  assert (∀ ids : list nat, concat (own (s :: l) <$> ids) ≡ₚ
            concat (own [s] <$> ids) ++ concat (own l <$> ids)) as Hsplit.
  { induction ids as [|i ids IHi]; [done|]. rewrite !fmap_cons. cbn [concat]. rewrite IHi.
    assert (own (s :: l) i = own [s] i ++ own l i) as -> by (unfold own; by rewrite <- filter_app).
    rewrite <- !app_assoc. f_equiv. rewrite !app_assoc. f_equiv. apply Permutation_app_comm. }
  change (concat (own (s :: l) <$> seq 0 total) ≡ₚ s :: l). rewrite Hsplit.
  unfold own at 1. rewrite concat_filter_one by done. by apply Permutation_skip.
Qed.

(**  The owned subsets partition the stocks: each is sorted, does not
    depend on the order in which the stocks are listed, and together the
    instances own every listed stock exactly as often as it is listed. *)
Theorem owned_stocks_partition total (allStocks : list string) :
  (0 < total)%nat → Z.of_nat total <= max_i64 →
  concat ((λ p, OwnedStocks p allStocks) <$> cluster total) ≡ₚ allStocks ∧
  (∀ p, Sorted string_le (OwnedStocks p allStocks)) ∧
  (∀ p l, l ≡ₚ allStocks → OwnedStocks p l = OwnedStocks p allStocks).
Proof.
  intros H0 Hmax. split_and!.
  - etrans; [|by apply (concat_filter_perm total)]. unfold cluster.
    rewrite <- list_fmap_compose. generalize (seq 0 total). intros ids.
    induction ids as [|i ids IH]; [done|]. rewrite !fmap_cons. cbn [concat]. rewrite IH. f_equiv.
    unfold compose, OwnedStocks. by rewrite sort_strings_perm.
  - intros p. apply sort_strings_sorted.
  - intros p l Hp. unfold OwnedStocks. apply sort_strings_ext. by rewrite Hp.
Qed.

Lemma owned_stocks_partition_witness :
  concat ((λ p, OwnedStocks p (Stock.Code <$> AllStocks)) <$> cluster 3) ≡ₚ (Stock.Code <$> AllStocks) ∧
  OwnedStocks (mkPartitioner 0 1) ["GOTO"; "BBCA"] = ["BBCA"; "GOTO"].
Proof.
  split; [|vm_compute; reflexivity].
  apply (owned_stocks_partition 3 (Stock.Code <$> AllStocks)); [lia|discriminate].
Defined.

(** Routing reaches the owner.  In a cluster where every instance
    subscribes to the subjects of the stocks it owns, an order for a listed
    stock goes straight to the local engine on the instance that owns the
    stock, and on every other instance it is published, unchanged, on a
    subject that the owner, and no other instance, is subscribed to.  There,
    whatever state the owner is in, its callback queues a copy of the decoded
    order behind those its matcher of the stock already has, as long as the
    queue is open and has room. *)
Theorem router_reaches_owner {D : Deps} {B} (unmarshal_order : B → option Order.t)
    local pub total allStocks order s :
  let o := deref (w_heap (es_world s)) order in
  let subject := engine_subject (Order.StockCode o) in
  1 <= total <= max_i64 → Order.StockCode o ∈ allStocks →
  ∃ i owner, New i total = inr owner ∧
    Router_SubmitOrder local pub owner order s = local order s ∧
    (∀ j p, New j total = inr p →
      (subject ∈ (engine_subscriptions p allStocks).*1 ↔ j = i) ∧
      (j ≠ i → Router_SubmitOrder local pub p order s =
        match pub subject o s with
        | Ret None s' => Ret None s'
        | Ret (Some _) s' => Ret (Some (ErrOther ("partition router: forward to " ++ subject))) s'
        | Panic e s' => Panic e s'
        | NoFuel => NoFuel
        end)) ∧
    ∀ data m sown, unmarshal_order data = Some o →
        e_matchers (es_engine sown) !! Order.StockCode o = Some m →
        ch_closed (m_ch m) = false → (length (ch_buf (m_ch m)) < ch_cap (m_ch m))%nat →
        ∃ sown' r m', engine_order_handler unmarshal_order data sown = Ret () sown' ∧
          r = w_next (es_world sown) ∧
          w_heap (es_world sown') = <[r := o]> (w_heap (es_world sown)) ∧
          e_matchers (es_engine sown') = <[Order.StockCode o := m']> (e_matchers (es_engine sown)) ∧
          ch_buf (m_ch m') = ch_buf (m_ch m) ++ [Some r] ∧ m_book m' = m_book m.
Proof.
  intros o subject Ht Hin. pose proof (OwnerIndex_range (Order.StockCode o) total Ht) as Hr.
  set (i := OwnerIndex (Order.StockCode o) total) in *.
  exists i, (mkPartitioner i total). split_and!.
  - apply New_ok. split; [lia|done].
  - rewrite Router_on_estate. fold o. unfold OwnsStock. simpl. fold i. by rewrite Z.eqb_refl.
  - intros j p Hj. apply New_ok in Hj as [_ ->]. split.
    + unfold subject. rewrite subscribed_owner. unfold OwnsStock. simpl. fold i. rewrite Z.eqb_eq.
      split; [by intros [_ ?]|by intros ->].
    + intros Hne. rewrite Router_on_estate. fold o. unfold OwnsStock. simpl. fold i.
      rewrite (proj2 (Z.eqb_neq i j)) by congruence. fold subject.
      unfold mbind, M_bind. by destruct (pub subject o s) as [[e|] s'|e s'|].
  - intros data m sown. apply engine_order_handler_queues.
Qed.

Lemma router_reaches_owner_witness :
  let local := λ (r : ref) (s : @estate mem_deps), Ret None s in
  let pub := λ (subj : string) (o : Order.t) (s : @estate mem_deps), Ret None s in
  ∃ i owner, New i 3 = inr owner ∧
    Router_SubmitOrder local pub owner 0%nat SystemDemo.state3 = local 0%nat SystemDemo.state3.
Proof.
  intros local pub.
  destruct (router_reaches_owner (B := Order.t) Some local pub 3 (Stock.Code <$> DefaultStocks) 0%nat SystemDemo.state3)
    as (i & owner & Hn & Hl & _).
  - split; discriminate.
  - vm_compute. apply list_elem_of_here.
  - exists i, owner. split; [exact Hn|exact Hl].
Defined.
