(* ===== verification/DBWorker.v ===== *)
(** * The database writer ([internal/worker/dbworker.go])

    A bounded queue of write operations, drained by one goroutine that
    collects batches and sends each as one [pgx.Batch], retrying a bounded
    number of times.  The pool is third-party code: its state and
    [SendBatch] are parameters, with PostgreSQL's implicit transaction
    around a batch as the hypotheses of the theorems. *)
From S2P Require Import Prelude GoLib Entity.

(** ** Operations and the statements they become *)
Definition OpType : Type := string.
Definition OpOrderSave : OpType := "order_save".
Definition OpOrderUpdate : OpType := "order_update".
Definition OpTradeSave : OpType := "trade_save".
Definition OpTickerUpdate : OpType := "ticker_update".

Inductive WritePayload : Type :=
| WOrder (o : Order.t)
| WTrade (t : Trade.t)
| WTicker (t : Ticker.t).

Record WriteOp : Type := mkWriteOp { wo_Type : OpType; wo_Payload : WritePayload }.

(** The two [INSERT] statements with their arguments. *)
Inductive Stmt : Type :=
| UpsertOrder (o : Order.t)      (* ON CONFLICT (id) DO UPDATE SET filled_quantity, status, updated_at *)
| InsertTrade (t : Trade.t).     (* ON CONFLICT (id) DO NOTHING *)

(** One turn of the loop that builds the batch. *)
Definition stmt_of (op : WriteOp) : option Stmt :=
  if (wo_Type op =? OpOrderSave)%string || (wo_Type op =? OpOrderUpdate)%string then
    match wo_Payload op with WOrder o => Some (UpsertOrder o) | _ => None end
  else if (wo_Type op =? OpTradeSave)%string then
    match wo_Payload op with WTrade t => Some (InsertTrade t) | _ => None end
  else None.

Definition batch_of (ops : list WriteOp) : list Stmt := omap stmt_of ops.

(** What the statements mean on the two tables. *)
Record Tables : Type := mkTables {
  tb_orders : gmap string Order.t;
  tb_trades : gmap string Trade.t;
}.

Definition upsert (new : Order.t) (old : option Order.t) : Order.t :=
  match old with
  | None => new
  | Some o => Order.mk (Order.ID o) (Order.UserID o) (Order.StockCode o) (Order.Sd o)
                (Order.Price o) (Order.Quantity o) (Order.FilledQuantity new) (Order.Status new)
                (Order.CreatedAt o) (Order.UpdatedAt new)
  end.

Definition exec_stmt (tb : Tables) (s : Stmt) : Tables :=
  match s with
  | UpsertOrder o => mkTables (<[Order.ID o := upsert o (tb_orders tb !! Order.ID o)]> (tb_orders tb)) (tb_trades tb)
  | InsertTrade t =>
      match tb_trades tb !! Trade.ID t with
      | Some _ => tb
      | None => mkTables (tb_orders tb) (<[Trade.ID t := t]> (tb_trades tb))
      end
  end.

Definition exec_ops (tb : Tables) (ops : list WriteOp) : Tables := foldl exec_stmt tb (batch_of ops).

(** The errors of [flush] and of [flushWithRetry]. *)
Inductive FlushError : Type := BatchExec (index : Z) (msg : string).
Inductive RetryError : Type := AfterRetries (retries : Z) (lastErr : option FlushError).

(** ** The worker *)
Record DBWorker : Type := mkDBWorker {
  w_writeCh : chan WriteOp;
  w_pool : bool;              (* [pool != nil] *)
  w_batchSize : Z;
  w_retryMax : Z;
  w_retryBackoff : Z;
  w_stopOnce : bool;
  w_stopped : bool;
  w_batch : list WriteOp;     (* the slice [batch] of [Start] *)
  w_exited : bool;            (* [Start] returned *)
}.

Record DBWorkerConfig : Type := mkWorkerConfig {
  BatchSize : Z; FlushInterval : Z; ChannelSize : Z; RetryMax : Z; RetryBackoff : Z }.

Definition DefaultDBWorkerConfig : DBWorkerConfig := mkWorkerConfig 100 100000000 5000 3 1000000000.

(** [make] panics on a negative size. *)
Definition NewDBWorker (pool : bool) (cfg : DBWorkerConfig) : option DBWorker :=
  if ChannelSize cfg <? 0 then None
  else Some (mkDBWorker (make_chan WriteOp (Z.to_nat (ChannelSize cfg))) pool (BatchSize cfg)
               (RetryMax cfg) (RetryBackoff cfg) false false [] false).

Definition set_writeCh (c : chan WriteOp) (w : DBWorker) : DBWorker :=
  mkDBWorker c (w_pool w) (w_batchSize w) (w_retryMax w) (w_retryBackoff w) (w_stopOnce w)
    (w_stopped w) (w_batch w) (w_exited w).
Definition set_batch (b : list WriteOp) (w : DBWorker) : DBWorker :=
  mkDBWorker (w_writeCh w) (w_pool w) (w_batchSize w) (w_retryMax w) (w_retryBackoff w)
    (w_stopOnce w) (w_stopped w) b (w_exited w).
Definition set_exited (w : DBWorker) : DBWorker :=
  mkDBWorker (w_writeCh w) (w_pool w) (w_batchSize w) (w_retryMax w) (w_retryBackoff w)
    (w_stopOnce w) (w_stopped w) [] true.

Inductive enqueue_error : Type := WorkerStopped | QueueFull.

(** The send of [Enqueue]; the deferred [recover] turns the panic of a
    channel closed since the check into an error. *)
Definition Enqueue_send (op : WriteOp) (w : DBWorker) : DBWorker * option enqueue_error :=
  match chan_try_send op (w_writeCh w) with
  | None => (w, Some WorkerStopped)
  | Some (true, c) => (set_writeCh c w, None)
  | Some (false, _) => (w, Some QueueFull)
  end.

Definition Enqueue (op : WriteOp) (w : DBWorker) : DBWorker * option enqueue_error :=
  if w_stopped w then (w, Some WorkerStopped) else Enqueue_send op w.

Definition QueueLen (w : DBWorker) : Z := Z.of_nat (length (ch_buf (w_writeCh w))).

(** [Stop] up to [wg.Wait]: [None] is a panic. *)
Definition Stop_store (w : DBWorker) : DBWorker :=
  mkDBWorker (w_writeCh w) (w_pool w) (w_batchSize w) (w_retryMax w) (w_retryBackoff w)
    true true (w_batch w) (w_exited w).
Definition Stop (w : DBWorker) : option DBWorker :=
  if w_stopOnce w then Some w
  else match chan_close (w_writeCh w) with
       | None => None
       | Some c => Some (set_writeCh c (Stop_store w))
       end.

Section Pool.
(** [SendBatch] with the first error [results.Exec] reports. *)
Context {DB : Type}.
Variable SendBatch : list Stmt → DB → DB * option (Z * string).

Definition flush (w : DBWorker) (ops : list WriteOp) (db : DB) : DB * option FlushError :=
  if negb (w_pool w) then (db, None)
  else match batch_of ops with
       | [] => (db, None)
       | b => match SendBatch b db with
              | (db', None) => (db', None)
              | (db', Some (i, e)) => (db', Some (BatchExec i e))
              end
       end.

(** The loop of [flushWithRetry], by the attempts left; the waits are the
    back-offs slept before each retry. *)
Fixpoint retry (w : DBWorker) (n : nat) (attempt backoff : Z) (ops : list WriteOp)
    (db : DB) (waits : list Z) (lastErr : option FlushError) : DB * list Z * option RetryError :=
  match n with
  | O => (db, waits, Some (AfterRetries (w_retryMax w) lastErr))
  | S n =>
      let waits := if attempt >? 0 then waits ++ [backoff] else waits in
      let backoff := if attempt >? 0 then i64_mul backoff 2 else backoff in
      match flush w ops db with
      | (db', Some e) => retry w n (attempt + 1) backoff ops db' waits (Some e)
      | (db', None) => (db', waits, None)
      end
  end.

Definition flushWithRetry (w : DBWorker) (ops : list WriteOp) (db : DB) : DB * list Z * option RetryError :=
  retry w (Z.to_nat (w_retryMax w + 1)) 0 (w_retryBackoff w) ops db [] None.

(** The closure [flush] of [Start]; an error is only logged. *)
Definition flush_batch (w : DBWorker) (db : DB) : DB * option RetryError :=
  match w_batch w with
  | [] => (db, None)
  | ops => let '(db', _, err) := flushWithRetry w ops db in (db', err)
  end.

(** The worker, the database, and the batches flushed so far with the
    errors logged for them. *)
Record wstate : Type := mkW {
  ws_w : DBWorker;
  ws_db : DB;
  ws_log : list (list WriteOp * option RetryError);
}.

Definition do_flush (next : DBWorker → DBWorker) (s : wstate) : wstate :=
  let '(db', err) := flush_batch (ws_w s) (ws_db s) in
  mkW (next (ws_w s)) db' (ws_log s ++ [(w_batch (ws_w s), err)]).

(** The receive case of the select; [None]: nothing to receive. *)
Definition recv_case (s : wstate) : option wstate :=
  match chan_recv (w_writeCh (ws_w s)) with
  | RecvBlocks => None
  | RecvClosed => Some (do_flush set_exited s)
  | Received op c =>
      let w := set_batch (w_batch (ws_w s) ++ [op]) (set_writeCh c (ws_w s)) in
      let s' := mkW w (ws_db s) (ws_log s) in
      if Z.of_nat (length (w_batch w)) >=? w_batchSize w
      then Some (do_flush (set_batch []) s') else Some s'
  end.

Definition tick_case (s : wstate) : wstate := do_flush (set_batch []) s.

(** [ctx.Done()]: some goroutine will run [Stop]. *)
Definition done_case (s : wstate) : wstate := s.

(** What can happen to the worker: its own select, concurrent [Enqueue]s
    (their check of [stopped] is an earlier step and promises nothing), and
    the two writes of [Stop], which [stopOnce] runs once.  The label is the
    operation accepted by the step. *)
Inductive w_step (s : wstate) : list WriteOp → wstate → Prop :=
| w_recv s' : w_exited (ws_w s) = false → recv_case s = Some s' → w_step s [] s'
| w_tick : w_exited (ws_w s) = false → w_step s [] (tick_case s)
| w_done : w_exited (ws_w s) = false → w_step s [] (done_case s)
| w_enqueue op w : Enqueue_send op (ws_w s) = (w, None) → w_step s [op] (mkW w (ws_db s) (ws_log s))
| w_stop_store : w_stopOnce (ws_w s) = false →
    w_step s [] (mkW (Stop_store (ws_w s)) (ws_db s) (ws_log s))
| w_stop_close c : w_stopOnce (ws_w s) = true → chan_close (w_writeCh (ws_w s)) = Some c →
    w_step s [] (mkW (set_writeCh c (ws_w s)) (ws_db s) (ws_log s)).

Inductive w_steps (s : wstate) : list WriteOp → wstate → Prop :=
| w_refl : w_steps s [] s
| w_trans ops s1 op s2 : w_steps s ops s1 → w_step s1 op s2 → w_steps s (ops ++ op) s2.

(** The receive case repeated until the closed channel is drained. *)
Fixpoint drain (fuel : nat) (s : wstate) : option wstate :=
  match fuel with
  | O => None
  | S fuel =>
      match recv_case s with
      | None => None
      | Some s' => if w_exited (ws_w s') then Some s' else drain fuel s'
      end
  end.
End Pool.
