(* ===== verification/DBWorkerProofs.v ===== *)
(** * The database writer loses nothing it accepted except whole batches whose
    retries are exhausted

    A ledger relates, in every reachable state, the accepted operations, the
    flushed batches, the pending ones and the contents of the tables. *)
From S2P Require Import Prelude GoLib Entity DBWorker.

Section Proofs.
Context {DB : Type}.
Variable SendBatch : list Stmt → DB → DB * option (Z * string).
Variable tables : DB → Tables.
(** PostgreSQL runs a batch in one implicit transaction. *)
Hypothesis SendBatch_commit : ∀ b db db',
  SendBatch b db = (db', None) → tables db' = foldl exec_stmt (tables db) b.
Hypothesis SendBatch_rollback : ∀ b db db' e,
  SendBatch b db = (db', Some e) → tables db' = tables db.

Local Abbreviation wstate := (@wstate DB).

Lemma exec_ops_app tb a b : exec_ops tb (a ++ b) = exec_ops (exec_ops tb a) b.
Proof. unfold exec_ops, batch_of. by rewrite omap_app, foldl_app. Qed.

Lemma flush_tables w ops db db' err :
  w_pool w = true → flush SendBatch w ops db = (db', err) →
  tables db' = match err with None => exec_ops (tables db) ops | Some _ => tables db end.
Proof.
  intros Hp. unfold flush, exec_ops. rewrite Hp. simpl.
  destruct (batch_of ops) as [|s b] eqn:Hb; [by intros [= <- <-]|].
  destruct (SendBatch (s :: b) db) as [db1 [[i e]|]] eqn:Hs; intros [= <- <-].
  - by eapply SendBatch_rollback.
  - by eapply SendBatch_commit.
Qed.

Lemma retry_tables w n attempt backoff ops db waits last db' waits' err :
  w_pool w = true → retry SendBatch w n attempt backoff ops db waits last = (db', waits', err) →
  tables db' = match err with None => exec_ops (tables db) ops | Some _ => tables db end.
Proof.
  intros Hp. revert attempt backoff db waits last.
  induction n as [|n IH]; intros attempt backoff db waits last; simpl; [by intros [= <- _ <-]|].
  destruct (flush SendBatch w ops db) as [db1 [e|]] eqn:Hf; apply flush_tables in Hf; try done.
  - intros Hr. apply IH in Hr. by rewrite Hr, Hf.
  - by intros [= <- _ <-].
Qed.

(** ** The ledger *)
Definition flushed (log : list (list WriteOp * option RetryError)) : list WriteOp := concat (fst <$> log).
Definition succeeded (p : list WriteOp * option RetryError) : bool :=
  match p.2 with None => true | Some _ => false end.
Definition committed (log : list (list WriteOp * option RetryError)) : list WriteOp :=
  flushed (filter succeeded log).
Definition pending (s : wstate) : list WriteOp := w_batch (ws_w s) ++ ch_buf (w_writeCh (ws_w s)).

Record ledger (db0 : DB) (ops : list WriteOp) (s : wstate) : Prop := {
  ld_fifo : flushed (ws_log s) ++ pending s = ops;
  ld_tables : tables (ws_db s) = exec_ops (tables db0) (committed (ws_log s));
  ld_batch : Z.of_nat (length (w_batch (ws_w s))) < Z.max 1 (w_batchSize (ws_w s));
  ld_sizes : Forall (λ p, Z.of_nat (length p.1) <= Z.max 1 (w_batchSize (ws_w s))) (ws_log s);
  ld_exit : w_exited (ws_w s) = true → ch_closed (w_writeCh (ws_w s)) = true ∧ pending s = [];
  ld_pool : w_pool (ws_w s) = true;
}.

Lemma flushed_snoc log b err : flushed (log ++ [(b, err)]) = flushed log ++ b.
Proof. unfold flushed. rewrite fmap_app, concat_app. simpl. by rewrite app_nil_r. Qed.

Lemma committed_snoc log b err :
  committed (log ++ [(b, err)]) = committed log ++ match err with None => b | Some _ => [] end.
Proof.
  unfold committed. rewrite filter_app, filter_cons, filter_nil. unfold succeeded. simpl.
  destruct err; simpl; [by rewrite !app_nil_r|]. apply flushed_snoc.
Qed.

Lemma flush_batch_tables w db db' err :
  w_pool w = true → flush_batch SendBatch w db = (db', err) →
  tables db' = exec_ops (tables db) match err with None => w_batch w | Some _ => [] end.
Proof.
  intros Hp. unfold flush_batch. destruct (w_batch w) as [|op ops] eqn:Hb.
  { intros [= <- <-]. done. }
  destruct (flushWithRetry SendBatch w (op :: ops) db) as [[db1 waits] e] eqn:Hr.
  intros [= <- <-]. apply retry_tables in Hr; [|done]. rewrite Hr. by destruct e.
Qed.

(** A flush moves the batch from the pending operations to the log. *)
Lemma do_flush_ledger db0 ops s next :
  flushed (ws_log s) ++ pending s = ops →
  tables (ws_db s) = exec_ops (tables db0) (committed (ws_log s)) →
  Z.of_nat (length (w_batch (ws_w s))) <= Z.max 1 (w_batchSize (ws_w s)) →
  Forall (λ p, Z.of_nat (length p.1) <= Z.max 1 (w_batchSize (ws_w s))) (ws_log s) →
  w_pool (ws_w s) = true →
  w_batch (next (ws_w s)) = [] → w_writeCh (next (ws_w s)) = w_writeCh (ws_w s) →
  w_batchSize (next (ws_w s)) = w_batchSize (ws_w s) → w_pool (next (ws_w s)) = true →
  (w_exited (next (ws_w s)) = true → ch_closed (w_writeCh (ws_w s)) = true ∧ ch_buf (w_writeCh (ws_w s)) = []) →
  ledger db0 ops (do_flush SendBatch next s).
Proof.
  intros Hfifo Htab Hlen Hsizes Hp Hb Hch Hbs Hpool Hex. unfold do_flush.
  destruct (flush_batch SendBatch (ws_w s) (ws_db s)) as [db' err] eqn:Hf.
  apply flush_batch_tables in Hf; [|done]. split; simpl.
  - rewrite flushed_snoc. unfold pending in *. simpl. rewrite Hb, Hch, app_nil_l. by rewrite <- app_assoc.
  - by rewrite committed_snoc, exec_ops_app, <- Htab, Hf.
  - rewrite Hb, Hbs. simpl. lia.
  - rewrite Hbs. apply Forall_app. split; [done|]. by constructor.
  - unfold pending. simpl. rewrite Hb, Hch. simpl. tauto.
  - done.
Qed.

Lemma recv_ledger db0 ops s s' :
  w_exited (ws_w s) = false → recv_case SendBatch s = Some s' → ledger db0 ops s → ledger db0 ops s'.
Proof.
  intros Hex Hr [L1 L2 L3 L4 L5 L6]. revert Hr. unfold recv_case.
  destruct (chan_recv (w_writeCh (ws_w s))) as [op c| |] eqn:Hc; [|intros [= <-]|done].
  - assert (ch_buf (w_writeCh (ws_w s)) = op :: ch_buf c ∧ ch_closed c = ch_closed (w_writeCh (ws_w s)))
      as [Hbuf Hcl].
    { by apply chan_recv_Received in Hc as (-> & -> & _). }
    assert (flushed (ws_log s) ++ (w_batch (ws_w s) ++ [op]) ++ ch_buf c = ops) as Hfifo.
    { rewrite <- L1. unfold pending. by rewrite Hbuf, <- !app_assoc. }
    rewrite Z.geb_leb. simpl. rewrite length_app. simpl.
    destruct (Z.leb_spec (w_batchSize (ws_w s)) (Z.of_nat (length (w_batch (ws_w s)) + 1))); intros [= <-].
    + apply do_flush_ledger; simpl; try done; [rewrite length_app; simpl; lia|congruence].
    + split; simpl; try done; [rewrite length_app; simpl; lia|congruence].
  - assert (ch_closed (w_writeCh (ws_w s)) = true ∧ ch_buf (w_writeCh (ws_w s)) = []).
    { by apply chan_recv_closed. }
    apply do_flush_ledger; try done. lia.
Qed.

Lemma step_ledger db0 ops op s s' :
  w_step SendBatch s op s' → ledger db0 ops s → ledger db0 (ops ++ op) s'.
Proof.
  intros Hstep Hl. pose proof Hl as [L1 L2 L3 L4 L5 L6].
  destruct Hstep as [s' Hex Hr|Hex|Hex|x w Hen|Ho|c Ho Hc]; rewrite ?app_nil_r; try done.
  - by eapply recv_ledger.
  - apply do_flush_ledger; simpl; try done; [lia|congruence].
  - revert Hen. unfold Enqueue_send.
    destruct (chan_try_send x (w_writeCh (ws_w s))) as [[[] c]|] eqn:Hs; [|done..].
    intros [= <-]. apply chan_try_send_buf in Hs as (Hcl & Hcl' & _ & Hbuf). split; simpl; try done.
    + unfold pending in *. simpl. by rewrite Hbuf, !app_assoc, <- (app_assoc (flushed _)), L1.
    + intros Hx. destruct (L5 Hx). congruence.
  - unfold chan_close in Hc. destruct (ch_closed (w_writeCh (ws_w s))) eqn:Hcl; [done|].
    injection Hc as <-. split; simpl; try done. intros Hx. destruct (L5 Hx). congruence.
Qed.

Lemma new_ledger cfg w db :
  NewDBWorker true cfg = Some w → ledger db [] (mkW w db []).
Proof.
  unfold NewDBWorker. case_match; [done|]. intros [= <-]. split; simpl; try done. lia.
Qed.

Lemma steps_ledger db0 ops0 s ops s' :
  w_steps SendBatch s ops s' → ledger db0 ops0 s → ledger db0 (ops0 ++ ops) s'.
Proof.
  induction 1 as [|ops s1 op s2 _ IH Hs]; intros Hl; [by rewrite app_nil_r|].
  rewrite app_assoc. eapply step_ledger; [exact Hs|auto].
Qed.

(** ** Draining *)
Lemma drain_ok db0 ops n s :
  ledger db0 ops s → w_exited (ws_w s) = false → ch_closed (w_writeCh (ws_w s)) = true →
  length (ch_buf (w_writeCh (ws_w s))) = n →
  ∃ s', drain SendBatch (S n) s = Some s' ∧ ledger db0 ops s' ∧ w_exited (ws_w s') = true.
Proof.
  revert s. induction n as [|n IH]; intros s Hl Hex Hcl Hn; cbn [drain].
  - assert (recv_case SendBatch s = Some (do_flush SendBatch set_exited s)) as Hr.
    { unfold recv_case, chan_recv. apply nil_length_inv in Hn. by rewrite Hn, Hcl. }
    pose proof (recv_ledger db0 ops s _ Hex Hr Hl). rewrite Hr.
    assert (w_exited (ws_w (do_flush SendBatch set_exited s)) = true) as Hx.
    { unfold do_flush. by destruct (flush_batch _ _ _). }
    rewrite Hx. by eexists.
  - destruct (ch_buf (w_writeCh (ws_w s))) as [|op rest] eqn:Hbuf; [done|]. injection Hn as Hn.
    assert (∃ s1, recv_case SendBatch s = Some s1 ∧ w_exited (ws_w s1) = false ∧
              w_writeCh (ws_w s1) = mkChan rest (ch_cap (w_writeCh (ws_w s))) true) as (s1 & Hr & Hx & Hch).
    { unfold recv_case, chan_recv. rewrite Hbuf, Hcl. case_match; [|by eexists].
      unfold do_flush. destruct (flush_batch _ _ _) as [db' err]. by eexists. }
    rewrite Hr, Hx. apply IH; try done; [exact (recv_ledger db0 ops s s1 Hex Hr Hl)|by rewrite Hch..].
Qed.
End Proofs.

(** ** The retry schedule *)
Section Retry.
Context {DB : Type}.
Variable SendBatch : list Stmt → DB → DB * option (Z * string).
Variables (w : DBWorker) (ops : list WriteOp).

(** [k] attempts in a row fail, from [db] to the returned state. *)
Fixpoint fail_chain (k : nat) (db : DB) : option DB :=
  match k with
  | O => Some db
  | S k => match flush SendBatch w ops db with
           | (db', Some _) => fail_chain k db'
           | _ => None
           end
  end.

Definition backoffs (k : nat) : list Z := (λ i, w_retryBackoff w * 2 ^ Z.of_nat i) <$> seq 0 k.

Lemma backoffs_S k : backoffs (S k) = backoffs k ++ [w_retryBackoff w * 2 ^ Z.of_nat k].
Proof. unfold backoffs. by rewrite seq_S, fmap_app. Qed.

Lemma fail_chain_snoc k db db' db'' e :
  fail_chain k db = Some db' → flush SendBatch w ops db' = (db'', Some e) →
  fail_chain (S k) db = Some db''.
Proof.
  revert db. induction k as [|k IH]; intros db; cbn [fail_chain].
  - intros [= ->] ->. done.
  - destruct (flush SendBatch w ops db) as [db1 [e1|]]; [|done]. intros Hk Hf. by apply IH.
Qed.

Hypothesis backoff_ok : 0 <= w_retryBackoff w * 2 ^ w_retryMax w <= max_i64.
Hypothesis backoff_pos : 0 <= w_retryBackoff w.

Lemma backoff_double k :
  (Z.of_nat k + 1 <= w_retryMax w) →
  i64_mul (w_retryBackoff w * 2 ^ Z.of_nat k) 2 = w_retryBackoff w * 2 ^ Z.of_nat (S k).
Proof.
  intros Hk. rewrite Nat2Z.inj_succ, Z.pow_succ_r by lia.
  assert (2 ^ Z.succ (Z.of_nat k) <= 2 ^ w_retryMax w) by (apply Z.pow_le_mono_r; lia).
  rewrite Z.pow_succ_r in * by lia.
  assert (0 <= 2 ^ Z.of_nat k) by (apply Z.pow_nonneg; lia).
  rewrite i64_mul_id; [lia|]. split; i64_lia || nia.
Qed.

(** Attempts left, after the first one. *)
Lemma retry_fails n : ∀ k db last db',
  Z.of_nat (S k + n) = w_retryMax w + 1 → fail_chain n db = Some db' →
  ∃ e', retry SendBatch w n (Z.of_nat (S k)) (w_retryBackoff w * 2 ^ Z.of_nat k) ops db (backoffs k) (Some last) =
        (db', backoffs (k + n), Some (AfterRetries (w_retryMax w) (Some e'))).
Proof.
  induction n as [|n IH]; intros k db last db' Hn; cbn [fail_chain].
  { intros [= ->]. exists last. by rewrite Nat.add_0_r. }
  destruct (flush SendBatch w ops db) as [db1 [e|]] eqn:Hf; [|done]. intros Hc.
  cbn [retry]. rewrite (proj2 (Z.gtb_lt _ _)) by lia. rewrite Hf, <- backoffs_S.
  rewrite backoff_double by lia.
  replace (Z.of_nat (S k) + 1) with (Z.of_nat (S (S k))) by lia.
  destruct (IH (S k) db1 e db') as [e' He']; [lia|done|]. exists e'. rewrite He'.
  by replace (S k + n)%nat with (k + S n)%nat by lia.
Qed.

Lemma retry_succeeds n j : ∀ k db last dbj db',
  Z.of_nat (S k + n) = w_retryMax w + 1 → (j < n)%nat → fail_chain j db = Some dbj →
  flush SendBatch w ops dbj = (db', None) →
  retry SendBatch w n (Z.of_nat (S k)) (w_retryBackoff w * 2 ^ Z.of_nat k) ops db (backoffs k) (Some last) =
  (db', backoffs (S k + j), None).
Proof.
  revert j. induction n as [|n IH]; intros j k db last dbj db' Hn Hj; [lia|].
  cbn [retry]. rewrite (proj2 (Z.gtb_lt _ _)) by lia. rewrite <- backoffs_S. destruct j as [|j].
  - cbn [fail_chain]. intros [= ->] ->. by rewrite Nat.add_0_r.
  - cbn [fail_chain]. destruct (flush SendBatch w ops db) as [db1 [e|]] eqn:Hf; [|done].
    intros Hc Hd. rewrite backoff_double by lia.
    replace (Z.of_nat (S k) + 1) with (Z.of_nat (S (S k))) by lia.
    rewrite (IH j (S k) db1 e dbj db') by (lia || done).
    by replace (S (S k) + j)%nat with (S k + S j)%nat by lia.
Qed.
End Retry.
