(* ===== verification/DBWorkerTheorems.v ===== *)
(** * What the database writer guarantees *)
From S2P Require Import Prelude GoLib Entity DBWorker DBWorkerProofs.

Section Theorems.
Context {DB : Type}.
Variable SendBatch : list Stmt → DB → DB * option (Z * string).
Variable tables : DB → Tables.
Hypothesis SendBatch_commit : ∀ b db db',
  SendBatch b db = (db', None) → tables db' = foldl exec_stmt (tables db) b.
Hypothesis SendBatch_rollback : ∀ b db db' e,
  SendBatch b db = (db', Some e) → tables db' = tables db.

(** C20. In every state a fresh worker with a pool can reach, whatever its
    select, the enqueuers and [Stop] do: the flushed batches, the pending
    batch and the queue are together the accepted operations, each once and
    in order; the tables are the initial ones with exactly the successfully
    flushed batches applied; no batch exceeds the batch size; and once the
    worker has exited nothing is pending. *)
Theorem dbworker_ledger cfg w0 db0 ops (s : wstate) :
  NewDBWorker true cfg = Some w0 →
  w_steps SendBatch (mkW w0 db0 []) ops s →
  flushed (ws_log s) ++ w_batch (ws_w s) ++ ch_buf (w_writeCh (ws_w s)) = ops ∧
  tables (ws_db s) = exec_ops (tables db0) (committed (ws_log s)) ∧
  Forall (λ p, Z.of_nat (length p.1) <= Z.max 1 (w_batchSize (ws_w s))) (ws_log s) ∧
  (w_exited (ws_w s) = true → flushed (ws_log s) = ops).
Proof.
  intros Hn Hs. pose proof (steps_ledger SendBatch tables SendBatch_commit SendBatch_rollback
    db0 [] _ _ _ Hs (new_ledger tables cfg w0 db0 Hn)) as [L1 L2 _ L4 L5 _].
  split_and!; try done. intros Hx. destruct (L5 Hx) as [_ Hp]. rewrite Hp, app_nil_r in L1. done.
Qed.

(** Once [Stop] has closed the channel the worker terminates: as many
    receives as there are queued operations, and one more, end in its exit,
    with every accepted operation flushed. *)
Theorem dbworker_stop_drains cfg w0 db0 ops (s : wstate) :
  NewDBWorker true cfg = Some w0 →
  w_steps SendBatch (mkW w0 db0 []) ops s →
  w_exited (ws_w s) = false → ch_closed (w_writeCh (ws_w s)) = true →
  ∃ s', drain SendBatch (S (length (ch_buf (w_writeCh (ws_w s))))) s = Some s' ∧
    w_exited (ws_w s') = true ∧ flushed (ws_log s') = ops ∧
    tables (ws_db s') = exec_ops (tables db0) (committed (ws_log s')).
Proof.
  intros Hn Hs Hx Hcl. pose proof (steps_ledger SendBatch tables SendBatch_commit SendBatch_rollback
    db0 [] _ _ _ Hs (new_ledger tables cfg w0 db0 Hn)) as Hl.
  destruct (drain_ok SendBatch tables SendBatch_commit SendBatch_rollback db0 ops _ s Hl Hx Hcl eq_refl)
    as (s' & Hd & [L1 L2 _ _ L5 _] & Hx').
  exists s'. split_and!; try done. destruct (L5 Hx') as [_ Hp]. by rewrite Hp, app_nil_r in L1.
Qed.

(** A batch is attempted at most [retryMax + 1] times, sleeping the
    initial back-off doubled each time between attempts: it succeeds at the
    first attempt that does, and only when all of them fail is it given up,
    reporting the last error. *)
Theorem dbworker_retry_bounded (w : DBWorker) ops db k db' :
  0 <= w_retryMax w → 0 <= w_retryBackoff w →
  0 <= w_retryBackoff w * 2 ^ w_retryMax w <= max_i64 →
  Z.of_nat k <= w_retryMax w + 1 → fail_chain SendBatch w ops k db = Some db' →
  (∀ db'', flush SendBatch w ops db' = (db'', None) → Z.of_nat k <= w_retryMax w →
     flushWithRetry SendBatch w ops db = (db'', backoffs w k, None)) ∧
  (Z.of_nat k = w_retryMax w + 1 →
     ∃ e, flushWithRetry SendBatch w ops db =
          (db', backoffs w (k - 1), Some (AfterRetries (w_retryMax w) (Some e)))).
Proof.
  intros Hm Hb Hbk Hk. unfold flushWithRetry.
  replace (Z.to_nat (w_retryMax w + 1)) with (S (Z.to_nat (w_retryMax w))) by lia.
  assert (w_retryBackoff w = w_retryBackoff w * 2 ^ Z.of_nat 0) as Hz by (simpl; lia).
  destruct k as [|k]; cbn [fail_chain].
  - intros [= ->]. split; [|lia]. intros db'' Hd _. cbn [retry]. by rewrite Hd.
  - destruct (flush SendBatch w ops db) as [db1 [e|]] eqn:Hf; [|done]. intros Hc.
    assert (retry SendBatch w (S (Z.to_nat (w_retryMax w))) 0 (w_retryBackoff w) ops db [] None =
            retry SendBatch w (Z.to_nat (w_retryMax w)) (Z.of_nat 1) (w_retryBackoff w) ops db1
              (backoffs w 0) (Some e)) as ->.
    { cbn [retry]. by rewrite Hf. }
    split.
    + intros db'' Hd Hk'.
      pose proof (retry_succeeds SendBatch w ops Hbk Hb (Z.to_nat (w_retryMax w)) k 0 db1 e db' db'') as Hr.
      rewrite <- Hz in Hr. rewrite Hr by (lia || done). done.
    + intros Hk'.
      destruct (retry_fails SendBatch w ops Hbk Hb (Z.to_nat (w_retryMax w)) 0 db1 e db') as [e' He'];
        [lia|by replace (Z.to_nat (w_retryMax w)) with k by lia|].
      exists e'. rewrite <- Hz in He'. rewrite He'. by replace (0 + Z.to_nat (w_retryMax w))%nat with (S k - 1)%nat by lia.
Qed.
End Theorems.

(** [Enqueue] never blocks and never panics: it queues the operation
    at the back exactly when the worker is not stopped and the queue has
    room, and otherwise returns an error and changes nothing. *)
Theorem enqueue_outcome op w :
  match Enqueue op w with
  | (w', None) => w_stopped w = false ∧ ch_closed (w_writeCh w) = false ∧
      (length (ch_buf (w_writeCh w)) < ch_cap (w_writeCh w))%nat ∧
      ch_buf (w_writeCh w') = ch_buf (w_writeCh w) ++ [op] ∧ QueueLen w' = QueueLen w + 1 ∧
      w_batch w' = w_batch w
  | (w', Some WorkerStopped) => w' = w ∧ (w_stopped w = true ∨ ch_closed (w_writeCh w) = true)
  | (w', Some QueueFull) => w' = w ∧ (ch_cap (w_writeCh w) ≤ length (ch_buf (w_writeCh w)))%nat
  end.
Proof.
  unfold Enqueue, Enqueue_send, QueueLen, chan_try_send.
  destruct (w_stopped w); [by split; [|left]|].
  destruct (ch_closed (w_writeCh w)); [by split; [|right]|].
  destruct (Nat.ltb_spec (length (ch_buf (w_writeCh w))) (ch_cap (w_writeCh w))); simpl; [|done].
  rewrite length_app. simpl. split_and!; try done. lia.
Qed.

(** ** Which write of an order survives *)
Definition orders_for (id : string) (ops : list WriteOp) : list Order.t :=
  omap (λ s, match s with
             | UpsertOrder o => if (Order.ID o =? id)%string then Some o else None
             | InsertTrade _ => None
             end) (batch_of ops).

Lemma exec_order_lookup id ss tb :
  tb_orders (foldl exec_stmt tb ss) !! id =
  foldl (λ row o, Some (upsert o row)) (tb_orders tb !! id)
    (omap (λ s, match s with
                | UpsertOrder o => if (Order.ID o =? id)%string then Some o else None
                | InsertTrade _ => None
                end) ss).
Proof.
  revert tb. induction ss as [|[o|t] ss IH]; intros tb; [done| |]; cbn [foldl]; rewrite IH; simpl.
  - destruct (String.eqb_spec (Order.ID o) id) as [->|Hne]; simpl.
    + by rewrite lookup_insert_eq.
    + by rewrite lookup_insert_ne.
  - f_equal. by destruct (tb_trades tb !! Trade.ID t).
Qed.

(** The row of an order ends with the filled quantity, status and time
    of the last operation queued for it, whatever that operation is, and with
    the identity fields of the row's first version. *)
Theorem last_queued_write_wins tb ops id os last :
  orders_for id ops = os ++ [last] →
  ∃ row, tb_orders (exec_ops tb ops) !! id = Some row ∧
    Order.FilledQuantity row = Order.FilledQuantity last ∧ Order.Status row = Order.Status last ∧
    Order.UpdatedAt row = Order.UpdatedAt last ∧
    let first := match tb_orders tb !! id with Some r => r | None => hd last os end in
    Order.Price row = Order.Price first ∧ Order.Quantity row = Order.Quantity first ∧
    Order.UserID row = Order.UserID first ∧ Order.CreatedAt row = Order.CreatedAt first.
Proof.
  intros Hos. unfold exec_ops. rewrite exec_order_lookup. unfold orders_for in Hos. rewrite Hos.
  rewrite foldl_app. simpl. eexists. split; [done|].
  assert (∀ r0 l, ∃ r, foldl (λ row o, Some (upsert o row)) (Some r0) l = Some r ∧
    Order.Price r = Order.Price r0 ∧ Order.Quantity r = Order.Quantity r0 ∧
    Order.UserID r = Order.UserID r0 ∧ Order.CreatedAt r = Order.CreatedAt r0) as Hkeep.
  { intros r0 l. revert r0. induction l as [|o l IH]; intros r0; [by exists r0|]. cbn [foldl].
    destruct (IH (upsert o (Some r0))) as (r & ? & ? & ? & ? & ?). by exists r. }
  destruct (tb_orders tb !! id) as [r0|].
  - destruct (Hkeep r0 os) as (r & -> & H1 & H2 & H3 & H4). by simpl.
  - destruct os as [|o os]; [by simpl|]. cbn [foldl].
    destruct (Hkeep (upsert o None) os) as (r & -> & H1 & H2 & H3 & H4). by simpl in *.
Qed.

(** ** A concrete pool that fails a given number of times *)
Module WorkerDemo.
Definition DB : Type := Tables * nat.
Definition SendBatch (b : list Stmt) (db : DB) : DB * option (Z * string) :=
  match db.2 with
  | O => ((foldl exec_stmt db.1 b, 0%nat), None)
  | S k => ((db.1, k), Some (0, "deadlock detected"%string))
  end.

Lemma commit_ok b db db' : SendBatch b db = (db', None) → db'.1 = foldl exec_stmt db.1 b.
Proof. unfold SendBatch. destruct db as [tb [|k]]; simpl; [by intros [= <-]|done]. Qed.
Lemma rollback_ok b db db' e : SendBatch b db = (db', Some e) → db'.1 = db.1.
Proof. unfold SendBatch. destruct db as [tb [|k]]; simpl; [done|by intros [= <- <-]]. Qed.

Definition empty : Tables := mkTables ∅ ∅.
Definition order (filled : Z) (status : OrderStatus) (at_ : Time) : Order.t :=
  Order.mk "o1" "alice" "BBCA" SideBuy 9500 10 filled status 1 at_.
Definition created : WriteOp := mkWriteOp OpOrderSave (WOrder (order 0 OrderStatusOpen 1)).
Definition filled : WriteOp := mkWriteOp OpOrderUpdate (WOrder (order 10 OrderStatusFilled 2)).

Definition cfg : DBWorkerConfig := mkWorkerConfig 2 100000000 4 3 1000000000.
Definition w0 : DBWorker := default (mkDBWorker (make_chan _ 0) true 0 0 0 true true [] true) (NewDBWorker true cfg).
Definition s0 : wstate := mkW w0 (empty, 0%nat) [].
Definition s1 : wstate := mkW (Enqueue_send filled w0).1 (empty, 0%nat) [].
Definition s2 : wstate := mkW (Enqueue_send created (ws_w s1)).1 (empty, 0%nat) [].
Definition s3 : wstate := mkW (Stop_store (ws_w s2)) (empty, 0%nat) [].
Definition s4 : wstate := mkW (set_writeCh (mkChan [filled; created] 4 true) (ws_w s3)) (empty, 0%nat) [].

Lemma steps4 : w_steps SendBatch s0 [filled; created] s4.
Proof.
  eapply (w_trans SendBatch s0 [filled; created] s3 [] s4).
  - eapply (w_trans SendBatch s0 [filled; created] s2 [] s3).
    + eapply (w_trans SendBatch s0 [filled] s1 [created] s2).
      * eapply (w_trans SendBatch s0 [] s0 [filled] s1); [apply w_refl|by apply w_enqueue].
      * by apply w_enqueue.
    + by apply w_stop_store.
  - by apply w_stop_close.
Qed.

Lemma dbworker_ledger_witness : flushed (ws_log s4) ++ w_batch (ws_w s4) ++ ch_buf (w_writeCh (ws_w s4)) = [filled; created].
Proof.
  apply (dbworker_ledger SendBatch fst commit_ok rollback_ok cfg w0 (empty, 0%nat) [filled; created] s4).
  - reflexivity.
  - apply steps4.
Defined.

Lemma dbworker_stop_drains_witness :
  ∃ s', drain SendBatch 3 s4 = Some s' ∧ flushed (ws_log s') = [filled; created].
Proof.
  destruct (dbworker_stop_drains SendBatch fst commit_ok rollback_ok cfg w0 (empty, 0%nat) [filled; created] s4)
    as (s' & Hd & _ & Hf & _); [reflexivity|apply steps4|reflexivity..|].
  exists s'. split; [exact Hd|exact Hf].
Defined.

Lemma dbworker_retry_bounded_witness :
  flushWithRetry SendBatch w0 [filled] (empty, 2%nat) =
    ((exec_ops empty [filled], 0%nat), [1000000000; 2000000000], None) ∧
  (flushWithRetry SendBatch w0 [filled] (empty, 9%nat)).1.2 = [1000000000; 2000000000; 4000000000].
Proof.
  split.
  - apply (dbworker_retry_bounded SendBatch w0 [filled] (empty, 2%nat) 2 (empty, 0%nat));
      try (vm_compute; first [reflexivity|split; discriminate|discriminate]).
  - assert (∃ e, flushWithRetry SendBatch w0 [filled] (empty, 9%nat) =
      ((empty, 5%nat), backoffs w0 3, Some (AfterRetries (w_retryMax w0) (Some e)))) as [e He].
    { apply (dbworker_retry_bounded SendBatch w0 [filled] (empty, 9%nat) 4 (empty, 5%nat));
        vm_compute; first [reflexivity|split; discriminate|discriminate]. }
    rewrite He. vm_compute. reflexivity.
Defined.

(** The update of a fill enqueued before the order's own creation: the row
    ends [OPEN] and unfilled. *)
Lemma last_queued_write_wins_witness :
  ∃ row, tb_orders (exec_ops empty [filled; created]) !! "o1"%string = Some row ∧
    Order.FilledQuantity row = 0 ∧ Order.Status row = OrderStatusOpen.
Proof.
  destruct (last_queued_write_wins empty [filled; created] "o1" [order 10 OrderStatusFilled 2]
    (order 0 OrderStatusOpen 1)) as (row & Hr & Hf & Hs & _); [reflexivity|].
  exists row. split_and!; [exact Hr|exact Hf|exact Hs].
Defined.
End WorkerDemo.
