(* ===== verification/Auth.v ===== *)
(** * Users and tokens ([internal/infra/auth/jwt.go])

    The in-memory user maps with their optional database, registration in its
    three separately locked stages, login and token validation.  bcrypt and
    the JWT library are third-party code and appear as parameters. *)
From S2P Require Import Prelude GoLib Entity Repository.

Inductive auth_error : Type :=
| ErrUserNotFound
| ErrUserExists
| ErrInvalidCredentials
| ErrInvalidToken
| AuthFailure (msg : string)      (* an error passed through *)
| AuthRepo (e : error).

Record Claims : Type := mkClaims {
  cl_UserID : string;
  cl_Username : string;
  cl_Subject : string;
  cl_IssuedAt : Time;
  cl_ExpiresAt : Time;
}.

(** [repository.UserRepository] over a database state [R]. *)
Class UserRepository (R : Type) : Type := {
  ur_Save : User.t → R → R * option error;
  ur_FindByUsername : string → R → error + User.t;
  ur_FindAll : R → error + list User.t;
}.

Section Auth.
Context {R : Type} `{UserRepository R}.
(** bcrypt; the first argument is the salt it draws. *)
Variable GenerateFromPassword : nat → string → string + string.
Variable CompareHashAndPassword : string → string → bool.
(** golang-jwt: the signing methods, [SignedString] with HS256, and
    [ParseWithClaims], which yields the claims and the token's [Valid] flag. *)
Context {Alg : Type}.
Variable is_HMAC : Alg → bool.
Variable NewNumericDate : Time → Time.
Variable SignedString : Claims → string → string + string.
Variable ParseWithClaims : Time → string → (Alg → option string) → option (bool * Claims).

Record Service : Type := mkService {
  as_secret : string;
  as_expiry : Z;
  as_users : gmap string User.t;      (* by username *)
  as_byID : gmap string User.t;
  as_userRepo : option R;             (* the attached database *)
}.

Definition NewService (secret : string) (expiry : Z) : Service := mkService secret expiry ∅ ∅ None.
Definition SetUserRepo (repo : R) (s : Service) : Service :=
  mkService (as_secret s) (as_expiry s) (as_users s) (as_byID s) (Some repo).
Definition set_repo (r : option R) (s : Service) : Service :=
  mkService (as_secret s) (as_expiry s) (as_users s) (as_byID s) r.

Definition add_user (s : Service) (u : User.t) : Service :=
  mkService (as_secret s) (as_expiry s) (<[User.Username u := u]> (as_users s))
    (<[User.ID u := u]> (as_byID s)) (as_userRepo s).

Definition LoadUsers (s : Service) : Service * option error :=
  match as_userRepo s with
  | None => (s, None)
  | Some r => match ur_FindAll r with
              | inl e => (s, Some e)
              | inr users => (foldl add_user s users, None)
              end
  end.

(** *** Registration, stage by stage *)

(** 1: under the read lock. *)
Definition register_exists (username : string) (s : Service) : bool :=
  bool_decide (is_Some (as_users s !! username)).

(** 2: outside any lock; [id] and [now] are [uuid.NewString()] and [time.Now()]. *)
Definition register_user (salt : nat) (id : string) (now : Time) (username password : string)
    : auth_error + User.t :=
  match GenerateFromPassword salt password with
  | inl msg => inl (AuthFailure msg)
  | inr hash => inr (User.mk id username hash now)
  end.

(** 3: the database, outside the lock. *)
Definition register_save (u : User.t) (s : Service) : Service * option auth_error :=
  match as_userRepo s with
  | None => (s, None)
  | Some r =>
      match ur_Save u r with
      | (r', None) => (set_repo (Some r') s, None)
      | (r', Some e) =>
          (set_repo (Some r') s, Some (if bool_decide (e = ErrDuplicate) then ErrUserExists else AuthRepo e))
      end
  end.

(** 4: under the write lock. *)
Definition register_insert (u : User.t) (s : Service) : Service * (auth_error + User.t) :=
  if register_exists (User.Username u) s then (s, inl ErrUserExists)
  else (add_user s u, inr u).

Definition Register (salt : nat) (id : string) (now : Time) (username password : string) (s : Service)
    : Service * (auth_error + User.t) :=
  if register_exists username s then (s, inl ErrUserExists)
  else match register_user salt id now username password with
       | inl e => (s, inl e)
       | inr u =>
           match register_save u s with
           | (s', Some e) => (s', inl e)
           | (s', None) => register_insert u s'
           end
       end.

(** [now1] and [now2] are the two readings of the clock. *)
Definition Login (now1 now2 : Time) (username password : string) (s : Service)
    : auth_error + string * Time :=
  match as_users s !! username with
  | None => inl ErrInvalidCredentials
  | Some u =>
      if negb (CompareHashAndPassword (User.PasswordHash u) password) then inl ErrInvalidCredentials
      else
        let expiresAt := now1 + as_expiry s in
        let claims := mkClaims (User.ID u) (User.Username u) (User.ID u)
                        (NewNumericDate now2) (NewNumericDate expiresAt) in
        match SignedString claims (as_secret s) with
        | inl msg => inl (AuthFailure msg)
        | inr signed => inr (signed, expiresAt)
        end
  end.

(** The key function handed to the parser. *)
Definition keyfunc (s : Service) (alg : Alg) : option string :=
  if is_HMAC alg then Some (as_secret s) else None.

Definition ValidateToken (now : Time) (tokenString : string) (s : Service) : auth_error + Claims :=
  match ParseWithClaims now tokenString (keyfunc s) with
  | Some (true, claims) => inr claims
  | _ => inl ErrInvalidToken
  end.

Definition GetUserByID (id : string) (s : Service) : auth_error + User.t :=
  match as_byID s !! id with Some u => inr u | None => inl ErrUserNotFound end.

(** ** Concurrent registrations: a request past stage 2 holds a user record
    no other goroutine knows, marked once stage 3 has passed. *)
Record auth_state : Type := mkAuth {
  au_svc : Service;
  au_inflight : list (bool * User.t);
}.

Definition inflight_ids (a : auth_state) : list string := (λ p, User.ID p.2) <$> au_inflight a.

Inductive auth_step (a : auth_state) : auth_state → Prop :=
| au_begin salt id now username password u :
    register_exists username (au_svc a) = false →
    register_user salt id now username password = inr u →
    id ∉ inflight_ids a → as_byID (au_svc a) !! id = None →     (* a fresh UUID *)
    auth_step a (mkAuth (au_svc a) ((false, u) :: au_inflight a))
| au_save us1 u us2 s' :
    au_inflight a = us1 ++ (false, u) :: us2 → register_save u (au_svc a) = (s', None) →
    auth_step a (mkAuth s' (us1 ++ (true, u) :: us2))
| au_save_fails us1 u us2 s' e :
    au_inflight a = us1 ++ (false, u) :: us2 → register_save u (au_svc a) = (s', Some e) →
    auth_step a (mkAuth s' (us1 ++ us2))
| au_insert us1 u us2 s' res :
    au_inflight a = us1 ++ (true, u) :: us2 → register_insert u (au_svc a) = (s', res) →
    auth_step a (mkAuth s' (us1 ++ us2)).

Inductive auth_reachable (a0 : auth_state) : auth_state → Prop :=
| au_refl : auth_reachable a0 a0
| au_trans a a' : auth_reachable a0 a → auth_step a a' → auth_reachable a0 a'.
End Auth.
