(* ===== verification/AuthTheorems.v ===== *)
(** * Registration, login and token validation fit together *)
From S2P Require Import Prelude GoLib Entity Repository Auth.

Section Theorems.
Context {R : Type} `{UserRepository R}.
Variable GenerateFromPassword : nat → string → string + string.

Local Abbreviation Service := (@Service R).

(** ** The two maps agree *)
Record maps_agree (s : Service) : Prop := {
  ma_users : ∀ n u, as_users s !! n = Some u → User.Username u = n ∧ as_byID s !! User.ID u = Some u;
  ma_byID : ∀ i u, as_byID s !! i = Some u → User.ID u = i ∧ as_users s !! User.Username u = Some u;
}.

Lemma add_user_agree u (s : Service) :
  maps_agree s → as_users s !! User.Username u = None → as_byID s !! User.ID u = None →
  maps_agree (add_user s u).
Proof.
  intros [M1 M2] Hu Hi. split; simpl; intros k x.
  - rewrite lookup_insert_Some. intros [[<- <-]|[Hne Hx]]; [by rewrite lookup_insert_eq|].
    destruct (M1 k x Hx) as [? Hb]. split; [done|]. rewrite lookup_insert_ne; [done|]. congruence.
  - rewrite lookup_insert_Some. intros [[<- <-]|[Hne Hx]]; [by rewrite lookup_insert_eq|].
    destruct (M2 k x Hx) as [? Hb]. split; [done|]. rewrite lookup_insert_ne; [done|]. congruence.
Qed.

Lemma register_save_maps u (s s' : Service) err :
  register_save u s = (s', err) → as_users s' = as_users s ∧ as_byID s' = as_byID s ∧
    as_secret s' = as_secret s ∧ as_expiry s' = as_expiry s.
Proof.
  unfold register_save. destruct (as_userRepo s); [|by intros [= <- _]].
  destruct (ur_Save u r) as [r' [e|]]; by intros [= <- _].
Qed.

Record auth_inv (a : @auth_state R) : Prop := {
  ai_maps : maps_agree (au_svc a);
  ai_ids : NoDup (inflight_ids a);
  ai_fresh : ∀ i, i ∈ inflight_ids a → as_byID (au_svc a) !! i = None;
}.

Lemma inflight_ids_mid us1 b u us2 (s : Service) :
  inflight_ids (mkAuth s (us1 ++ (b, u) :: us2)) =
  inflight_ids (mkAuth s us1) ++ User.ID u :: inflight_ids (mkAuth s us2).
Proof. unfold inflight_ids. simpl. by rewrite fmap_app. Qed.

Lemma inflight_ids_app us1 us2 (s : Service) :
  inflight_ids (mkAuth s (us1 ++ us2)) = inflight_ids (mkAuth s us1) ++ inflight_ids (mkAuth s us2).
Proof. unfold inflight_ids. simpl. by rewrite fmap_app. Qed.

(** A request leaves the in-flight list. *)
Lemma inflight_remove us1 b u us2 (s : Service) :
  NoDup (inflight_ids (mkAuth s (us1 ++ (b, u) :: us2))) →
  NoDup (inflight_ids (mkAuth s (us1 ++ us2))) ∧
  (∀ i, i ∈ inflight_ids (mkAuth s (us1 ++ us2)) →
     i ≠ User.ID u ∧ i ∈ inflight_ids (mkAuth s (us1 ++ (b, u) :: us2))).
Proof.
  rewrite inflight_ids_mid, inflight_ids_app. intros Hnd.
  rewrite <- Permutation_middle in Hnd. apply NoDup_cons in Hnd as [Hu Hnd].
  split; [done|]. intros i Hi. split; [by intros ->|].
  rewrite elem_of_app in *. rewrite elem_of_cons. tauto.
Qed.

Lemma auth_step_inv a a' :
  auth_step GenerateFromPassword a a' → auth_inv a → auth_inv a'.
Proof.
  intros Hstep [Hm Hnd Hf]. destruct a as [s inflight]. simpl in *.
  destruct Hstep as [salt id now username password u Hex Hu Hid Hb|us1 u us2 s' Hin Hs|us1 u us2 s' e Hin Hs
    |us1 u us2 s' res Hin Hs]; simpl in *.
  - assert (User.ID u = id) as Hui.
    { unfold register_user in Hu. destruct (GenerateFromPassword salt password); [done|].
      by injection Hu as <-. }
    split; simpl; [done| |].
    + unfold inflight_ids. simpl. apply NoDup_cons. by rewrite Hui.
    + unfold inflight_ids. simpl. intros i [->|Hi]%elem_of_cons; [by rewrite Hui|by apply Hf].
  - subst inflight. apply register_save_maps in Hs as (H1 & H2 & _ & _).
    assert (inflight_ids (mkAuth s' (us1 ++ (true, u) :: us2)) =
            inflight_ids (mkAuth s (us1 ++ (false, u) :: us2))) as Hids.
    { unfold inflight_ids. simpl. by rewrite !fmap_app. }
    split; simpl; [|by rewrite Hids|rewrite Hids; intros i; rewrite H2; apply Hf].
    destruct Hm as [M1 M2]. split; intros k x; rewrite ?H1, ?H2; auto.
  - subst inflight. apply register_save_maps in Hs as (H1 & H2 & _ & _).
    destruct (inflight_remove us1 false u us2 s Hnd) as [Hnd' Hin'].
    split; simpl; [|exact Hnd'|].
    + destruct Hm as [M1 M2]. split; intros k x; rewrite ?H1, ?H2; auto.
    + intros i Hi. rewrite H2. by apply Hf, Hin'.
  - subst inflight. destruct (inflight_remove us1 true u us2 s Hnd) as [Hnd' Hin'].
    revert Hs. unfold register_insert, register_exists. case_bool_decide as Hex; intros [= <- _].
    + split; simpl; [done|exact Hnd'|]. intros i Hi. by apply Hf, Hin'.
    + split; simpl; [|exact Hnd'|].
      * apply add_user_agree; [done| |].
        -- destruct (as_users s !! User.Username u) eqn:He; [|done]. exfalso. apply Hex. by eexists.
        -- apply Hf. rewrite inflight_ids_mid, elem_of_app, elem_of_cons. tauto.
      * intros i Hi. destruct (Hin' i Hi) as [Hne Hi']. rewrite lookup_insert_ne by congruence. by apply Hf.
Qed.

(** C21. Whatever the interleaving of concurrent registrations, every user
    the service knows is found under exactly its own username and its own
    ID, and a registered user is never replaced by a later registration. *)
Theorem registered_users_consistent (a a' : @auth_state R) :
  as_users (au_svc a) = ∅ → as_byID (au_svc a) = ∅ → au_inflight a = [] →
  auth_reachable GenerateFromPassword a a' →
  maps_agree (au_svc a') ∧
  ∀ a'' n u, auth_reachable GenerateFromPassword a' a'' →
    as_users (au_svc a') !! n = Some u → as_users (au_svc a'') !! n = Some u.
Proof.
  intros Hu0 Hi0 Hin Hr.
  assert (auth_inv a) as H0.
  { split; [|unfold inflight_ids; rewrite Hin; constructor|unfold inflight_ids; rewrite Hin].
    - split; intros k x; by rewrite ?Hu0, ?Hi0, lookup_empty.
    - by intros i ?%elem_of_nil. }
  assert (auth_inv a') as H1 by (induction Hr; eauto using auth_step_inv).
  split; [apply H1|]. intros a'' n u Hr' Hu.
  induction Hr' as [|b b' _ IH Hstep]; [done|].
  destruct Hstep as [|us1 x us2 s' _ Hsv|us1 x us2 s' e _ Hsv|us1 x us2 s' res _ Hsv]; simpl; [done|..].
  - apply register_save_maps in Hsv as (-> & _). done.
  - apply register_save_maps in Hsv as (-> & _). done.
  - revert Hsv. unfold register_insert, register_exists. case_bool_decide as Hex; intros [= <- _]; [done|].
    simpl. rewrite lookup_insert_ne; [done|]. intros Heq. apply Hex. rewrite Heq. by eexists.
Qed.

(** ** The libraries' documented behaviour *)
Variable CompareHashAndPassword : string → string → bool.
Context {Alg : Type}.
Variable is_HMAC : Alg → bool.
Variable NewNumericDate : Time → Time.
Variable SignedString : Claims → string → string + string.
Variable ParseWithClaims : Time → string → (Alg → option string) → option (bool * Claims).
Hypothesis bcrypt_match : ∀ salt pw h, GenerateFromPassword salt pw = inr h → CompareHashAndPassword h pw = true.
Hypothesis bcrypt_mismatch : ∀ salt pw pw' h,
  GenerateFromPassword salt pw = inr h → pw' ≠ pw → CompareHashAndPassword h pw' = false.
(** A token signed with HS256 parses back, under the same key and before it
    expires, to the claims it was signed for. *)
Variable HS256 : Alg.
Hypothesis HS256_HMAC : is_HMAC HS256 = true.
Hypothesis jwt_roundtrip : ∀ claims key kf tok now,
  SignedString claims key = inr tok → kf HS256 = Some key → now < cl_ExpiresAt claims →
  ParseWithClaims now tok kf = Some (true, claims).

End Theorems.

(** ** Concrete libraries *)
Module AuthDemo.
Fixpoint bits (p : positive) : string :=
  match p with
  | xH => "."
  | xO p => String "0" (bits p)
  | xI p => String "1" (bits p)
  end.
Fixpoint unbits (s : string) : option positive :=
  match s with
  | String c rest =>
      if (c =? ".")%char then Some xH
      else if (c =? "0")%char then xO <$> unbits rest
      else if (c =? "1")%char then xI <$> unbits rest else None
  | EmptyString => None
  end.
Lemma unbits_bits p : unbits (bits p) = Some p.
Proof. induction p as [p IH|p IH|]; simpl; by rewrite ?IH. Qed.

Definition pack (c : Claims) : string * string * string * Z * Z :=
  (cl_UserID c, cl_Username c, cl_Subject c, cl_IssuedAt c, cl_ExpiresAt c).
Definition unpack (p : string * string * string * Z * Z) : Claims :=
  let '(a, b, c, d, e) := p in mkClaims a b c d e.

Definition sign (c : Claims) (key : string) : string + string := inr (bits (encode (pack c, key))).
(** The only signing method is HMAC. *)
Definition parse (now : Time) (tok : string) (kf : () → option string) : option (bool * Claims) :=
  p ← unbits tok;
  ck ← decode p;
  let '(c, key) := ck : (string * string * string * Z * Z) * string in
  k ← kf ();
  Some (bool_decide (k = key) && (now <? (unpack c).(cl_ExpiresAt)), unpack c).

Lemma parse_sign claims key (kf : () → option string) tok now :
  sign claims key = inr tok → kf () = Some key → now < cl_ExpiresAt claims →
  parse now tok kf = Some (true, claims).
Proof.
  intros [= <-] Hk Hn. unfold parse. rewrite unbits_bits. cbn [mbind option_bind].
  rewrite decode_encode. cbn [mbind option_bind]. rewrite Hk. cbn [mbind option_bind].
  rewrite bool_decide_eq_true_2 by done. destruct claims as [a b c d e]. simpl in *.
  by rewrite (proj2 (Z.ltb_lt _ _)) by done.
Qed.

#[local] Instance no_db : UserRepository () := {|
  ur_Save _ r := (r, None);
  ur_FindByUsername _ _ := inl ErrNotFound;
  ur_FindAll _ := inr [];
|}.

Definition gen (salt : nat) (pw : string) : string + string := inr pw.
Definition cmp (h pw : string) : bool := (h =? pw)%string.
Definition svc : @Service () := NewService "secret" 3600.
Definition alice : User.t := User.mk "u1" "alice" "pw" 5.


Definition a0 : @auth_state () := mkAuth svc [].
Definition a1 : @auth_state () := mkAuth svc [(false, alice)].
Definition a2 : @auth_state () := mkAuth svc [(true, alice)].
Definition a3 : @auth_state () := mkAuth (add_user svc alice) [].

Lemma steps3 : auth_reachable gen a0 a3.
Proof.
  eapply (au_trans gen a0 a2 a3); [eapply (au_trans gen a0 a1 a2); [eapply (au_trans gen a0 a0 a1); [apply au_refl|]|]|].
  - apply (au_begin gen a0 0%nat "u1" 5 "alice" "pw" alice); [reflexivity|reflexivity| |reflexivity].
    apply not_elem_of_nil.
  - by apply (au_save gen a1 [] alice [] svc).
  - by apply (au_insert gen a2 [] alice [] (add_user svc alice) (inr alice)).
Qed.

Lemma registered_users_consistent_witness :
  maps_agree (au_svc a3) ∧ as_users (au_svc a3) !! "alice"%string = Some alice.
Proof.
  split; [|reflexivity].
  apply (registered_users_consistent gen a0 a3); [reflexivity..|apply steps3].
Defined.
End AuthDemo.
