(* ===== verification/GoStrings.v ===== *)
(** * Go's [strings] and [strconv], as far as the program uses them *)
From S2P Require Import Prelude.

Definition is_digit (c : ascii) : bool :=
  (48 <=? Z.of_N (N_of_ascii c)) && (Z.of_N (N_of_ascii c) <=? 57).
Definition digit_of (c : ascii) : Z := Z.of_N (N_of_ascii c) - 48.

Fixpoint digits (acc : Z) (s : string) : option Z :=
  match s with
  | EmptyString => Some acc
  | String c rest => if is_digit c then digits (acc * 10 + digit_of c) rest else None
  end.

(** [strconv.Atoi] on a 64-bit target; [None] is any error. *)
Definition Atoi (s : string) : option Z :=
  let '(neg, body) := match s with
                      | String "-" rest => (true, rest)
                      | String "+" rest => (false, rest)
                      | _ => (false, s)
                      end in
  match body with
  | EmptyString => None
  | _ =>
      v ← digits 0 body;
      let v := if neg : bool then - v else v in
      if (min_i64 <=? v) && (v <=? max_i64) then Some v else None
  end.

Lemma Atoi_range s v : Atoi s = Some v → in_i64 v.
Proof.
  unfold Atoi. destruct (match s with EmptyString => _ | String _ _ => _ end) as [neg body].
  destruct body as [|c body]; [done|]. destruct (digits 0 (String c body)) as [d|]; simpl; [|done].
  destruct (Z.leb_spec min_i64 (if neg then - d else d)), (Z.leb_spec (if neg then - d else d) max_i64);
    simpl; try done. by intros [= <-].
Qed.

(** [strings.Index(s, c)] for a one-byte separator, as the text before and
    after its first occurrence. *)
Fixpoint cut (sep : ascii) (s : string) : option (string * string) :=
  match s with
  | EmptyString => None
  | String c rest =>
      if (c =? sep)%char then Some (EmptyString, rest)
      else '(a, b) ← cut sep rest; Some (String c a, b)
  end.

(** [strings.SplitN(s, sep, 2)[0]]. *)
Definition before (sep : ascii) (s : string) : string :=
  match cut sep s with Some (a, _) => a | None => s end.

Lemma cut_app sep a b : cut sep a = None → cut sep (a ++ String sep b) = Some (a, b).
Proof.
  induction a as [|c a IH]; simpl.
  - by rewrite Ascii.eqb_refl.
  - destruct (c =? sep)%char; [done|]. destruct (cut sep a) as [[]|]; [done|]. intros _. by rewrite IH.
Qed.

Definition is_space (c : ascii) : bool :=
  let n := Z.of_N (N_of_ascii c) in ((9 <=? n) && (n <=? 13)) || (n =? 32).

Fixpoint trim_left (s : string) : string :=
  match s with
  | EmptyString => EmptyString
  | String c rest => if is_space c then trim_left rest else s
  end.

Fixpoint trim_right (s : string) : string :=
  match s with
  | EmptyString => EmptyString
  | String c rest =>
      match trim_right rest with
      | EmptyString => if is_space c then EmptyString else String c EmptyString
      | r => String c r
      end
  end.

(** [strings.TrimSpace] on ASCII text. *)
Definition TrimSpace (s : string) : string := trim_right (trim_left s).

Definition to_lower (c : ascii) : ascii :=
  let n := N_of_ascii c in
  if (65 <=? Z.of_N n) && (Z.of_N n <=? 90) then ascii_of_N (n + 32) else c.

(** [strings.EqualFold(s, t)] where [t] has no letter with a fold outside ASCII. *)
Fixpoint EqualFold (s t : string) : bool :=
  match s, t with
  | EmptyString, EmptyString => true
  | String a s, String b t => (to_lower a =? to_lower b)%char && EqualFold s t
  | _, _ => false
  end.
