(* ===== verification/Http.v ===== *)
(** * Requests, replies and middleware ([pkg/netutil],
    [internal/transport/http/middleware])

    A handler maps a request to a reply over the server's state and may
    panic; a middleware wraps a handler.  Header values set before the
    handler runs survive a panic, so they live in the state. *)
From S2P Require Import Prelude GoLib GoStrings Entity Repository Validator Auth.

Record Request : Type := mkRequest {
  rq_Method : string;
  rq_Path : string;
  rq_RemoteAddr : string;
  rq_Header : string → string;      (* [r.Header.Get] *)
  rq_Query : string → string;       (* [r.URL.Query().Get] *)
  rq_Param : string → string;       (* [chi.URLParam] *)
  rq_Body : string;
  rq_ctxUser : option string;       (* the context value set by [Auth] *)
  rq_now : Time;                    (* the clock while the request is served *)
}.

Definition with_user (id : string) (r : Request) : Request :=
  mkRequest (rq_Method r) (rq_Path r) (rq_RemoteAddr r) (rq_Header r) (rq_Query r) (rq_Param r)
    (rq_Body r) (Some id) (rq_now r).
Definition with_params (p : string → string) (r : Request) : Request :=
  mkRequest (rq_Method r) (rq_Path r) (rq_RemoteAddr r) (rq_Header r) (rq_Query r) p
    (rq_Body r) (rq_ctxUser r) (rq_now r).

Section Http.
(** [A]: the JSON payloads; [S]: the application state; [Net]: a parsed
    CIDR block; [L]: a [rate.Limiter]. *)
Context {A S Net L : Type}.

(** A reply: status and body ([None]: empty). *)
Record Reply : Type := mkReply { rp_status : Z; rp_body : option (envelope A) }.

Definition reply (r : http_response A) : Reply := mkReply (hr_status r) (Some (hr_body r)).

Record clientEntry : Type := mkEntry { ce_limiter : L; ce_lastSeen : Time }.

Record Server : Type := mkServer {
  sv_app : S;
  sv_headers : list (string * string);          (* of the reply being written *)
  sv_clients : gmap string clientEntry;         (* the rate limiter's map *)
  sv_log : list (string * string * Z);          (* method, path, status *)
  sv_metrics : gmap (string * string * Z) Z;    (* [http_requests_total] *)
}.

Definition Handler : Type := Request → M Server Reply.

Definition set_app (a : S) (s : Server) : Server :=
  mkServer a (sv_headers s) (sv_clients s) (sv_log s) (sv_metrics s).
Definition set_headers h (s : Server) : Server :=
  mkServer (sv_app s) h (sv_clients s) (sv_log s) (sv_metrics s).
Definition set_clients c (s : Server) : Server :=
  mkServer (sv_app s) (sv_headers s) c (sv_log s) (sv_metrics s).
Definition set_log l (s : Server) : Server :=
  mkServer (sv_app s) (sv_headers s) (sv_clients s) l (sv_metrics s).
Definition set_metrics m (s : Server) : Server :=
  mkServer (sv_app s) (sv_headers s) (sv_clients s) (sv_log s) m.

(** ** [pkg/netutil]: package [net] is a parameter. *)
Variable SplitHostPort : string → option string.
Variable ParseIP_Contains : string → option (Net → bool).   (* [ParseIP], then [cidr.Contains] *)
Variable ParseCIDR : string → option Net.

Definition isTrusted (ip : string) (cidrs : list Net) : bool :=
  match ParseIP_Contains ip with
  | None => false
  | Some contains => existsb contains cidrs
  end.

Definition ParseCIDRs (cidrs : list string) : list Net := omap (λ c, ParseCIDR (TrimSpace c)) cidrs.

Definition ExtractClientIP (r : Request) (trustedCIDRs : list Net) : string :=
  let remoteIP := default (rq_RemoteAddr r) (SplitHostPort (rq_RemoteAddr r)) in
  if (0 <? length trustedCIDRs)%nat && isTrusted remoteIP trustedCIDRs then
    let fwd := rq_Header r "X-Forwarded-For" in
    if negb (fwd =? EmptyString)%string then
      let first := TrimSpace (before "," fwd) in
      if negb (first =? EmptyString)%string then first else remoteIP
    else remoteIP
  else remoteIP.

(** ** Middleware *)
Definition corsHeaders : list (string * string) := [
  ("Access-Control-Allow-Origin", "*");
  ("Access-Control-Allow-Methods", "GET, POST, PUT, PATCH, DELETE, OPTIONS");
  ("Access-Control-Allow-Headers", "Content-Type, Authorization, X-Request-ID");
  ("Access-Control-Max-Age", "86400")]%string.

Definition CORS (next : Handler) : Handler := λ r,
  modify (λ s, set_headers (sv_headers s ++ corsHeaders) s);;
  if (rq_Method r =? "OPTIONS")%string then mret (mkReply 204 None) else next r.

(** The deferred [recover]. *)
Definition Recovery (next : Handler) : Handler := λ r s,
  match next r s with
  | Panic _ s' => Ret (reply (Error 500 "INTERNAL_ERROR" "an unexpected error occurred")) s'
  | res => res
  end.

(** The wrapped writer remembers the status the handler wrote. *)
Definition Logger (next : Handler) : Handler := λ r,
  rp ← next r;
  modify (λ s, set_log (sv_log s ++ [(rq_Method r, rq_Path r, rp_status rp)]) s);;
  mret rp.

Definition PrometheusMiddleware (next : Handler) : Handler := λ r,
  rp ← next r;
  let key := (rq_Method r, rq_Path r, rp_status rp) in
  modify (λ s, set_metrics (<[key := default 0 (sv_metrics s !! key) + 1]> (sv_metrics s)) s);;
  mret rp.

(** *** The rate limiter *)
Definition cleanupInterval : Z := 300000000000.   (* 5 min, in ns *)
Definition idleTTL : Z := 600000000000.           (* 10 min *)

Variable NewLimiter : L.                          (* [rate.NewLimiter(rps, burst)] *)
Variable Allow : Time → L → bool * L.

Definition getLimiter (ip : string) (now : Time) (s : Server) : L * Server :=
  let limiter := match sv_clients s !! ip with Some e => ce_limiter e | None => NewLimiter end in
  (limiter, set_clients (<[ip := mkEntry limiter now]> (sv_clients s)) s).

Definition RateLimit (trustedCIDRs : list Net) (next : Handler) : Handler := λ r s,
  let ip := ExtractClientIP r trustedCIDRs in
  let '(limiter, s) := getLimiter ip (rq_now r) s in
  let '(ok, limiter) := Allow (rq_now r) limiter in
  let s := set_clients (<[ip := mkEntry limiter (rq_now r)]> (sv_clients s)) s in
  if ok then next r s
  else Ret (reply (Error 429 "RATE_LIMITED" "too many requests — please slow down")) s.

(** One tick of [cleanup]. *)
Definition cleanup (now : Time) (s : Server) : Server :=
  set_clients (filter (λ p, ¬ (now - ce_lastSeen p.2 > idleTTL)) (sv_clients s)) s.

(** *** JWT extraction *)
Definition extractBearerToken (r : Request) : string :=
  let h := rq_Header r "Authorization" in
  if (h =? EmptyString)%string then EmptyString
  else match cut " " h with
       | None => EmptyString
       | Some (scheme, rest) => if EqualFold scheme "bearer" then rest else EmptyString
       end.

Definition UserIDFromContext (r : Request) : option string :=
  match rq_ctxUser r with
  | Some id => if (id =? EmptyString)%string then None else Some id
  | None => None
  end.

(** [validate] is the auth service's [ValidateToken]. *)
Definition Auth (validate : Time → string → S → auth_error + Claims) (required : bool)
    (next : Handler) : Handler := λ r s,
  let token := extractBearerToken r in
  let token := if (token =? EmptyString)%string then rq_Query r "token" else token in
  if (token =? EmptyString)%string then
    if required then Ret (reply (Error 401 "MISSING_TOKEN" "authorization token required")) s
    else next r s
  else match validate (rq_now r) token (sv_app s) with
       | inl _ =>
           if required
           then Ret (reply (Error 401 "INVALID_TOKEN" "authorization token is invalid or expired")) s
           else next r s
       | inr claims => next (with_user (cl_UserID claims) r) s
       end.
End Http.
