(* ===== verification/Handlers.v ===== *)
(** * REST handlers and the router ([internal/transport/http]) *)
From S2P Require Import Prelude GoLib GoStrings Entity Repository Book Matcher Engine Validator.
From S2P Require Import Services Auth Http.

(** The payloads of the replies. *)
Inductive Data : Type :=
| DOrder (o : Order.t)
| DOrders (l : list Order.t)
| DTrades (l : list Trade.t)
| DTicker (t : Ticker.t)
| DTickers (l : list Ticker.t)
| DBook (b : OrderBook.t)
| DRegistered (u : User.t) (token : string) (expires_at : Time)
| DToken (token : string) (expires_at : Time)
| DHealth (uptime goroutines : Z).

Record createOrderBody : Type := mkCreateOrderBody {
  cb_StockCode : string; cb_Side : string; cb_Price : Z; cb_Quantity : Z }.
Record credentials : Type := mkCredentials { cr_Username : string; cr_Password : string }.

(** [err.Error()]. *)
Definition error_text (e : error) : string :=
  match e with
  | ErrNotFound => "entity not found"
  | ErrDuplicate => "entity already exists"
  | ErrOther msg => msg
  end.

(** [intParam]. *)
Definition intParam (s : string) (def : Z) : Z :=
  if (s =? EmptyString)%string then def else default def (Atoi s).

Definition userIDFromContext (r : Request) : string :=
  match UserIDFromContext r with Some id => id | None => "anonymous" end.

Section Handlers.
Context {D : Deps} {R L : Type} `{UserRepository R}.

(** The services the handlers reach. *)
Record App : Type := mkApp { ap_es : estate; ap_auth : @Service R }.

Local Abbreviation Srv := (@Server App L).
Local Abbreviation Handler := (Request → M Srv (@Reply Data)).

Definition on_es {X} (m : M estate X) : M Srv X := λ s,
  match m (ap_es (sv_app s)) with
  | Ret x es => Ret x (set_app (mkApp es (ap_auth (sv_app s))) s)
  | Panic e es => Panic e (set_app (mkApp es (ap_auth (sv_app s))) s)
  | NoFuel => NoFuel
  end.
Definition read_es {X} (f : estate → X) : M Srv X := λ s, Ret (f (ap_es (sv_app s))) s.
Definition get_auth : M Srv (@Service R) := λ s, Ret (ap_auth (sv_app s)) s.
Definition set_auth (a : @Service R) : M Srv () :=
  modify (λ s, set_app (mkApp (ap_es (sv_app s)) a) s).

(** An [(A, error)] result that may also panic. *)
Definition outcome_reply {X} (o : outcome X) (ok : X → @Reply Data) : M Srv (@Reply Data) :=
  match o with
  | OK x => mret (ok x)
  | Err e => mret (reply (Error 500 "INTERNAL_ERROR" (error_text e)))
  | Crash msg => panic msg
  end.

(** ** Orders.  [decode_order] is [json.Decoder.Decode] into the body type. *)
Variable decode_order : string → option createOrderBody.
Variable SubmitOrder : ref → M estate (option error).

Definition OrderHandler_Create : Handler := λ r,
  match decode_order (rq_Body r) with
  | None => mret (reply (Error 400 "BAD_REQUEST" "invalid JSON body"))
  | Some body =>
      let '(req, fieldErrs) := ValidateCreateOrder (cb_StockCode body) (cb_Side body)
                                 (cb_Price body) (cb_Quantity body) in
      if (0 <? length fieldErrs)%nat then mret (reply (ValidationError fieldErrs))
      else
        res ← on_es (OrderService.CreateOrder SubmitOrder (userIDFromContext r) req);
        match res with
        | inl e => mret (reply (Error 500 "INTERNAL_ERROR" (error_text e)))
        | inr order =>
            o ← on_es (on_eworld (load order));
            mret (reply (JSON 201 (DOrder o)))
        end
  end.

Definition OrderHandler_List : Handler := λ r,
  let page := ParsePage (intParam (rq_Query r "page") 1) in
  let perPage := ParsePerPage (intParam (rq_Query r "per_page") DefaultPerPage) in
  let userID := rq_Query r "user_id" in
  let ctxUser := userIDFromContext r in
  let userID := if (userID =? EmptyString)%string
                then if negb (ctxUser =? "anonymous")%string then ctxUser else userID
                else userID in
  let filter := OrderFilter.mk (rq_Query r "stock_code") (rq_Query r "status") userID page perPage in
  res ← read_es (OrderService.GetOrders filter);
  outcome_reply res (λ '(orders, total), reply (Paginated 200 (DOrders orders) (NewMeta total page perPage))).

Definition OrderHandler_GetByID : Handler := λ r,
  let id := rq_Param r "id" in
  if (id =? EmptyString)%string then mret (reply (Error 400 "BAD_REQUEST" "missing order id"))
  else
    res ← read_es (OrderService.GetOrderByID id);
    match res with
    | inl ErrNotFound => mret (reply (Error 404 "NOT_FOUND" "order not found"))
    | inl e => mret (reply (Error 500 "INTERNAL_ERROR" (error_text e)))
    | inr o => mret (reply (JSON 200 (DOrder o)))
    end.

(** ** Trades *)
Definition TradeHandler_List : Handler := λ r,
  let page := ParsePage (intParam (rq_Query r "page") 1) in
  let perPage := ParsePerPage (intParam (rq_Query r "per_page") DefaultPerPage) in
  let filter := TradeFilter.mk (rq_Query r "stock_code") (rq_Query r "user_id") page perPage in
  res ← read_es (TradeService.GetTradeHistory filter);
  outcome_reply res (λ '(trades, total), reply (Paginated 200 (DTrades trades) (NewMeta total page perPage))).

(** ** Market data *)
Variable cache : option MarketService.MarketCache.

Definition MarketHandler_AllTickers : Handler := λ _,
  tickers ← read_es MarketService.GetAllTickers;
  mret (reply (JSON 200 (DTickers tickers))).

Definition market_reply {X} (res : error + X) (data : X → Data) : @Reply Data :=
  match res with
  | inl ErrNotFound => reply (Error 404 "NOT_FOUND" "stock not found")
  | inl e => reply (Error 500 "INTERNAL_ERROR" (error_text e))
  | inr x => reply (JSON 200 (data x))
  end.

Definition MarketHandler_Ticker : Handler := λ r,
  res ← read_es (MarketService.GetTicker cache (rq_Param r "stock"));
  mret (market_reply res DTicker).

Definition MarketHandler_OrderBook : Handler := λ r,
  res ← read_es (MarketService.GetOrderBook cache (rq_Param r "stock"));
  mret (market_reply res DBook).

Definition MarketHandler_RecentTrades : Handler := λ r,
  let limit := intParam (rq_Query r "limit") 20 in
  let limit := if limit >? 100 then 100 else limit in
  res ← read_es (MarketService.GetRecentTrades (rq_Param r "stock") limit);
  mret (match res with
        | inl e => reply (Error 500 "INTERNAL_ERROR" (error_text e))
        | inr trades => reply (JSON 200 (DTrades trades))
        end).

(** ** Registration and login; [decode_credentials] as above, with the
    parameters of the auth service and the salt bcrypt draws. *)
Variable decode_credentials : string → string + credentials.
Variable GenerateFromPassword : nat → string → string + string.
Variable CompareHashAndPassword : string → string → bool.
Variable NewNumericDate : Time → Time.
Variable SignedString : Claims → string → string + string.
Variable salt_of : Request → nat.

(** [h.svc.Register], drawing its ID and time after the duplicate check. *)
Definition svc_Register (salt : nat) (username password : string) : M Srv (auth_error + User.t) :=
  a ← get_auth;
  if register_exists username a then mret (inl ErrUserExists)
  else match GenerateFromPassword salt password with
       | inl msg => mret (inl (AuthFailure msg))
       | inr _ =>
           id ← on_es (on_eworld newUUID);
           t ← on_es (on_eworld now);
           let '(a', res) := Register GenerateFromPassword salt id t username password a in
           set_auth a';; mret res
       end.

Definition svc_Login (username password : string) : M Srv (auth_error + string * Time) :=
  a ← get_auth;
  let login := λ t1 t2,
    Login CompareHashAndPassword NewNumericDate SignedString t1 t2 username password a in
  if match as_users a !! username with
     | Some u => CompareHashAndPassword (User.PasswordHash u) password
     | None => false
     end
  then
    t1 ← on_es (on_eworld now);
    t2 ← on_es (on_eworld now);
    mret (login t1 t2)
  else mret (login 0 0).      (* fails before reading the clock *)

Definition AuthHandler_Register : Handler := λ r,
  match decode_credentials (rq_Body r) with
  | inl msg => mret (reply (Error 400 "INVALID_BODY" msg))
  | inr req =>
      if (cr_Username req =? EmptyString)%string || (cr_Password req =? EmptyString)%string
      then mret (reply (Error 400 "VALIDATION_ERROR" "username and password are required"))
      else
        res ← svc_Register (salt_of r) (cr_Username req) (cr_Password req);
        match res with
        | inl ErrUserExists => mret (reply (Error 409 "USER_EXISTS" "username already taken"))
        | inl _ => mret (reply (Error 500 "INTERNAL_ERROR" "registration failed"))
        | inr u =>
            res ← svc_Login (cr_Username req) (cr_Password req);
            match res with
            | inl _ => mret (reply (Error 500 "INTERNAL_ERROR" "auto-login after register failed"))
            | inr (token, expiresAt) => mret (reply (JSON 201 (DRegistered u token expiresAt)))
            end
        end
  end.

Definition AuthHandler_Login : Handler := λ r,
  match decode_credentials (rq_Body r) with
  | inl msg => mret (reply (Error 400 "INVALID_BODY" msg))
  | inr req =>
      res ← svc_Login (cr_Username req) (cr_Password req);
      match res with
      | inl ErrInvalidCredentials =>
          mret (reply (Error 401 "INVALID_CREDENTIALS" "username or password is incorrect"))
      | inl _ => mret (reply (Error 500 "INTERNAL_ERROR" "login failed"))
      | inr (token, expiresAt) => mret (reply (JSON 200 (DToken token expiresAt)))
      end
  end.

(** ** The router.  chi's pattern matching, promhttp's handler and the
    process statistics are parameters. *)
Record Route : Type := mkRoute {
  rt_method : option string;      (* [None]: [r.Handle], any method *)
  rt_pattern : string;
  rt_handler : Handler;
}.

Record RouterDeps : Type := mkRouterDeps {
  rd_AuthSvc : bool;                        (* [AuthSvc != nil] *)
  rd_RateLimiter : option (Handler → Handler);
  rd_WSHandler : option Handler;
}.

Variable metricsHandler : Handler.
Variable process_stats : M Srv (Z * Z).
Variable validate : Time → string → App → auth_error + Claims.

Definition healthz : Handler := λ _,
  '(uptime, goroutines) ← process_stats;
  mret (reply (JSON 200 (DHealth uptime goroutines))).

Definition with_auth (deps : RouterDeps) (h : Handler) : Handler :=
  if rd_AuthSvc deps then Auth validate false h else h.

Definition routes (deps : RouterDeps) : list Route :=
  [mkRoute (Some "GET"%string) "/healthz" healthz;
   mkRoute None "/metrics" metricsHandler] ++
  (match rd_WSHandler deps with
   | Some ws => [mkRoute None "/ws" (with_auth deps ws)]
   | None => []
   end) ++
  (if rd_AuthSvc deps
   then [mkRoute (Some "POST"%string) "/api/v1/auth/register" AuthHandler_Register;
         mkRoute (Some "POST"%string) "/api/v1/auth/login" AuthHandler_Login]
   else []) ++
  [mkRoute (Some "POST"%string) "/api/v1/orders" (with_auth deps OrderHandler_Create);
   mkRoute (Some "GET"%string) "/api/v1/orders" (with_auth deps OrderHandler_List);
   mkRoute (Some "GET"%string) "/api/v1/orders/{id}" (with_auth deps OrderHandler_GetByID);
   mkRoute (Some "GET"%string) "/api/v1/trades" TradeHandler_List;
   mkRoute (Some "GET"%string) "/api/v1/market/ticker" MarketHandler_AllTickers;
   mkRoute (Some "GET"%string) "/api/v1/market/ticker/{stock}" MarketHandler_Ticker;
   mkRoute (Some "GET"%string) "/api/v1/market/orderbook/{stock}" MarketHandler_OrderBook;
   mkRoute (Some "GET"%string) "/api/v1/market/trades/{stock}" MarketHandler_RecentTrades].

(** chi's dispatch: the matching route with its URL parameters, or the
    reply for an unknown path or method. *)
Variable chi_match : list (option string * string) → string → string → nat * (string → string) + @Reply Data.

Definition dispatch (rts : list Route) : Handler := λ r,
  match chi_match ((λ rt, (rt_method rt, rt_pattern rt)) <$> rts) (rq_Method r) (rq_Path r) with
  | inr rp => mret rp
  | inl (i, params) =>
      match rts !! i with
      | Some rt => rt_handler rt (with_params params r)
      | None => mret (mkReply 404 None)
      end
  end.

(** The middleware stack, outermost first; a new reply starts without headers. *)
Definition NewRouter (deps : RouterDeps) : Handler := λ r,
  modify (λ s, set_headers [] s);;
  Recovery (Logger (CORS (PrometheusMiddleware
    (match rd_RateLimiter deps with
     | Some limit => limit (dispatch (routes deps))
     | None => dispatch (routes deps)
     end)))) r.
End Handlers.
