(* ===== verification/HttpTheorems.v ===== *)
(** * The middleware stack and the REST handlers *)
From S2P Require Import Prelude GoLib GoStrings Entity Repository Book Matcher Engine Validator.
From S2P Require Import Services System SystemProofs MemoryRepo MemoryProofs MemDeps Auth Http Handlers.

(** ** Middleware *)
Section Middleware.
Context {A S Net L : Type}.
Local Abbreviation Srv := (@Server S L).
Local Abbreviation Handler := (Request → M Srv (@Reply A)).

(** Handlers below the instrumentation leave the log, the counters and the
    headers alone. *)
Definition same_records (s s' : Srv) : Prop :=
  sv_log s' = sv_log s ∧ sv_metrics s' = sv_metrics s ∧ sv_headers s' = sv_headers s.
Definition quiet (h : Handler) : Prop := ∀ r s,
  match h r s with
  | Ret _ s' => same_records s s'
  | Panic _ s' => same_records s s'
  | NoFuel => True
  end.

Variable SplitHostPort : string → option string.
Variable ParseIP_Contains : string → option (Net → bool).
Variable NewLimiter : L.
Variable Allow : Time → L → bool * L.
Local Abbreviation RateLimit :=
  (@RateLimit A S Net L SplitHostPort ParseIP_Contains NewLimiter Allow).

Lemma quiet_RateLimit cidrs (h : Handler) : quiet h → quiet (RateLimit cidrs h).
Proof.
  intros Hq r s. unfold Http.RateLimit, getLimiter. destruct (Allow _ _) as [[] l]; [|done].
  match goal with |- match h r ?s1 with _ => _ end => specialize (Hq r s1) end.
  by destruct (h r _).
Qed.

Lemma quiet_Auth validate required (h : Handler) : quiet h → quiet (Auth validate required h).
Proof.
  intros Hq r s. unfold Http.Auth.
  set (token := if (extractBearerToken r =? EmptyString)%string then _ else _).
  destruct (token =? EmptyString)%string; [destruct required; [done|apply Hq]|].
  destruct (validate (rq_now r) token (sv_app s)) as [e|claims]; [|apply Hq].
  destruct required; [done|apply Hq].
Qed.

(** A request over its limit is answered 429 without running the
    handler or changing the application state, and serving one address never
    touches the limiter of another: every other entry keeps its bucket. *)
Theorem rate_limit_isolated cidrs (next : Handler) r (s : Srv) :
  let ip := ExtractClientIP SplitHostPort ParseIP_Contains r cidrs in
  let bucket := match sv_clients s !! ip with Some e => ce_limiter e | None => NewLimiter end in
  let s1 := set_clients (<[ip := mkEntry (Allow (rq_now r) bucket).2 (rq_now r)]> (sv_clients s)) s in
  ((Allow (rq_now r) bucket).1 = true → RateLimit cidrs next r s = next r s1) ∧
  ((Allow (rq_now r) bucket).1 = false →
     ∃ body, RateLimit cidrs next r s = Ret (mkReply 429 (Some body)) s1 ∧ env_Success body = false) ∧
  sv_app s1 = sv_app s ∧ ∀ ip', ip' ≠ ip → sv_clients s1 !! ip' = sv_clients s !! ip'.
Proof.
  intros ip bucket s1.
  assert (RateLimit cidrs next r s =
    (if (Allow (rq_now r) bucket).1 then next r s1
     else Ret (reply (Error 429 "RATE_LIMITED" "too many requests — please slow down")) s1)) as ->.
  { unfold Http.RateLimit, getLimiter. fold ip. fold bucket.
    destruct (Allow (rq_now r) bucket) as [b l] eqn:Hal. unfold s1. simpl.
    rewrite insert_insert_eq. by destruct b. }
  split_and!; [by intros ->| |done|].
  - intros ->. by eexists.
  - intros ip' Hne. unfold s1. simpl. by rewrite lookup_insert_ne.
Qed.

(** The address a request is limited by depends on
    [X-Forwarded-For] only when the direct peer is a trusted proxy. *)
Theorem forwarded_for_needs_trust r hdr cidrs :
  isTrusted ParseIP_Contains (default (rq_RemoteAddr r) (SplitHostPort (rq_RemoteAddr r))) cidrs = false ∨ cidrs = [] →
  ExtractClientIP SplitHostPort ParseIP_Contains
    (mkRequest (rq_Method r) (rq_Path r) (rq_RemoteAddr r) hdr (rq_Query r) (rq_Param r) (rq_Body r)
       (rq_ctxUser r) (rq_now r)) cidrs =
  default (rq_RemoteAddr r) (SplitHostPort (rq_RemoteAddr r)).
Proof.
  intros [Ht| ->]; unfold ExtractClientIP; simpl; [|done].
  rewrite Ht. by rewrite andb_false_r.
Qed.

(** JWT extraction: without a token or with one that does not
    validate, a protected route answers 401 and does not run its handler,
    while an optional one runs it with the request unchanged (so as an
    anonymous user); a valid token runs the handler as its user, whether or
    not it is required, and takes precedence from the header over the query. *)
Theorem auth_outcome validate (required : bool) (next : Handler) r (s : Srv) :
  let token := if (extractBearerToken r =? EmptyString)%string then rq_Query r "token"
               else extractBearerToken r in
  match (if (token =? EmptyString)%string then None else Some (validate (rq_now r) token (sv_app s))) with
  | Some (inr claims) => Auth validate required next r s = next (with_user (cl_UserID claims) r) s
  | _ => if required
         then ∃ body, Auth validate required next r s = Ret (mkReply 401 (Some body)) s ∧ env_Success body = false
         else Auth validate required next r s = next r s
  end.
Proof.
  intros token. unfold Http.Auth. fold token.
  destruct (token =? EmptyString)%string; [destruct required; [by eexists|reflexivity]|].
  destruct (validate (rq_now r) token (sv_app s)) as [e|claims]; [|done].
  destruct required; [by eexists|reflexivity].
Qed.
End Middleware.

(** ** Handlers below the instrumentation *)
Section Quiet.
Context {D : Deps} {R L : Type} `{UserRepository R}.
Local Abbreviation Srv := (@Server (@App D R) L).

Definition quiet_m {X} (m : M Srv X) : Prop := ∀ s,
  match m s with
  | Ret _ s' => same_records s s'
  | Panic _ s' => same_records s s'
  | NoFuel => True
  end.

Lemma quiet_ret {X} (x : X) : quiet_m (mret x).
Proof. intros s. done. Qed.

Lemma quiet_bind {X Y} (m : M Srv X) (f : X → M Srv Y) :
  quiet_m m → (∀ x, quiet_m (f x)) → quiet_m (m ≫= f).
Proof.
  intros Hm Hf s. unfold mbind, M_bind. specialize (Hm s). destruct (m s) as [x s1|e s1|]; [|done..].
  specialize (Hf x s1). destruct Hm as (H1 & H2 & H3). destruct (f x s1) as [y s2|e s2|]; [|..|done];
    destruct Hf as (? & ? & ?); split_and!; congruence.
Qed.

Lemma quiet_es {X} (m : M estate X) : quiet_m (on_es m).
Proof. intros s. unfold on_es. by destruct (m _). Qed.
Lemma quiet_read {X} (f : estate → X) : quiet_m (read_es f).
Proof. intros s. done. Qed.
Lemma quiet_get_auth : quiet_m (get_auth).
Proof. intros s. done. Qed.
Lemma quiet_set_auth a : quiet_m (set_auth a).
Proof. intros s. done. Qed.
Lemma quiet_outcome {X} (o : outcome X) ok : quiet_m (outcome_reply o ok).
Proof. intros s. by destruct o. Qed.

Ltac quiet_go := repeat first
  [ apply quiet_ret | apply quiet_es | apply quiet_read | apply quiet_get_auth | apply quiet_set_auth
  | apply quiet_outcome | apply quiet_bind; [|intros ?] | case_match | done ].

Lemma quiet_Create decode Submit r : quiet_m (OrderHandler_Create decode Submit r).
Proof. unfold OrderHandler_Create. quiet_go. Qed.
Lemma quiet_List r : quiet_m (OrderHandler_List r).
Proof. unfold OrderHandler_List. quiet_go. Qed.
Lemma quiet_GetByID r : quiet_m (OrderHandler_GetByID r).
Proof. unfold OrderHandler_GetByID. quiet_go. Qed.
Lemma quiet_Trades r : quiet_m (TradeHandler_List r).
Proof. unfold TradeHandler_List. quiet_go. Qed.
Lemma quiet_AllTickers r : quiet_m (MarketHandler_AllTickers r).
Proof. unfold MarketHandler_AllTickers. quiet_go. Qed.
Lemma quiet_Ticker cache r : quiet_m (MarketHandler_Ticker cache r).
Proof. unfold MarketHandler_Ticker. quiet_go. Qed.
Lemma quiet_OrderBook cache r : quiet_m (MarketHandler_OrderBook cache r).
Proof. unfold MarketHandler_OrderBook. quiet_go. Qed.
Lemma quiet_RecentTrades r : quiet_m (MarketHandler_RecentTrades r).
Proof. unfold MarketHandler_RecentTrades. quiet_go. Qed.
Lemma quiet_Login cmp nd sign u p : quiet_m (svc_Login cmp nd sign u p).
Proof. unfold svc_Login. quiet_go. Qed.
Lemma quiet_Register gen salt u p : quiet_m (svc_Register gen salt u p).
Proof. unfold svc_Register. quiet_go. Qed.
Lemma quiet_AuthRegister decode gen cmp nd sign salt r :
  quiet_m (AuthHandler_Register decode gen cmp nd sign salt r).
Proof.
  unfold AuthHandler_Register. repeat first [apply quiet_Register|apply quiet_Login|progress quiet_go].
Qed.
Lemma quiet_AuthLogin decode cmp nd sign r : quiet_m (AuthHandler_Login decode cmp nd sign r).
Proof. unfold AuthHandler_Login. repeat first [apply quiet_Login|progress quiet_go]. Qed.
End Quiet.

(** ** The whole stack *)
Section Router.
Context {D : Deps} {R L : Type} `{UserRepository R}.
Local Abbreviation Srv := (@Server (@App D R) L).
Local Abbreviation Handler := (Request → M Srv (@Reply Data)).
Variable decode_order : string → option createOrderBody.
Variable SubmitOrder : ref → M estate (option error).
Variable cache : option MarketService.MarketCache.
Variable decode_credentials : string → string + credentials.
Variable GenerateFromPassword : nat → string → string + string.
Variable CompareHashAndPassword : string → string → bool.
Variable NewNumericDate : Time → Time.
Variable SignedString : Claims → string → string + string.
Variable salt_of : Request → nat.
Variable metricsHandler : Handler.
Variable process_stats : M Srv (Z * Z).
Variable validate : Time → string → @App D R → auth_error + Claims.
Variable chi_match : list (option string * string) → string → string → nat * (string → string) + @Reply Data.

Local Abbreviation Routes := (routes decode_order SubmitOrder cache decode_credentials GenerateFromPassword
  CompareHashAndPassword NewNumericDate SignedString salt_of metricsHandler process_stats validate).
Local Abbreviation Serve := (NewRouter decode_order SubmitOrder cache decode_credentials GenerateFromPassword
  CompareHashAndPassword NewNumericDate SignedString salt_of metricsHandler process_stats validate chi_match).

(** The handlers and the middleware that come from elsewhere do not reach
    into the request log, the request counters or the reply's headers. *)
Record deps_quiet (deps : @RouterDeps D R L) : Prop := {
  dq_metrics : quiet metricsHandler;
  dq_stats : quiet_m process_stats;
  dq_ws : ∀ ws, rd_WSHandler deps = Some ws → quiet ws;
  dq_limit : ∀ f h, rd_RateLimiter deps = Some f → quiet h → quiet (f h);
}.

Lemma quiet_with_auth deps (h : Handler) : quiet h → quiet (with_auth validate deps h).
Proof. unfold with_auth. destruct (rd_AuthSvc deps); [apply quiet_Auth|done]. Qed.

Lemma quiet_routes deps rt : deps_quiet deps → rt ∈ Routes deps → quiet (rt_handler rt).
Proof.
  intros [Q1 Q2 Q3 _]. unfold routes. rewrite !elem_of_app. intros Hrt.
  assert (rt ∈ (match rd_WSHandler deps with
                | Some ws => [mkRoute None "/ws" (with_auth validate deps ws)] | None => [] end) →
          quiet (rt_handler rt)) as Hws.
  { destruct (rd_WSHandler deps) as [ws|] eqn:Hw; [|by intros ?%elem_of_nil].
    intros ->%list_elem_of_singleton. by apply quiet_with_auth, Q3. }
  assert (∀ b (l : list (@Route D R L)), rt ∈ (if b : bool then l else []) → rt ∈ l) as Hif.
  { intros [] l; [done|]. by intros ?%elem_of_nil. }
  destruct Hrt as [Hrt|[Hrt|[Hrt%Hif|Hrt]]]; [|by apply Hws|..];
    rewrite !elem_of_cons, elem_of_nil in Hrt; destruct_or! Hrt; try done; subst rt; simpl;
    try apply quiet_with_auth; intros r s.
  - unfold healthz. apply quiet_bind; [done|]. intros [u g]. apply quiet_ret.
  - apply Q1.
  - apply quiet_AuthRegister.
  - apply quiet_AuthLogin.
  - apply quiet_Create.
  - apply quiet_List.
  - apply quiet_GetByID.
  - apply quiet_Trades.
  - apply quiet_AllTickers.
  - apply quiet_Ticker.
  - apply quiet_OrderBook.
  - apply quiet_RecentTrades.
Qed.

Lemma quiet_dispatch deps : deps_quiet deps → quiet (dispatch chi_match (Routes deps)).
Proof.
  intros Hq r s. unfold dispatch. destruct (chi_match _ _ _) as [[i params]|rp]; [|done].
  destruct (Routes deps !! i) as [rt|] eqn:Hi; [|done].
  apply (quiet_routes deps rt Hq). by eapply list_elem_of_lookup_2.
Qed.

Definition internal_error : @Reply Data :=
  reply (Error 500 "INTERNAL_ERROR" "an unexpected error occurred").

End Router.

(** ** The order endpoints *)
Section Orders.
Context {D : Deps} {R L : Type} `{UserRepository R}.
Local Abbreviation Srv := (@Server (@App D R) L).
Variable decode_order : string → option createOrderBody.

End Orders.

(** ** Listing, over the in-memory repository *)
Section Listing.
Context {R L : Type} `{UserRepository R}.
Local Abbreviation Srv := (@Server (@App mem_deps R) L).

(** The filter [OrderHandler.List] builds from a request. *)
Definition list_filter (r : Request) : OrderFilter.t :=
  let ctxUser := userIDFromContext r in
  OrderFilter.mk (rq_Query r "stock_code") (rq_Query r "status")
    (if (rq_Query r "user_id" =? EmptyString)%string
     then if (ctxUser =? "anonymous")%string then EmptyString else ctxUser
     else rq_Query r "user_id")
    (ParsePage (intParam (rq_Query r "page") 1))
    (ParsePerPage (intParam (rq_Query r "per_page") DefaultPerPage)).

Definition matching (f : OrderFilter.t) (repo : OrderRepo.t) : list Order.t :=
  filter (λ o, OrderRepo.keep f o = true) (OrderRepo.deref repo <$> OrderRepo.ordered repo).

Lemma matching_fmap f repo :
  matching f repo = OrderRepo.deref repo <$>
    filter (λ p, OrderRepo.keep f (OrderRepo.deref repo p) = true) (OrderRepo.ordered repo).
Proof.
  unfold matching. induction (OrderRepo.ordered repo) as [|p l IH]; [done|].
  rewrite fmap_cons, !filter_cons. case_decide; [by rewrite fmap_cons, IH|done].
Qed.

Lemma intParam_range s d : in_i64 d → in_i64 (intParam s d).
Proof.
  intros Hd. unfold intParam. case_match; [done|]. destruct (Atoi s) as [v|] eqn:Hv; [|done].
  by apply Atoi_range in Hv.
Qed.

Lemma list_filter_bounds r :
  1 <= OrderFilter.Page (list_filter r) <= max_i64 ∧ 1 <= OrderFilter.PerPage (list_filter r) <= MaxPerPage.
Proof.
  pose proof (intParam_range (rq_Query r "page") 1) as Hp.
  simpl. unfold ParsePage, ParsePerPage, DefaultPage, DefaultPerPage, MaxPerPage.
  assert (in_i64 1) as H1 by i64_lia. specialize (Hp H1). rewrite Z.gtb_ltb. split.
  - destruct (Z.ltb_spec (intParam (rq_Query r "page") 1) 1); i64_lia.
  - destruct (Z.ltb_spec (intParam (rq_Query r "per_page") 20) 1); [lia|].
    destruct (Z.ltb_spec 100 (intParam (rq_Query r "per_page") 20)); lia.
Qed.

Lemma List_unfold r (s : Srv) :
  OrderHandler_List r s =
  outcome_reply (OrderRepo.FindAll (list_filter r) (w_orders (es_world (ap_es (sv_app s)))))
    (λ '(orders, total), reply (Paginated 200 (DOrders orders)
       (NewMeta total (OrderFilter.Page (list_filter r)) (OrderFilter.PerPage (list_filter r))))) s.
Proof.
  unfold OrderHandler_List, mbind, M_bind, read_es, OrderService.GetOrders, list_filter. simpl.
  repeat f_equal.
  destruct (rq_Query r "user_id" =? EmptyString)%string eqn:Hu; [|done].
  apply String.eqb_eq in Hu. rewrite Hu. by destruct (userIDFromContext r =? "anonymous")%string.
Qed.

End Listing.

(** ** A concrete server *)
Module HttpDemo.
#[local] Instance no_db : UserRepository () := {|
  ur_Save _ r := (r, None);
  ur_FindByUsername _ _ := inl ErrNotFound;
  ur_FindAll _ := inr [];
|}.

Definition Srv : Type := @Server (@App mem_deps ()) nat.
(** A bucket is a number of tokens. *)
Definition allow (_ : Time) (n : nat) : bool * nat := match n with O => (false, O) | S n => (true, n) end.
Definition srv : Srv :=
  mkServer (mkApp (mkES (NewEngine DefaultStocks) (mem_world [])) (NewService "secret" 3600)) [] ∅ [] ∅.
Definition no_net (_ : string) : option (nat → bool) := None.
Definition request (meth path body : string) (query : string → string) : Request :=
  mkRequest meth path "10.0.0.1" (λ _, EmptyString) query (λ _, EmptyString) body None 7.
Definition get : Request := request "GET" "/healthz" "" (λ _, EmptyString).

Lemma rate_limit_isolated_witness :
  ∃ body s', @RateLimit Data _ nat nat (λ _, None) no_net 0%nat allow [] (λ _ s, Panic "unreachable" s) get srv
    = Ret (mkReply 429 (Some body)) s'.
Proof.
  destruct (rate_limit_isolated (A := Data) (λ _, None) no_net 0%nat allow [] (λ _ s, Panic "unreachable" s) get srv)
    as (_ & Hno & _). destruct Hno as (body & Hr & _); [reflexivity|]. exists body. eexists. exact Hr.
Defined.

Lemma forwarded_for_needs_trust_witness :
  ExtractClientIP (Net := nat) (λ _, None) no_net
    (mkRequest "GET" "/" "10.0.0.1" (λ _, "1.2.3.4"%string) (λ _, EmptyString) (λ _, EmptyString) "" None 7) [0%nat]
  = "10.0.0.1"%string.
Proof.
  apply (forwarded_for_needs_trust (λ _, None) no_net get (λ _, "1.2.3.4"%string) [0%nat]).
  left. reflexivity.
Defined.

Definition order_body : createOrderBody := mkCreateOrderBody "BBCA" "BUY" 9500 10.
Definition decode (s : string) : option createOrderBody := if (s =? "ok")%string then Some order_body else None.


Definition huge : string → string := λ q,
  if (q =? "page")%string then "4611686018427387905" else if (q =? "per_page")%string then "2" else EmptyString.


Definition deps : @RouterDeps mem_deps () nat := mkRouterDeps false None None.
Definition first_route (rts : list (option string * string)) (m p : string)
    : nat * (string → string) + @Reply Data := inl (0%nat, λ _, EmptyString).
Definition serve (r : Request) (s : Srv) : res Srv (@Reply Data) :=
  NewRouter decode SubmitOrder None (λ _, inl "bad"%string) (λ _ p, inr p) String.eqb id (λ _ _, inr "t"%string)
    (λ _, 0%nat) (λ _, mret (mkReply 200 None)) (mret (1, 2)) (λ _ _ _, inl ErrInvalidToken) first_route deps r s.

End HttpDemo.
