(* ===== verification/HttpShape.v ===== *)
(** * The shape of the replies ([pkg/response], [internal/transport/http])

    Every JSON reply of the server has the envelope its status promises. *)
From S2P Require Import Prelude GoLib GoStrings Entity Repository Book Matcher Engine Validator.
From S2P Require Import Services MemDeps Auth Http Handlers HttpTheorems.

(** ** Well-formed envelopes *)

(** The status of each error code. *)
Definition code_status (code : string) : list Z :=
  if (code =? "VALIDATION_ERROR")%string then [422; 400]
  else if (code =? "BAD_REQUEST")%string || (code =? "INVALID_BODY")%string then [400]
  else if (code =? "NOT_FOUND")%string then [404]
  else if (code =? "USER_EXISTS")%string then [409]
  else if (code =? "INVALID_CREDENTIALS")%string || (code =? "MISSING_TOKEN")%string ||
          (code =? "INVALID_TOKEN")%string then [401]
  else if (code =? "RATE_LIMITED")%string then [429]
  else if (code =? "INTERNAL_ERROR")%string then [500]
  else [].

(** The status a payload is sent with: creations answer 201. *)
Definition data_status (d : Data) : list Z :=
  match d with
  | DOrder _ => [200; 201]
  | DRegistered _ _ _ => [201]
  | _ => [200]
  end.

(** Page numbers accompany lists of orders and of trades only. *)
Definition meta_ok (d : Data) (m : Meta.t) : Prop :=
  match d with
  | DOrders _ | DTrades _ =>
      1 <= Meta.Page m ∧ 1 <= Meta.PerPage m <= MaxPerPage ∧
      m = NewMeta (Meta.Total m) (Meta.Page m) (Meta.PerPage m)
  | _ => False
  end.

Record envelope_ok (status : Z) (b : envelope Data) : Prop := {
  eo_success : env_Success b = true ↔ 200 <= status < 300;
  eo_data : env_Success b = true → env_Error b = None ∧
    ∃ d, env_Data b = Some d ∧ status ∈ data_status d ∧ ∀ m, env_Meta b = Some m → meta_ok d m;
  eo_error : env_Success b = false → env_Data b = None ∧ env_Meta b = None ∧
    ∃ e, env_Error b = Some e ∧ status ∈ code_status (ae_Code e) ∧
      (ae_Details e ≠ [] ↔ status = StatusUnprocessableEntity);
}.

(** Replies that are not the server's own JSON have no envelope. *)
Definition reply_ok (rp : @Reply Data) : Prop :=
  match rp_body rp with None => True | Some b => envelope_ok (rp_status rp) b end.

Lemma reply_ok_JSON status d : status ∈ data_status d → reply_ok (reply (JSON status d)).
Proof.
  intros Hd. assert (200 <= status < 300) as Hs.
  { destruct d; simpl in Hd; rewrite !elem_of_cons, elem_of_nil in Hd; lia. }
  split; simpl; [done| |done]. intros _. split; [done|]. by exists d.
Qed.

Lemma reply_ok_Paginated d total page perPage :
  (∃ l, d = DOrders l) ∨ (∃ l, d = DTrades l) → 1 <= page → 1 <= perPage <= MaxPerPage →
  reply_ok (reply (Paginated 200 d (NewMeta total page perPage))).
Proof.
  intros Hd Hp Hpp. split; simpl; [done| |done]. intros _. split; [done|]. exists d. split; [done|].
  destruct Hd as [[l ->]|[l ->]]; (split; [apply list_elem_of_here|]); intros m [= <-]; (split_and!; [exact Hp|apply Hpp|apply Hpp|reflexivity]).
Qed.

Lemma reply_ok_Error status code msg :
  status ∈ code_status code → status ≠ StatusUnprocessableEntity → reply_ok (reply (Error status code msg)).
Proof.
  intros Hc Hne. assert (¬ 200 <= status < 300) as Hs.
  { unfold code_status in Hc. repeat case_match; rewrite ?elem_of_cons, elem_of_nil in Hc; lia. }
  split; simpl; [done|done|]. intros _. split_and!; [done..|]. eexists. split_and!; [done|done|]. simpl. tauto.
Qed.

Lemma reply_ok_ValidationError errs : errs ≠ [] → reply_ok (reply (ValidationError errs)).
Proof.
  intros He. split; simpl; [unfold StatusUnprocessableEntity; split; [done|lia]|done|]. intros _. split_and!; [done..|]. eexists.
  split_and!; [done|apply list_elem_of_here|]. simpl. tauto.
Qed.

Create HintDb shape.
Ltac in_list := repeat (apply list_elem_of_here || apply list_elem_of_further).
#[local] Hint Extern 1 (reply_ok (reply (JSON _ _))) => apply reply_ok_JSON; in_list : shape.
#[local] Hint Extern 1 (reply_ok (reply (Error _ _ _))) => apply reply_ok_Error; [in_list|discriminate] : shape.

(** ** Handlers *)
Section Shape.
Context {D : Deps} {R L : Type} `{UserRepository R}.
Local Abbreviation Srv := (@Server (@App D R) L).
Local Abbreviation Handler := (Request → M Srv (@Reply Data)).

(** Whatever the computation returns, the reply is well formed. *)
Definition shaped (m : M Srv (@Reply Data)) : Prop := ∀ s rp s', m s = Ret rp s' → reply_ok rp.
Definition handler_shaped (h : Handler) : Prop := ∀ r, shaped (h r).

Lemma shaped_ret rp : reply_ok rp → shaped (mret rp).
Proof. by intros Hrp s rp' s' [= <- _]. Qed.

Lemma shaped_bind {X} (m : M Srv X) f : (∀ x, shaped (f x)) → shaped (m ≫= f).
Proof.
  intros Hf s rp s'. unfold mbind, M_bind. destruct (m s) as [x s1|?|]; [apply Hf|done..].
Qed.

Lemma shaped_panic e : shaped (panic e).
Proof. by intros s rp s'. Qed.

Lemma shaped_outcome {X} (o : outcome X) ok : (∀ x, reply_ok (ok x)) → shaped (outcome_reply o ok).
Proof.
  intros Hok. destruct o; simpl; [by apply shaped_ret|apply shaped_ret; auto with shape|apply shaped_panic].
Qed.

Lemma ParsePage_pos v : 1 <= ParsePage v.
Proof. unfold ParsePage, DefaultPage. destruct (Z.ltb_spec v 1); lia. Qed.

Lemma ParsePerPage_range v : 1 <= ParsePerPage v <= MaxPerPage.
Proof.
  unfold ParsePerPage, DefaultPerPage, MaxPerPage. rewrite Z.gtb_ltb.
  destruct (Z.ltb_spec v 1); [lia|]. destruct (Z.ltb_spec 100 v); lia.
Qed.

Ltac shape_go := repeat first
  [ apply shaped_bind; intros ? | apply shaped_ret; solve [auto with shape] | case_match ].

Lemma shaped_Create decode Submit : handler_shaped (OrderHandler_Create decode Submit).
Proof.
  intros r. unfold OrderHandler_Create. destruct (decode _) as [body|]; [|shape_go].
  destruct (ValidateCreateOrder _ _ _ _) as [req errs]. destruct errs as [|e errs]; simpl; [shape_go|].
  apply shaped_ret. by apply reply_ok_ValidationError.
Qed.

Lemma shaped_List : handler_shaped OrderHandler_List.
Proof.
  intros r. unfold OrderHandler_List. apply shaped_bind. intros res. apply shaped_outcome. intros [orders total].
  apply reply_ok_Paginated; [by left; eexists|apply ParsePage_pos|apply ParsePerPage_range].
Qed.

Lemma shaped_Trades : handler_shaped TradeHandler_List.
Proof.
  intros r. unfold TradeHandler_List. apply shaped_bind. intros res. apply shaped_outcome. intros [trades total].
  apply reply_ok_Paginated; [by right; eexists|apply ParsePage_pos|apply ParsePerPage_range].
Qed.

Lemma reply_ok_market {X} (res : error + X) (data : X → Data) :
  (∀ x, 200 ∈ data_status (data x)) → reply_ok (market_reply res data).
Proof. intros Hd. destruct res as [[]|x]; simpl; auto with shape. Qed.

Lemma shaped_AuthRegister decode gen cmp nd sign salt :
  handler_shaped (AuthHandler_Register decode gen cmp nd sign salt).
Proof. intros r. unfold AuthHandler_Register. shape_go. Qed.

Lemma shaped_AuthLogin decode cmp nd sign : handler_shaped (AuthHandler_Login decode cmp nd sign).
Proof. intros r. unfold AuthHandler_Login. shape_go. Qed.

Lemma shaped_Auth validate required (h : Handler) : handler_shaped h → handler_shaped (Http.Auth validate required h).
Proof.
  intros Hh r s rp s'. unfold Http.Auth. repeat case_match; try apply Hh; intros [= <- _]; auto with shape.
Qed.

Lemma shaped_RateLimit {Net} split parse newl allow cidrs (h : Handler) :
  handler_shaped h → handler_shaped (@RateLimit Data (@App D R) Net L split parse newl allow cidrs h).
Proof.
  intros Hh r s rp s'. unfold RateLimit, getLimiter. destruct (allow _ _) as [[] l]; [apply Hh|].
  intros [= <- _]. auto with shape.
Qed.

(** ** The server *)
Variable decode_order : string → option createOrderBody.
Variable SubmitOrder : ref → M estate (option error).
Variable cache : option MarketService.MarketCache.
Variable decode_credentials : string → string + credentials.
Variable GenerateFromPassword : nat → string → string + string.
Variable CompareHashAndPassword : string → string → bool.
Variable NewNumericDate : Time → Time.
Variable SignedString : Claims → string → string + string.
Variable salt_of : Request → nat.
Variable metricsHandler : Handler.
Variable process_stats : M Srv (Z * Z).
Variable validate : Time → string → @App D R → auth_error + Claims.
Variable chi_match : list (option string * string) → string → string → nat * (string → string) + @Reply Data.

Local Abbreviation Routes := (routes decode_order SubmitOrder cache decode_credentials GenerateFromPassword
  CompareHashAndPassword NewNumericDate SignedString salt_of metricsHandler process_stats validate).
Local Abbreviation Serve := (NewRouter decode_order SubmitOrder cache decode_credentials GenerateFromPassword
  CompareHashAndPassword NewNumericDate SignedString salt_of metricsHandler process_stats validate chi_match).

(** The handlers and replies of libraries are not JSON envelopes, and the
    rate limiter in use leaves its handler's replies alone. *)
Record deps_shaped (deps : @RouterDeps D R L) : Prop := {
  ds_metrics : handler_shaped metricsHandler;
  ds_ws : ∀ ws, rd_WSHandler deps = Some ws → handler_shaped ws;
  ds_limit : ∀ f h, rd_RateLimiter deps = Some f → handler_shaped h → handler_shaped (f h);
  ds_chi : ∀ l m p rp, chi_match l m p = inr rp → reply_ok rp;
}.

Lemma shaped_with_auth deps (h : Handler) : handler_shaped h → handler_shaped (with_auth validate deps h).
Proof. unfold with_auth. destruct (rd_AuthSvc deps); [apply shaped_Auth|done]. Qed.

Lemma shaped_routes deps : deps_shaped deps → Forall (λ rt, handler_shaped (rt_handler rt)) (Routes deps).
Proof.
  intros [Q1 Q2 _ _]. unfold routes. rewrite !Forall_app. split_and!.
  - repeat constructor; [|done]. intros r. unfold healthz. shape_go.
  - destruct (rd_WSHandler deps) as [ws|] eqn:Hw; [|constructor]. repeat constructor.
    by apply shaped_with_auth, Q2.
  - destruct (rd_AuthSvc deps); [|constructor].
    repeat constructor; [apply shaped_AuthRegister|apply shaped_AuthLogin].
  - repeat constructor; simpl; try apply shaped_with_auth.
    + apply shaped_Create.
    + apply shaped_List.
    + intros r. unfold OrderHandler_GetByID. shape_go.
    + apply shaped_Trades.
    + intros r. unfold MarketHandler_AllTickers. shape_go.
    + intros r. apply shaped_bind. intros res. by apply shaped_ret, reply_ok_market; intros; in_list.
    + intros r. apply shaped_bind. intros res. by apply shaped_ret, reply_ok_market; intros; in_list.
    + intros r. unfold MarketHandler_RecentTrades. apply shaped_bind. intros res. apply shaped_ret.
      destruct res; auto with shape.
Qed.

Lemma shaped_dispatch deps : deps_shaped deps → handler_shaped (dispatch chi_match (Routes deps)).
Proof.
  intros Hd r. unfold dispatch. destruct (chi_match _ _ _) as [[i params]|rp] eqn:Hc.
  - destruct (Routes deps !! i) as [rt|] eqn:Hi; [|by apply shaped_ret].
    pose proof (shaped_routes deps Hd) as Hall. rewrite Forall_lookup in Hall. by apply (Hall i rt Hi).
  - apply shaped_ret. by eapply ds_chi.
Qed.

End Shape.

(** A login with a body that does not decode. *)
Module ShapeDemo.
Import HttpDemo.
#[local] Existing Instance HttpDemo.no_db.
Definition login : Request := request "POST" "/api/v1/auth/login" "{" (λ _, EmptyString).
Definition deps : @RouterDeps mem_deps () nat := mkRouterDeps true None None.
Definition to_login (rts : list (option string * string)) (m p : string)
    : nat * (string → string) + @Reply Data := inl (3%nat, λ _, EmptyString).
Definition serve (r : Request) (s : Srv) : res Srv (@Reply Data) :=
  NewRouter decode SubmitOrder None (λ _, inl "bad"%string) (λ _ p, inr p) String.eqb id (λ _ _, inr "t"%string)
    (λ _, 0%nat) (λ _, mret (mkReply 200 None)) (mret (1, 2)) (λ _ _ _, inl ErrInvalidToken) to_login deps r s.

End ShapeDemo.
