(* ===== verification/Simulator.v ===== *)
(** * Price feeds ([internal/simulator])

    The internal random walk, one goroutine per stock, and the Binance feed.
    The draws of [math/rand] are arguments; the theorems hold for all of them. *)
From Stdlib Require Import SpecFloat.
From S2P Require Import Prelude GoLib GoStrings Float64 Entity Repository Book Matcher.

(** ** Price arithmetic *)
Definition clamp (v lo hi : Z) : Z := if v <? lo then lo else if v >? hi then hi else v.

(** [rnd] is the value of [rand.Float64()]. *)
Definition price_delta (rnd : f64) (current base : Z) : f64 :=
  let walk := f64_mul (f64_mul (f64_of_Z current) (f64_lit 5 3))
                (f64_sub (f64_mul rnd (f64_of_Z 2)) (f64_of_Z 1)) in
  f64_add walk (f64_mul (f64_of_Z (i64_sub base current)) (f64_lit 1 2)).

Definition nextPrice (rnd : f64) (current base tickSize : Z) : Z :=
  let newPrice := i64_add current (i64_of_f64 (price_delta rnd current base)) in
  let newPrice := RoundToTick newPrice tickSize in
  let newPrice := clamp newPrice (i64_quot (i64_mul base 90) 100) (i64_quot (i64_mul base 110) 100) in
  if newPrice <? tickSize then tickSize else newPrice.

(** [Int63n n] panics ([None]) unless [n] is positive; [rnd n] is its draw. *)
Definition randomDuration (rnd : Z → Z) (min max : Z) : option Z :=
  if max <=? min then Some min
  else let n := i64_sub max min in
       if n <=? 0 then None else Some (i64_add min (rnd n)).

(** ** The simulator *)
Record SimulatorConfig : Type := mkSimulatorConfig { IntervalMin : Z; IntervalMax : Z }.
Definition DefaultSimulatorConfig : SimulatorConfig := mkSimulatorConfig 1000000000 3000000000.

Record tradeUpdate : Type := mkTradeUpdate { tu_price : Z; tu_qty : Z }.

(** The per-stock channels of [NewSimulator]. *)
Definition NewSimulator_chans (stocks : list Stock.t) : gmap string (chan tradeUpdate) :=
  foldl (λ m s, <[Stock.Code s := make_chan tradeUpdate 16]> m) ∅ stocks.

(** The subscriber of [TradeExecuted]; [None] is a panic. *)
Definition forward_trade (e : Event.t) (chans : gmap string (chan tradeUpdate))
    : option (gmap string (chan tradeUpdate)) :=
  match Event.Pl e with
  | PTrade trade =>
      match chans !! Trade.StockCode trade with
      | None => Some chans
      | Some ch =>
          match chan_try_send (mkTradeUpdate (Trade.Price trade) (Trade.Quantity trade)) ch with
          | None => None
          | Some (_, ch') => Some (<[Trade.StockCode trade := ch']> chans)
          end
      end
  | _ => Some chans
  end.

(** The variables of [simulateStock]. *)
Record simState : Type := mkSim {
  sm_price : Z;
  sm_prevClose : Z;
  sm_high : Z;
  sm_low : Z;
  sm_volume : Z;
}.

Definition sim_init (stock : Stock.t) : simState :=
  let p := Stock.BasePrice stock in mkSim p p p p 0.

(** The assignments shared by the two price cases. *)
Definition sim_move (price vol : Z) (s : simState) : simState :=
  mkSim price (sm_prevClose s)
    (if price >? sm_high s then price else sm_high s)
    (if (price <? sm_low s) || (sm_low s =? 0) then price else sm_low s)
    (i64_add (sm_volume s) vol).

Definition sim_ticker (stock : Stock.t) (now : Time) (s : simState) : Ticker.t :=
  let change := i64_sub (sm_price s) (sm_prevClose s) in
  Ticker.mk (Stock.Code stock) (sm_price s) (sm_prevClose s) change
    (if sm_prevClose s >? 0 then Ticker.change_pct change (sm_prevClose s) else f64_zero)
    (sm_high s) (sm_low s) (sm_volume s) now.

Section Feeds.
Context {D : Deps}.

Definition init_stock (stock : Stock.t) : M world () :=
  t1 ← now; t2 ← now; modify (λ w, set_market (mr_InitStock t1 t2 stock (w_market w)) w).

Fixpoint init_stocks (stocks : list Stock.t) : M world () :=
  match stocks with
  | [] => mret ()
  | s :: rest => init_stock s;; init_stocks rest
  end.

Definition put_ticker (t : Ticker.t) : M world () :=
  _ ← call_market (mr_UpdateTicker t);     (* an error is only logged *)
  ts ← now;
  publish (Event.mk TickerUpdated (Ticker.StockCode t) EmptyString (PTicker t) ts).

Definition emit (stock : Stock.t) (s : simState) : M world () :=
  t ← now; put_ticker (sim_ticker stock t s).

Definition trade_case (stock : Stock.t) (t : tradeUpdate) (s : simState) : M world simState :=
  let s' := sim_move (tu_price t) (tu_qty t) s in emit stock s';; mret s'.

(** [n] is the value of [rand.Int63n(450)]. *)
Definition tick_case (stock : Stock.t) (rnd : f64) (n : Z) (s : simState) : M world simState :=
  let s' := sim_move (nextPrice rnd (sm_price s) (Stock.BasePrice stock) (Stock.TickSize stock))
              (i64_add n 50) s in
  emit stock s';; mret s'.

(** The select of [simulateStock]; cancelling the context ends it. *)
Inductive sim_step (stock : Stock.t) : simState * chan tradeUpdate * world →
    simState * chan tradeUpdate * world → Prop :=
| sim_trade s ch w t ch' s' w' :
    chan_recv ch = Received t ch' → trade_case stock t s w = Ret s' w' →
    sim_step stock (s, ch, w) (s', ch', w')
| sim_tick s ch w rnd n s' w' :
    0 <= n < 450 → tick_case stock rnd n s w = Ret s' w' →
    sim_step stock (s, ch, w) (s', ch, w')
| sim_env s ch w ch' w' :     (* the rest of the program *)
    Forall (λ t, 0 < tu_price t) (ch_buf ch') → sim_step stock (s, ch, w) (s, ch', w').

(** ** The Binance feed.  [encoding/json] and [strconv.ParseFloat] are
    parameters. *)
Record BinanceConfig : Type := mkBinanceConfig {
  WSURL : string;
  Symbols : gmap string string;
  MaxBackoff : Z;
}.

Definition DefaultBinanceConfig : BinanceConfig := mkBinanceConfig "wss://stream.binance.com:9443"
  (list_to_map [("btcusdt", "BTCUSDT"); ("ethusdt", "ETHUSDT"); ("bnbusdt", "BNBUSDT");
                ("solusdt", "SOLUSDT"); ("adausdt", "ADAUSDT")]%string) 30000000000.

Record binanceMiniTicker : Type := mkMiniTicker {
  bt_Symbol : string; bt_Close : string; bt_High : string; bt_Low : string; bt_Volume : string }.

Variable unmarshal_stream : string → string + binanceMiniTicker.
Variable ParseFloat : string → option f64.

(** [math.Round], half away from zero, of a finite value as an integer. *)
Definition f64_round (x : f64) : option Z :=
  match x with
  | S754_zero _ => Some 0
  | S754_finite s m e =>
      let a := if 0 <=? e then Z.pos m * 2 ^ e else (2 * Z.pos m + 2 ^ (- e)) / (2 * 2 ^ (- e)) in
      Some (if s then - a else a)
  | _ => None
  end.

(** [int64(math.Round(x))], out of range as in [i64_of_f64]. *)
Definition i64_of_round (x : f64) : Z :=
  match f64_round x with
  | Some z => if (min_i64 <=? z) && (z <=? max_i64) then z else min_i64
  | None => min_i64
  end.

Definition parsePrice (s : string) : option Z :=
  f ← ParseFloat s; Some (i64_of_round (f64_mul f (f64_of_Z 100))).
Definition parseVolume (s : string) : option Z := f ← ParseFloat s; Some (i64_of_f64 f).

Fixpoint ToLower (s : string) : string :=
  match s with EmptyString => EmptyString | String c rest => String (to_lower c) (ToLower rest) end.

Inductive message_error : Type := BadJSON (msg : string) | BadPrice (s : string).

Definition handleMessage (cfg : BinanceConfig) (raw : string) : M world (option message_error) :=
  match unmarshal_stream raw with
  | inl msg => mret (Some (BadJSON msg))
  | inr data =>
      match Symbols cfg !! ToLower (bt_Symbol data) with
      | None => mret None
      | Some stockCode =>
          match parsePrice (bt_Close data) with
          | None => mret (Some (BadPrice (bt_Close data)))
          | Some lastPrice =>
              t ← now;
              put_ticker (Ticker.mk stockCode lastPrice 0 0 f64_zero
                (default 0 (parsePrice (bt_High data))) (default 0 (parsePrice (bt_Low data)))
                (default 0 (parseVolume (bt_Volume data))) t);;
              mret None
          end
      end
  end.

(** Go ranges over the map in an unspecified order. *)
Definition buildStreams (cfg : BinanceConfig) : list string :=
  (λ p, p.1 ++ "@miniTicker")%string <$> map_to_list (Symbols cfg).
End Feeds.

(** [time.Duration(1<<uint(attempt)) * time.Second]; a shift of 64 or more is 0. *)
Definition calcBackoff (attempt maxBackoff : Z) : Z :=
  let d := i64_mul (i64 (Z.shiftl 1 attempt)) 1000000000 in
  if d >? maxBackoff then maxBackoff else d.

(** The reconnect loop of [Start], over the ways successive connections
    end: with an error, cleanly, or with the context cancelled.  The result is
    the back-offs waited. *)
Inductive connect_result : Type := ConnFailed | ConnNil | CtxDone.

Fixpoint reconnect (maxBackoff attempt : Z) (conns : list connect_result) : list Z :=
  match conns with
  | ConnFailed :: rest => calcBackoff attempt maxBackoff :: reconnect maxBackoff (attempt + 1) rest
  | _ => []
  end.
