(* ===== verification/SimulatorTheorems.v ===== *)
(** * Prices stay in their band, on their grid and inside high and low *)
From S2P Require Import Prelude GoLib Float64 Entity Repository Book Matcher MemDeps Simulator.

Lemma clamp_range v lo hi : lo <= hi → lo <= clamp v lo hi <= hi.
Proof. intros H. unfold clamp. rewrite Z.gtb_ltb. case_tests; reflect_bools; lia. Qed.

Lemma band_quot base p : 0 < base → 0 <= p → base * 110 <= max_i64 → p <= 110 →
  i64_quot (i64_mul base p) 100 = base * p / 100.
Proof.
  intros Hb Hp Hm Hp'. assert (0 <= base * p <= base * 110) by nia.
  rewrite i64_mul_id by (split; i64_lia). unfold i64_quot. rewrite Z.quot_div_nonneg by lia.
  apply i64_id. assert (0 <= base * p / 100 <= base * p).
  { split; [apply Z.div_pos; lia|apply Z.div_le_upper_bound; lia]. }
  split; i64_lia.
Qed.

(** Rounding truncates toward zero onto the grid, whatever the price. *)
Lemma RoundToTick_divides price tick :
  in_i64 price → 0 < tick → (tick | RoundToTick price tick).
Proof.
  intros Hp Ht. unfold RoundToTick. rewrite (proj2 (Z.leb_gt _ _)) by lia.
  pose proof (Z.quot_rem' price tick) as Hq.
  assert (Z.abs (price ÷ tick) * tick <= Z.abs price) as Habs.
  { rewrite <- (Z.abs_eq tick) at 2 by lia. rewrite <- Z.quot_abs by lia.
    rewrite Z.mul_comm. apply Z.mul_quot_le; lia. }
  assert (Z.abs (price ÷ tick) <= Z.abs price) by nia.
  assert (min_i64 <= price ÷ tick * tick <= max_i64).
  { destruct (Z.le_gt_cases 0 price) as [Hpos|Hpos].
    - pose proof (Z.quot_pos price tick Hpos Ht). i64_lia.
    - assert (price ÷ tick <= 0).
      { pose proof (Z.quot_pos (- price) tick) as Hn. rewrite Z.quot_opp_l in Hn by lia. lia. }
      i64_lia. }
  unfold i64_quot. rewrite (i64_id (price ÷ tick)).
  - rewrite i64_mul_id by done. apply Z.divide_factor_r.
  - destruct (Z.le_gt_cases 0 price) as [Hpos|Hpos].
    + pose proof (Z.quot_pos price tick Hpos Ht). split; i64_lia.
    + assert (price ÷ tick <= 0).
      { pose proof (Z.quot_pos (- price) tick) as Hn. rewrite Z.quot_opp_l in Hn by lia. lia. }
      split; i64_lia || nia.
Qed.

Lemma nextPrice_band rnd current base tick :
  0 < base → 0 < tick → base * 110 <= max_i64 →
  Z.max tick (base * 90 / 100) <= nextPrice rnd current base tick <= Z.max tick (base * 110 / 100).
Proof.
  intros Hb Ht Hm. unfold nextPrice. rewrite !band_quot by lia. set (x := RoundToTick _ tick).
  assert (base * 90 / 100 <= base * 110 / 100) as Hband by (apply Z.div_le_mono; lia).
  pose proof (clamp_range x _ _ Hband) as Hc.
  destruct (Z.ltb_spec (clamp x (base * 90 / 100) (base * 110 / 100)) tick); lia.
Qed.

(** Whatever the random draw and the current price (even outside the
    band, as after a real trade), the next simulated price lies within ten
    percent of the base price, or is one tick where that is more, and for a
    stock whose band edges are on its price grid it is on the grid too. *)
Theorem next_price_band rnd current base tick :
  0 < base → 0 < tick → base * 110 <= max_i64 →
  let p := nextPrice rnd current base tick in
  Z.max tick (base * 90 / 100) <= p <= Z.max tick (base * 110 / 100) ∧
  ((tick | base * 90 / 100) → (tick | base * 110 / 100) → (tick | p)).
Proof.
  intros Hb Ht Hm p. split; [by apply nextPrice_band|]. unfold p, nextPrice.
  rewrite !band_quot by lia. intros Hlo Hhi. case_match; [apply Z.divide_refl|]. unfold clamp.
  case_match; [done|]. case_match; [done|]. apply RoundToTick_divides; [apply i64_range|done].
Qed.

Lemma default_stocks_on_grid s :
  s ∈ DefaultStocks → 0 < Stock.BasePrice s ∧ 0 < Stock.TickSize s ∧ Stock.BasePrice s * 110 <= max_i64 ∧
    (Stock.TickSize s | Stock.BasePrice s * 90 / 100) ∧ (Stock.TickSize s | Stock.BasePrice s * 110 / 100).
Proof.
  unfold DefaultStocks, defaultStocks. rewrite !elem_of_cons, elem_of_nil.
  intros Hs. destruct_or! Hs; try done; subst s; simpl; split_and!; try (vm_compute; congruence);
    apply Z.mod_divide; done.
Qed.

(** ** The state of a simulated stock *)
Record sim_ok (s : simState) : Prop := {
  so_low : 0 < sm_low s;
  so_price : sm_low s <= sm_price s <= sm_high s;
}.

Lemma sim_move_ok price vol s : 0 < price → sim_ok s → sim_ok (sim_move price vol s).
Proof.
  intros Hp [H1 H2]. split; simpl; rewrite ?Z.gtb_ltb, (proj2 (Z.eqb_neq (sm_low s) 0)) by lia;
    rewrite orb_false_r; case_tests; reflect_bools; lia.
Qed.

Section Steps.
Context {D : Deps}.

Inductive sim_steps (stock : Stock.t) (c0 : simState * chan tradeUpdate * world) :
    simState * chan tradeUpdate * world → Prop :=
| ss_refl : sim_steps stock c0 c0
| ss_step c c' : sim_steps stock c0 c → sim_step stock c c' → sim_steps stock c0 c'.

(** Both price cases store and publish the ticker of the new state. *)
Lemma emit_Ret stock s (w w' : world) :
  emit stock s w = Ret () w' →
  w_market w' = (mr_UpdateTicker (sim_ticker stock (time_Now (w_ticks w)) s) (w_market w)).1.
Proof.
  unfold emit, put_ticker, call_market, now, publish, mbind, M_bind. simpl.
  destruct (mr_UpdateTicker _ _) as [m e]. simpl. destruct (bus_Publish _ _); [|done].
  by intros [= <-].
Qed.

Lemma trade_case_Ret stock t s (w : world) s' w' :
  trade_case stock t s w = Ret s' w' →
  s' = sim_move (tu_price t) (tu_qty t) s ∧ emit stock s' w = Ret () w'.
Proof.
  unfold trade_case, mbind, M_bind. destruct (emit _ _ w) as [[] w1|?|] eqn:He; [|done..].
  by intros [= <- <-].
Qed.

Lemma tick_case_Ret stock rnd n s (w : world) s' w' :
  tick_case stock rnd n s w = Ret s' w' →
  s' = sim_move (nextPrice rnd (sm_price s) (Stock.BasePrice stock) (Stock.TickSize stock)) (i64_add n 50) s ∧
  emit stock s' w = Ret () w'.
Proof.
  unfold tick_case, mbind, M_bind. destruct (emit _ _ w) as [[] w1|?|] eqn:He; [|done..].
  by intros [= <- <-].
Qed.

(** C26. A simulated stock's goroutine, however its ticks, the real trades
    forwarded to it and the rest of the program interleave, always has its
    price between its low and its high, so every ticker it stores does. *)
Theorem simulated_ticker_sound stock ch (w : world) c :
  0 < Stock.BasePrice stock → 0 < Stock.TickSize stock → Stock.BasePrice stock * 110 <= max_i64 →
  ch_buf ch = [] → sim_steps stock (sim_init stock, ch, w) c →
  let s := c.1.1 in
  0 < sm_low s ∧ sm_low s <= sm_price s <= sm_high s ∧ sm_prevClose s = Stock.BasePrice stock ∧
  ∀ t, Ticker.Low (sim_ticker stock t s) <= Ticker.LastPrice (sim_ticker stock t s) <= Ticker.High (sim_ticker stock t s).
Proof.
  intros Hb Ht Hm Hch Hsteps.
  assert (sim_ok c.1.1 ∧ sm_prevClose c.1.1 = Stock.BasePrice stock ∧
          Forall (λ t, 0 < tu_price t) (ch_buf c.1.2)) as ([H1 H2] & Hpc & _).
  { induction Hsteps as [|c c' _ (IH1 & IH2 & IH3) Hstep]; simpl in *.
    - rewrite Hch. split_and!; [split; simpl; lia|done|constructor].
    - destruct Hstep as [s ch0 w0 t ch' s' w' Hr Hc|s ch0 w0 rnd n s' w' Hn Hc|s ch0 w0 ch' w' Hf]; simpl in *.
      + apply trade_case_Ret in Hc as [-> _].
        apply chan_recv_Received in Hr as (Hbuf & _).
        rewrite Hbuf in IH3. apply Forall_cons in IH3 as [Hp Hrest].
        split_and!; [by apply sim_move_ok|done|done].
      + apply tick_case_Ret in Hc as [-> _]. split_and!; [|done|done].
        apply sim_move_ok; [|done].
        pose proof (nextPrice_band rnd (sm_price s) (Stock.BasePrice stock) (Stock.TickSize stock) Hb Ht Hm). lia.
      + done. }
  cbv zeta. split_and!; simpl; try done; lia.
Qed.
End Steps.

(** ** Reconnecting to Binance *)

(** The first 34 reconnections back off [2^attempt] seconds, capped at
    the maximum, as documented; from attempt 55 on the shifted product has
    wrapped to zero and the feed reconnects without any delay, whatever the
    maximum. *)
Theorem backoff_schedule attempt maxBackoff :
  0 <= attempt → 0 <= maxBackoff →
  (attempt <= 33 → calcBackoff attempt maxBackoff = Z.min (2 ^ attempt * 1000000000) maxBackoff) ∧
  (55 <= attempt → calcBackoff attempt maxBackoff = 0).
Proof.
  intros Ha Hm. unfold calcBackoff. rewrite Z.shiftl_mul_pow2, Z.mul_1_l by lia. rewrite Z.gtb_ltb. split.
  - intros Hle. assert (0 < 2 ^ attempt <= 2 ^ 33) as Hpow.
    { split; [apply Z.pow_pos_nonneg; lia|apply Z.pow_le_mono_r; lia]. }
    change (2 ^ 33) with 8589934592 in Hpow.
    rewrite (i64_id (2 ^ attempt)) by (split; i64_lia). rewrite i64_mul_id by (split; i64_lia).
    destruct (Z.ltb_spec maxBackoff (2 ^ attempt * 1000000000)); lia.
  - intros Hge.
    assert (i64_mul (i64 (2 ^ attempt)) 1000000000 = 0) as ->; [|by rewrite (proj2 (Z.ltb_ge _ _))].
    assert (2 ^ attempt * 1000000000 = 2 ^ (attempt - 55) * 1953125 * pow64) as Hmul.
    { replace attempt with (attempt - 55 + 55) at 1 by lia. rewrite Z.pow_add_r by lia.
      change (2 ^ 55) with 36028797018963968. unfold pow64. lia. }
    unfold i64_mul, i64.
    set (q := (2 ^ attempt - min_i64) / pow64).
    assert ((2 ^ attempt - min_i64) mod pow64 + min_i64 = 2 ^ attempt - q * pow64) as ->.
    { unfold q. rewrite Z.mod_eq by (unfold pow64; lia). lia. }
    replace ((2 ^ attempt - q * pow64) * 1000000000 - min_i64)
      with (- min_i64 + (2 ^ (attempt - 55) * 1953125 - q * 1000000000) * pow64)
      by (rewrite Z.mul_sub_distr_r; lia).
    rewrite Z.mod_add by (unfold pow64; lia). done.
Qed.

(** ** Concrete prices *)
Module SimDemo.
Definition bbca : Stock.t := Stock.mk "BBCA" "Bank BCA" 9500 25.

Lemma next_price_band_witness : 8550 <= nextPrice (f64_lit 9 1) 20000 9500 25 <= 10450 ∧
  (25 | nextPrice (f64_lit 9 1) 20000 9500 25).
Proof.
  destruct (next_price_band (f64_lit 9 1) 20000 9500 25) as [Hband Hgrid]; [lia|lia|vm_compute; discriminate|].
  split; [exact Hband|]. apply Hgrid; apply Z.mod_divide; [lia|reflexivity|lia|reflexivity].
Defined.

Definition w0 : world := mem_world [bbca].
Definition after_tick : simState * chan tradeUpdate * world :=
  match tick_case bbca (f64_lit 9 1) 7 (sim_init bbca) w0 with
  | Ret s w => (s, make_chan tradeUpdate 16, w)
  | _ => (sim_init bbca, make_chan tradeUpdate 16, w0)
  end.

Lemma simulated_ticker_sound_witness :
  sm_price after_tick.1.1 = 9525 ∧
  sm_low after_tick.1.1 <= sm_price after_tick.1.1 <= sm_high after_tick.1.1.
Proof.
  split; [vm_compute; reflexivity|].
  destruct (simulated_ticker_sound bbca (make_chan tradeUpdate 16) w0 after_tick) as (_ & Hs & _);
    [reflexivity|reflexivity|vm_compute; discriminate|reflexivity| |exact Hs].
  eapply (ss_step bbca _ (sim_init bbca, make_chan tradeUpdate 16, w0) after_tick); [apply ss_refl|].
  unfold after_tick. destruct (tick_case bbca (f64_lit 9 1) 7 (sim_init bbca) w0) as [s w| |] eqn:Ht.
  - eapply (sim_tick bbca (sim_init bbca) _ w0 (f64_lit 9 1) 7); [lia|exact Ht].
  - apply sim_env. constructor.
  - apply sim_env. constructor.
Defined.

Lemma backoff_schedule_witness :
  calcBackoff 3 30000000000 = 8000000000 ∧ calcBackoff 60 30000000000 = 0.
Proof.
  split.
  - apply (backoff_schedule 3 30000000000); lia.
  - apply (backoff_schedule 60 30000000000); lia.
Defined.
End SimDemo.
