(* ===== verification/Binance.v ===== *)
(** * The Binance feed's connection ([internal/simulator/binance.go])

    [Start] and [connect], over the sessions a run of the feed goes through:
    what dialling gave, the frames read, the read error, and where the context
    was found cancelled.  Between two frames the rest of the program runs. *)
From Stdlib Require Import SpecFloat.
From S2P Require Import Prelude GoLib Float64 Entity Repository Book Matcher MatcherLemmas Simulator.

Inductive feed_read {D : Deps} : Type :=
| Frame (raw : string)
| Meanwhile (w : world).

Inductive session {D : Deps} : Type :=
| DialFailed (msg : string)
| Dialled (reads : list feed_read) (err : string).

(** One turn of [Start]'s loop: the session of its [connect], whether the
    context was done when it returned, or else during the wait. *)
Record attempt {D : Deps} : Type := mkAttempt { at_session : session; at_done : bool; at_wait_done : bool }.

Section Feed.
Context {D : Deps}.
Variable unmarshal_stream : string → string + binanceMiniTicker.
Variable ParseFloat : string → option f64.
Local Abbreviation handle := (handleMessage unmarshal_stream ParseFloat).

(** An error of [handleMessage] is only logged. *)
Fixpoint read_loop (cfg : BinanceConfig) (reads : list feed_read) : M world () :=
  match reads with
  | [] => mret ()
  | Frame raw :: reads => handle cfg raw;; read_loop cfg reads
  | Meanwhile w :: reads => modify (λ _, w);; read_loop cfg reads
  end.

Fixpoint join (sep : string) (l : list string) : string :=     (* [strings.Join] *)
  match l with
  | [] => EmptyString
  | [s] => s
  | s :: rest => (s ++ sep ++ join sep rest)%string
  end.

Definition stream_url (cfg : BinanceConfig) : string :=
  (WSURL cfg ++ "/stream?streams=" ++ join "/" (buildStreams cfg))%string.

(** [connect] never returns nil: the error it ends with. *)
Definition connect (cfg : BinanceConfig) (dial : string → session) : M world string :=
  match buildStreams cfg with
  | [] => mret "no symbols configured"%string
  | _ =>
      match dial (stream_url cfg) with
      | DialFailed msg => mret ("dial: " ++ msg)%string
      | Dialled reads err => read_loop cfg reads;; mret ("read: " ++ err)%string
      end
  end.

(** The loop of [Start] and the back-offs it waits; no attempt left: the
    context is found cancelled at the head of the loop. *)
Fixpoint feed_loop (cfg : BinanceConfig) (n : Z) (attempts : list attempt) : M world (list Z) :=
  match attempts with
  | [] => mret []
  | a :: attempts =>
      connect cfg (λ _, at_session a);;
      if at_done a then mret []
      else
        let backoff := calcBackoff n (MaxBackoff cfg) in
        if at_wait_done a then mret [backoff]
        else waits ← feed_loop cfg (n + 1) attempts; mret (backoff :: waits)
  end.

Definition BinanceFeed_Start (cfg : BinanceConfig) (stocks : list Stock.t) (attempts : list attempt)
    : M world (list Z) :=
  init_stocks stocks;; feed_loop cfg 0 attempts.

(** ** What a run does *)

(** The ticker a frame announces, but for its time. *)
Definition announced (cfg : BinanceConfig) (raw : string) : option (string * Z * Z * Z * Z) :=
  match unmarshal_stream raw with
  | inl _ => None
  | inr d =>
      code ← Symbols cfg !! ToLower (bt_Symbol d);
      price ← parsePrice ParseFloat (bt_Close d);
      Some (code, price, default 0 (parsePrice ParseFloat (bt_High d)),
            default 0 (parsePrice ParseFloat (bt_Low d)), default 0 (parseVolume ParseFloat (bt_Volume d)))
  end.

Definition ticker_fields (e : Event.t) : option (string * Z * Z * Z * Z) :=
  match Event.Pl e with
  | PTicker t =>
      if (Event.Ty e =? TickerUpdated)%string && (Event.StockCode e =? Ticker.StockCode t)%string
      then Some (Ticker.StockCode t, Ticker.LastPrice t, Ticker.High t, Ticker.Low t, Ticker.Volume t) else None
  | _ => None
  end.

(** The frames of the sessions that were opened. *)
Definition frames (s : session) : list string :=
  match s with
  | DialFailed _ => []
  | Dialled reads _ => omap (λ r, match r with Frame raw => Some raw | Meanwhile _ => None end) reads
  end.

(** The attempts that are made, up to the one that ends the run. *)
Fixpoint made (attempts : list attempt) : list attempt :=
  match attempts with
  | [] => []
  | a :: rest => a :: if at_done a || at_wait_done a then [] else made rest
  end.

Definition ended (a : attempt) : connect_result := if at_done a then CtxDone else ConnFailed.

Definition quiet (a : attempt) : Prop :=
  match at_session a with
  | Dialled reads _ => Forall (λ r, match r with Frame _ => True | Meanwhile _ => False end) reads
  | DialFailed _ => True
  end.

(** Between [w] and [w'] exactly the tickers [l] were published, in order. *)
Definition published (l : list (string * Z * Z * Z * Z)) (w w' : world) : Prop :=
  ∃ evs, publish_list evs (w_bus w) = Some (w_bus w') ∧ ticker_fields <$> evs = Some <$> l.

Lemma published_nil w w' : w_bus w' = w_bus w → published [] w w'.
Proof. intros Hb. exists []. by rewrite Hb. Qed.

Lemma published_app l1 l2 w1 w2 w3 : published l1 w1 w2 → published l2 w2 w3 → published (l1 ++ l2) w1 w3.
Proof.
  intros (e1 & H1 & F1) (e2 & H2 & F2). exists (e1 ++ e2).
  by rewrite publish_list_app, H1, !fmap_app, F1, F2.
Qed.

Context `{!BusLaws BusT}.

(** A step that runs from an open bus, publishing [l], and leaves it open. *)
Definition feeds {A} (m : M world A) (l : list (string * Z * Z * Z * Z)) (P : A → Prop) : Prop :=
  ∀ w, bus_open (w_bus w) → ∃ a w', m w = Ret a w' ∧ bus_open (w_bus w') ∧ published l w w' ∧ P a.

Lemma feeds_ret {A} (a : A) (P : A → Prop) : P a → feeds (mret a) [] P.
Proof. intros Hp w Ho. exists a, w. split_and!; [done|done|by apply published_nil|done]. Qed.

Lemma feeds_bind {A B} (m : M world A) (k : A → M world B) l1 l2 P Q :
  feeds m l1 P → (∀ a, P a → feeds (k a) l2 Q) → feeds (m ≫= k) (l1 ++ l2) Q.
Proof.
  intros Hm Hk w Ho. destruct (Hm w Ho) as (a & w1 & H1 & Ho1 & Hp1 & Ha).
  destruct (Hk a Ha w1 Ho1) as (b & w2 & H2 & Ho2 & Hp2 & Hb). exists b, w2.
  split_and!; [unfold mbind, M_bind; by rewrite H1|done|by eapply published_app|done].
Qed.

Lemma feeds_last {A B} (m : M world A) (k : A → M world B) l P Q :
  feeds m l P → (∀ a, P a → feeds (k a) [] Q) → feeds (m ≫= k) l Q.
Proof. intros Hm Hk. rewrite <- (app_nil_r l). by eapply feeds_bind. Qed.

Lemma feeds_silent {A} (m : M world A) :
  (∀ w, ∃ a w', m w = Ret a w' ∧ w_bus w' = w_bus w) → feeds m [] (λ _, True).
Proof.
  intros Hm w Ho. destruct (Hm w) as (a & w' & Hr & Hb). exists a, w'. split_and!; [done|by rewrite Hb| |done].
  by apply published_nil.
Qed.

Lemma feeds_put_ticker t :
  feeds (put_ticker t) [(Ticker.StockCode t, Ticker.LastPrice t, Ticker.High t, Ticker.Low t, Ticker.Volume t)]
    (λ _, True).
Proof.
  intros w Ho. unfold put_ticker, call_market, now, publish, mbind, M_bind. simpl.
  destruct (mr_UpdateTicker t (w_market w)) as [m err]. simpl.
  match goal with |- context [bus_Publish ?e] => set (ev := e); destruct (bus_open_publish ev _ Ho) as (b' & Hb & Ho') end.
  rewrite Hb. do 2 eexists. split_and!; [reflexivity|done| |done]. exists [ev]. split; [simpl; by rewrite Hb|].
  unfold ev, ticker_fields. simpl. by rewrite String.eqb_refl.
Qed.

Lemma feeds_handle cfg raw : feeds (handle cfg raw) (option_list (announced cfg raw)) (λ _, True).
Proof.
  unfold handleMessage, announced. destruct (unmarshal_stream raw) as [msg|d]; [by apply feeds_ret|].
  destruct (Symbols cfg !! _) as [code|]; simpl; [|by apply feeds_ret].
  destruct (parsePrice _ _) as [price|]; simpl; [|by apply feeds_ret].
  eapply (feeds_bind _ _ [] _ (λ _, True)); [apply feeds_silent; intros w; by do 2 eexists|]. intros t _.
  eapply feeds_last; [apply feeds_put_ticker|]. intros _ _. by apply feeds_ret.
Qed.

Lemma feeds_reads cfg reads :
  Forall (λ r, match r with Frame _ => True | Meanwhile _ => False end) reads →
  feeds (read_loop cfg reads)
    (omap (announced cfg) (omap (λ r, match r with Frame raw => Some raw | Meanwhile _ => None end) reads))
    (λ _, True).
Proof.
  induction 1 as [|r reads Hr _ IH]; simpl; [by apply feeds_ret|]. destruct r as [raw|w]; [|done]. simpl.
  replace (match announced cfg raw with Some y => _ | None => _ end)
    with (option_list (announced cfg raw) ++ omap (announced cfg)
            (omap (λ r, match r with Frame raw => Some raw | Meanwhile _ => None end) reads))
    by (by destruct (announced cfg raw)).
  eapply (feeds_bind _ _ _ _ (λ _, True)); [apply feeds_handle|]. intros _ _. exact IH.
Qed.

Lemma feeds_connect cfg a :
  buildStreams cfg ≠ [] → quiet a →
  feeds (connect cfg (λ _, at_session a)) (omap (announced cfg) (frames (at_session a))) (λ _, True).
Proof.
  unfold connect, quiet. intros Hs Hq. destruct (buildStreams cfg) as [|x xs]; [done|].
  destruct (at_session a) as [msg|reads err]; simpl; [by apply feeds_ret|].
  eapply feeds_last; [by apply feeds_reads|]. intros _ _. by apply feeds_ret.
Qed.

Lemma feeds_loop cfg n attempts :
  buildStreams cfg ≠ [] → Forall quiet attempts →
  feeds (feed_loop cfg n attempts)
    (omap (announced cfg) (mjoin ((λ a, frames (at_session a)) <$> made attempts)))
    (λ waits, waits = reconnect (MaxBackoff cfg) n (ended <$> made attempts)).
Proof.
  intros Hs Hq. revert n. induction Hq as [|a attempts Ha _ IH]; intros n; simpl; [by apply feeds_ret|].
  rewrite omap_app. eapply (feeds_bind _ _ _ _ (λ _, True)); [by apply feeds_connect|]. intros _ _.
  unfold ended at 1. destruct (at_done a); simpl; [by apply feeds_ret|].
  destruct (at_wait_done a); simpl; [by apply feeds_ret|].
  eapply feeds_last; [apply IH|]. intros waits ->. by apply feeds_ret.
Qed.

Lemma feeds_init stocks : feeds (init_stocks stocks) [] (λ _, True).
Proof.
  induction stocks as [|s stocks IH]; simpl; [by apply feeds_ret|].
  eapply (feeds_bind _ _ [] [] (λ _, True)); [|intros _ _; exact IH].
  apply feeds_silent. intros w. unfold init_stock, modify, now, mbind, M_bind. by do 2 eexists.
Qed.

(** A run of the feed on an open bus never panics, whatever Binance sends: it
    publishes one [TickerUpdated] for each acceptable frame, in order and with
    the prices of the frame, and nothing else; frames that do not parse or
    name another symbol change nothing.  Between its attempts it waits the
    back-offs of [reconnect], and it ends where the context is cancelled. *)
Theorem feed_run cfg stocks attempts :
  buildStreams cfg ≠ [] → Forall quiet attempts →
  feeds (BinanceFeed_Start cfg stocks attempts)
    (omap (announced cfg) (mjoin ((λ a, frames (at_session a)) <$> made attempts)))
    (λ waits, waits = reconnect (MaxBackoff cfg) 0 (ended <$> made attempts)).
Proof.
  intros Hs Hq. eapply (feeds_bind _ _ [] _ (λ _, True)); [apply feeds_init|]. intros _ _. by apply feeds_loop.
Qed.
End Feed.
