(* ===== verification/Postgres.v ===== *)
(** * The PostgreSQL repositories ([internal/infra/storage/postgres])

    The statements the repositories send, with the placeholders of the
    dynamic [WHERE] clauses explicit, and the handling of the driver's
    answers.  The pool is third-party code: its operations are parameters. *)
From stdpp Require Import pretty.
From S2P Require Import Prelude GoLib Entity Repository Auth.

(** ** Dynamic conditions *)
Inductive sql_arg : Type := AStr (s : string) | AInt (z : Z).

#[global] Instance sql_arg_eq_dec : EqDecision sql_arg.
Proof. solve_decision. Defined.

(** [col = $n], and [(col1 = $n OR col2 = $n)]. *)
Inductive cond : Type :=
| CEq (col : string) (n : Z)
| CEither (col1 col2 : string) (n : Z).

Definition render_cond (c : cond) : string :=
  match c with
  | CEq col n => " AND " ++ col ++ " = $" ++ pretty n
  | CEither a b n => " AND (" ++ a ++ " = $" ++ pretty n ++ " OR " ++ b ++ " = $" ++ pretty n ++ ")"
  end.

(** The text of the clause. *)
Definition render_where (cs : list cond) : string :=
  "WHERE 1=1" ++ foldr (λ c s, render_cond c ++ s)%string EmptyString cs.

(** The variables [where], [args] and [n] while the clause is built. *)
Record builder : Type := mkBuilder {
  b_where : list cond;
  b_args : list sql_arg;
  b_n : Z;
}.

Definition builder0 : builder := mkBuilder [] [] 1.

(** One [if value != "" { ... }]. *)
Definition add_cond (value : string) (c : Z → cond) (b : builder) : builder :=
  if (value =? EmptyString)%string then b
  else mkBuilder (b_where b ++ [c (b_n b)]) (b_args b ++ [AStr value]) (b_n b + 1).

Definition order_where (f : OrderFilter.t) : builder :=
  add_cond (OrderFilter.UserID f) (CEq "user_id")
    (add_cond (OrderFilter.Status f) (CEq "status")
       (add_cond (OrderFilter.StockCode f) (CEq "stock_code") builder0)).

Definition trade_where (f : TradeFilter.t) : builder :=
  add_cond (TradeFilter.UserID f) (CEither "buyer_user_id" "seller_user_id")
    (add_cond (TradeFilter.StockCode f) (CEq "stock_code") builder0).

(** A [SELECT] of one page, newest first. *)
Record select : Type := mkSelect {
  sel_where : list cond;
  sel_args : list sql_arg;
  sel_limit : Z;        (* the numbers of the LIMIT and OFFSET placeholders *)
  sel_offset : Z;
}.

Definition page_select (b : builder) (page perPage : Z) : select :=
  let page := if page <=? 0 then 1 else page in
  let perPage := if perPage <=? 0 then 20 else perPage in
  let offset := i64_mul (i64_sub page 1) perPage in
  mkSelect (b_where b) (b_args b ++ [AInt perPage; AInt offset]) (b_n b) (b_n b + 1).

(** ** What the statements mean on a table *)
Definition arg_at (args : list sql_arg) (n : Z) : option sql_arg := args !! Z.to_nat (n - 1).

Definition order_col (o : Order.t) (col : string) : option sql_arg :=
  if (col =? "stock_code")%string then Some (AStr (Order.StockCode o))
  else if (col =? "status")%string then Some (AStr (Order.Status o))
  else if (col =? "user_id")%string then Some (AStr (Order.UserID o))
  else None.

Definition trade_col (t : Trade.t) (col : string) : option sql_arg :=
  if (col =? "stock_code")%string then Some (AStr (Trade.StockCode t))
  else if (col =? "buyer_user_id")%string then Some (AStr (Trade.BuyerUserID t))
  else if (col =? "seller_user_id")%string then Some (AStr (Trade.SellerUserID t))
  else None.

Definition eq_arg (a b : option sql_arg) : bool :=
  match a, b with Some a, Some b => bool_decide (a = b) | _, _ => false end.

Definition cond_holds (args : list sql_arg) (col : string → option sql_arg) (c : cond) : bool :=
  match c with
  | CEq a n => eq_arg (col a) (arg_at args n)
  | CEither a b n => eq_arg (col a) (arg_at args n) || eq_arg (col b) (arg_at args n)
  end.

Definition row_selected (cs : list cond) (args : list sql_arg) (col : string → option sql_arg) : bool :=
  forallb (cond_holds args col) cs.

(** ** The pool *)
Inductive Exec_stmt : Type :=
| InsertOrder (o : Order.t)
| UpdateOrder (id : string) (filled : Z) (status : string) (updated_at : Time)
| InsertTrade (t : Trade.t)
| InsertUser (u : User.t).

Inductive pg_error : Type :=
| SQLState (code msg : string)
| NoRows
| Driver (msg : string).

Definition pg_text (e : pg_error) : string :=
  match e with
  | SQLState code msg => "ERROR: " ++ msg ++ " (SQLSTATE " ++ code ++ ")"
  | NoRows => "no rows in result set"
  | Driver msg => msg
  end.

Definition isDuplicateKey (e : pg_error) : bool :=
  match e with SQLState code _ => (code =? "23505")%string | _ => false end.

Definition wrap (what : string) (e : pg_error) : error := ErrOther (what ++ ": " ++ pg_text e).

(** Where reading a result set failed: sending the query, scanning a row, or
    at the end ([rows.Err]). *)
Inductive rows_error : Type := QueryErr (e : pg_error) | ScanErr (e : pg_error) | RowsErr (e : pg_error).

Definition wrap_rows (query scan rows : string) (e : rows_error) : error :=
  match e with
  | QueryErr e => wrap query e
  | ScanErr e => wrap scan e
  | RowsErr e => wrap rows e
  end.

Section Repos.
Context {DB : Type}.
(** [Exec] with the rows affected; the queries with the rows they scan. *)
Variable Exec : Exec_stmt → DB → DB * (pg_error + Z).
Variable QueryRow_order : string → DB → pg_error + Order.t.
Variable Count_orders : list cond → list sql_arg → DB → pg_error + Z.
Variable Query_orders : select → DB → rows_error + list Order.t.
Variable Count_trades : list cond → list sql_arg → DB → pg_error + Z.
Variable Query_trades : select → DB → rows_error + list Trade.t.
Variable Query_stock_trades : string → Z → DB → rows_error + list Trade.t.
Variable QueryRow_user : string → DB → pg_error + User.t.
Variable Query_users : DB → rows_error + list User.t.

Definition insert (what : string) (s : Exec_stmt) (db : DB) : DB * option error :=
  match Exec s db with
  | (db', inl e) => (db', Some (if isDuplicateKey e then ErrDuplicate else wrap what e))
  | (db', inr _) => (db', None)
  end.

Definition OrderRepo_Save (o : Order.t) (db : DB) : DB * option error :=
  insert "order save" (InsertOrder o) db.

Definition OrderRepo_FindByID (id : string) (db : DB) : error + Order.t :=
  match QueryRow_order id db with
  | inl NoRows => inl ErrNotFound
  | inl e => inl (wrap "order find by id" e)
  | inr o => inr o
  end.

Definition OrderRepo_FindAll (f : OrderFilter.t) (db : DB) : outcome (list Order.t * Z) :=
  let b := order_where f in
  match Count_orders (b_where b) (b_args b) db with
  | inl e => Err (wrap "order count" e)
  | inr total =>
      match Query_orders (page_select b (OrderFilter.Page f) (OrderFilter.PerPage f)) db with
      | inl e => Err (wrap_rows "order find all" "order scan" "order rows" e)
      | inr rows => OK (rows, total)
      end
  end.

Definition OrderRepo_Update (o : Order.t) (db : DB) : DB * option error :=
  match Exec (UpdateOrder (Order.ID o) (Order.FilledQuantity o) (Order.Status o) (Order.UpdatedAt o)) db with
  | (db', inl e) => (db', Some (wrap "order update" e))
  | (db', inr affected) => (db', if affected =? 0 then Some ErrNotFound else None)
  end.

Definition TradeRepo_Save (t : Trade.t) (db : DB) : DB * option error :=
  insert "trade save" (InsertTrade t) db.

Definition TradeRepo_FindByStockCode (stockCode : string) (limit : Z) (db : DB) : error + list Trade.t :=
  let limit := if limit <=? 0 then 20 else limit in
  match Query_stock_trades stockCode limit db with
  | inl e => inl (wrap_rows "trade find by stock" "trade scan" "trade rows" e)
  | inr rows => inr rows
  end.

Definition TradeRepo_FindAll (f : TradeFilter.t) (db : DB) : outcome (list Trade.t * Z) :=
  let b := trade_where f in
  match Count_trades (b_where b) (b_args b) db with
  | inl e => Err (wrap "trade count" e)
  | inr total =>
      match Query_trades (page_select b (TradeFilter.Page f) (TradeFilter.PerPage f)) db with
      | inl e => Err (wrap_rows "trade find all" "trade scan" "trade rows" e)
      | inr rows => OK (rows, total)
      end
  end.

Definition UserRepo_Save (u : User.t) (db : DB) : DB * option error :=
  insert "user save" (InsertUser u) db.

Definition UserRepo_FindByUsername (username : string) (db : DB) : error + User.t :=
  match QueryRow_user username db with
  | inl NoRows => inl ErrNotFound
  | inl e => inl (wrap "user find by username" e)
  | inr u => inr u
  end.

Definition UserRepo_FindAll (db : DB) : error + list User.t :=
  match Query_users db with
  | inl (QueryErr e) => inl (wrap "user find all" e)
  | inl (ScanErr e) => inl (wrap "user scan" e)
  | inl (RowsErr e) => inl (ErrOther (pg_text e))
  | inr users => inr users
  end.

(** The interfaces they implement; PostgreSQL keeps the caller's update time. *)
Definition pg_orders : OrderRepository DB := {|
  or_Save := OrderRepo_Save;
  or_FindByID := OrderRepo_FindByID;
  or_FindAll := OrderRepo_FindAll;
  or_Update _ := OrderRepo_Update;
|}.
Definition pg_trades : TradeRepository DB := {|
  tr_Save := TradeRepo_Save;
  tr_FindByStockCode := TradeRepo_FindByStockCode;
  tr_FindAll := TradeRepo_FindAll;
|}.
Definition pg_users : UserRepository DB := {|
  ur_Save := UserRepo_Save;
  ur_FindByUsername := UserRepo_FindByUsername;
  ur_FindAll := UserRepo_FindAll;
|}.
End Repos.
