(* ===== verification/PostgresTheorems.v ===== *)
(** * The PostgreSQL repositories select what the in-memory ones select and
    keep the repository contract *)
From S2P Require Import Prelude GoLib Entity Repository MemoryRepo MemoryProofs Auth Postgres.

(** ** Placeholders *)

(** A clause under construction: every placeholder used so far names the
    argument it was added with. *)
Record builder_ok (b : builder) : Prop := {
  bo_n : b_n b = Z.of_nat (length (b_args b)) + 1;
  bo_used : ∀ c, c ∈ b_where b → match c with CEq _ n | CEither _ _ n => 1 <= n < b_n b end;
}.

Lemma builder0_ok : builder_ok builder0.
Proof. split; [done|]. by intros c ?%elem_of_nil. Qed.

Definition cond_number (c : cond) : Z := match c with CEq _ n | CEither _ _ n => n end.

Lemma add_cond_ok value c b :
  (∀ n, cond_number (c n) = n) → builder_ok b → builder_ok (add_cond value c b).
Proof.
  intros Hc [Hn Hu]. unfold add_cond. destruct (value =? EmptyString)%string; [done|]. split; simpl.
  - rewrite length_app. simpl. lia.
  - intros x [Hx|Hx]%elem_of_snoc; [specialize (Hu x Hx); destruct x; lia|]. subst x.
    specialize (Hc (b_n b)). destruct (c (b_n b)); simpl in Hc; lia.
Qed.

Lemma cond_holds_prefix args extra col c :
  1 <= cond_number c <= Z.of_nat (length args) →
  cond_holds (args ++ extra) col c = cond_holds args col c.
Proof.
  intros Hc. assert (arg_at (args ++ extra) (cond_number c) = arg_at args (cond_number c)) as Ha.
  { unfold arg_at. apply lookup_app_l. lia. }
  destruct c; simpl in *; by rewrite Ha.
Qed.

Lemma row_selected_prefix b extra col :
  builder_ok b → row_selected (b_where b) (b_args b ++ extra) col = row_selected (b_where b) (b_args b) col.
Proof.
  intros [Hn Hu]. unfold row_selected. assert (∀ c, c ∈ b_where b → 1 <= cond_number c <= Z.of_nat (length (b_args b))) as Hr.
  { intros c Hc. specialize (Hu c Hc). destruct c; simpl; lia. }
  clear Hu. induction (b_where b) as [|c cs IH]; [done|]. simpl.
  rewrite cond_holds_prefix by (apply Hr, list_elem_of_here).
  rewrite IH; [done|]. intros x Hx. apply Hr. by apply list_elem_of_further.
Qed.

(** Adding a condition restricts the rows by it. *)
Definition col_is (col : string → option sql_arg) (a : string) (value : string) : bool :=
  eq_arg (col a) (Some (AStr value)).

Lemma add_eq_selects value a b col :
  builder_ok b →
  row_selected (b_where (add_cond value (CEq a) b)) (b_args (add_cond value (CEq a) b)) col =
  row_selected (b_where b) (b_args b) col && ((value =? EmptyString)%string || col_is col a value).
Proof.
  intros Hb. unfold add_cond. destruct (value =? EmptyString)%string; [by rewrite andb_true_r|]. simpl.
  unfold row_selected. rewrite forallb_app. fold (row_selected (b_where b) (b_args b ++ [AStr value]) col).
  rewrite row_selected_prefix by done. simpl. rewrite andb_true_r. f_equal. unfold col_is. f_equal.
  unfold arg_at. rewrite (bo_n _ Hb). rewrite lookup_app_r by lia.
  by replace (Z.to_nat (Z.of_nat (length (b_args b)) + 1 - 1) - length (b_args b))%nat with 0%nat by lia.
Qed.

Lemma add_either_selects value a1 a2 b col :
  builder_ok b →
  row_selected (b_where (add_cond value (CEither a1 a2) b)) (b_args (add_cond value (CEither a1 a2) b)) col =
  row_selected (b_where b) (b_args b) col &&
  ((value =? EmptyString)%string || (col_is col a1 value || col_is col a2 value)).
Proof.
  intros Hb. unfold add_cond. destruct (value =? EmptyString)%string; [by rewrite andb_true_r|]. simpl.
  unfold row_selected. rewrite forallb_app. fold (row_selected (b_where b) (b_args b ++ [AStr value]) col).
  rewrite row_selected_prefix by done. simpl. rewrite andb_true_r. f_equal. unfold col_is.
  assert (arg_at (b_args b ++ [AStr value]) (b_n b) = Some (AStr value)) as ->; [|done].
  unfold arg_at. rewrite (bo_n _ Hb). rewrite lookup_app_r by lia.
  by replace (Z.to_nat (Z.of_nat (length (b_args b)) + 1 - 1) - length (b_args b))%nat with 0%nat by lia.
Qed.

Lemma col_is_str col a x v : col a = Some (AStr x) → col_is col a v = (x =? v)%string.
Proof.
  intros Hc. unfold col_is, eq_arg. rewrite Hc. case_bool_decide as Hd.
  - injection Hd as ->. symmetry. apply String.eqb_refl.
  - symmetry. apply String.eqb_neq. congruence.
Qed.

(** The clause of a filter selects what the in-memory repository keeps. *)
Lemma order_where_ok f : builder_ok (order_where f).
Proof. unfold order_where. do 3 (apply add_cond_ok; [done|]). apply builder0_ok. Qed.

Lemma trade_where_ok f : builder_ok (trade_where f).
Proof. unfold trade_where. do 2 (apply add_cond_ok; [done|]). apply builder0_ok. Qed.

Lemma order_where_keeps f o :
  row_selected (b_where (order_where f)) (b_args (order_where f)) (order_col o) = OrderRepo.keep f o.
Proof.
  unfold order_where. rewrite !add_eq_selects by (repeat (apply add_cond_ok; [done|]); apply builder0_ok).
  rewrite (col_is_str _ "stock_code" (Order.StockCode o)) by done.
  rewrite (col_is_str _ "status" (Order.Status o)) by done.
  rewrite (col_is_str _ "user_id" (Order.UserID o)) by done.
  unfold OrderRepo.keep. rewrite !negb_andb, !negb_involutive. simpl. done.
Qed.

Lemma trade_where_keeps f t :
  row_selected (b_where (trade_where f)) (b_args (trade_where f)) (trade_col t) = TradeRepo.keep f t.
Proof.
  unfold trade_where. rewrite add_either_selects by (repeat (apply add_cond_ok; [done|]); apply builder0_ok).
  rewrite add_eq_selects by apply builder0_ok.
  rewrite (col_is_str _ "stock_code" (Trade.StockCode t)) by done.
  rewrite (col_is_str _ "buyer_user_id" (Trade.BuyerUserID t)) by done.
  rewrite (col_is_str _ "seller_user_id" (Trade.SellerUserID t)) by done.
  unfold TradeRepo.keep. rewrite !negb_andb, !negb_involutive. simpl. by rewrite orb_assoc.
Qed.

(** C27. The dynamic [WHERE] clauses of the PostgreSQL repositories, with
    their numbered placeholders bound to their arguments, select exactly the
    orders and the trades the in-memory repositories keep for the same
    filter, also when the page's limit and offset are appended to the
    arguments, and those two are the last two placeholders. *)
Theorem where_clauses_equivalent (fo : OrderFilter.t) (ft : TradeFilter.t) page perPage o t :
  row_selected (b_where (order_where fo)) (b_args (order_where fo)) (order_col o) = OrderRepo.keep fo o ∧
  row_selected (b_where (trade_where ft)) (b_args (trade_where ft)) (trade_col t) = TradeRepo.keep ft t ∧
  let so := page_select (order_where fo) page perPage in
  let st := page_select (trade_where ft) page perPage in
  row_selected (sel_where so) (sel_args so) (order_col o) = OrderRepo.keep fo o ∧
  row_selected (sel_where st) (sel_args st) (trade_col t) = TradeRepo.keep ft t ∧
  arg_at (sel_args so) (sel_limit so) = Some (AInt (if perPage <=? 0 then 20 else perPage)) ∧
  sel_offset so = Z.of_nat (length (sel_args so)) ∧ sel_offset st = Z.of_nat (length (sel_args st)).
Proof.
  pose proof (order_where_ok fo) as Ho. pose proof (trade_where_ok ft) as Ht.
  split_and!; [apply order_where_keeps|apply trade_where_keeps|..]; cbv zeta; simpl.
  split_and!.
  - rewrite row_selected_prefix by done. apply order_where_keeps.
  - rewrite row_selected_prefix by done. apply trade_where_keeps.
  - unfold arg_at. rewrite (bo_n _ Ho), lookup_app_r by lia.
    by replace (Z.to_nat (Z.of_nat (length (b_args (order_where fo))) + 1 - 1) -
                length (b_args (order_where fo)))%nat with 0%nat by lia.
  - rewrite length_app, (bo_n _ Ho). simpl. lia.
  - rewrite length_app, (bo_n _ Ht). simpl. lia.
Qed.

(** ** The order repository over a database that answers *)
Section Contract.
Context {DB : Type}.
Variable Exec : Exec_stmt → DB → DB * (pg_error + Z).
Variable QueryRow_order : string → DB → pg_error + Order.t.
Variable Count_orders : list cond → list sql_arg → DB → pg_error + Z.
Variable Query_orders : select → DB → rows_error + list Order.t.
(** The contents of the table [orders], whose key is [id]. *)
Variable orders : DB → gmap string Order.t.

Definition rows (db : DB) : list Order.t := snd <$> map_to_list (orders db).

Definition newest_first (l : list Order.t) : Prop :=
  StronglySorted (λ a b, Order.CreatedAt b <= Order.CreatedAt a) l.

(** PostgreSQL's documented behaviour on the statements of the repository. *)
Record pg_answers : Prop := {
  pa_insert : ∀ o db, orders db !! Order.ID o = None →
    ∃ db', Exec (InsertOrder o) db = (db', inr 1) ∧ orders db' = <[Order.ID o := o]> (orders db);
  pa_duplicate : ∀ o x db, orders db !! Order.ID o = Some x →
    ∃ msg, Exec (InsertOrder o) db = (db, inl (SQLState "23505" msg));
  pa_update_none : ∀ id filled st u db, orders db !! id = None →
    Exec (UpdateOrder id filled st u) db = (db, inr 0);
  pa_update : ∀ id filled st u x db, orders db !! id = Some x →
    ∃ db', Exec (UpdateOrder id filled st u) db = (db', inr 1) ∧
      orders db' = <[id := Order.mk (Order.ID x) (Order.UserID x) (Order.StockCode x) (Order.Sd x)
                       (Order.Price x) (Order.Quantity x) filled st (Order.CreatedAt x) u]> (orders db);
  pa_row : ∀ id db, QueryRow_order id db =
    match orders db !! id with Some o => inr o | None => inl NoRows end;
  pa_count : ∀ cs args db, Count_orders cs args db =
    inr (Z.of_nat (length (filter (λ o, row_selected cs args (order_col o) = true) (rows db))));
  pa_page : ∀ sel limit offset db,
    arg_at (sel_args sel) (sel_limit sel) = Some (AInt limit) →
    arg_at (sel_args sel) (sel_offset sel) = Some (AInt offset) → 0 <= limit → 0 <= offset →
    ∃ sorted, sorted ≡ₚ filter (λ o, row_selected (sel_where sel) (sel_args sel) (order_col o) = true) (rows db) ∧
      newest_first sorted ∧ Query_orders sel db = inr (take (Z.to_nat limit) (drop (Z.to_nat offset) sorted));
}.
Hypothesis answers : pg_answers.
(** Every row is stored under its own identifier. *)
Definition keyed (db : DB) : Prop := ∀ id o, orders db !! id = Some o → Order.ID o = id.

(** The contract of [repository.OrderRepository], discharged. *)
#[local] Instance pg_impl : OrderRepository DB :=
  pg_orders Exec QueryRow_order Count_orders Query_orders.

Lemma pg_save_law o db : keyed db →
  match orders db !! Order.ID o with
  | Some _ => or_Save o db = (db, Some ErrDuplicate)
  | None => ∃ db', or_Save o db = (db', None) ∧ keyed db' ∧ orders db' = <[Order.ID o := o]> (orders db)
  end.
Proof.
  intros Hk. simpl. unfold OrderRepo_Save, insert. destruct (orders db !! Order.ID o) as [x|] eqn:Ho.
  - destruct (pa_duplicate answers o x db Ho) as [msg ->]. done.
  - destruct (pa_insert answers o db Ho) as (db' & -> & Hdb'). exists db'. split_and!; [done| |done].
    intros id y. rewrite Hdb', lookup_insert_Some. intros [[<- <-]|[_ Hy]]; [done|by apply Hk].
Qed.

Lemma pg_update_law now o db : keyed db →
  match orders db !! Order.ID o with
  | None => or_Update now o db = (db, Some ErrNotFound)
  | Some x => ∃ db' t, or_Update now o db = (db', None) ∧ keyed db' ∧
                orders db' = <[Order.ID o := update_mutable t o x]> (orders db)
  end.
Proof.
  intros Hk. simpl. unfold OrderRepo_Update. destruct (orders db !! Order.ID o) as [x|] eqn:Ho.
  - destruct (pa_update answers (Order.ID o) (Order.FilledQuantity o) (Order.Status o) (Order.UpdatedAt o)
      x db Ho) as (db' & -> & Hdb').
    exists db', (Order.UpdatedAt o). split_and!; [done| |done].
    intros id y. rewrite Hdb', lookup_insert_Some. intros [[<- <-]|[_ Hy]]; simpl; by apply Hk.
  - by rewrite (pa_update_none answers) by done.
Qed.

Lemma pg_find_law id db :
  or_FindByID id db = match orders db !! id with Some o => inr o | None => inl ErrNotFound end.
Proof. simpl. unfold OrderRepo_FindByID. rewrite (pa_row answers). by destruct (orders db !! id). Qed.

Definition pg_orders_laws : OrderRepositoryLaws DB := {|
  or_inv := keyed;
  or_view := orders;
  or_Save_law := pg_save_law;
  or_FindByID_law := λ id db _, pg_find_law id db;
  or_Update_law := pg_update_law;
|}.

Definition selected (f : OrderFilter.t) (db : DB) : list Order.t :=
  filter (λ o, OrderRepo.keep f o = true) (rows db).

Lemma filter_bool_ext {A} (f g : A → bool) (l : list A) :
  (∀ x, f x = g x) → filter (λ x, f x = true) l = filter (λ x, g x = true) l.
Proof.
  intros Hfg. induction l as [|x l IH]; [done|]. rewrite !filter_cons, IH, Hfg. done.
Qed.

End Contract.

(** ** A concrete database *)
Module PgDemo.
Local Abbreviation DB := (gmap string Order.t).

Definition newer (a b : Order.t) : Prop := Order.CreatedAt b <= Order.CreatedAt a.
#[local] Instance newer_dec : RelDecision newer.
Proof. intros a b. unfold newer. apply _. Defined.
#[local] Instance newer_total : Total newer.
Proof. intros a b. unfold newer. lia. Qed.
#[local] Instance newer_trans : Transitive newer.
Proof. intros a b c. unfold newer. lia. Qed.

Definition exec (s : Exec_stmt) (db : DB) : DB * (pg_error + Z) :=
  match s with
  | InsertOrder o =>
      match db !! Order.ID o with
      | Some _ => (db, inl (SQLState "23505" "duplicate key"))
      | None => (<[Order.ID o := o]> db, inr 1)
      end
  | UpdateOrder id filled st u =>
      match db !! id with
      | None => (db, inr 0)
      | Some x => (<[id := Order.mk (Order.ID x) (Order.UserID x) (Order.StockCode x) (Order.Sd x)
                      (Order.Price x) (Order.Quantity x) filled st (Order.CreatedAt x) u]> db, inr 1)
      end
  | _ => (db, inl (Driver "no such table"))
  end.
Definition row (id : string) (db : DB) : pg_error + Order.t :=
  match db !! id with Some o => inr o | None => inl NoRows end.
Definition matching_rows (cs : list cond) (args : list sql_arg) (db : DB) : list Order.t :=
  filter (λ o, row_selected cs args (order_col o) = true) (rows (DB := DB) (λ d, d) db).
Definition count (cs : list cond) (args : list sql_arg) (db : DB) : pg_error + Z :=
  inr (Z.of_nat (length (matching_rows cs args db))).
Definition page (sel : select) (db : DB) : rows_error + list Order.t :=
  match arg_at (sel_args sel) (sel_limit sel), arg_at (sel_args sel) (sel_offset sel) with
  | Some (AInt limit), Some (AInt offset) =>
      if offset <? 0 then inl (QueryErr (SQLState "2201X" "OFFSET must not be negative"))
      else inr (take (Z.to_nat limit) (drop (Z.to_nat offset)
                  (merge_sort newer (matching_rows (sel_where sel) (sel_args sel) db))))
  | _, _ => inl (QueryErr (Driver "bad arguments"))
  end.

Lemma demo_answers : pg_answers exec row count page (λ d, d).
Proof.
  split; unfold exec, row, count, page; cbv beta.
  - intros o d Hd. rewrite Hd. by eexists.
  - intros o x d Hd. rewrite Hd. by eexists.
  - intros i filled st u d Hd. by rewrite Hd.
  - intros i filled st u x d Hd. rewrite Hd. by eexists.
  - done.
  - done.
  - intros sel limit offset db -> -> Hl Ho. rewrite (proj2 (Z.ltb_ge _ _)) by done.
    eexists. split_and!; [apply (merge_sort_Permutation newer)| |reflexivity].
    apply (StronglySorted_merge_sort newer).
Qed.

Definition o1 : Order.t := Order.mk "o1" "alice" "BBCA" SideBuy 9500 10 0 OrderStatusOpen 1 1.
Definition o2 : Order.t := Order.mk "o2" "bob" "BBCA" SideSell 9500 10 0 OrderStatusOpen 2 2.
Definition db : DB := {["o1"%string := o1]}.

Lemma db_keyed : keyed (DB := DB) (λ d, d) db.
Proof. intros i o. unfold db. simpl. rewrite lookup_singleton_Some. by intros [<- <-]. Qed.

End PgDemo.
