(* ===== verification/Wiring.v ===== *)
(** * How the server is put together ([cmd/server/main.go], with the NATS and
    Redis adapters of [internal/infra])

    The decisions [main] takes from its configuration and from which external
    services answer; the event handlers [wireEvents] installs; the handlers
    for what other instances publish; the Redis cache of the market service. *)
From S2P Require Import Prelude GoLib GoStrings Float64 Entity Repository Book Matcher Services Hub.
From S2P Require Import DBWorker Partition Config.

(** ** Helpers of [main.go] *)
Definition subjectSuffix (subject : string) : string :=
  match cut "." subject with
  | Some (_, rest) => if (rest =? EmptyString)%string then subject else rest
  | None => subject
  end.

Definition stockCodes (stocks : list Stock.t) : list string := Stock.Code <$> stocks.

Definition filterStocks (all : list Stock.t) (allowed : list string) : list Stock.t :=
  filter (λ s, Stock.Code s ∈ allowed) all.

Inductive slog_level : Type := LevelDebug | LevelInfo | LevelWarn | LevelError.

(** The level, and whether the handler is the text one. *)
Definition setupLogger (level format : string) : slog_level * bool :=
  ((if (level =? "debug")%string then LevelDebug
    else if (level =? "warn")%string then LevelWarn
    else if (level =? "error")%string then LevelError
    else LevelInfo), (format =? "text")%string).

(** ** Start-up *)

(** Which external services answer. *)
Record externals : Type := mkExternals {
  ex_pg : bool;             (* [pgxpool.New] succeeds *)
  ex_natsPub : bool;
  ex_natsSub : bool;
  ex_redisCache : bool;     (* the URL parses and [Ping] succeeds *)
  ex_redisPubSub : bool;
}.

Inductive storage : Type := InMemory | PostgreSQL.
Inductive feed : Type := NoFeed | InternalSimulator | BinanceFeed.

Record server : Type := mkServerPlan {
  sp_pgPool : bool;
  sp_dbWorker : option DBWorkerConfig;
  sp_storage : storage;
  sp_natsPub : bool;
  sp_natsSub : bool;
  sp_redisCache : bool;
  sp_redisPubSub : bool;
  sp_stocks : list Stock.t;              (* all stocks of the cluster *)
  sp_partitioner : option Partitioner;
  sp_engineStocks : list Stock.t;        (* the stocks matched here *)
  sp_router : bool;                      (* orders go through the partitioned router *)
  sp_auth : bool;
  sp_userRepo : bool;                    (* users are kept in PostgreSQL *)
  sp_feed : feed;
  sp_engineSubs : bool;                  (* [wireEngineNATSOrders] *)
  sp_rateLimiter : bool;
}.

Inductive exit_reason : Type := InvalidConfig (e : config_error) | InvalidPartition (e : error).

Definition load_partitioner (c : Config) : exit_reason + option Partitioner :=
  if part_Enabled (cfg_Partition c) then
    match Partition.New (part_InstanceIndex (cfg_Partition c)) (part_TotalInstances (cfg_Partition c)) with
    | inl e => inl (InvalidPartition e)
    | inr p => inr (Some p)
    end
  else inr None.

Definition startup (c : Config) (ex : externals) : exit_reason + server :=
  match Validate c with
  | Some e => inl (InvalidConfig e)
  | None =>
      let d := cfg_DBWorker c in
      let pg := (dbw_Enabled d || (StorageType (cfg_Storage c) =? "postgres")%string) && ex_pg ex in
      let natsPub := nats_Enabled (cfg_NATS c) && ex_natsPub ex in
      let natsSub := nats_Enabled (cfg_NATS c) && ex_natsSub ex in
      let stocks := DefaultStocks ++ (if bin_Enabled (cfg_Binance c) then BinanceStocks else []) in
      match load_partitioner c with
      | inl e => inl e
      | inr partitioner =>
          inr (mkServerPlan pg
            (if dbw_Enabled d
             then Some (mkWorkerConfig (dbw_BatchSize d) (dbw_FlushInterval d) (dbw_ChannelSize d)
                          (dbw_RetryMax d) (dbw_RetryBackoff d))
             else None)
            (if (StorageType (cfg_Storage c) =? "postgres")%string && pg then PostgreSQL else InMemory)
            natsPub natsSub
            (redis_Enabled (cfg_Redis c) && ex_redisCache ex)
            (redis_Enabled (cfg_Redis c) && negb (nats_Enabled (cfg_NATS c)) && ex_redisPubSub ex)
            stocks partitioner
            (match partitioner with
             | Some p => filterStocks stocks (OwnedStocks p (stockCodes stocks))
             | None => stocks
             end)
            (match partitioner with Some _ => natsPub | None => false end)
            (auth_Enabled (cfg_Auth c)) (auth_Enabled (cfg_Auth c) && pg)
            (if sim_Enabled (cfg_Simulator c) && negb (bin_Enabled (cfg_Binance c)) then InternalSimulator
             else if bin_Enabled (cfg_Binance c) then BinanceFeed else NoFeed)
            (match partitioner with Some _ => natsSub | None => false end)
            (rl_Enabled (cfg_RateLimit c)))
      end
  end.

(** The graceful shutdown, step (a) to (h), of what was started. *)
Inductive stop_action : Type :=
| StopHTTP | StopRateLimiter | StopEngine | StopSimulator | StopEventBus | StopDBWorker
| CloseNATSPub | CloseNATSSub | CloseRedisCache | CloseRedisPubSub | ClosePool.

Definition shutdown (s : server) : list stop_action :=
  let on (b : bool) (a : stop_action) := if b then [a] else [] in
  [StopHTTP] ++ on (sp_rateLimiter s) StopRateLimiter ++ [StopEngine] ++
  (match sp_feed s with InternalSimulator => [StopSimulator] | _ => [] end) ++ [StopEventBus] ++
  (match sp_dbWorker s with Some _ => [StopDBWorker] | None => [] end) ++
  on (sp_natsPub s) CloseNATSPub ++ on (sp_natsSub s) CloseNATSSub ++
  on (sp_redisCache s) CloseRedisCache ++ on (sp_redisPubSub s) CloseRedisPubSub ++ on (sp_pgPool s) ClosePool.

(** ** Events out of the bus *)

(** A payload as it is encoded: the value a pointer has at that moment. *)
Inductive PV : Type :=
| VOrder (o : Order.t)
| VTrade (t : Trade.t)
| VTicker (t : Ticker.t)
| VBook (b : OrderBook.t).

Definition pv (h : heap) (p : Payload) : PV :=
  match p with
  | POrder r => VOrder (deref h r)
  | PTrade t => VTrade t
  | PTicker t => VTicker t
  | PBook b => VBook b
  end.

Section Events.
(** The wire format, the JSON codecs, and the client libraries of NATS
    and Redis over their connection states. *)
Context {B N Rd : Type}.
Variable marshal_msg : @ServerMessage PV → option B.
Variable marshal : PV → option B.
Variable unmarshal_order : B → option Order.t.
Variable unmarshal_trade : B → option Trade.t.
Variable unmarshal_ticker : B → option Ticker.t.
Variable unmarshal_book : B → option OrderBook.t.
Variable nats_publish : string → B → N → N * option string.
Variable redis_publish : string → B → Rd → Rd * option string.
Variable redis_set : string → B → Z → Rd → Rd * option string.
Variable redis_get : string → Rd → string + option B.    (* [redis.Nil] is [None] *)

Local Abbreviation WSHub := (@Hub.Hub PV B).

(** [natsbroker.Publisher.Publish]; the error is discarded by every caller here. *)
Inductive pub_error : Type := MarshalError | PublishError (msg : string).
Definition Publisher_Publish (subject : string) (payload : PV) (n : N) : N * option pub_error :=
  match marshal payload with
  | None => (n, Some MarshalError)
  | Some data => match nats_publish subject data n with
                 | (n', Some e) => (n', Some (PublishError e))
                 | (n', None) => (n', None)
                 end
  end.

(** *** The Redis cache ([redis/cache.go]) *)
Definition tickerTTL : Z := 60 * Second.
Definition orderBookTTL : Z := 10 * Second.
Definition tickerKey (stock : string) : string := ("ticker:" ++ stock)%string.
Definition orderBookKey (stock : string) : string := ("orderbook:" ++ stock)%string.

Definition cache_set (key : string) (v : PV) (ttl : Z) (r : Rd) : Rd * option pub_error :=
  match marshal v with
  | None => (r, Some MarshalError)
  | Some data => match redis_set key data ttl r with
                 | (r', Some e) => (r', Some (PublishError e))
                 | (r', None) => (r', None)
                 end
  end.
Definition SetTicker (stock : string) (t : Ticker.t) : Rd → Rd * option pub_error :=
  cache_set (tickerKey stock) (VTicker t) tickerTTL.
Definition SetOrderBook (stock : string) (b : OrderBook.t) : Rd → Rd * option pub_error :=
  cache_set (orderBookKey stock) (VBook b) orderBookTTL.

Definition cache_get {A} (key : string) (unmarshal : B → option A) (r : Rd) : error + option A :=
  match redis_get key r with
  | inl msg => inl (ErrOther msg)
  | inr None => inr None
  | inr (Some data) => match unmarshal data with
                       | None => inl (ErrOther "unmarshal")
                       | Some x => inr (Some x)
                       end
  end.
Definition Cache_GetTicker (stock : string) : Rd → error + option Ticker.t :=
  cache_get (tickerKey stock) unmarshal_ticker.
Definition Cache_GetOrderBook (stock : string) : Rd → error + option OrderBook.t :=
  cache_get (orderBookKey stock) unmarshal_book.

(** The cache as the market service uses it. *)
Definition market_cache (r : Rd) : MarketService.MarketCache :=
  MarketService.mkCache (λ stock, Cache_GetTicker stock r) (λ stock, Cache_GetOrderBook stock r).

(** *** [wireEvents] *)
Record sinks : Type := mkSinks {
  sk_hub : WSHub;
  sk_nats : option N;
  sk_pubsub : option Rd;
  sk_cache : option Rd;
  sk_dbw : option DBWorker;
  sk_trades : gmap string Z;             (* [trades_executed_total] *)
  sk_orders : gmap (string * string) Z;  (* [orders_created_total] *)
}.

Definition upd_hub (f : WSHub → WSHub) (s : sinks) : sinks :=
  mkSinks (f (sk_hub s)) (sk_nats s) (sk_pubsub s) (sk_cache s) (sk_dbw s) (sk_trades s) (sk_orders s).

(** The NATS publication, or the Redis one when there is no NATS. *)
Definition fan_out (subject channel : string) (v : PV) (s : sinks) : sinks :=
  match sk_nats s with
  | Some n =>
      mkSinks (sk_hub s) (Some (Publisher_Publish subject v n).1) (sk_pubsub s) (sk_cache s) (sk_dbw s)
        (sk_trades s) (sk_orders s)
  | None =>
      match sk_pubsub s, marshal v with
      | Some r, Some data =>
          mkSinks (sk_hub s) None (Some (redis_publish channel data r).1) (sk_cache s) (sk_dbw s)
            (sk_trades s) (sk_orders s)
      | _, _ => s
      end
  end.

Definition upd_cache (f : Rd → Rd * option pub_error) (s : sinks) : sinks :=
  mkSinks (sk_hub s) (sk_nats s) (sk_pubsub s) ((λ r, (f r).1) <$> sk_cache s) (sk_dbw s)
    (sk_trades s) (sk_orders s).

Definition enqueue_op (op : WriteOp) (s : sinks) : sinks :=
  mkSinks (sk_hub s) (sk_nats s) (sk_pubsub s) (sk_cache s) ((λ w, (DBWorker.Enqueue op w).1) <$> sk_dbw s)
    (sk_trades s) (sk_orders s).

Definition inc_trades (stock : string) (s : sinks) : sinks :=
  mkSinks (sk_hub s) (sk_nats s) (sk_pubsub s) (sk_cache s) (sk_dbw s)
    (<[stock := default 0 (sk_trades s !! stock) + 1]> (sk_trades s)) (sk_orders s).
Definition inc_orders (key : string * string) (s : sinks) : sinks :=
  mkSinks (sk_hub s) (sk_nats s) (sk_pubsub s) (sk_cache s) (sk_dbw s) (sk_trades s)
    (<[key := default 0 (sk_orders s !! key) + 1]> (sk_orders s)).

Definition on_trade (h : heap) (e : Event.t) (s : sinks) : sinks :=
  let v := pv h (Event.Pl e) in
  let s := upd_hub (Broadcast marshal_msg "market.trade" (Event.StockCode e) v) s in
  let s := fan_out ("trade." ++ Event.StockCode e) ("trade." ++ Event.StockCode e) v s in
  let s := match Event.Pl e with
           | PTrade t => enqueue_op (mkWriteOp OpTradeSave (WTrade t)) s
           | _ => s
           end in
  inc_trades (Event.StockCode e) s.

Definition on_ticker (h : heap) (e : Event.t) (s : sinks) : sinks :=
  let v := pv h (Event.Pl e) in
  let s := upd_hub (Broadcast marshal_msg "market.ticker" (Event.StockCode e) v) s in
  let s := fan_out ("ticker." ++ Event.StockCode e) ("ticker." ++ Event.StockCode e) v s in
  match Event.Pl e with
  | PTicker t => upd_cache (SetTicker (Event.StockCode e) t) s
  | _ => s
  end.

Definition on_orderbook (h : heap) (e : Event.t) (s : sinks) : sinks :=
  let v := pv h (Event.Pl e) in
  let s := upd_hub (Broadcast marshal_msg "market.orderbook" (Event.StockCode e) v) s in
  let s := fan_out ("orderbook." ++ Event.StockCode e) ("orderbook." ++ Event.StockCode e) v s in
  match Event.Pl e with
  | PBook b => upd_cache (SetOrderBook (Event.StockCode e) b) s
  | _ => s
  end.

Definition on_created (h : heap) (e : Event.t) (s : sinks) : sinks :=
  match Event.Pl e with
  | POrder r =>
      let o := deref h r in
      enqueue_op (mkWriteOp OpOrderSave (WOrder o)) (inc_orders (Order.StockCode o, Order.Sd o) s)
  | _ => s
  end.

Definition on_updated (h : heap) (e : Event.t) (s : sinks) : sinks :=
  match Event.Pl e with
  | POrder r =>
      let o := deref h r in
      let s := upd_hub (BroadcastToUser marshal_msg "order.update" (Order.UserID o) (VOrder o)) s in
      let s := fan_out ("order." ++ Order.UserID o) "order.updates" (VOrder o) s in
      enqueue_op (mkWriteOp OpOrderUpdate (WOrder o)) s
  | _ => s
  end.

(** The handlers by the event type they are subscribed to. *)
Definition wireEvents : list (EventType * (heap → Event.t → sinks → sinks)) :=
  [(TradeExecuted, on_trade); (TickerUpdated, on_ticker); (OrderBookUpdated, on_orderbook);
   (OrderCreated, on_created); (OrderUpdated, on_updated)].

Definition handle_event (h : heap) (e : Event.t) (s : sinks) : sinks :=
  foldl (λ s p, if (p.1 =? Event.Ty e)%string then p.2 h e s else s) s wireEvents.

(** *** What other instances published, on NATS and on Redis *)
Definition nats_handlers : list (string * (string → B → WSHub → WSHub)) :=
  [("trade.*"%string, λ subj data hub,
      match unmarshal_trade data with
      | Some t => Broadcast marshal_msg "market.trade" (subjectSuffix subj) (VTrade t) hub
      | None => hub
      end);
   ("ticker.*"%string, λ subj data hub,
      match unmarshal_ticker data with
      | Some t => Broadcast marshal_msg "market.ticker" (subjectSuffix subj) (VTicker t) hub
      | None => hub
      end);
   ("orderbook.*"%string, λ subj data hub,
      match unmarshal_book data with
      | Some b => Broadcast marshal_msg "market.orderbook" (subjectSuffix subj) (VBook b) hub
      | None => hub
      end);
   ("order.*"%string, λ subj data hub,
      match unmarshal_order data with
      | Some o => BroadcastToUser marshal_msg "order.update" (subjectSuffix subj) (VOrder o) hub
      | None => hub
      end)].

Definition redis_handlers (allStocks : list Stock.t) : list (string * (B → WSHub → WSHub)) :=
  (flat_map (λ s, let stock := Stock.Code s in
     [(("trade." ++ stock)%string, λ data hub,
         match unmarshal_trade data with
         | Some t => Broadcast marshal_msg "market.trade" stock (VTrade t) hub
         | None => hub
         end);
      (("ticker." ++ stock)%string, λ data hub,
         match unmarshal_ticker data with
         | Some t => Broadcast marshal_msg "market.ticker" stock (VTicker t) hub
         | None => hub
         end);
      (("orderbook." ++ stock)%string, λ data hub,
         match unmarshal_book data with
         | Some b => Broadcast marshal_msg "market.orderbook" stock (VBook b) hub
         | None => hub
         end)]) allStocks) ++
  [("order.updates"%string, λ data hub,
      match unmarshal_order data with
      | Some o => BroadcastToUser marshal_msg "order.update" (Order.UserID o) (VOrder o) hub
      | None => hub
      end)].
End Events.
