(* ===== verification/WiringTheorems.v ===== *)
(** * Theorems about the wiring of the server

    What a valid configuration starts, the matching of every stock by one
    instance of a cluster, and the agreement of the local and the
    cross-instance delivery of an event. *)
From S2P Require Import Prelude GoLib GoStrings Float64 Entity Repository Book Matcher Services Hub.
From S2P Require Import DBWorker Partition Config Wiring.

(** ** Helpers *)

(** A valid configuration has a partitioner that the constructor accepts. *)
Lemma Validate_partition c :
  Validate c = None → part_Enabled (cfg_Partition c) = true →
  1 <= part_TotalInstances (cfg_Partition c) ∧
  0 <= part_InstanceIndex (cfg_Partition c) < part_TotalInstances (cfg_Partition c) ∧
  nats_Enabled (cfg_NATS c) = true.
Proof.
  unfold Validate. intros Hv Hp. rewrite Hp in Hv. rewrite Z.geb_leb in Hv. revert Hv.
  repeat (match goal with |- context [if ?b then _ else _] => destruct b eqn:? end; try done).
  intros _. repeat match goal with
    | H : _ || _ = false |- _ => apply orb_false_iff in H as [? ?]
    | H : negb _ = false |- _ => apply negb_false_iff in H
    | H : (_ <? _) = false |- _ => apply Z.ltb_ge in H
    | H : (_ <=? _) = false |- _ => apply Z.leb_gt in H
    end. split_and!; done.
Qed.

Definition partitioner_of (c : Config) : option Partitioner :=
  if part_Enabled (cfg_Partition c)
  then Some (mkPartitioner (part_InstanceIndex (cfg_Partition c)) (part_TotalInstances (cfg_Partition c)))
  else None.

Lemma load_partitioner_valid c : Validate c = None → load_partitioner c = inr (partitioner_of c).
Proof.
  intros Hv. unfold load_partitioner, partitioner_of.
  destruct (part_Enabled (cfg_Partition c)) eqn:Hp; [|done].
  destruct (Validate_partition c Hv Hp) as (Ht & Hi & _).
  by rewrite (proj2 (New_ok _ _ _) (conj (conj Ht Hi) eq_refl)).
Qed.

Definition traded_stocks (c : Config) : list Stock.t :=
  DefaultStocks ++ (if bin_Enabled (cfg_Binance c) then BinanceStocks else []).

Lemma filterStocks_owned p all st :
  st ∈ filterStocks all (OwnedStocks p (stockCodes all)) ↔
  st ∈ all ∧ OwnsStock p (Stock.Code st) = true.
Proof.
  unfold filterStocks. rewrite list_elem_of_filter, OwnedStocks_elem. unfold stockCodes.
  split; [tauto|]. intros [Hin Ho]. split_and!; [|done..]. by apply list_elem_of_fmap_2.
Qed.

Lemma startup_valid c ex :
  Validate c = None →
  ∃ s, startup c ex = inr s ∧ sp_stocks s = traded_stocks c ∧ sp_partitioner s = partitioner_of c ∧
    (∀ st, st ∈ sp_engineStocks s ↔ st ∈ traded_stocks c ∧
       match partitioner_of c with Some p => OwnsStock p (Stock.Code st) = true | None => True end).
Proof.
  intros Hv. unfold startup. rewrite Hv, load_partitioner_valid by done.
  eexists. split; [done|]. cbn [sp_stocks sp_partitioner sp_engineStocks].
  split_and!; [done..|]. intros st. destruct (partitioner_of c) as [p|].
  - apply filterStocks_owned.
  - unfold traded_stocks. tauto.
Qed.

Lemma subjectSuffix_app pre key :
  cut "." pre = None → key ≠ EmptyString → subjectSuffix (pre ++ "." ++ key) = key.
Proof.
  change ("." ++ key)%string with (String "." key).
  intros Hc Hk. unfold subjectSuffix. rewrite cut_app by done.
  by destruct (String.eqb_spec key EmptyString).
Qed.

(** ** Start-up *)

(** Start-up is decided by validation alone: an invalid configuration
    ends the process with that error, a valid one always starts a server (the
    partitioner it describes is never refused).  The parts of that server
    agree: orders are routed, and taken from other instances, only in a
    partitioned cluster with NATS; NATS and the Redis fallback are never both
    publishing; the simulator and the Binance feed never run together;
    PostgreSQL storage and the user repository have a pool; and the engine has
    a matcher for exactly the traded stocks the instance owns (all of them
    without partitioning), each of them listed at most once. *)
Theorem startup_consistent c ex :
  match Validate c with
  | Some e => startup c ex = inl (InvalidConfig e)
  | None => ∃ s, startup c ex = inr s ∧
      (sp_router s = true ↔ part_Enabled (cfg_Partition c) = true ∧ ex_natsPub ex = true) ∧
      (sp_engineSubs s = true ↔ part_Enabled (cfg_Partition c) = true ∧ ex_natsSub ex = true) ∧
      (sp_natsPub s || sp_natsSub s = true → sp_redisPubSub s = false) ∧
      (sp_feed s = InternalSimulator → bin_Enabled (cfg_Binance c) = false ∧ sp_stocks s = DefaultStocks) ∧
      (sp_feed s = BinanceFeed → BinanceStocks ⊆ sp_stocks s) ∧
      (sp_storage s = PostgreSQL ∨ sp_userRepo s = true → sp_pgPool s = true) ∧
      (∀ st, st ∈ sp_engineStocks s ↔ st ∈ sp_stocks s ∧
         (∀ p, sp_partitioner s = Some p → OwnsStock p (Stock.Code st) = true)) ∧
      NoDup (Stock.Code <$> sp_engineStocks s)
  end.
Proof.
  destruct (Validate c) as [e|] eqn:Hv; [unfold startup; by rewrite Hv|].
  pose proof (Validate_partition c Hv) as Hpart.
  unfold startup. rewrite Hv, load_partitioner_valid by done. unfold partitioner_of.
  eexists. split; [done|].
  cbn [sp_router sp_engineSubs sp_natsPub sp_natsSub sp_redisPubSub sp_feed sp_stocks sp_storage sp_userRepo
       sp_pgPool sp_engineStocks sp_partitioner].
  assert (NoDup (Stock.Code <$> DefaultStocks ++ (if bin_Enabled (cfg_Binance c) then BinanceStocks else []))) as Hnd.
  { destruct (bin_Enabled (cfg_Binance c)); apply (bool_decide_unpack _); vm_compute; exact I. }
  split_and!.
  - destruct (part_Enabled (cfg_Partition c)); [|split; [done|by intros []]].
    destruct (Hpart eq_refl) as (_ & _ & ->). simpl. tauto.
  - destruct (part_Enabled (cfg_Partition c)); [|split; [done|by intros []]].
    destruct (Hpart eq_refl) as (_ & _ & ->). simpl. tauto.
  - destruct (nats_Enabled (cfg_NATS c)); simpl; [|done]. by rewrite andb_false_r.
  - destruct (sim_Enabled (cfg_Simulator c)), (bin_Enabled (cfg_Binance c)); done.
  - destruct (sim_Enabled (cfg_Simulator c)), (bin_Enabled (cfg_Binance c)); try done; intros _ st Hst;
      by apply elem_of_app; right.
  - intros [Hs|Hs]; [|by apply andb_true_iff in Hs as [_ ?]].
    destruct ((StorageType _ =? _)%string); simpl in *; [|done]. by destruct (_ && ex_pg ex).
  - intros st. destruct (part_Enabled (cfg_Partition c)).
    + rewrite filterStocks_owned. split; intros [Hin Ho]; (split; [done|]).
      * by intros p [= <-].
      * by apply Ho.
    + split; [done|tauto].
  - destruct (part_Enabled (cfg_Partition c)); [|done]. unfold filterStocks.
    by apply NoDup_fmap_filter.
Qed.

(** C29.  A cluster matches every stock exactly once.  Take valid
    configurations of [total] instances, numbered from 0, that agree on the
    Binance feed.  Whatever external services each of them reaches, all of
    them start, and every traded stock has a matcher on one instance, and on
    no other; if every publisher is connected, every instance routes. *)
Theorem cluster_matches_each_stock (cfg : Z → Config) (ex : Z → externals) total binance :
  1 <= total <= max_i64 →
  (∀ i, 0 <= i < total →
     Validate (cfg i) = None ∧ part_Enabled (cfg_Partition (cfg i)) = true ∧
     part_InstanceIndex (cfg_Partition (cfg i)) = i ∧
     part_TotalInstances (cfg_Partition (cfg i)) = total ∧
     bin_Enabled (cfg_Binance (cfg i)) = binance) →
  ∀ st, st ∈ DefaultStocks ++ (if binance then BinanceStocks else []) →
    ∃ owner, 0 <= owner < total ∧
      ∀ i, 0 <= i < total →
        ∃ s, startup (cfg i) (ex i) = inr s ∧ (st ∈ sp_engineStocks s ↔ i = owner).
Proof.
  intros Ht Hcfg st Hst. exists (OwnerIndex (Stock.Code st) total). split; [by apply OwnerIndex_range|].
  intros i Hi. destruct (Hcfg i Hi) as (Hv & He & Hidx & Htot & Hb).
  destruct (startup_valid (cfg i) (ex i) Hv) as (s & Hs & _ & _ & Hel). exists s. split; [done|].
  rewrite Hel. unfold partitioner_of, traded_stocks. rewrite He, Hidx, Htot, Hb. unfold OwnsStock. simpl.
  rewrite Z.eqb_eq. split; [by intros [_ <-]|by intros ->].
Qed.

(** ** Delivery across instances *)
Section Delivery.
Context {B N Rd : Type}.
Variable marshal_msg : @ServerMessage PV → option B.
Variable marshal : PV → option B.
Variable unmarshal_order : B → option Order.t.
Variable unmarshal_trade : B → option Trade.t.
Variable unmarshal_ticker : B → option Ticker.t.
Variable unmarshal_book : B → option OrderBook.t.
Variable nats_publish : string → B → N → N * option string.
Variable redis_publish : string → B → Rd → Rd * option string.
Variable redis_set : string → B → Z → Rd → Rd * option string.

(** Where an event goes: the first token of its subject, its WebSocket
    channel and the key (stock or user) subscribers name. *)
Definition route (h : heap) (e : Event.t) : option (string * string * string) :=
  match Event.Pl e with
  | PTrade _ => if (Event.Ty e =? TradeExecuted)%string
                then Some ("trade", "market.trade", Event.StockCode e)%string else None
  | PTicker _ => if (Event.Ty e =? TickerUpdated)%string
                 then Some ("ticker", "market.ticker", Event.StockCode e)%string else None
  | PBook _ => if (Event.Ty e =? OrderBookUpdated)%string
               then Some ("orderbook", "market.orderbook", Event.StockCode e)%string else None
  | POrder r => if (Event.Ty e =? OrderUpdated)%string
                then Some ("order", "order.update", Order.UserID (deref h r))%string else None
  end.

(** The JSON text decodes to the payload it was made from. *)
Definition decodes (v : PV) (data : B) : Prop :=
  match v with
  | VOrder o => unmarshal_order data = Some o
  | VTrade t => unmarshal_trade data = Some t
  | VTicker t => unmarshal_ticker data = Some t
  | VBook b => unmarshal_book data = Some b
  end.

Local Abbreviation handle := (handle_event marshal_msg marshal nats_publish redis_publish redis_set).
Local Abbreviation remote_nats :=
  (nats_handlers marshal_msg unmarshal_order unmarshal_trade unmarshal_ticker unmarshal_book).
Local Abbreviation remote_redis :=
  (redis_handlers marshal_msg unmarshal_order unmarshal_trade unmarshal_ticker unmarshal_book).

Lemma Publisher_Publish_state subject v n data :
  marshal v = Some data →
  (Publisher_Publish marshal nats_publish subject v n).1 = (nats_publish subject data n).1.
Proof.
  intros Hm. unfold Publisher_Publish. rewrite Hm. by destruct (nats_publish subject data n) as [n' []].
Qed.

Lemma fan_out_hub subject channel v (s : @sinks B N Rd) :
  sk_hub (fan_out marshal nats_publish redis_publish subject channel v s) = sk_hub s.
Proof.
  unfold fan_out. destruct (sk_nats s); [done|]. destruct (sk_pubsub s); [|done]. by destruct (marshal v).
Qed.

Lemma fan_out_nats subject channel v (s : @sinks B N Rd) n data :
  sk_nats s = Some n → marshal v = Some data →
  sk_nats (fan_out marshal nats_publish redis_publish subject channel v s) =
    Some (nats_publish subject data n).1.
Proof.
  intros Hn Hm. unfold fan_out. rewrite Hn. simpl. by rewrite (Publisher_Publish_state _ _ _ data).
Qed.

Lemma fan_out_redis subject channel v (s : @sinks B N Rd) r data :
  sk_nats s = None → sk_pubsub s = Some r → marshal v = Some data →
  sk_pubsub (fan_out marshal nats_publish redis_publish subject channel v s) =
    Some (redis_publish channel data r).1.
Proof. intros Hn Hr Hm. unfold fan_out. by rewrite Hn, Hr, Hm. Qed.

(** What a routed event does: the local broadcast, then the fan-out, then
    steps that touch neither. *)
Lemma handle_routed h e (s : @sinks B N Rd) pre ch key :
  route h e = Some (pre, ch, key) →
  let v := pv h (Event.Pl e) in
  let channel := if (pre =? "order")%string then "order.updates"%string else (pre ++ "." ++ key)%string in
  let s1 := fan_out marshal nats_publish redis_publish (pre ++ "." ++ key) channel v
              (upd_hub (Broadcast marshal_msg ch key v) s) in
  sk_hub (handle h e s) = sk_hub s1 ∧ sk_nats (handle h e s) = sk_nats s1 ∧
  sk_pubsub (handle h e s) = sk_pubsub s1.
Proof.
  destruct e as [ty code ts p]. unfold route. cbn [Event.Pl Event.Ty Event.StockCode].
  destruct p as [r|t|t|b];
    (match goal with |- context [(ty =? ?k)%string] => destruct (String.eqb_spec ty k) as [->|] end; [|done]);
    intros [= <- <- <-]; done.
Qed.

Lemma nats_handler_of h e pre ch key data :
  route h e = Some (pre, ch, key) → key ≠ EmptyString → decodes (pv h (Event.Pl e)) data →
  ∃ handler, ((pre ++ ".*")%string, handler) ∈ remote_nats ∧
    ∀ hub, handler (pre ++ "." ++ key)%string data hub = Broadcast marshal_msg ch key (pv h (Event.Pl e)) hub.
Proof.
  unfold route. destruct (Event.Pl e) as [r|t|t|b];
    (match goal with |- context [(Event.Ty e =? ?k)%string] => destruct (Event.Ty e =? k)%string end; [|done]);
    intros [= <- <- <-] Hk Hd; simpl in Hd; eexists;
    (split; [unfold nats_handlers; repeat (apply list_elem_of_here || apply list_elem_of_further)|]);
    intros hub; cbv beta; rewrite Hd; unfold BroadcastToUser;
    (rewrite (subjectSuffix_app _ _) by done); done.
Qed.

Lemma redis_handler_of h e pre ch key data allStocks :
  route h e = Some (pre, ch, key) → decodes (pv h (Event.Pl e)) data →
  pre = "order"%string ∨ key ∈ stockCodes allStocks →
  ∃ handler,
    ((if (pre =? "order")%string then "order.updates"%string else (pre ++ "." ++ key)%string), handler)
      ∈ remote_redis allStocks ∧
    ∀ hub, handler data hub = Broadcast marshal_msg ch key (pv h (Event.Pl e)) hub.
Proof.
  unfold route, redis_handlers. destruct (Event.Pl e) as [r|t|t|b];
    (match goal with |- context [(Event.Ty e =? ?k)%string] => destruct (Event.Ty e =? k)%string end; [|done]);
    intros [= <- <- <-] Hd Hk; simpl in Hd.
  1: { eexists. split; [apply elem_of_app; right; apply list_elem_of_here|]. intros hub. cbv beta. by rewrite Hd. }
  all: destruct Hk as [Hk|(st & Hst & Hin)%list_elem_of_fmap]; [done|]; rewrite Hst; eexists.
  all: (split; [apply elem_of_app; left; apply list_elem_of_In, in_flat_map; exists st;
                rewrite <- !list_elem_of_In; split; [exact Hin|];
                repeat (apply list_elem_of_here || apply list_elem_of_further)|]).
  all: intros hub; cbv beta; by rewrite Hd.
Qed.

(** C30.  An event reaches the clients of every instance alike.  Its handler
    broadcasts it on the local hub and publishes it once: on the NATS subject
    of its kind and key or, without NATS, on the Redis channel.  The handler
    that another instance installed for that subject or channel decodes the
    text and makes, on its own hub, exactly the same broadcast: same channel,
    same key, same payload. *)
Theorem remote_broadcast_mirrors h e (s : @sinks B N Rd) pre ch key data allStocks :
  route h e = Some (pre, ch, key) → key ≠ EmptyString →
  marshal (pv h (Event.Pl e)) = Some data → decodes (pv h (Event.Pl e)) data →
  let same (f : @Hub PV B → @Hub PV B) := ∀ hub, f hub = Broadcast marshal_msg ch key (pv h (Event.Pl e)) hub in
  let subject := (pre ++ "." ++ key)%string in
  sk_hub (handle h e s) = Broadcast marshal_msg ch key (pv h (Event.Pl e)) (sk_hub s) ∧
  (∀ n, sk_nats s = Some n →
     sk_nats (handle h e s) = Some (nats_publish subject data n).1 ∧
     ∃ handler, ((pre ++ ".*")%string, handler) ∈ remote_nats ∧ same (handler subject data)) ∧
  (∀ r, sk_nats s = None → sk_pubsub s = Some r → pre = "order"%string ∨ key ∈ stockCodes allStocks →
     ∃ channel handler, (channel, handler) ∈ remote_redis allStocks ∧
       sk_pubsub (handle h e s) = Some (redis_publish channel data r).1 ∧ same (handler data)).
Proof.
  intros Hr Hk Hm Hd same subject. destruct (handle_routed h e s _ _ _ Hr) as (Hhub & Hnats & Hps).
  split_and!.
  - by rewrite Hhub, fan_out_hub.
  - intros n Hn. rewrite Hnats. split; [by apply fan_out_nats|]. by apply nats_handler_of.
  - intros r Hn Hp Hkey.
    destruct (redis_handler_of h e pre ch key data allStocks) as (f & Hin & Hf); [done..|].
    eexists _, f. split_and!; [exact Hin| |exact Hf]. rewrite Hps. by apply fan_out_redis.
Qed.
End Delivery.

(** ** Concrete clusters and events *)
Module WiringDemo.

Definition env (i : string) (key : string) : string :=
  if (key =? "PARTITION_ENABLED")%string || (key =? "NATS_ENABLED")%string then "true"
  else if (key =? "PARTITION_INSTANCE_INDEX")%string then i
  else if (key =? "PARTITION_TOTAL_INSTANCES")%string then "3"
  else EmptyString.
Definition cfg (n : Z) : Config :=
  Load (env (if n =? 0 then "0"%string else if n =? 1 then "1"%string else "2"%string)) (λ _, None).
Definition all_up (i : Z) : externals := mkExternals true true true true true.
Definition bbca : Stock.t := Stock.mk "BBCA" "Bank BCA" 9500 25.

Lemma cluster_matches_each_stock_witness :
  ∃ owner, 0 <= owner < 3 ∧
    ∀ i, 0 <= i < 3 → ∃ s, startup (cfg i) (all_up i) = inr s ∧ (bbca ∈ sp_engineStocks s ↔ i = owner).
Proof.
  apply (cluster_matches_each_stock cfg all_up 3 false); [split; i64_lia| |].
  - intros i Hi. assert (i = 0 ∨ i = 1 ∨ i = 2) as [-> | [-> | ->]] by lia; vm_compute; tauto.
  - apply list_elem_of_here.
Defined.

(** Texts that are the values they encode, and a network that keeps what is
    published. *)
Definition text : Type := (@ServerMessage PV + PV)%type.
Definition net : Type := list (string * text).
Definition publish (subject : string) (data : text) (n : net) : net * option string :=
  (n ++ [(subject, data)], None).
Definition un_order (b : text) := match b with inr (VOrder o) => Some o | _ => None end.
Definition un_trade (b : text) := match b with inr (VTrade t) => Some t | _ => None end.
Definition un_ticker (b : text) := match b with inr (VTicker t) => Some t | _ => None end.
Definition un_book (b : text) := match b with inr (VBook k) => Some k | _ => None end.

Definition trade : Trade.t := Trade.mk "t1" "BBCA" "o1" "o2" 9500 10 "ann" "bob" 0.
Definition event : Event.t := Event.mk TradeExecuted "BBCA" EmptyString (PTrade trade) 0.
Definition s0 : @sinks text net net := mkSinks NewHub (Some []) None None None ∅ ∅.

Lemma remote_broadcast_mirrors_witness :
  sk_nats (handle_event (λ m, Some (inl m)) (λ v, Some (inr v)) publish publish
             (λ _ _ _ r, (r, None)) ∅ event s0) = Some [("trade.BBCA"%string, inr (VTrade trade))].
Proof.
  destruct (remote_broadcast_mirrors (λ m, Some (inl m)) (λ v, Some (inr v)) un_order un_trade un_ticker un_book
    publish publish (λ _ _ _ r, (r, None)) ∅ event s0 "trade" "market.trade" "BBCA" (inr (VTrade trade)) [bbca])
    as (_ & Hnats & _); [reflexivity|discriminate|reflexivity|reflexivity|].
  destruct (Hnats [] eq_refl) as [Hpub _]. exact Hpub.
Defined.
End WiringDemo.
