(* ===== verification/Cluster.v ===== *)
(** * Several instances as one system ([docker-compose.scaled.yml])

    The processes of a cluster share the PostgreSQL tables of orders and
    trades and exchange forwarded orders over NATS; each has its own engine,
    bus and market data.  A step is one operation of one goroutine of one
    process, or what happens to a message between them. *)
From S2P Require Import Prelude GoLib Entity Repository Book Matcher Engine Validator Services System.
From S2P Require Import Partition Wiring.

Section Cluster.
Context {D : Deps} `{!BusLaws BusT} {B : Type}.
Variable marshal : PV → option B.
Variable unmarshal_order : B → option Order.t.
Variable total : nat.                 (* PARTITION_TOTAL_INSTANCES *)
Variable stocks : list Stock.t.       (* every traded stock *)

Record process : Type := mkProc { pr_engine : Engine; pr_market : MarketRepoT; pr_bus : BusT }.

(** The memories of the processes are disjoint parts of one heap, and the
    identifiers they draw are those of one supply. *)
Record cstate : Type := mkC {
  c_heap : heap;
  c_next : ref;
  c_orders : OrderRepoT;
  c_trades : TradeRepoT;
  c_uuids : nat;
  c_ticks : nat;
  c_procs : list process;
  c_wire : list (string * B);         (* messages NATS took and has not delivered *)
}.

Definition part (j : nat) : Partitioner := mkPartitioner (Z.of_nat j) (Z.of_nat total).

Definition world_of (p : process) (c : cstate) : world :=
  mkWorld (c_heap c) (c_next c) (c_orders c) (c_trades c) (pr_market p) (pr_bus p) (c_uuids c) (c_ticks c).
Definition proc_state (p : process) (c : cstate) : estate := mkES (pr_engine p) (world_of p c).
Definition put_state (j : nat) (s : estate) (c : cstate) : cstate :=
  let w := es_world s in
  mkC (w_heap w) (w_next w) (w_orders w) (w_trades w) (w_uuids w) (w_ticks w)
    (<[j := mkProc (es_engine s) (w_market w) (w_bus w)]> (c_procs c)) (c_wire c).
Definition set_wire (l : list (string * B)) (c : cstate) : cstate :=
  mkC (c_heap c) (c_next c) (c_orders c) (c_trades c) (c_uuids c) (c_ticks c) (c_procs c) l.

(** A computation of process [j]. *)
Definition on_proc (j : nat) {A} (m : M estate A) : M cstate A := λ c,
  match c_procs c !! j with
  | None => Panic "no such process" c
  | Some p =>
      match m (proc_state p c) with
      | Ret a s => Ret a (put_state j s c)
      | Panic e s => Panic e (put_state j s c)
      | NoFuel => NoFuel
      end
  end.

(** NATS takes a message, or the connection reports an error. *)
Definition nats_takes (ok : bool) (subject : string) (data : B) (wire : list (string * B))
    : list (string * B) * option string :=
  if ok then (wire ++ [(subject, data)], None) else (wire, Some "nats: connection closed"%string).

Definition publish_order (ok : bool) (subject : string) (o : Order.t) : M cstate (option error) := λ c,
  let '(wire, e) := Publisher_Publish marshal (nats_takes ok) subject (VOrder o) (c_wire c) in
  Ret ((λ _, ErrOther "publish") <$> e) (set_wire wire c).

(** What [main] gives the order service of process [j] as its submitter. *)
Definition submitter (j : nat) (ok : bool) : ref → M cstate (option error) :=
  @Router_SubmitOrder D cstate (λ A m, on_proc j (on_eworld m)) (λ r, on_proc j (SubmitOrder r))
    (publish_order ok) (part j).

Definition create_at (j : nat) (ok : bool) (user : string) (req : CreateOrderRequest.t)
    : M cstate (error + ref) :=
  @OrderService.CreateOrder D cstate (λ A m, on_proc j (on_eworld m)) (submitter j ok) user req.

Definition receive_at (j : nat) (data : B) : M cstate () :=
  on_proc j (engine_order_handler unmarshal_order data).

(** Process [j] as [main] starts it. *)
Definition boot (j : nat) (mk : MarketRepoT) (b : BusT) : process :=
  mkProc (NewEngine (filterStocks stocks (OwnedStocks (part j) (stockCodes stocks)))) mk b.

Inductive cl_step (c : cstate) : cstate → Prop :=
| cl_create j ok user req r c' :
    request_valid req → create_at j ok user req c = Ret r c' → cl_step c c'
| cl_turn j code t c' : on_proc j (run_turn code) c = Ret t c' → cl_step c c'
| cl_deliver j l1 subject data l2 c' :
    c_wire c = l1 ++ (subject, data) :: l2 →
    subject ∈ (engine_subscriptions (part j) (stockCodes stocks)).*1 →
    receive_at j data (set_wire (l1 ++ l2) c) = Ret () c' → cl_step c c'
| cl_lose l1 m l2 : c_wire c = l1 ++ m :: l2 → cl_step c (set_wire (l1 ++ l2) c)
| cl_start j c' : on_proc j Start c = Ret () c' → cl_step c c'
| cl_stop j c' : on_proc j Stop c = Ret () c' → cl_step c c'
| cl_crash j mk b :
    (j < length (c_procs c))%nat → bus_open b →
    cl_step c (mkC (c_heap c) (c_next c) (c_orders c) (c_trades c) (c_uuids c) (c_ticks c)
                 (<[j := boot j mk b]> (c_procs c)) (c_wire c))
| cl_env j p w' :
    c_procs c !! j = Some p → env_step (world_of p c) w' →
    cl_step c (put_state j (mkES (pr_engine p) w') c).

Inductive cl_reachable (c0 : cstate) : cstate → Prop :=
| clr_init : cl_reachable c0 c0
| clr_step c c' : cl_reachable c0 c → cl_step c c' → cl_reachable c0 c'.

(** The cluster over the tables of [w], with the market data and buses given. *)
Definition boot_cluster (w : world) (mk : nat → MarketRepoT) (b : nat → BusT) : cstate :=
  mkC (w_heap w) (w_next w) (w_orders w) (w_trades w) (w_uuids w) (w_ticks w)
    ((λ j, boot j (mk j) (b j)) <$> seq 0 total) [].
End Cluster.
