(* ===== verification/ClusterProofs.v ===== *)
(** * Every step of the cluster preserves its invariant

    The matchers of all processes together satisfy the invariant of one
    exchange ([sys_inv]), because no two processes match the same stock; the
    orders on the wire are known to no matcher and are unchanged copies. *)
From S2P Require Import Prelude GoLib Entity Repository Book BookProofs Matcher MatcherLemmas.
From S2P Require Import MatchSpec MatcherProofs MatcherRefine MatchOrder Engine Validator Services.
From S2P Require Import System SystemProofs Partition Wiring Cluster.

(** ** Orders no matcher of an exchange knows *)
Section Unknown.
Context {D : Deps} `{!BusLaws BusT} `{!TradeRepositoryLaws TradeRepoT}
        `{!OrderRepositoryLaws OrderRepoT}.
Hypothesis uuid_inj : ∀ m n, uuid_NewString m = uuid_NewString n → m = n.

Definition unknown (all : gmap string Matcher) (r : ref) : Prop :=
  ∀ code m, all !! code = Some m → (r ∉ queued m) ∧ (r ∉ refs (resting (m_book m))).

Definition merged (all : gmap string Matcher) (w : world) : estate := mkES (mkEngine all true true) w.

(** A turn leaves them alone. *)
Lemma turn_unknown own all w code t s' r :
  sys_inv own (merged all w) → run_turn code (merged all w) = Ret t s' →
  is_Some (w_heap w !! r) → unknown all r →
  w_heap (es_world s') !! r = w_heap w !! r ∧ unknown (e_matchers (es_engine s')) r.
Proof.
  intros Hinv Hrun Hr Hun. unfold run_turn in Hrun. cbn [es_engine merged e_matchers] in Hrun.
  destruct (all !! code) as [m|] eqn:Hm; [|by injection Hrun as _ <-].
  pose proof (si_matchers _ _ Hinv code m Hm) as Hmo. destruct (Hun code m Hm) as [Hq Hb].
  unfold chan_recv in Hrun. destruct (ch_buf (m_ch m)) as [|[i|] rest] eqn:Hbuf.
  - destruct (ch_closed (m_ch m)); by injection Hrun as _ <-.
  - rewrite (mo_code _ _ _ _ Hmo) in Hrun.
    destruct (queue_arrival own _ code m i rest _ Hinv Hm Hbuf eq_refl)
      as (o & Har & Hown & Hsc & Hqq & _ & _).
    destruct (matchOrder_spec uuid_inj code i o _ Har) as (s1 & o' & Hok & Hpost).
    cbn [es_world merged] in *. rewrite Hok in Hrun. injection Hrun as _ <-.
    assert (r ≠ i) as Hri.
    { intros ->. apply Hq. unfold queued. rewrite Hbuf. apply list_elem_of_here. }
    split; [exact (turn_frame own _ code m i o s1 _ _ o' r Hinv Hm Har Hpost Hri Hb)|].
    cbn [es_engine set_matcher e_matchers]. unfold unknown. apply insert_forall; [|by intros; eapply Hun].
    split; [intros Hin; by apply Hqq in Hin as [? _]|]. intros Hin.
    by destruct (match_refs code i o _ s1 _ _ o' r Har Hpost eq_refl eq_refl Hin) as [->|?].
  - injection Hrun as _ <-. split; [done|]. cbn [es_engine set_matcher e_matchers].
    unfold unknown. apply insert_forall; [|by intros; eapply Hun].
    split; [|done]. unfold queued in *. rewrite Hbuf in Hq. exact Hq.
Qed.

(** An unknown order can move to another place of the heap. *)
Definition alloc_world (o : Order.t) (w : world) : world :=
  mkWorld (<[w_next w := o]> (w_heap w)) (S (w_next w)) (w_orders w) (w_trades w) (w_market w) (w_bus w)
    (w_uuids w) (w_ticks w).

Lemma alloc_old own s o r :
  sys_inv own s → is_Some (w_heap (es_world s) !! r) →
  w_heap (alloc_world o (es_world s)) !! r = w_heap (es_world s) !! r.
Proof.
  intros Hinv Hr. pose proof (si_next _ _ Hinv r Hr). simpl. by rewrite lookup_insert_ne by lia.
Qed.

Lemma moved_matcher own h h' code m o r p :
  matcher_ok own h code m → heap_evolves h h' →
  (∀ x, is_Some (h !! x) → h' !! x = h !! x) →
  own !! Order.ID o = Some r → r ∉ queued m → r ∉ refs (resting (m_book m)) →
  matcher_ok (<[Order.ID o := p]> own) h' code m.
Proof.
  intros [Hc Hbc Hb Hx Hch Hq Hr Hnd] Hev Hold Hown Hnq Hnr.
  assert (∀ x y, own !! Order.ID y = Some x → x ≠ r → <[Order.ID o := p]> own !! Order.ID y = Some x) as Hne.
  { intros x y Hxy Hxr. rewrite lookup_insert_ne; [done|]. intros He. rewrite He in Hown. congruence. }
  assert (∀ x, x ∈ queued m ∨ x ∈ refs (resting (m_book m)) → h' !! x = h !! x) as Hfr.
  { intros x [Hin|Hin]; apply Hold; [destruct (Hq x Hin) as (? & ? & _)|destruct (Hr x Hin) as [(? & ? & _) _]]; eauto. }
  split; try done.
  - eapply book_inv_frame; [done| |done]. intros x ?. apply Hfr. auto.
  - eapply book_exact_frame; [|done]. intros x ?. apply Hfr. auto.
  - intros x Hin. destruct (Hq x Hin) as (y & Hy & Hwf & Hxo & Hsc). exists y. rewrite Hfr by auto.
    split_and!; try done. apply Hne; [done|]. by intros ->.
  - intros x Hin. destruct (Hr x Hin) as [(y & Hy & Hxo) Hsc]. unfold owned, deref in *.
    rewrite Hfr by auto. split; [|done]. exists y. split; [done|]. apply Hne; [done|]. by intros ->.
Qed.

Lemma move_inv own all w o r :
  sys_inv own (merged all w) → own !! Order.ID o = Some r → w_heap w !! r = Some o → unknown all r →
  sys_inv (<[Order.ID o := w_next w]> own) (merged all (alloc_world o w)).
Proof.
  intros Hinv Hown Hr Hun. set (own' := <[Order.ID o := w_next w]> own).
  assert (∀ id, is_Some (own' !! id) ↔ is_Some (own !! id)) as Hdom.
  { intros id. unfold own'. destruct (decide (id = Order.ID o)) as [->|Hne].
    - rewrite lookup_insert_eq, Hown. split; by eexists.
    - by rewrite lookup_insert_ne. }
  pose proof (λ x, alloc_old own _ o x Hinv) as Hold. cbn [es_world merged] in Hold.
  assert (heap_evolves (w_heap w) (w_heap (alloc_world o w))) as Hev
    by (intros x y Hy; exists y; rewrite Hold by eauto; split; [done|reflexivity]).
  pose proof (lookup_insert_eq (w_heap w) (w_next w) o) as Hnew.
  pose proof (si_next _ _ Hinv) as Hnext. cbn [es_world merged] in Hnext.
  split; cbn [es_world es_engine merged]; try apply Hinv.
  - intros x Hx. cbn [w_heap w_next alloc_world] in *. destruct (decide (x = w_next w)) as [->|Hne]; [lia|].
    rewrite lookup_insert_ne in Hx by done. pose proof (Hnext x Hx). lia.
  - unfold own_ids, own'. apply insert_forall; [by exists o|]. intros id p _.
    by apply (own_ids_evolves _ _ _ Hev (si_ids _ _ Hinv)).
  - intros id Hid%Hdom. by apply (si_uuids _ _ Hinv).
  - intros t Ht. pose proof (si_trade_ids _ _ Hinv t Ht) as [H1 H2]. by rewrite !Hdom.
  - destruct (si_synced _ _ Hinv) as [Hor Hs]. split; [done|]. intros id x Hx.
    destruct (Hs id x Hx) as (p & y & Hp & Hy & Hxy). unfold own'.
    destruct (decide (id = Order.ID o)) as [->|Hne].
    + rewrite lookup_insert_eq. assert (p = r) as -> by congruence.
      cbn [es_world merged] in Hy. assert (y = o) as -> by congruence. exists (w_next w), o. done.
    + rewrite lookup_insert_ne by done. exists p, y. rewrite Hold by eauto. done.
  - intros id Hid%Hdom. by apply (si_saved _ _ Hinv).
  - unfold own'. apply insert_forall.
    + destruct (si_account _ _ Hinv _ _ Hown) as (y & Hy & Hwf & Hacc). cbn [es_world merged] in Hy.
      assert (y = o) as -> by congruence. by exists o.
    + intros id p _ Hp. destruct (si_account _ _ Hinv id p Hp) as (y & Hy & Hacc).
      exists y. by rewrite Hold by eauto.
  - intros code m Hm. destruct (Hun code m Hm) as [Hq Hb].
    apply (moved_matcher own (w_heap w) _ code m o r); try done. by apply (si_matchers _ _ Hinv).
Qed.
End Unknown.

(** ** The invariant of the cluster *)
Section Invariant.
Context {D : Deps} `{!BusLaws BusT} `{!TradeRepositoryLaws TradeRepoT}
        `{!OrderRepositoryLaws OrderRepoT}.
Context {B : Type}.
Hypothesis uuid_inj : ∀ m n, uuid_NewString m = uuid_NewString n → m = n.
Variable marshal : PV → option B.
Variable unmarshal_order : B → option Order.t.
(** JSON: an order is decoded from its text as it was. *)
Hypothesis order_json : ∀ o data, marshal (VOrder o) = Some data → unmarshal_order data = Some o.
Variable total : nat.
Variable stocks : list Stock.t.

Local Abbreviation part := (part total).
Local Abbreviation cstate := (@cstate D B).
Implicit Types c : cstate.

Definition wire_ids (l : list (string * B)) : list string :=
  omap (λ x, Order.ID <$> unmarshal_order x.2) l.

(** A message holds an order that is saved, not filled, and in no matcher. *)
Definition in_flight (own : gmap string ref) (all : gmap string Matcher) (h : heap) (x : string * B) : Prop :=
  ∃ o r, unmarshal_order x.2 = Some o ∧ x.1 = engine_subject (Order.StockCode o) ∧ order_wf o ∧
    own !! Order.ID o = Some r ∧ h !! r = Some o ∧ unknown all r.

Definition owns (j : nat) (code : string) : Prop := OwnsStock (part j) code = true.

#[local] Instance owns_dec j code : Decision (owns j code).
Proof. unfold owns. apply _. Defined.

Definition all_open (e : Engine) : Prop :=
  e_stopped e = false → ∀ code m, e_matchers e !! code = Some m → ch_closed (m_ch m) = false.

Record c_inv (own : gmap string ref) (all : gmap string Matcher) c : Prop := {
  ci_all : ∀ code m, all !! code = Some m ↔
    ∃ j p, c_procs c !! j = Some p ∧ e_matchers (pr_engine p) !! code = Some m;
  ci_owner : ∀ j p code, c_procs c !! j = Some p → is_Some (e_matchers (pr_engine p) !! code) → owns j code;
  ci_sys : ∀ p, bus_open (pr_bus p) → sys_inv own (merged all (world_of p c));
  ci_bus : ∀ j p, c_procs c !! j = Some p → bus_open (pr_bus p);
  ci_open : ∀ j p, c_procs c !! j = Some p → all_open (pr_engine p);
  ci_wire : Forall (in_flight own all (c_heap c)) (c_wire c);
  ci_once : NoDup (wire_ids (c_wire c));
}.

Lemma owns_inj j k code : owns j code → owns k code → j = k.
Proof. unfold owns, OwnsStock, Cluster.part. simpl. rewrite !Z.eqb_eq. lia. Qed.

Lemma ci_mine own all c j p code :
  c_inv own all c → c_procs c !! j = Some p → owns j code → all !! code = e_matchers (pr_engine p) !! code.
Proof.
  intros Hinv Hp Ho. apply option_eq. intros m. rewrite (ci_all _ _ _ Hinv). split.
  - intros (k & q & Hq & Hm). rewrite (owns_inj j k code) in Hp; [congruence|done|].
    eapply ci_owner; [done..|by eexists].
  - intros Hm. by exists j, p.
Qed.

(** What an operation of process [j] did to its engine, seen among all. *)
Record moved (j : nat) (e e' : Engine) (all all' : gmap string Matcher) : Prop := {
  mv_mine : ∀ code, owns j code → all' !! code = e_matchers e' !! code;
  mv_others : ∀ code, ¬ owns j code → all' !! code = all !! code;
  mv_owner : ∀ code, is_Some (e_matchers e' !! code) → owns j code;
  mv_open : all_open e → all_open e';
}.

Lemma proc_put j p c (s : estate) :
  c_procs c !! j = Some p →
  ∃ p', c_procs (put_state j s c) !! j = Some p' ∧ proc_state p' (put_state j s c) = s ∧
    pr_engine p' = es_engine s.
Proof.
  intros Hp. eexists. split; [apply list_lookup_insert_eq; by eapply lookup_lt_Some|].
  by destruct s as [e []].
Qed.

Lemma put_put j (s s' : estate) c : put_state j s' (put_state j s c) = put_state j s' c.
Proof. unfold put_state. simpl. by rewrite list_insert_insert_eq. Qed.

Lemma rebus own all w w' : sys_inv own (merged all w) → env_step w w' → sys_inv own (merged all w').
Proof. intros Hinv Henv. exact (env_inv own (merged all w) w' Hinv Henv). Qed.

Lemma put_inv own own' all all' c j p (s : estate) :
  c_inv own all c → c_procs c !! j = Some p → moved j (pr_engine p) (es_engine s) all all' →
  sys_inv own' (merged all' (es_world s)) →
  Forall (in_flight own' all' (w_heap (es_world s))) (c_wire c) →
  c_inv own' all' (put_state j s c).
Proof.
  intros Hinv Hp [Hmine Hoth Howner Hopen] Hsys Hwire.
  pose proof (lookup_lt_Some _ _ _ Hp) as Hlt.
  assert (∀ k q, c_procs (put_state j s c) !! k = Some q →
    k = j ∧ pr_engine q = es_engine s ∧ pr_bus q = w_bus (es_world s) ∨ k ≠ j ∧ c_procs c !! k = Some q) as Hcase.
  { intros k q. simpl. destruct (decide (k = j)) as [->|Hne].
    - rewrite list_lookup_insert_eq by done. intros [= <-]. by left.
    - rewrite list_lookup_insert_ne by done. by right. }
  split; cbn [c_wire c_heap put_state].
  - intros code m. destruct (decide (owns j code)) as [Ho|Hn].
    + rewrite (Hmine code Ho). split.
      * intros Hm. eexists j, _. split; [by apply list_lookup_insert_eq|done].
      * intros (k & q & Hq & Hm). destruct (Hcase k q Hq) as [(-> & He & _)|[Hne Hk]]; [by rewrite <- He|].
        destruct Hne. apply (owns_inj k j code); [|done]. eapply ci_owner; [done..|by eexists].
    + rewrite (Hoth code Hn), (ci_all _ _ _ Hinv). split.
      * intros (k & q & Hq & Hm). assert (k ≠ j) as Hne
          by (intros ->; apply Hn; eapply ci_owner; [done..|by eexists]).
        exists k, q. split; [|done]. simpl. by rewrite list_lookup_insert_ne.
      * intros (k & q & Hq & Hm). destruct (Hcase k q Hq) as [(-> & He & _)|[Hne Hk]]; [|by exists k, q].
        destruct Hn. apply Howner. rewrite <- He. by eexists.
  - intros k q code Hq Hm. destruct (Hcase k q Hq) as [(-> & He & _)|[_ Hk]].
    + apply Howner. by rewrite <- He.
    + by apply (ci_owner _ _ _ Hinv k q).
  - intros q Hq. apply (rebus _ _ _ _ Hsys). by split.
  - intros k q Hq. destruct (Hcase k q Hq) as [(_ & _ & ->)|[_ Hk]]; [|by eapply ci_bus].
    exact (si_bus _ _ Hsys).
  - intros k q Hq. destruct (Hcase k q Hq) as [(_ & -> & _)|[_ Hk]]; [|by eapply ci_open].
    apply Hopen. by eapply ci_open.
  - done.
  - apply (ci_once _ _ _ Hinv).
Qed.

Lemma put_same j p c : c_procs c !! j = Some p → put_state j (proc_state p c) c = c.
Proof. intros Hp. destruct c, p. unfold put_state. simpl in *. by rewrite list_insert_id. Qed.

Lemma moved_set own all c j p code m m' :
  c_inv own all c → c_procs c !! j = Some p → e_matchers (pr_engine p) !! code = Some m →
  (e_stopped (pr_engine p) = false → ch_closed (m_ch m) = false → ch_closed (m_ch m') = false) →
  moved j (pr_engine p) (set_matcher code m' (pr_engine p)) all (<[code := m']> all).
Proof.
  intros Hinv Hp Hm Hc. assert (owns j code) as Hj by (eapply ci_owner; [done..|by eexists]). split; simpl.
  - intros code' Ho. destruct (decide (code' = code)) as [->|Hne]; [by rewrite !lookup_insert_eq|].
    rewrite !lookup_insert_ne by done. by eapply ci_mine.
  - intros code' Hn. rewrite lookup_insert_ne; [done|]. by intros ->.
  - intros code'. destruct (decide (code' = code)) as [->|Hne]; [done|].
    rewrite lookup_insert_ne by done. by eapply ci_owner.
  - intros Hop Hst. simpl in *. apply insert_forall; [exact (Hc Hst (Hop Hst code m Hm))|].
    intros code' y _. by apply (Hop Hst).
Qed.

(** The wire, when the heap and the known orders change around it. *)
Lemma wire_frame own all all' h h' (l : list (string * B)) :
  Forall (in_flight own all h) l →
  (∀ r, is_Some (h !! r) → unknown all r → h' !! r = h !! r ∧ unknown all' r) →
  Forall (in_flight own all' h') l.
Proof.
  intros Hl Hfr. eapply Forall_impl; [exact Hl|]. intros x (o & r & Hd & Hs & Hwf & Ho & Hr & Hun).
  destruct (Hfr r ltac:(eauto) Hun) as [He Hun']. exists o, r. by rewrite He.
Qed.

(** ** A turn of a matcher *)
Lemma turn_cinv own all c j p code t s' :
  c_inv own all c → c_procs c !! j = Some p → run_turn code (proc_state p c) = Ret t s' →
  ∃ all', c_inv own all' (put_state j s' c).
Proof.
  intros Hinv Hp Hrun. pose proof (ci_sys _ _ _ Hinv p (ci_bus _ _ _ Hinv j p Hp)) as Hsys.
  destruct (e_matchers (pr_engine p) !! code) as [m|] eqn:Hm; cycle 1.
  { unfold run_turn in Hrun. cbn [es_engine proc_state] in Hrun. rewrite Hm in Hrun. injection Hrun as _ <-.
    exists all. by rewrite put_same. }
  assert (all !! code = Some m) as Ham by (apply (ci_all _ _ _ Hinv); by exists j, p).
  destruct (run_turn_inv uuid_inj own code _ Hsys) as (t1 & s1 & Hrun1 & Hinv1).
  pose proof (λ r, turn_unknown uuid_inj own all _ code t1 s1 r Hsys Hrun1) as Hfr.
  assert (∃ m', es_world s1 = es_world s' ∧ e_matchers (es_engine s1) = <[code := m']> all ∧
    e_started (es_engine s1) = true ∧ e_stopped (es_engine s1) = true ∧
    es_engine s' = set_matcher code m' (pr_engine p) ∧ ch_closed (m_ch m') = ch_closed (m_ch m))
    as (m' & Hw & Hms & Hst1 & Hst2 & Heng & Hcl).
  { unfold run_turn, proc_state in Hrun, Hrun1. cbn [es_engine es_world merged e_matchers] in *.
    rewrite Ham in Hrun1. rewrite Hm in Hrun. unfold chan_recv in *.
    assert (set_matcher code m (pr_engine p) = pr_engine p) as Hid
      by (unfold set_matcher; rewrite insert_id by done; by destruct (pr_engine p)).
    destruct (ch_buf (m_ch m)) as [|[i|] rest].
    - exists m. rewrite Hid, insert_id by done.
      destruct (ch_closed (m_ch m)); injection Hrun as _ <-; by injection Hrun1 as _ <-.
    - destruct (matchOrder _ _ _) as [[] ms|?|]; [|done|done].
      injection Hrun as _ <-. injection Hrun1 as _ <-. by eexists.
    - injection Hrun as _ <-. injection Hrun1 as _ <-. by eexists. }
  exists (<[code := m']> all). apply (put_inv own own all _ c j p); try done.
  - rewrite Heng. eapply moved_set; [done..|]. by rewrite Hcl.
  - rewrite <- Hw. unfold merged. rewrite <- Hms. rewrite <- Hst1 at 1. rewrite <- Hst2.
    destruct s1 as [[] ?]; simpl in *. by subst.
  - rewrite <- Hw, <- Hms. apply (wire_frame own all _ (c_heap c)); [apply Hinv|]. exact Hfr.
Qed.

Lemma run_cinv own all c j p fuel code t s' :
  c_inv own all c → c_procs c !! j = Some p → run fuel code (proc_state p c) = Ret t s' →
  ∃ all', c_inv own all' (put_state j s' c).
Proof.
  revert all c p. induction fuel as [|fuel IH]; intros all c p Hinv Hp Hrun; [done|].
  simpl in Hrun. unfold mbind, M_bind in Hrun.
  destruct (run_turn code (proc_state p c)) as [t1 s1|?|] eqn:Ht; [|done|done].
  destruct (turn_cinv own all c j p code t1 s1 Hinv Hp Ht) as (all1 & Hinv1).
  destruct t1; [|injection Hrun as _ <-; by exists all1..].
  destruct (proc_put j p c s1 Hp) as (p1 & Hp1 & Hs1 & _). rewrite <- Hs1 in Hrun.
  destruct (IH all1 _ p1 Hinv1 Hp1 Hrun) as (all2 & Hinv2). rewrite put_put in Hinv2. by exists all2.
Qed.

(** ** Starting and stopping a process *)
Lemma drain_cinv own all c j p codes s' :
  c_inv own all c → c_procs c !! j = Some p → drain_all codes (proc_state p c) = Ret () s' →
  ∃ all', c_inv own all' (put_state j s' c).
Proof.
  revert all c p. induction codes as [|code codes IH]; intros all c p Hinv Hp Hrun.
  { injection Hrun as <-. exists all. by rewrite put_same. }
  simpl in Hrun. unfold get, mbind, M_bind in Hrun.
  destruct (run (queue_fuel code (proc_state p c)) code (proc_state p c)) as [t1 s1|?|] eqn:Ht; [|done|done].
  destruct (run_cinv own all c j p _ code t1 s1 Hinv Hp Ht) as (all1 & Hinv1).
  destruct (proc_put j p c s1 Hp) as (p1 & Hp1 & Hs1 & _). rewrite <- Hs1 in Hrun.
  destruct (IH all1 _ p1 Hinv1 Hp1 Hrun) as (all2 & Hinv2). rewrite put_put in Hinv2. by exists all2.
Qed.

(** New flags, and new channels of a process that is stopping. *)
Lemma flags_cinv own all c j p st sp :
  c_inv own all c → c_procs c !! j = Some p → (sp = false → e_stopped (pr_engine p) = false) →
  c_inv own all (put_state j (mkES (mkEngine (e_matchers (pr_engine p)) st sp) (world_of p c)) c).
Proof.
  intros Hinv Hp Hsp. apply (put_inv own own all all c j p); try done; [|by eapply ci_sys, ci_bus|apply Hinv].
  split; simpl; try done.
  - intros code Ho. by eapply ci_mine.
  - intros code. by eapply ci_owner.
  - intros Hop. unfold all_open. simpl. intros ->. by apply Hop, Hsp.
Qed.

Lemma close_cinv own all c j p code m ch :
  c_inv own all c → c_procs c !! j = Some p → e_stopped (pr_engine p) = true →
  e_matchers (pr_engine p) !! code = Some m → chan_close (m_ch m) = Some ch →
  ∃ all', c_inv own all' (put_state j
    (mkES (set_matcher code (mkMatcher (m_stockCode m) (m_book m) ch) (pr_engine p)) (world_of p c)) c).
Proof.
  intros Hinv Hp Hst Hm Hch. set (m' := mkMatcher (m_stockCode m) (m_book m) ch).
  assert (all !! code = Some m) as Ham by (apply (ci_all _ _ _ Hinv); by exists j, p).
  pose proof (ci_sys _ _ _ Hinv p (ci_bus _ _ _ Hinv j p Hp)) as Hsys.
  exists (<[code := m']> all). apply (put_inv own own all _ c j p); try done.
  - eapply moved_set; [done..|]. congruence.
  - exact (close_one own _ code m ch Hsys eq_refl Ham Hch).
  - apply (wire_frame own all _ (c_heap c)); [apply Hinv|]. intros r _ Hun. split; [done|].
    unfold unknown. apply insert_forall; [|by intros; eapply Hun]. destruct (Hun code m Ham) as [Hq Hb].
    unfold chan_close in Hch. destruct (ch_closed (m_ch m)); [done|]. injection Hch as <-. done.
Qed.

Lemma close_all_cinv own all c j p l s' :
  NoDup l.*1 → (∀ code m, (code, m) ∈ l → e_matchers (pr_engine p) !! code = Some m) →
  e_stopped (pr_engine p) = true → c_inv own all c → c_procs c !! j = Some p →
  close_all l (proc_state p c) = Ret () s' → ∃ all', c_inv own all' (put_state j s' c).
Proof.
  revert all c p. induction l as [|[code m] l IH]; intros all c p Hnd Hl Hst Hinv Hp Hrun.
  { injection Hrun as <-. exists all. by rewrite put_same. }
  rewrite fmap_cons in Hnd. apply NoDup_cons in Hnd as [Hni Hnd]. simpl in Hrun, Hni.
  assert (e_matchers (pr_engine p) !! code = Some m) as Hm by (apply Hl, list_elem_of_here).
  destruct (chan_close (m_ch m)) as [ch|] eqn:Hch; [|done].
  destruct (close_cinv own all c j p code m ch Hinv Hp Hst Hm Hch) as (all1 & Hinv1).
  unfold mbind, M_bind, modify in Hrun. unfold proc_state in Hrun. cbn [es_engine es_world] in Hrun.
  match type of Hinv1 with c_inv _ _ (put_state _ ?s _) => set (s1 := s) in * end.
  destruct (proc_put j p c s1 Hp) as (p1 & Hp1 & Hs1 & He1).
  fold s1 in Hrun. rewrite <- Hs1 in Hrun.
  destruct (IH all1 (put_state j s1 c) p1 Hnd) as (all2 & Hinv2); try done;
    [|by rewrite He1|rewrite put_put in Hinv2; by exists all2].
  intros code' m' Hin. rewrite He1. simpl. rewrite lookup_insert_ne; [by apply Hl, list_elem_of_further|].
  intros ->. apply Hni, list_elem_of_fmap. by exists (code', m').
Qed.

Lemma stop_cinv own all c j p s' :
  c_inv own all c → c_procs c !! j = Some p → Stop (proc_state p c) = Ret () s' →
  ∃ all', c_inv own all' (put_state j s' c).
Proof.
  intros Hinv Hp. unfold Stop, get, modify, mbind, M_bind. cbn [es_engine proc_state].
  destruct (e_stopped (pr_engine p)) eqn:Hst; [intros [= <-]; exists all; by rewrite put_same|].
  set (s0 := mkES (mkEngine _ _ true) _).
  pose proof (flags_cinv own all c j p (e_started (pr_engine p)) true Hinv Hp ltac:(done)) as Hinv0.
  destruct (proc_put j p c s0 Hp) as (p0 & Hp0 & Hs0 & He0). rewrite <- Hs0.
  destruct (close_all _ (proc_state p0 _)) as [[] s1|?|] eqn:Hc; [|done|done]. intros Hrun.
  assert (∃ all1, c_inv own all1 (put_state j s1 (put_state j s0 c))) as (all1 & Hinv1).
  { eapply close_all_cinv; [apply NoDup_fst_map_to_list| |by rewrite He0|exact Hinv0|exact Hp0|exact Hc].
    intros code m Hin. rewrite He0. by apply elem_of_map_to_list in Hin. }
  rewrite put_put in Hinv1.
  destruct (e_started _); [|injection Hrun as <-; by exists all1].
  destruct (proc_put j p c s1 Hp) as (p1 & Hp1 & Hs1 & _). rewrite <- Hs1 in Hrun.
  destruct (drain_cinv own all1 _ j p1 _ s' Hinv1 Hp1 Hrun) as (all2 & Hinv2).
  rewrite put_put in Hinv2. by exists all2.
Qed.

(** ** Changes of the rest of a process, and of the wire *)
Lemma moved_refl own all c j p e :
  c_inv own all c → c_procs c !! j = Some p → e = pr_engine p → moved j (pr_engine p) e all all.
Proof.
  intros Hinv Hp ->. split; try done.
  - intros code Ho. by eapply ci_mine.
  - intros code. by eapply ci_owner.
Qed.

Lemma env_cinv own all c j p w' :
  c_inv own all c → c_procs c !! j = Some p → env_step (world_of p c) w' →
  c_inv own all (put_state j (mkES (pr_engine p) w') c).
Proof.
  intros Hinv Hp Henv. apply (put_inv own own all all c j p); try done.
  - by eapply moved_refl.
  - eapply rebus; [by eapply ci_sys, ci_bus|done].
  - simpl. rewrite (en_heap _ _ Henv). apply Hinv.
Qed.

Lemma wire_ids_app l1 l2 : wire_ids (l1 ++ l2) = wire_ids l1 ++ wire_ids l2.
Proof. apply omap_app. Qed.

Lemma wire_cinv own all c l :
  c_inv own all c → Forall (in_flight own all (c_heap c)) l → NoDup (wire_ids l) →
  c_inv own all (set_wire l c).
Proof. intros [] ? ?. by split. Qed.

Lemma taken_off own all c l1 x l2 :
  c_inv own all c → c_wire c = l1 ++ x :: l2 →
  c_inv own all (set_wire (l1 ++ l2) c) ∧ in_flight own all (c_heap c) x ∧
  ∀ o, unmarshal_order x.2 = Some o → Order.ID o ∉ wire_ids (l1 ++ l2).
Proof.
  intros Hinv Hw. pose proof (ci_wire _ _ _ Hinv) as Hf. pose proof (ci_once _ _ _ Hinv) as Hnd.
  rewrite Hw in Hf, Hnd. apply Forall_app in Hf as [H1 H2]. apply Forall_cons in H2 as [Hx H2].
  rewrite wire_ids_app in Hnd. change (x :: l2) with ([x] ++ l2) in Hnd. rewrite wire_ids_app in Hnd.
  pose proof Hx as (o & r & Hd & _). unfold wire_ids at 2 in Hnd. simpl in Hnd. rewrite Hd in Hnd. simpl in Hnd.
  rewrite <- Permutation_middle in Hnd. apply NoDup_cons in Hnd as [Hni Hnd]. rewrite <- wire_ids_app in Hni, Hnd.
  split_and!; [|done|intros o' Ho'; congruence].
  apply wire_cinv; [done|by apply Forall_app|done].
Qed.

Lemma wire_owned own all h l id :
  Forall (in_flight own all h) l → id ∈ wire_ids l →
  ∃ o r, Order.ID o = id ∧ own !! id = Some r ∧ h !! r = Some o ∧ unknown all r.
Proof.
  rewrite Forall_forall. intros Hl (x & Hx & Hid)%list_elem_of_omap.
  destruct (Hl x Hx) as (o & r & Hd & _ & _ & Ho & Hr & Hun). rewrite Hd in Hid. injection Hid as <-.
  by exists o, r.
Qed.

(** ** Queueing an order at its owner *)
Lemma SubmitOrder_eq r o (s : estate) :
  w_heap (es_world s) !! r = Some o →
  SubmitOrder r s =
  match e_matchers (es_engine s) !! Order.StockCode o with
  | None => Ret (Some (ErrOther ("unknown stock: " ++ Order.StockCode o))) s
  | Some m =>
      match submit (Some r) m with
      | None => Panic "send on closed channel" s
      | Some (true, m') =>
          Ret None (mkES (set_matcher (Order.StockCode o) m' (es_engine s)) (es_world s))
      | Some (false, _) =>
          Ret (Some (ErrOther ("order queue full for " ++ Order.StockCode o ++ ": backpressure"))) s
      end
  end.
Proof. intros Hr. unfold SubmitOrder. by rewrite (deref_Some _ _ _ Hr). Qed.

Lemma submit_cinv own all c j p r o e s' :
  c_inv own all c → c_procs c !! j = Some p → c_heap c !! r = Some o → order_wf o →
  own !! Order.ID o = Some r → unknown all r → Order.ID o ∉ wire_ids (c_wire c) →
  owns j (Order.StockCode o) → SubmitOrder r (proc_state p c) = Ret e s' →
  ∃ all', c_inv own all' (put_state j s' c).
Proof.
  intros Hinv Hp Hr Hwf Hown Hun Hnw Hj. set (code := Order.StockCode o) in *.
  pose proof (ci_sys _ _ _ Hinv p (ci_bus _ _ _ Hinv j p Hp)) as Hsys.
  pose proof (ci_mine own all c j p code Hinv Hp Hj) as Hcode.
  pose proof (SubmitOrder_eq r o (merged all (world_of p c)) Hr) as Hrun1.
  rewrite (SubmitOrder_eq r o) by exact Hr. fold code in Hrun1 |- *.
  cbn [es_engine merged proc_state e_matchers] in *. rewrite Hcode in Hrun1.
  destruct (e_matchers (pr_engine p) !! code) as [m|] eqn:Hm;
    [|intros [= _ <-]; exists all; by rewrite put_same].
  destruct (submit (Some r) m) as [[[] m']|] eqn:Hs; [| |done];
    [|intros [= _ <-]; exists all; by rewrite put_same].
  intros [= _ <-]. exists (<[code := m']> all).
  destruct (submit_inv own _ r o _ _ Hsys Hr Hwf Hown (λ m, Hun code m) Hrun1) as [Hsys1 _].
  unfold submit in Hs. destruct (chan_try_send (Some r) (m_ch m)) as [[b ch]|] eqn:Hsend; [|done].
  injection Hs as -> <-. destruct (chan_try_send_buf _ _ _ _ Hsend) as (_ & Hcl & _ & Hbuf).
  apply (put_inv own own all _ c j p); try done.
  - eapply moved_set; [done..|]. simpl. by rewrite Hcl.
  - apply Forall_forall. intros x Hx. pose proof (ci_wire _ _ _ Hinv) as Hw. rewrite Forall_forall in Hw.
    destruct (Hw x Hx) as (y & q & Hd & Hsub & Hy & Hoq & Hq & Hunq). exists y, q. split_and!; try done.
    unfold unknown. apply insert_forall; [|by intros; eapply Hunq].
    destruct (Hunq code m) as [H1 H2]; [by rewrite Hcode|]. split; [|done].
    unfold queued. cbn [m_ch]. rewrite Hbuf, omap_app, elem_of_app. intros [Hin|Hin]; [by apply H1|].
    apply list_elem_of_singleton in Hin as ->. apply Hnw, list_elem_of_omap. exists x. rewrite Hd. split; [done|].
    simpl. congruence.
Qed.

(** ** The owner takes a message *)
Lemma alloc_cinv own all c j p o r :
  c_inv own all c → c_procs c !! j = Some p → own !! Order.ID o = Some r → c_heap c !! r = Some o →
  unknown all r → Order.ID o ∉ wire_ids (c_wire c) →
  c_inv (<[Order.ID o := c_next c]> own) all
    (put_state j (mkES (pr_engine p) (alloc_world o (world_of p c))) c).
Proof.
  intros Hinv Hp Hown Hr Hun Hnw. pose proof (ci_sys _ _ _ Hinv p (ci_bus _ _ _ Hinv j p Hp)) as Hsys.
  apply (put_inv own _ all all c j p); try done.
  - by eapply moved_refl.
  - exact (move_inv own all _ o r Hsys Hown Hr Hun).
  - apply Forall_forall. intros x Hx. pose proof (ci_wire _ _ _ Hinv) as Hw. rewrite Forall_forall in Hw.
    destruct (Hw x Hx) as (y & q & Hd & Hsub & Hy & Hoq & Hq & Hunq). exists y, q. split_and!; try done.
    + rewrite lookup_insert_ne; [done|]. intros He. apply Hnw, list_elem_of_omap. exists x. rewrite Hd, He. done.
    + etrans; [exact (alloc_old own (merged all (world_of p c)) o q Hsys ltac:(eauto))|done].
Qed.

Lemma alloc_unknown own all w :
  sys_inv own (merged all w) → unknown all (w_next w).
Proof. intros Hinv code m Hm. by apply (fresh_unknown own (merged all w) code m). Qed.

Lemma deliver_cinv own all c j l1 subject data l2 c' :
  c_inv own all c → c_wire c = l1 ++ (subject, data) :: l2 →
  subject ∈ (engine_subscriptions (part j) (stockCodes stocks)).*1 →
  receive_at unmarshal_order j data (set_wire (l1 ++ l2) c) = Ret () c' →
  ∃ own' all', c_inv own' all' c'.
Proof.
  intros Hinv Hw Hsubj Hrun. destruct (taken_off own all c l1 _ l2 Hinv Hw) as (Hinv1 & Hfl & Hni).
  set (c1 := set_wire (l1 ++ l2) c) in *. destruct Hfl as (o & r & Hd & Hs & Hwf & Hown & Hr & Hun).
  simpl in Hd, Hs. rewrite Hs in Hsubj. apply subscribed_owner in Hsubj as [_ Hj].
  unfold receive_at, on_proc in Hrun. destruct (c_procs c1 !! j) as [p|] eqn:Hp; [|done].
  unfold engine_order_handler in Hrun. rewrite Hd in Hrun. unfold mbind, M_bind in Hrun.
  cbn [on_eworld alloc proc_state es_world es_engine] in Hrun.
  pose proof (ci_sys _ _ _ Hinv1 p (ci_bus _ _ _ Hinv1 j p Hp)) as Hsys.
  set (sa := mkES (pr_engine p) (alloc_world o (world_of p c1))).
  change (mkES (pr_engine p) _) with sa in Hrun.
  assert (c_inv (<[Order.ID o := c_next c1]> own) all (put_state j sa c1)) as Hinv2
    by (apply (alloc_cinv own all c1 j p o r); try done; by apply Hni).
  destruct (proc_put j p c1 sa Hp) as (p2 & Hp2 & Hs2 & _). rewrite <- Hs2 in Hrun.
  destruct (SubmitOrder _ _) as [e s1|?|] eqn:Hsub; [|done|done]. injection Hrun as <-.
  destruct (submit_cinv _ all (put_state j sa c1) j p2 (c_next c1) o e s1 Hinv2 Hp2) as (all2 & Hinv3); try done.
  - simpl. apply lookup_insert_eq.
  - apply lookup_insert_eq.
  - exact (alloc_unknown own all _ Hsys).
  - by apply Hni.
  - rewrite put_put in Hinv3. by eexists _, all2.
Qed.

(** ** A request at any process *)
Lemma on_proc_put {A} (m : M estate A) j p s c :
  c_procs c !! j = Some p →
  on_proc j m (put_state j s c) =
  match m s with
  | Ret a s' => Ret a (put_state j s' c)
  | Panic e s' => Panic e (put_state j s' c)
  | NoFuel => NoFuel
  end.
Proof.
  intros Hp. destruct (proc_put j p c s Hp) as (p1 & Hp1 & Hs & _). unfold on_proc. rewrite Hp1, Hs.
  by destruct (m s); rewrite ?put_put.
Qed.

Ltac proc_step Hp :=
  unfold mbind at 1, M_bind at 1; rewrite (on_proc_put _ _ _ _ _ Hp); cbn.

Definition saved_at (p : process) (o : Order.t) (r1 : OrderRepoT) c : estate :=
  mkES (pr_engine p) (saved_world (world_of p c) o r1).

Lemma create_at_eq j ok user req c p r1 :
  c_procs c !! j = Some p →
  let o := new_order user req (world_of p c) in
  or_Save o (c_orders c) = (r1, None) →
  create_at marshal total j ok user req c =
  (err ← submitter marshal total j ok (c_next c);
   match err with
   | Some _ => mret (inr (S (c_next c)))
   | None => on_proc j (on_eworld (publish (Event.mk OrderCreated (Order.StockCode o) (Order.UserID o)
               (POrder (S (c_next c))) (time_Now (c_ticks c)))));; mret (inr (S (c_next c)))
   end) (put_state j (saved_at p o r1 c) c).
Proof.
  intros Hp o Hsave. unfold o, new_order in Hsave. cbn in Hsave.
  unfold create_at, OrderService.CreateOrder, on_shared.
  rewrite <- (put_same j p c Hp) at 1. do 4 proc_step Hp.
  unfold deref. rewrite lookup_insert_eq. cbn.
  proc_step Hp. unfold on_eworld at 1, save_order, call_orders. cbn. rewrite Hsave.
  proc_step Hp. reflexivity.
Qed.

(** The submitter of process [j], where it owns the stock and where not. *)
Lemma submitter_eq j ok r o p s c :
  c_procs c !! j = Some p → w_heap (es_world s) !! r = Some o →
  submitter marshal total j ok r (put_state j s c) =
  if decide (owns j (Order.StockCode o)) then on_proc j (SubmitOrder r) (put_state j s c)
  else
    match marshal (VOrder o) with
    | Some data =>
        if ok then Ret None (set_wire (c_wire c ++ [(engine_subject (Order.StockCode o), data)]) (put_state j s c))
        else Ret (Some (ErrOther ("partition router: forward to " ++ engine_subject (Order.StockCode o))))
               (put_state j s c)
    | None => Ret (Some (ErrOther ("partition router: forward to " ++ engine_subject (Order.StockCode o))))
                (put_state j s c)
    end.
Proof.
  intros Hp Hr. unfold submitter, Router_SubmitOrder, on_shared. proc_step Hp.
  rewrite (deref_Some _ _ _ Hr). unfold owns.
  destruct (decide _) as [Ho|Hn]; [rewrite Ho; by destruct s as [? []]|].
  apply not_true_is_false in Hn. rewrite Hn. unfold publish_order, Publisher_Publish, mbind, M_bind.
  destruct s as [? []]. cbn. by destruct (marshal (VOrder o)); [destruct ok|].
Qed.

Lemma forward_cinv own all c o r data :
  c_inv own all c → order_wf o → own !! Order.ID o = Some r → c_heap c !! r = Some o → unknown all r →
  Order.ID o ∉ wire_ids (c_wire c) → marshal (VOrder o) = Some data →
  c_inv own all (set_wire (c_wire c ++ [(engine_subject (Order.StockCode o), data)]) c).
Proof.
  intros Hinv Hwf Hown Hr Hun Hnw Hm. apply order_json in Hm. apply wire_cinv; [done| |].
  - apply Forall_app. split; [apply Hinv|]. apply Forall_singleton. by exists o, r.
  - rewrite wire_ids_app. apply NoDup_app. split_and!; [apply Hinv| |].
    + intros id Hid Hin. unfold wire_ids in Hin. simpl in Hin. rewrite Hm in Hin. simpl in Hin.
      apply list_elem_of_singleton in Hin as ->. done.
    + unfold wire_ids. simpl. rewrite Hm. apply NoDup_singleton.
Qed.

Lemma saved_cinv own all c j p user req r1 :
  let o := new_order user req (world_of p c) in
  let c1 := put_state j (saved_at p o r1 c) c in
  c_inv own all c → c_procs c !! j = Some p → request_valid req → or_Save o (c_orders c) = (r1, None) →
  c_inv (<[Order.ID o := c_next c]> own) all c1 ∧ unknown all (c_next c) ∧
  (Order.ID o ∉ wire_ids (c_wire c)) ∧ order_wf o ∧ c_heap c1 !! c_next c = Some o.
Proof.
  intros o c1 Hinv Hp Hreq Hsave. pose proof (ci_sys _ _ _ Hinv p (ci_bus _ _ _ Hinv j p Hp)) as Hsys.
  pose proof (id_unused uuid_inj own _ Hsys) as Hnew. cbn [es_world merged] in Hnew.
  assert (order_wf o) as Hwf by (by apply new_order_wf). split_and!; try done.
  - apply (put_inv own _ all all c j p); try done; [by eapply moved_refl| |].
    + eapply (saved_inv uuid_inj own (merged all (world_of p c)) o); done.
    + apply Forall_forall. intros x Hx. pose proof (ci_wire _ _ _ Hinv) as Hw. rewrite Forall_forall in Hw.
      destruct (Hw x Hx) as (y & q & Hd & Hsub & Hy & Hoq & Hq & Hunq). exists y, q. split_and!; try done.
      * eapply lookup_weaken; [exact Hoq|]. by apply insert_subseteq.
      * etrans; [exact (heap_with_old own (merged all (world_of p c)) o q Hsys ltac:(eauto))|done].
  - exact (alloc_unknown own all _ Hsys).
  - intros Hin. destruct (wire_owned own all _ _ _ (ci_wire _ _ _ Hinv) Hin) as (y & q & _ & Hoq & _).
    assert (own !! Order.ID o = None) as Hnone by exact Hnew. congruence.
  - exact (heap_with_new (world_of p c) o).
Qed.

(** What follows the submission. *)
Lemma announced_cinv own all c j p ev c' :
  c_inv own all c → c_procs c !! j = Some p → on_proc j (on_eworld (publish ev)) c = Ret () c' →
  c_inv own all c'.
Proof.
  intros Hinv Hp. unfold on_proc. rewrite Hp. unfold on_eworld, publish. cbn [es_world proc_state].
  destruct (bus_open_publish ev (pr_bus p)) as (b & Hb & Hopen); [by eapply ci_bus|].
  cbn [w_bus world_of]. rewrite Hb. intros [= <-]. apply (env_cinv own all c j p); [done..|]. by split.
Qed.

Lemma create_cinv own all c j ok user req r c' :
  c_inv own all c → request_valid req → create_at marshal total j ok user req c = Ret r c' →
  ∃ own' all', c_inv own' all' c'.
Proof.
  intros Hinv Hreq Hrun. destruct (c_procs c !! j) as [p|] eqn:Hp; cycle 1.
  { unfold create_at, OrderService.CreateOrder, on_shared, mbind, M_bind, on_proc in Hrun. by rewrite Hp in Hrun. }
  pose proof (ci_sys _ _ _ Hinv p (ci_bus _ _ _ Hinv j p Hp)) as Hsys.
  set (o := new_order user req (world_of p c)).
  destruct (fresh_saved uuid_inj own _ o Hsys eq_refl) as [r1 Hsave].
  rewrite (create_at_eq j ok user req c p r1 Hp Hsave) in Hrun.
  destruct (saved_cinv own all c j p user req r1 Hinv Hp Hreq Hsave) as (Hinv1 & Hun & Hnw & Hwf & Hr).
  fold o in Hinv1, Hnw, Hwf, Hr. set (c1 := put_state j (saved_at p o r1 c) c) in *.
  set (own1 := <[Order.ID o := c_next c]> own) in *.
  assert (own1 !! Order.ID o = Some (c_next c)) as Hown by apply lookup_insert_eq.
  destruct (proc_put j p c (saved_at p o r1 c) Hp) as (p1 & Hp1 & Hs1 & _). fold c1 in Hp1, Hs1.
  assert (∀ e c2, submitter marshal total j ok (c_next c) c1 = Ret e c2 →
    (∃ all2, c_inv own1 all2 c2) ∧ is_Some (c_procs c2 !! j)) as Hsub.
  { intros e c2. unfold c1. rewrite (submitter_eq j ok (c_next c) o p _ c Hp Hr). fold c1.
    destruct (decide _) as [Hj|Hj].
    - unfold on_proc. rewrite Hp1. destruct (SubmitOrder _ _) as [e1 s1|?|] eqn:He; [|done|done].
      intros [= _ <-].
      destruct (submit_cinv own1 all c1 j p1 (c_next c) o e1 s1 Hinv1 Hp1 Hr Hwf Hown Hun Hnw Hj He) as (all2 & Hinv2).
      split; [by exists all2|]. destruct (proc_put j p1 c1 s1 Hp1) as (? & ? & _). eauto.
    - destruct (marshal (VOrder o)) as [data|] eqn:Hm; [destruct ok|]; intros [= _ <-]; (split; [|by exists p1]);
        [|by exists all..].
      exists all. exact (forward_cinv own1 all c1 o (c_next c) data Hinv1 Hwf Hown Hr Hun Hnw Hm). }
  fold o in Hrun. fold c1 in Hrun. unfold mbind, M_bind in Hrun.
  destruct (submitter _ _ _ _ _ c1) as [e c2|?|]; [|done|done].
  destruct (Hsub e c2 eq_refl) as [(all2 & Hinv2) (p2 & Hp2)].
  destruct e as [e|]; [injection Hrun as _ <-; by exists own1, all2|].
  destruct (on_proc _ _ c2) as [[] c3|?|] eqn:Hpub; [|done|done].
  injection Hrun as _ <-. exists own1, all2. by eapply announced_cinv.
Qed.

(** ** A crash: the process comes back with empty books *)
Lemma boot_matchers j mk b code m :
  e_matchers (pr_engine (boot total stocks j mk b)) !! code = Some m →
  m = newMatcher code ∧ owns j code.
Proof.
  intros Hm. simpl in Hm. split; [by apply foldl_insert_lookup in Hm as [->|Hm]|].
  assert (∀ (l : list Stock.t) (m0 : gmap string Matcher),
    is_Some (foldl (λ m s, <[Stock.Code s := newMatcher (Stock.Code s)]> m) m0 l !! code) →
    is_Some (m0 !! code) ∨ ∃ st, st ∈ l ∧ Stock.Code st = code) as Hdom.
  { induction l as [|st l IH]; intros m0 Hs; [by left|]. simpl in Hs. destruct (IH _ Hs) as [Hi|(st' & Hin & He)].
    - destruct (decide (Stock.Code st = code)) as [He|Hne];
        [right; exists st; split; [apply list_elem_of_here|done]|]. rewrite lookup_insert_ne in Hi by done. by left.
    - right. exists st'. split; [by apply list_elem_of_further|done]. }
  destruct (Hdom _ ∅ ltac:(by eexists)) as [[? He]|(st & Hst & <-)]; [by rewrite lookup_empty in He|].
  apply list_elem_of_filter in Hst as [Hin _]. by apply OwnedStocks_elem in Hin as [_ ?].
Qed.

Lemma new_matcher_ok own h code : matcher_ok own h code (newMatcher code).
Proof.
  split; [done|done|apply book_inv_empty|constructor|unfold chan_wf; simpl; lia| | |constructor].
  - by intros r ?%elem_of_nil.
  - by intros r ?%elem_of_nil.
Qed.

(** Matchers of any exchange can be replaced by ones that are sound. *)
Lemma replace_inv own all all' w :
  sys_inv own (merged all w) →
  (∀ code m, all' !! code = Some m → matcher_ok own (w_heap w) code m) → sys_inv own (merged all' w).
Proof. intros [] Hall. by split. Qed.

Lemma crash_cinv own all c j mk b :
  c_inv own all c → (j < length (c_procs c))%nat → bus_open b →
  ∃ all', c_inv own all' (mkC (c_heap c) (c_next c) (c_orders c) (c_trades c) (c_uuids c) (c_ticks c)
    (<[j := boot total stocks j mk b]> (c_procs c)) (c_wire c)).
Proof.
  intros Hinv Hj Hb. destruct (lookup_lt_is_Some_2 _ _ Hj) as [p Hp].
  set (q := boot total stocks j mk b). set (e := pr_engine q).
  set (all' := e_matchers e ∪ filter (λ x, ¬ owns j x.1) all).
  assert (∀ code, owns j code → all' !! code = e_matchers e !! code) as Hmine.
  { intros code Ho. apply option_eq. intros m. unfold all'. rewrite lookup_union_Some_raw, map_lookup_filter_Some.
    simpl. tauto. }
  assert (∀ code, ¬ owns j code → all' !! code = all !! code) as Hoth.
  { intros code Hn. assert (e_matchers e !! code = None) as He.
    { apply eq_None_not_Some. intros [m Hm]. by apply boot_matchers in Hm as [_ ?]. }
    apply option_eq. intros m. unfold all'. rewrite lookup_union_Some_raw, map_lookup_filter_Some, He. simpl.
    split; [by intros [?|(_ & ? & _)]|]. intros Hm. by right. }
  exists all'.
  apply (put_inv own own all all' c j p (mkES e (world_of q c))); try done.
  - split; [exact Hmine|exact Hoth| |].
    + intros code [m Hm]. by apply boot_matchers in Hm as [_ ?].
    + intros _ _ code m Hm. by apply boot_matchers in Hm as [-> _].
  - eapply replace_inv; [by apply (ci_sys _ _ _ Hinv)|]. intros code m Hm.
    destruct (decide (owns j code)) as [Ho|Hn].
    + rewrite (Hmine code Ho) in Hm. apply boot_matchers in Hm as [-> _]. apply new_matcher_ok.
    + rewrite (Hoth code Hn) in Hm.
      exact (si_matchers _ _ (ci_sys _ _ _ Hinv p (ci_bus _ _ _ Hinv j p Hp)) code m Hm).
  - apply (wire_frame own all _ (c_heap c)); [apply Hinv|]. intros r _ Hun. split; [done|].
    intros code m Hm. destruct (decide (owns j code)) as [Ho|Hn].
    + rewrite (Hmine code Ho) in Hm. apply boot_matchers in Hm as [-> _]. split; apply not_elem_of_nil.
    + rewrite (Hoth code Hn) in Hm. by apply (Hun code).
Qed.

(** ** Every step *)
Lemma cl_step_inv own all c c' :
  c_inv own all c → cl_step marshal unmarshal_order total stocks c c' → ∃ own' all', c_inv own' all' c'.
Proof.
  intros Hinv Hstep.
  destruct Hstep as [j ok user req r c' Hreq Hrun|j code t c' Hrun|j l1 subj data l2 c' Hw Hs Hrun
    |l1 x l2 Hw|j c' Hrun|j c' Hrun|j mk b Hj Hb|j p w' Hp Henv].
  - by eapply create_cinv.
  - unfold on_proc in Hrun. destruct (c_procs c !! j) as [p|] eqn:Hp; [|done].
    destruct (run_turn _ _) as [t1 s1|?|] eqn:Ht; [|done|done]. injection Hrun as _ <-.
    exists own. by eapply turn_cinv.
  - by eapply deliver_cinv.
  - exists own, all. by eapply taken_off.
  - unfold on_proc in Hrun. destruct (c_procs c !! j) as [p|] eqn:Hp; [|done]. injection Hrun as <-.
    exists own, all. by apply (flags_cinv own all c j p).
  - unfold on_proc in Hrun. destruct (c_procs c !! j) as [p|] eqn:Hp; [|done].
    destruct (Stop _) as [[] s1|?|] eqn:Ht; [|done|done]. injection Hrun as <-. exists own. by eapply stop_cinv.
  - exists own. by eapply crash_cinv.
  - exists own, all. by apply env_cinv.
Qed.
End Invariant.
