(* ===== verification/ClusterTheorems.v ===== *)
(** * What every reachable state of the cluster satisfies *)
From S2P Require Import Prelude GoLib Entity Repository MemoryRepo EventBus MemoryProofs.
From S2P Require Import EventBusProofs Book BookProofs Matcher MatcherLemmas MatchSpec MatcherProofs.
From S2P Require Import MatcherRefine MatchOrder Engine Validator Services System SystemProofs MemDeps.
From S2P Require Import SystemTheorems Partition Wiring Cluster ClusterProofs.

(** The identifiers of the orders a matcher has, queued or in its book. *)
Definition held {D : Deps} (h : heap) (m : Matcher) : list string :=
  (λ r, Order.ID (deref h r)) <$> queued m ++ refs (resting (m_book m)).

Section Theorems.
Context {D : Deps} `{!BusLaws BusT} `{!TradeRepositoryLaws TradeRepoT}
        `{!OrderRepositoryLaws OrderRepoT}.
Context {B : Type}.
Hypothesis uuid_inj : ∀ m n, uuid_NewString m = uuid_NewString n → m = n.
Variable marshal : PV → option B.
Variable unmarshal_order : B → option Order.t.
Hypothesis order_json : ∀ o data, marshal (VOrder o) = Some data → unmarshal_order data = Some o.
Variable total : nat.
Variable stocks : list Stock.t.

Local Abbreviation cstate := (@cstate D B).
Local Abbreviation cl_reachable := (cl_reachable marshal unmarshal_order total stocks).
Local Abbreviation boot_cluster := (boot_cluster (B := B) total stocks).
Local Abbreviation c_inv := (c_inv unmarshal_order total).

Definition union_of (l : list process) : gmap string Matcher :=
  foldr (λ p m, e_matchers (pr_engine p) ∪ m) ∅ l.

Lemma union_of_some (l : list process) code m :
  union_of l !! code = Some m → ∃ j p, l !! j = Some p ∧ e_matchers (pr_engine p) !! code = Some m.
Proof.
  induction l as [|p l IH]; [done|]. unfold union_of. simpl. rewrite lookup_union_Some_raw.
  intros [Hm|[_ Hm]]; [by exists 0%nat, p|]. destruct (IH Hm) as (j & q & ? & ?). by exists (S j), q.
Qed.

Lemma union_of_in (l : list process) j p code :
  l !! j = Some p → is_Some (e_matchers (pr_engine p) !! code) → is_Some (union_of l !! code).
Proof.
  revert j. induction l as [|q l IH]; intros j Hj Hc; [done|]. unfold union_of. simpl.
  rewrite lookup_union_is_Some. destruct j as [|j]; [injection Hj as ->; by left|]. right. by eapply IH.
Qed.

Lemma booted w mk b j p :
  c_procs (boot_cluster w mk b) !! j = Some p → p = boot total stocks j (mk j) (b j).
Proof.
  simpl. rewrite list_lookup_fmap. destruct (seq 0 total !! j) as [k|] eqn:Hk; [|done].
  apply lookup_seq in Hk as [-> _]. by intros [= <-].
Qed.

Lemma boot_inv w mk b :
  fresh_world w → (∀ j, bus_open (b j)) → ∃ all, c_inv ∅ all (boot_cluster w mk b).
Proof.
  intros [Hh Ho Hov Ht Htv _] Hb. set (c := boot_cluster w mk b).
  assert (∀ code m, union_of (c_procs c) !! code = Some m → m = newMatcher code) as Hnew.
  { intros code m (j & p & Hp & Hm)%union_of_some. rewrite (booted w mk b j p Hp) in Hm.
    by eapply boot_matchers in Hm as [-> _]. }
  exists (union_of (c_procs c)). split.
  - intros code m. split; [apply union_of_some|]. intros (j & p & Hp & Hm).
    destruct (union_of_in _ j p code Hp) as [m' Hm']; [by eexists|]. rewrite Hm'. f_equal.
    rewrite (Hnew _ _ Hm'). rewrite (booted w mk b j p Hp) in Hm. by eapply boot_matchers in Hm as [-> _].
  - intros j p code Hp [m Hm]. rewrite (booted w mk b j p Hp) in Hm. by eapply boot_matchers in Hm as [_ ?].
  - intros p Hp. apply (replace_inv ∅ ∅).
    + destruct (init_inv [] (world_of p c) Hh Ho Hov Ht Htv Hp). by split.
    + intros code m Hm. rewrite (Hnew _ _ Hm). eapply new_matcher_ok.
  - intros j p Hp. rewrite (booted w mk b j p Hp). apply Hb.
  - intros j p Hp _ code m Hm. rewrite (booted w mk b j p Hp) in Hm. by eapply boot_matchers in Hm as [-> _].
  - constructor.
  - constructor.
Qed.

Lemma cl_reachable_inv w mk b c :
  fresh_world w → (∀ j, bus_open (b j)) → cl_reachable (boot_cluster w mk b) c →
  ∃ own all, c_inv own all c.
Proof.
  intros Hw Hb Hr. induction Hr as [|c c' _ (own & all & Hinv) Hstep].
  - destruct (boot_inv w mk b Hw Hb) as [all ?]. by exists ∅, all.
  - by eapply cl_step_inv.
Qed.

Lemma held_owned own (s : estate) code m id :
  sys_inv own s → e_matchers (es_engine s) !! code = Some m → id ∈ held (w_heap (es_world s)) m →
  ∃ r o, own !! id = Some r ∧ w_heap (es_world s) !! r = Some o ∧ Order.StockCode o = code ∧
    r ∈ queued m ++ refs (resting (m_book m)).
Proof.
  intros Hinv Hm (r & -> & Hr)%list_elem_of_fmap. pose proof (si_matchers _ _ Hinv code m Hm) as Hmo.
  exists r. pose proof Hr as Hr'. apply elem_of_app in Hr as [Hq|Hb].
  - destruct (mo_queue _ _ _ _ Hmo r Hq) as (o & Ho & _ & Hown & Hc). exists o.
    by rewrite (deref_Some _ _ _ Ho).
  - destruct (mo_resting _ _ _ _ Hmo r Hb) as [(o & Ho & Hown) Hc]. exists o.
    rewrite (deref_Some _ _ _ Ho) in *. done.
Qed.

Lemma held_nodup own (s : estate) code m :
  sys_inv own s → e_matchers (es_engine s) !! code = Some m → NoDup (held (w_heap (es_world s)) m).
Proof.
  intros Hinv Hm. pose proof (si_matchers _ _ Hinv code m Hm) as Hmo. unfold held.
  apply NoDup_fmap_2_strong; [|apply Hmo]. intros r1 r2 H1 H2 He.
  assert (∀ r, r ∈ queued m ++ refs (resting (m_book m)) →
    own !! Order.ID (deref (w_heap (es_world s)) r) = Some r) as Hown.
  { intros r [Hq|Hb]%elem_of_app.
    - destruct (mo_queue _ _ _ _ Hmo r Hq) as (o & Ho & _ & Hown & _). by rewrite (deref_Some _ _ _ Ho).
    - destruct (mo_resting _ _ _ _ Hmo r Hb) as [(o & Ho & Hown) _]. by rewrite (deref_Some _ _ _ Ho). }
  apply Hown in H1, H2. congruence.
Qed.

(** C17. An order is in one place of the cluster at most.  Whatever the
    interleaving of requests at any instance, matcher turns, deliveries and
    losses of messages, starts, stops and crashes, no order is on the wire
    twice; none on the wire is queued or resting anywhere; a matcher runs only
    on the instance that owns its stock and holds no order twice; and no two
    matchers of the cluster hold the same order. *)
Theorem cluster_orders_once w mk b c :
  fresh_world w → (∀ j, bus_open (b j)) → cl_reachable (boot_cluster w mk b) c →
  let held_at j code l := ∃ p m, c_procs c !! j = Some p ∧ e_matchers (pr_engine p) !! code = Some m ∧
                            l = held (c_heap c) m in
  NoDup (wire_ids unmarshal_order (c_wire c)) ∧
  (∀ j code l, held_at j code l →
     OwnsStock (part total j) code = true ∧ NoDup l ∧
     ∀ id, id ∈ l → id ∉ wire_ids unmarshal_order (c_wire c)) ∧
  (∀ j code l j' code' l' id, held_at j code l → held_at j' code' l' → id ∈ l → id ∈ l' →
     j = j' ∧ code = code').
Proof.
  intros Hw Hb Hr held_at. destruct (cl_reachable_inv w mk b c Hw Hb Hr) as (own & all & Hinv).
  set (s := merged all (world_of (boot total stocks 0 (mk 0%nat) (b 0%nat)) c)).
  assert (sys_inv own s) as Hsys by (apply (ci_sys _ _ _ _ _ Hinv); apply Hb).
  assert (∀ j code l, held_at j code l → owns total j code ∧ ∃ m, all !! code = Some m ∧ l = held (c_heap c) m)
    as Hat.
  { intros j code l (p & m & Hp & Hm & ->). split; [eapply ci_owner; [done..|by eexists]|].
    exists m. split; [|done]. apply (ci_all _ _ _ _ _ Hinv). by exists j, p. }
  split_and!; [apply (ci_once _ _ _ _ _ Hinv)| |].
  - intros j code l (Ho & m & Hm & ->)%Hat. split_and!; [done|exact (held_nodup own s code m Hsys Hm)|].
    intros id Hid Hwi. destruct (held_owned own s code m id Hsys Hm Hid) as (r & o & Hown & _ & _ & Hin).
    destruct (wire_owned _ _ _ _ _ _ (ci_wire _ _ _ _ _ Hinv) Hwi) as (o' & r' & _ & Hown' & _ & Hun).
    assert (r' = r) as -> by congruence. destruct (Hun code m Hm). by apply elem_of_app in Hin as [?|?].
  - intros j code l j' code' l' id (Ho & m & Hm & ->)%Hat (Ho' & m' & Hm' & ->)%Hat H1 H2.
    destruct (held_owned own s code m id Hsys Hm H1) as (r & o & Hown & Hr1 & <- & _).
    destruct (held_owned own s code' m' id Hsys Hm' H2) as (r' & o' & Hown' & Hr2 & <- & _).
    assert (r' = r) as -> by congruence. assert (o' = o) as -> by congruence.
    split; [by eapply owns_inj|done].
Qed.


Lemma forward_outcome own all c j p user req data :
  c_inv own all c → c_procs c !! j = Some p → request_valid req →
  let o := new_order user req (world_of p c) in
  ¬ owns total j (Order.StockCode o) → marshal (VOrder o) = Some data →
  ∃ c', create_at marshal total j true user req c = Ret (inr (S (c_next c))) c' ∧
    c_wire c' = c_wire c ++ [(engine_subject (Order.StockCode o), data)] ∧
    or_FindByID (Order.ID o) (c_orders c') = inr o ∧ c_heap c' !! S (c_next c) = Some o.
Proof.
  intros Hinv Hp Hreq o Hn Hm. pose proof (ci_sys _ _ _ _ _ Hinv p (ci_bus _ _ _ _ _ Hinv j p Hp)) as Hsys.
  destruct (fresh_saved uuid_inj own _ o Hsys eq_refl) as [r1 Hsave].
  destruct (saved_view own _ o r1 Hsys Hsave) as [Hor Hview].
  rewrite (create_at_eq marshal total j true user req c p r1 Hp Hsave). fold o.
  unfold mbind, M_bind.
  rewrite (submitter_eq marshal total j true (c_next c) o p (saved_at p o r1 c) c Hp (heap_with_new (world_of p c) o)).
  rewrite decide_False by exact Hn. rewrite Hm.
  destruct (proc_put j p c (saved_at p o r1 c) Hp) as (p1 & Hp1 & Hs1 & _).
  unfold on_proc. cbn [c_procs set_wire]. rewrite Hp1. unfold on_eworld, publish.
  change (proc_state p1 (set_wire _ _)) with (proc_state p1 (put_state j (saved_at p o r1 c) c)). rewrite Hs1.
  cbn [es_world saved_at saved_world w_bus world_of].
  destruct (bus_open_publish (Event.mk OrderCreated (Order.StockCode o) (Order.UserID o)
    (POrder (S (c_next c))) (time_Now (c_ticks c))) (pr_bus p)) as (b' & Hb' & _); [by eapply ci_bus|].
  rewrite Hb'. eexists. split; [done|]. split_and!; [done| |].
  - simpl. by rewrite or_FindByID_law, Hview, lookup_insert_eq.
  - simpl. unfold heap_with. apply lookup_insert_eq.
Qed.

Lemma delivery_outcome c k p m o data :
  c_procs c !! k = Some p → unmarshal_order data = Some o →
  e_matchers (pr_engine p) !! Order.StockCode o = Some m → ch_closed (m_ch m) = false →
  (length (ch_buf (m_ch m)) < ch_cap (m_ch m))%nat →
  ∃ c' p' m', receive_at unmarshal_order k data c = Ret () c' ∧ c_wire c' = c_wire c ∧
    c_procs c' !! k = Some p' ∧ e_matchers (pr_engine p') !! Order.StockCode o = Some m' ∧
    ch_buf (m_ch m') = ch_buf (m_ch m) ++ [Some (c_next c)] ∧ m_book m' = m_book m ∧
    c_heap c' !! c_next c = Some o.
Proof.
  intros Hp Hd Hm Hcl Hroom.
  destruct (engine_order_handler_queues unmarshal_order data o m (proc_state p c) Hd Hm Hcl Hroom)
    as (s' & r & m' & Hrun & -> & Hh & Hms & Hbuf & Hbook).
  unfold receive_at, on_proc. rewrite Hp, Hrun. destruct (proc_put k p c s' Hp) as (p' & Hp' & _ & He).
  eexists _, p', m'. split; [done|]. split_and!; try done.
  - rewrite He, Hms. apply lookup_insert_eq.
  - simpl. rewrite Hh. apply lookup_insert_eq.
Qed.

(** C19. A forwarded order reaches its owner.  In every reachable state of the
    cluster a valid request for a stock of another instance, when NATS takes
    the message, is answered with the order, which is stored and put on the
    wire once; and every message on the wire is an order whose subject has a
    subscriber exactly on the instance that owns its stock, where, while that
    instance is not stopping, the callback returns, the message is gone and a
    copy of the order is the last of the queue, provided the queue has room. *)
Theorem cluster_forwards_to_owner w mk b c :
  fresh_world w → (∀ j, bus_open (b j)) → cl_reachable (boot_cluster w mk b) c →
  (∀ j p user req data, c_procs c !! j = Some p → request_valid req →
     let o := new_order user req (world_of p c) in
     OwnsStock (part total j) (Order.StockCode o) = false → marshal (VOrder o) = Some data →
     ∃ c', create_at marshal total j true user req c = Ret (inr (S (c_next c))) c' ∧
       c_wire c' = c_wire c ++ [(engine_subject (Order.StockCode o), data)] ∧
       or_FindByID (Order.ID o) (c_orders c') = inr o ∧ c_heap c' !! S (c_next c) = Some o) ∧
  (∀ l1 subject data l2, c_wire c = l1 ++ (subject, data) :: l2 →
     ∃ o, unmarshal_order data = Some o ∧
       (∀ j, subject ∈ (engine_subscriptions (part total j) (stockCodes stocks)).*1 ↔
          Order.StockCode o ∈ stockCodes stocks ∧ OwnsStock (part total j) (Order.StockCode o) = true) ∧
       ∀ k p m, c_procs c !! k = Some p → e_stopped (pr_engine p) = false →
         e_matchers (pr_engine p) !! Order.StockCode o = Some m →
         (length (ch_buf (m_ch m)) < ch_cap (m_ch m))%nat →
         ∃ c' p' m', receive_at unmarshal_order k data (set_wire (l1 ++ l2) c) = Ret () c' ∧
           c_wire c' = l1 ++ l2 ∧ c_procs c' !! k = Some p' ∧
           e_matchers (pr_engine p') !! Order.StockCode o = Some m' ∧
           ch_buf (m_ch m') = ch_buf (m_ch m) ++ [Some (c_next c)] ∧ m_book m' = m_book m ∧
           c_heap c' !! c_next c = Some o).
Proof.
  intros Hw Hb Hr. destruct (cl_reachable_inv w mk b c Hw Hb Hr) as (own & all & Hinv). split.
  - intros j p user req data Hp Hreq o Hn. apply (forward_outcome own all); try done.
    unfold owns. fold o. by rewrite Hn.
  - intros l1 subject data l2 Hwire.
    destruct (taken_off _ _ _ _ _ _ _ _ Hinv Hwire) as (_ & (o & r & Hd & Hs & _) & _). simpl in Hd, Hs.
    exists o. split_and!; [done|intros j; rewrite Hs; apply subscribed_owner|].
    intros k p m Hp Hst Hm Hroom. apply (delivery_outcome (set_wire (l1 ++ l2) c) k p m o data); try done.
    exact (ci_open _ _ _ _ _ Hinv k p Hp Hst _ m Hm).
Qed.
End Theorems.

(** ** Three instances: BBCA is matched on one, its orders arrive at others *)
Module ClusterDemo.
Definition un (v : PV) : option Order.t := match v with VOrder o => Some o | _ => None end.
Definition own_of (code : string) : nat := Z.to_nat (OwnerIndex code 3).
Definition k : nat := own_of "BBCA".
Definition j : nat := (3 - k - (if (k =? 1)%nat then 2 else 1))%nat.
Local Abbreviation st := (@cstate mem_deps PV).
Local Abbreviation step := (cl_step (B := PV) Some un 3 DefaultStocks).
Local Abbreviation reach := (cl_reachable (B := PV) Some un 3 DefaultStocks).

Definition c0 : st :=
  boot_cluster 3 DefaultStocks SystemDemo.world0 (λ _, w_market SystemDemo.world0) (λ _, NewEventBus).
Definition c1 : st := state_of c0 (on_proc k Engine.Start c0).
Definition request (user : string) (req : CreateOrderRequest.t) (c : st) : st :=
  state_of c (create_at Some 3 j true user req c).
Definition deliver (c : st) : st :=
  match c_wire c with
  | (_, data) :: l => state_of c (receive_at un k data (set_wire l c))
  | [] => c
  end.
Definition turn (c : st) : st := state_of c (on_proc k (run_turn "BBCA") c).
Definition c2 : st := request "alice" SystemDemo.sell c1.
Definition c3 : st := turn (deliver c2).
Definition c4 : st := request "bob" SystemDemo.buy c3.
Definition c5 : st := turn (deliver c4).
Definition c6 : st := request "carol" SystemDemo.buy c5.

Lemma bus0 (n : nat) : bus_open (NewEventBus : BusT).
Proof. apply (fw_bus _ SystemDemo.fresh0). Qed.

Lemma reach_request user req c :
  request_valid req → is_ret (create_at Some 3 j true user req c) = true → reach c0 c → reach c0 (request user req c).
Proof.
  intros Hreq Hret Hc. destruct (is_ret_state c _ Hret) as [r Hr].
  apply (clr_step _ _ _ _ c0 c); [exact Hc|]. by eapply cl_create.
Qed.

Lemma reach_turn c : is_ret (on_proc k (run_turn "BBCA") c) = true → reach c0 c → reach c0 (turn c).
Proof.
  intros Hret Hc. destruct (is_ret_state c _ Hret) as [r Hr].
  apply (clr_step _ _ _ _ c0 c); [exact Hc|]. by eapply cl_turn.
Qed.

Definition deliverable (c : st) : bool :=
  match c_wire c with
  | (subject, data) :: l =>
      bool_decide (subject ∈ (engine_subscriptions (part 3 k) (stockCodes DefaultStocks)).*1) &&
      is_ret (receive_at un k data (set_wire l c))
  | [] => false
  end.

Lemma reach_deliver c : deliverable c = true → reach c0 c → reach c0 (deliver c).
Proof.
  unfold deliverable, deliver. destruct (c_wire c) as [|[subject data] l] eqn:Hw; [done|].
  intros [Hs%bool_decide_eq_true Hret]%andb_true_iff Hc. destruct (is_ret_state c _ Hret) as [[] Hr].
  apply (clr_step _ _ _ _ c0 c); [exact Hc|]. by eapply (cl_deliver _ _ _ _ c k [] subject data l).
Qed.

Lemma cluster_reach1 : reach c0 c1.
Proof.
  destruct (is_ret_state c0 (on_proc k Engine.Start c0)) as [[] Hr]; [vm_compute; reflexivity|].
  apply (clr_step _ _ _ _ c0 c0); [apply clr_init|]. by eapply cl_start.
Qed.

Lemma cluster_reach6 : reach c0 c6.
Proof.
  apply reach_request; [exact SystemDemo.valid_buy|vm_compute; reflexivity|].
  apply reach_turn; [vm_compute; reflexivity|]. apply reach_deliver; [vm_compute; reflexivity|].
  apply reach_request; [exact SystemDemo.valid_buy|vm_compute; reflexivity|].
  apply reach_turn; [vm_compute; reflexivity|]. apply reach_deliver; [vm_compute; reflexivity|].
  apply reach_request; [exact SystemDemo.valid_sell|vm_compute; reflexivity|]. exact cluster_reach1.
Qed.

Lemma json (o : Order.t) (data : PV) : Some (VOrder o) = Some data → un data = Some o.
Proof. by intros [= <-]. Qed.

Definition stored (id : string) (c : st) : Order.t :=
  match or_FindByID id (c_orders c) with inr o => o | inl _ => Order.zero end.

(** The process and the matcher of BBCA. *)
Definition owner (c : st) : process :=
  default (boot 3 DefaultStocks k (w_market SystemDemo.world0) NewEventBus) (c_procs c !! k).
Definition bbca (c : st) : Matcher :=
  default (newMatcher "BBCA") (e_matchers (pr_engine (owner c)) !! "BBCA").

Lemma bbca_at c :
  bool_decide (is_Some (c_procs c !! k)) && bool_decide (is_Some (e_matchers (pr_engine (owner c)) !! "BBCA")) = true →
  c_procs c !! k = Some (owner c) ∧ e_matchers (pr_engine (owner c)) !! "BBCA" = Some (bbca c).
Proof.
  intros [[p Hp]%bool_decide_eq_true [m Hm]%bool_decide_eq_true]%andb_true_iff. unfold bbca. rewrite Hm.
  split; [|done]. unfold owner. by rewrite Hp.
Qed.

Lemma cluster_orders_once_witness :
  held (c_heap c6) (bbca c6) = ["0"%string] ∧ wire_ids un (c_wire c6) = ["3"%string] ∧
  OwnsStock (part 3 k) "BBCA" = true ∧ ("0"%string ∉ wire_ids un (c_wire c6)).
Proof.
  assert (held (c_heap c6) (bbca c6) = ["0"%string]) as Hh by (vm_compute; reflexivity).
  split; [exact Hh|]. split; [vm_compute; reflexivity|].
  destruct (cluster_orders_once mem_uuid_inj Some un json 3 DefaultStocks SystemDemo.world0 _ _ c6
    SystemDemo.fresh0 bus0 cluster_reach6) as (_ & Hat & _).
  destruct (bbca_at c6) as [Hp Hm]; [vm_compute; reflexivity|].
  destruct (Hat k "BBCA"%string _ (ex_intro _ _ (ex_intro _ _ (conj Hp (conj Hm eq_refl))))) as (Ho & _ & Hn).
  split; [exact Ho|]. apply Hn. rewrite Hh. apply list_elem_of_here.
Defined.


Lemma cluster_forwards_to_owner_witness :
  ∃ c' p' m', deliver c6 = c' ∧ c_procs c' !! k = Some p' ∧
    e_matchers (pr_engine p') !! "BBCA" = Some m' ∧ ch_buf (m_ch m') = [Some (c_next c6)].
Proof.
  destruct (cluster_forwards_to_owner mem_uuid_inj Some un json 3 DefaultStocks SystemDemo.world0 _ _ c6
    SystemDemo.fresh0 bus0 cluster_reach6) as [_ Hdel].
  destruct (c_wire c6) as [|[subject data] l] eqn:Hw; [vm_compute in Hw; discriminate Hw|].
  destruct (Hdel [] subject data l eq_refl) as (o & Hd & _ & Hrecv).
  destruct (bbca_at c6) as [Hp Hm]; [vm_compute; reflexivity|].
  assert (Order.StockCode o = "BBCA"%string) as Ho.
  { assert (Order.StockCode <$> ((snd <$> head (c_wire c6)) ≫= un) = Some "BBCA"%string) as Hc
      by (vm_compute; reflexivity).
    rewrite Hw in Hc. simpl in Hc. rewrite Hd in Hc. by injection Hc. }
  destruct (Hrecv k (owner c6) (bbca c6)) as (c' & p' & m' & Hrun & _ & Hp' & Hm' & Hbuf & _).
  - exact Hp.
  - vm_compute. reflexivity.
  - rewrite Ho. exact Hm.
  - apply Nat.ltb_lt. vm_compute. reflexivity.
  - exists c', p', m'. split; [unfold deliver; rewrite Hw; simpl in Hrun; by rewrite Hrun|].
    split; [exact Hp'|]. split; [rewrite <- Ho; exact Hm'|]. rewrite Hbuf.
    assert (ch_buf (m_ch (bbca c6)) = []) as -> by (vm_compute; reflexivity). reflexivity.
Defined.
End ClusterDemo.
