(* ===== verification/CacheTheorems.v ===== *)
(** * The Redis cache in front of the market data

    [wireEvents] writes the tickers and books that events carry to Redis, where
    they expire, and the market service reads Redis before the repository
    ([internal/infra/storage/redis/cache.go], [internal/app/market]). *)
From S2P Require Import Prelude GoLib Entity Repository Book Matcher MemDeps Engine Services.
From S2P Require Import Hub DBWorker Wiring.

(** What the handlers write for an event: key, value and lifetime. *)
Definition cached (e : Event.t) : option (string * PV * Z) :=
  match Event.Pl e with
  | PTicker t =>
      if (Event.Ty e =? TickerUpdated)%string then Some (tickerKey (Event.StockCode e), VTicker t, tickerTTL) else None
  | PBook b =>
      if (Event.Ty e =? OrderBookUpdated)%string
      then Some (orderBookKey (Event.StockCode e), VBook b, orderBookTTL) else None
  | _ => None
  end.

(** The values events have for a key, and the tickers and books of a stock. *)
Definition written (key : string) (evs : list Event.t) : list PV :=
  omap (λ e, '(k, v, _) ← cached e; if bool_decide (k = key) then Some v else None) evs.
Definition tickers (code : string) (evs : list Event.t) : list Ticker.t :=
  omap (λ v, match v with VTicker t => Some t | _ => None end) (written (tickerKey code) evs).
Definition books (code : string) (evs : list Event.t) : list OrderBook.t :=
  omap (λ v, match v with VBook b => Some b | _ => None end) (written (orderBookKey code) evs).

Lemma written_snoc key evs e :
  written key (evs ++ [e]) =
  written key evs ++ match cached e with Some (k, v, _) => if bool_decide (k = key) then [v] else [] | None => [] end.
Proof.
  unfold written. rewrite omap_app. f_equal. simpl. destruct (cached e) as [[[k v] ttl]|]; simpl; [|done].
  by case_bool_decide.
Qed.

(** A key is of one stock and one kind. *)
Lemma written_ticker code evs : Forall (λ v, ∃ t, v = VTicker t) (written (tickerKey code) evs).
Proof.
  apply Forall_forall. intros v. unfold written. rewrite list_elem_of_omap. intros (e & _ & He). revert He.
  unfold cached. destruct (Event.Pl e) as [|x|t|b]; simpl; try done; destruct (_ =? _)%string; simpl; try done;
    case_bool_decide as Hk; try done; intros [= <-]. by eexists.
Qed.
Lemma written_book code evs : Forall (λ v, ∃ b, v = VBook b) (written (orderBookKey code) evs).
Proof.
  apply Forall_forall. intros v. unfold written. rewrite list_elem_of_omap. intros (e & _ & He). revert He.
  unfold cached. destruct (Event.Pl e) as [|x|t|b]; simpl; try done; destruct (_ =? _)%string; simpl; try done;
    case_bool_decide as Hk; try done; intros [= <-]. by eexists.
Qed.

Lemma last_omap {A B} (f : A → option B) l x y : last l = Some x → f x = Some y → last (omap f l) = Some y.
Proof.
  intros [l' ->]%last_Some Hf. rewrite omap_app. simpl. rewrite Hf. apply last_snoc.
Qed.

Section Cache.
Context {B N Rd : Type}.
Variable marshal_msg : @ServerMessage PV → option B.
Variable marshal : PV → option B.
Variable unmarshal_ticker : B → option Ticker.t.
Variable unmarshal_book : B → option OrderBook.t.
Variable nats_publish : string → B → N → N * option string.
Variable redis_publish : string → B → Rd → Rd * option string.
Variable redis_set : string → B → Z → Rd → Rd * option string.
Variable redis_get : string → Rd → string + option B.
Local Abbreviation handle := (handle_event marshal_msg marshal nats_publish redis_publish redis_set).
Local Abbreviation set := (cache_set marshal redis_set).
Local Abbreviation cache := (market_cache unmarshal_ticker unmarshal_book redis_get).

Lemma handle_event_cache h e (s : @sinks B N Rd) :
  sk_cache (handle h e s) =
  (λ r, match cached e with Some (k, v, ttl) => (set k v ttl r).1 | None => r end) <$> sk_cache s.
Proof.
  assert (∀ subject ch v (s : @sinks B N Rd),
    sk_cache (fan_out marshal nats_publish redis_publish subject ch v s) = sk_cache s) as Hf
    by (intros; unfold fan_out; by repeat case_match).
  destruct e as [ty code user p ts]. unfold handle_event, wireEvents, cached. cbn [foldl fst snd Event.Ty Event.Pl].
  unfold on_trade, on_ticker, on_orderbook, on_created, on_updated. cbn [Event.Pl Event.StockCode].
  assert (∀ s : @sinks B N Rd, sk_cache s = (λ r, r) <$> sk_cache s) as Hid by (intros s'; by destruct (sk_cache s')).
  destruct (String.eqb_spec ty TradeExecuted) as [->|H1]; [destruct p; cbn; rewrite ?Hf; apply (Hid s)|].
  destruct (String.eqb_spec ty TickerUpdated) as [->|H2]; [destruct p; cbn; rewrite ?Hf; done || apply (Hid s)|].
  destruct (String.eqb_spec ty OrderBookUpdated) as [->|H3]; [destruct p; cbn; rewrite ?Hf; done || apply (Hid s)|].
  destruct (String.eqb_spec ty OrderCreated) as [->|H4]; [destruct p; cbn; rewrite ?Hf; apply (Hid s)|].
  destruct (String.eqb_spec ty OrderUpdated) as [->|H5]; [destruct p; cbn; rewrite ?Hf; apply (Hid s)|].
  rewrite !(proj2 (String.eqb_neq _ ty)) by congruence. destruct p; apply Hid.
Qed.

(** The documented behaviour of Redis, by the unexpired value of each key: a
    reading that succeeds gives it, a successful write replaces it, a failed
    one may have done so, and no other key is touched. *)
Class RedisLaws (held : Rd → string → option B) : Prop := {
  rl_get key r x : redis_get key r = inr x → x = held r key;
  rl_set key data ttl r k :
    let '(r', err) := redis_set key data ttl r in
    held r' k = (if bool_decide (k = key) then Some data else held r k) ∨ (err ≠ None ∧ held r' k = held r k);
}.

Context (held : Rd → string → option B) `{!RedisLaws held}.

(** Handlers run one event after the other; in between values expire and the
    rest of the program goes on. *)
Inductive handled (s0 : @sinks B N Rd) : list Event.t → @sinks B N Rd → Prop :=
| hd_start : handled s0 [] s0
| hd_event evs s h e : handled s0 evs s → handled s0 (evs ++ [e]) (handle h e s)
| hd_env evs s s' r r' :
    handled s0 evs s → sk_cache s = Some r → sk_cache s' = Some r' →
    (∀ k, held r' k = None ∨ held r' k = held r k) → handled s0 evs s'.

(** No write fails. *)
Definition reliable : Prop :=
  (∀ v, is_Some (marshal v)) ∧ (∀ key data ttl r, (redis_set key data ttl r).2 = None).

Definition fresh (evs : list Event.t) (r : Rd) : Prop :=
  ∀ k data, held r k = Some data →
    ∃ v, marshal v = Some data ∧ v ∈ written k evs ∧ (reliable → last (written k evs) = Some v).

Lemma fresh_set evs r e : fresh evs r →
  fresh (evs ++ [e]) (match cached e with Some (k, v, ttl) => (set k v ttl r).1 | None => r end).
Proof.
  intros Hf k data Hk. rewrite written_snoc. destruct (cached e) as [[[key v] ttl]|]; [|by rewrite app_nil_r; auto].
  unfold cache_set in Hk. destruct (marshal v) as [d|] eqn:Hm.
  - pose proof (rl_set key d ttl r k) as Hset. destruct (redis_set key d ttl r) as [r' err] eqn:Hr.
    assert (held r' k = Some data) as Hk' by (by destruct err). clear Hk.
    destruct (decide (k = key)) as [->|Hne].
    + rewrite bool_decide_eq_true_2 in Hset |- * by done. destruct Hset as [Hs|[He Hs]].
      * exists v. split_and!; [congruence|apply elem_of_app; right; by apply list_elem_of_singleton|].
        intros _. apply last_snoc.
      * rewrite Hs in Hk'. destruct (Hf _ _ Hk') as (v' & Hm' & Hin & _). exists v'.
        split_and!; [done|apply elem_of_app; by left|]. intros [_ Hrel]. destruct He.
        pose proof (Hrel key d ttl r) as H. by rewrite Hr in H.
    + rewrite bool_decide_eq_false_2 in Hset by done. rewrite bool_decide_eq_false_2, app_nil_r by done.
      apply Hf. by destruct Hset as [<-|[_ <-]].
  - destruct (Hf _ _ Hk) as (v' & Hm' & Hin & Hl). exists v'. case_bool_decide; [|by rewrite app_nil_r].
    split_and!; [done|apply elem_of_app; by left|]. intros [Hmar _]. destruct (Hmar v). congruence.
Qed.

Lemma handled_fresh s0 r0 evs s :
  sk_cache s0 = Some r0 → (∀ k, held r0 k = None) → handled s0 evs s → ∃ r, sk_cache s = Some r ∧ fresh evs r.
Proof.
  intros Hs0 Hr0. induction 1 as [|evs s h e _ (r & Hr & Hf)|evs s s' r r' _ (r1 & Hr1 & Hf) Hr Hr' Hk].
  - exists r0. split; [done|]. intros k data. by rewrite Hr0.
  - eexists. split; [by rewrite handle_event_cache, Hr|]. by apply fresh_set.
  - exists r'. split; [done|]. rewrite Hr in Hr1. injection Hr1 as ->. intros k data Hd.
    destruct (Hk k) as [Hn|He]; [congruence|]. apply Hf. congruence.
Qed.

Lemma cache_get_fresh {A} evs r key (unmarshal : B → option A) (proj : PV → option A) x :
  fresh evs r → Forall (λ v, ∀ data, marshal v = Some data → unmarshal data = proj v) (written key evs) →
  cache_get redis_get key unmarshal r = inr (Some x) →
  x ∈ omap proj (written key evs) ∧ (reliable → last (omap proj (written key evs)) = Some x).
Proof.
  intros Hf Hcodec. unfold cache_get. destruct (redis_get key r) as [msg|[data|]] eqn:Hg; [done| |done].
  destruct (unmarshal data) as [y|] eqn:Hu; [|done]. intros [= ->].
  apply (rl_get key) in Hg. destruct (Hf key data) as (v & Hm & Hin & Hl); [done|].
  rewrite Forall_forall in Hcodec. rewrite (Hcodec v Hin data Hm) in Hu. split.
  - apply list_elem_of_omap. by exists v.
  - intros Hrel. by apply (last_omap _ _ v), Hu; auto.
Qed.

Context {D : Deps}.
Hypothesis ticker_codec : ∀ t data, marshal (VTicker t) = Some data → unmarshal_ticker data = Some t.
Hypothesis book_codec : ∀ b data, marshal (VBook b) = Some data → unmarshal_book data = Some b.

(** C40. The market service with its cache answers as without it, or with a
    ticker or book that a handled event of that very stock carried; and when
    no write to Redis failed it is the one of the last such event, however
    values expire meanwhile. *)
Theorem cached_reads s0 r0 evs s :
  sk_cache s0 = Some r0 → (∀ k, held r0 k = None) → handled s0 evs s →
  ∃ r, sk_cache s = Some r ∧ ∀ code (es : estate),
    (MarketService.GetTicker (Some (cache r)) code es = MarketService.GetTicker None code es ∨
     ∃ t, MarketService.GetTicker (Some (cache r)) code es = inr t ∧ t ∈ tickers code evs ∧
       (reliable → last (tickers code evs) = Some t)) ∧
    (MarketService.GetOrderBook (Some (cache r)) code es = MarketService.GetOrderBook None code es ∨
     ∃ b, MarketService.GetOrderBook (Some (cache r)) code es = inr b ∧ b ∈ books code evs ∧
       (reliable → last (books code evs) = Some b)).
Proof.
  intros Hs0 Hr0 Hh. destruct (handled_fresh s0 r0 evs s Hs0 Hr0 Hh) as (r & Hr & Hf). exists r. split; [done|].
  intros code es. unfold MarketService.GetTicker, MarketService.GetOrderBook. cbn. split.
  - destruct (Cache_GetTicker _ _ code r) as [e|[t|]] eqn:Hc; [by left| |by left]. right. exists t. split; [done|].
    apply (cache_get_fresh evs r (tickerKey code) unmarshal_ticker); [done| |exact Hc].
    eapply Forall_impl; [apply written_ticker|]. intros ? [x ->] data. apply ticker_codec.
  - destruct (Cache_GetOrderBook _ _ code r) as [e|[b|]] eqn:Hc; [by left| |by left]. right. exists b. split; [done|].
    apply (cache_get_fresh evs r (orderBookKey code) unmarshal_book); [done| |exact Hc].
    eapply Forall_impl; [apply written_book|]. intros ? [x ->] data. apply book_codec.
Qed.
End Cache.

(** ** A Redis that is a map *)
Module CacheDemo.
Definition redis : Type := gmap string PV.
Definition set_key (key : string) (data : PV) (ttl : Z) (r : redis) : redis * option string := (<[key := data]> r, None).
Definition get_key (key : string) (r : redis) : string + option PV := inr (r !! key).
Definition publish {S} (subject : string) (data : PV) (s : S) : S * option string := (s, None).
Definition un_ticker (v : PV) : option Ticker.t := match v with VTicker t => Some t | _ => None end.
Definition un_book (v : PV) : option OrderBook.t := match v with VBook b => Some b | _ => None end.
Definition held (r : redis) (key : string) : option PV := r !! key.

Lemma redis_laws : RedisLaws set_key get_key held.
Proof.
  split; unfold get_key, held; [by intros r k x [= <-]|]. intros key data ttl r k. left.
  case_bool_decide as Hk; [rewrite Hk; apply lookup_insert_eq|by apply lookup_insert_ne].
Qed.

Definition ticker (price : Z) : Ticker.t := Ticker.mk "BBCA" price 9500 0 Float64.f64_zero price price 10 0.
Definition moved (price : Z) : Event.t := Event.mk TickerUpdated "BBCA" EmptyString (PTicker (ticker price)) 0.
Definition s0 : @sinks PV unit redis := mkSinks NewHub None None (Some ∅) None ∅ ∅.
Definition handle (e : Event.t) (s : @sinks PV unit redis) : @sinks PV unit redis :=
  handle_event (λ _, None) Some publish publish set_key ∅ e s.
Definition s2 : @sinks PV unit redis := handle (moved 9550) (handle (moved 9525) s0).

Lemma cached_reads_witness :
  tickers "BBCA" [moved 9525; moved 9550] = [ticker 9525; ticker 9550] ∧
  ∃ r, sk_cache s2 = Some r ∧ ∀ es : estate,
    MarketService.GetTicker (Some (market_cache un_ticker un_book get_key r)) "BBCA" es =
      MarketService.GetTicker None "BBCA" es ∨
    MarketService.GetTicker (Some (market_cache un_ticker un_book get_key r)) "BBCA" es = inr (ticker 9550).
Proof.
  split; [by vm_compute|].
  destruct (cached_reads (λ _, None) Some un_ticker un_book publish publish set_key get_key held (RedisLaws0 := redis_laws)
    (λ t d H, f_equal un_ticker (eq_sym (Some_inj _ _ H))) (λ b d H, f_equal un_book (eq_sym (Some_inj _ _ H)))
    s0 ∅ ([] ++ [moved 9525] ++ [moved 9550]) s2) as (r & Hr & Hreads); [reflexivity|done| |].
  - rewrite app_assoc. apply hd_event, hd_event, hd_start.
  - exists r. split; [exact Hr|]. intros es. destruct (Hreads "BBCA"%string es) as [[Hrepo|(t & Ht & _ & Hlast)] _]; [by left|].
    right. rewrite Ht. f_equal. apply (inj Some). rewrite <- Hlast; [by vm_compute|]. split; [by eexists|done].
Defined.

(** Once written, the ticker is answered without looking at the repository. *)
Example hit (es : @estate mem_deps) :
  (r ← sk_cache s2; Some (MarketService.GetTicker (Some (market_cache un_ticker un_book get_key r)) "BBCA" es)) =
  Some (inr (ticker 9550)).
Proof. reflexivity. Qed.
End CacheDemo.
