(* ===== verification/Brokers.v ===== *)
(** * The subscribing sides of NATS and of Redis pub/sub
    ([internal/infra/broker/natsbroker/subscriber.go],
    [internal/infra/storage/redis/pubsub.go], and the loops of
    [cmd/server/main.go] that use them).

    The client libraries are third-party code: their connections, their
    subscription handles and the calls made on them are parameters.  A
    callback is what the program does with a message. *)
From S2P Require Import Prelude GoLib GoStrings Entity Repository MemDeps Book Matcher Engine Hub.
From S2P Require Import Partition Wiring.

Record Msg {B : Type} : Type := mkMsg { msg_Subject : string; msg_Data : B }.
Arguments Msg : clear implicits.
Arguments mkMsg {B} _ _.

(** ** The NATS subscriber *)
Section Nats.
Context {D : Deps} {B Conn Sub : Type} `{!EqDecision Sub}.
Local Abbreviation WSHub := (@Hub.Hub PV B).

(** What a message handler works on: the hub, or the engine. *)
Inductive effect : Type :=
| OnHub (f : WSHub → WSHub)
| OnEngine (m : M estate ()).

Variable Connect : string → string + Conn.
Variable conn_Subscribe : string → (Msg B → effect) → Conn → Conn * (string + Sub).
Variable conn_QueueSubscribe : string → string → (Msg B → effect) → Conn → Conn * (string + Sub).
Variable Unsubscribe : Sub → Conn → Conn.
Variable Drain : Conn → Conn.

Record Subscriber : Type := mkSubscriber { ns_conn : Conn; ns_subscriptions : list Sub }.

Definition NewSubscriber (url : string) : error + Subscriber :=
  match Connect url with
  | inl e => inl (ErrOther ("nats connect: " ++ e))
  | inr c => inr (mkSubscriber c [])
  end.

(** The subscription that was made is kept; an error is wrapped. *)
Definition keep_sub (what : string) (r : Conn * (string + Sub)) (s : Subscriber) : Subscriber * option error :=
  match r with
  | (c, inl e) => (mkSubscriber c (ns_subscriptions s), Some (ErrOther (what ++ ": " ++ e)))
  | (c, inr sub) => (mkSubscriber c (ns_subscriptions s ++ [sub]), None)
  end.

Definition Subscribe (subject : string) (handler : B → effect) (s : Subscriber) : Subscriber * option error :=
  keep_sub ("subscribe " ++ subject)
    (conn_Subscribe subject (λ msg, handler (msg_Data msg)) (ns_conn s)) s.

Definition SubscribeSubject (subject : string) (handler : string → B → effect) (s : Subscriber)
    : Subscriber * option error :=
  keep_sub ("subscribe subject " ++ subject)
    (conn_Subscribe subject (λ msg, handler (msg_Subject msg) (msg_Data msg)) (ns_conn s)) s.

Definition SubscribeJSON : string → (B → effect) → Subscriber → Subscriber * option error := Subscribe.

Definition QueueSubscribe (subject queue : string) (handler : B → effect) (s : Subscriber)
    : Subscriber * option error :=
  keep_sub ("queue subscribe " ++ subject ++ " [" ++ queue ++ "]")
    (conn_QueueSubscribe subject queue (λ msg, handler (msg_Data msg)) (ns_conn s)) s.

Definition Subscriber_Close (s : Subscriber) : Subscriber :=
  mkSubscriber (Drain (foldl (λ c sub, Unsubscribe sub c) (ns_conn s) (ns_subscriptions s))) (ns_subscriptions s).

(** [wireNATSSubscriber]; a subscription that fails is only logged. *)
Definition wireNATSSubscriber (handlers : list (string * (string → B → WSHub → WSHub))) (s : Subscriber)
    : Subscriber :=
  foldl (λ s h, (SubscribeSubject h.1 (λ subj data, OnHub (h.2 subj data)) s).1) s handlers.

(** [wireEngineNATSOrders]. *)
Variable unmarshal_order : B → option Order.t.
Definition wireEngineNATSOrders (p : Partitioner) (allStocks : list string) (s : Subscriber) : Subscriber :=
  foldl (λ s q, (QueueSubscribe q.1 q.2 (λ data, OnEngine (engine_order_handler unmarshal_order data)) s).1) s
    (engine_subscriptions p allStocks).

(** ** What a connection remembers *)

(** A subscription as the connection keeps it. *)
Record entry : Type := mkSubEntry {
  en_sub : Sub; en_subject : string; en_queue : option string; en_callback : Msg B → effect }.

(** The documented behaviour of the client library: subscribing adds an
    entry under a handle of its own or fails without effect, unsubscribing
    takes the entry of its handle away, and draining adds nothing. *)
Class NatsLaws (table : Conn → list entry) : Prop := {
  nl_subscribe subject cb c :
    match conn_Subscribe subject cb c with
    | (c', inr sub) => (sub ∉ en_sub <$> table c) ∧ table c' = (table c ++ [mkSubEntry sub subject None cb])
    | (c', inl _) => table c' = table c
    end;
  nl_queue subject queue cb c :
    match conn_QueueSubscribe subject queue cb c with
    | (c', inr sub) =>
        (sub ∉ en_sub <$> table c) ∧ table c' = (table c ++ [mkSubEntry sub subject (Some queue) cb])
    | (c', inl _) => table c' = table c
    end;
  nl_unsubscribe sub c : table (Unsubscribe sub c) = filter (λ e, en_sub e ≠ sub) (table c);
  nl_drain c : table (Drain c) `sublist_of` table c;
}.

Section Table.
Context (table : Conn → list entry) `{!NatsLaws table}.

(** The entries are the subscriber's own, in order. *)
Definition tracked (s : Subscriber) : Prop :=
  en_sub <$> table (ns_conn s) = ns_subscriptions s ∧ NoDup (ns_subscriptions s).

Definition wired_entry (subject : string) (queue : option string) (cb : Msg B → effect)
    (s s' : Subscriber) : Prop :=
  tracked s' ∧ (table (ns_conn s') = table (ns_conn s) ∨
    ∃ sub, table (ns_conn s') = table (ns_conn s) ++ [mkSubEntry sub subject queue cb]).

Lemma keep_sub_entry what r subject queue cb s :
  tracked s →
  match r with
  | (c', inr sub) => (sub ∉ en_sub <$> table (ns_conn s)) ∧
      table c' = table (ns_conn s) ++ [mkSubEntry sub subject queue cb]
  | (c', inl _) => table c' = table (ns_conn s)
  end →
  wired_entry subject queue cb s (keep_sub what r s).1.
Proof.
  intros [Ht Hnd] Hr. destruct r as [c [e|sub]]; simpl.
  - split; [by split; simpl; rewrite ?Hr|]. by left.
  - destruct Hr as [Hnew Hr]. rewrite Ht in Hnew. split; [|right; by exists sub]. split; simpl.
    + rewrite Hr, fmap_app. simpl. by rewrite Ht.
    + apply NoDup_app. split_and!; [done| |apply NoDup_singleton]. by intros x Hx ->%list_elem_of_singleton.
Qed.

Lemma unsubscribe_all subs c :
  table (foldl (λ c sub, Unsubscribe sub c) c subs) = filter (λ e, en_sub e ∉ subs) (table c).
Proof.
  revert c. induction subs as [|sub subs IH]; intros c; cbn [foldl].
  - symmetry. apply filter_all, Forall_forall. intros e _. apply not_elem_of_nil.
  - rewrite IH, nl_unsubscribe, list_filter_filter. apply list_filter_iff. intros e.
    rewrite not_elem_of_cons. tauto.
Qed.

Lemma close_empty s : tracked s → table (ns_conn (Subscriber_Close s)) = [].
Proof.
  intros [Ht _]. simpl. apply sublist_nil_r. rewrite nl_drain, unsubscribe_all, <- Ht. apply sublist_nil_r.
  destruct (filter _ _) as [|e l] eqn:Hf; [done|].
  assert (e ∈ filter (λ e, en_sub e ∉ en_sub <$> table (ns_conn s)) (table (ns_conn s))) as He
    by (rewrite Hf; apply list_elem_of_here).
  apply list_elem_of_filter in He as [Hni He]. destruct Hni. by apply list_elem_of_fmap_2.
Qed.

(** What the connection has after a list of subscriptions: each at most
    once, in order, and nothing else. *)
Definition specs (l : list (string * option string * (Msg B → effect))) (es : list entry) : Prop :=
  (λ e, (en_subject e, en_queue e, en_callback e)) <$> es `sublist_of` l.

Lemma wire_fold {X} (f : X → Subscriber → Subscriber) (spec : X → string * option string * (Msg B → effect)) xs s :
  (∀ x s, tracked s → wired_entry (spec x).1.1 (spec x).1.2 (spec x).2 s (f x s)) → tracked s →
  let s' := foldl (λ s x, f x s) s xs in
  tracked s' ∧ ∃ es, table (ns_conn s') = table (ns_conn s) ++ es ∧ specs (spec <$> xs) es.
Proof.
  intros Hf. revert s. induction xs as [|x xs IH]; intros s Ht; simpl.
  { split; [done|]. exists []. split; [by rewrite app_nil_r|apply sublist_nil_l]. }
  destruct (Hf x s Ht) as [Ht1 Hx]. destruct (IH (f x s) Ht1) as (Ht' & es & He & Hs). split; [done|].
  destruct Hx as [Hx|[sub Hx]]; rewrite Hx in He.
  - exists es. split; [done|]. unfold specs in *. by apply sublist_cons.
  - eexists. split; [rewrite He, <- app_assoc; reflexivity|]. unfold specs in *. simpl.
    rewrite (surjective_pairing (spec x)) at 1. destruct (spec x) as [[a b] c]. simpl. by apply sublist_skip.
Qed.
End Table.
End Nats.

(** ** Redis pub/sub: the goroutine of one subscription *)
Section PubSub.
Context {B St : Type}.

(** The library's channel and whether the goroutine still runs. *)
Record listener : Type := mkListener { li_ch : chan B; li_running : bool }.

(** One turn of its select; [done] tells whether the context is cancelled and
    that case is taken. *)
Definition listener_turn (handler : B → St → St) (done : bool) (l : listener) (st : St) : option (listener * St) :=
  if negb (li_running l) then None
  else if done then Some (mkListener (li_ch l) false, st)
  else match chan_recv (li_ch l) with
       | Received payload c => Some (mkListener c true, handler payload st)
       | RecvClosed => Some (mkListener (li_ch l) false, st)
       | RecvBlocks => None
       end.

(** The goroutine until its channel is closed and drained. *)
Fixpoint listen (handler : B → St → St) (fuel : nat) (l : listener) (st : St) : option (listener * St) :=
  match fuel with
  | O => None
  | S fuel =>
      match listener_turn handler false l st with
      | Some (l', st') => if li_running l' then listen handler fuel l' st' else Some (l', st')
      | None => None
      end
  end.

(** Every payload is handled once, in order, and then the goroutine ends. *)
Lemma listen_drains handler l st :
  li_running l = true → ch_closed (li_ch l) = true →
  ∃ l', listen handler (S (length (ch_buf (li_ch l)))) l st = Some (l', foldl (λ st p, handler p st) st (ch_buf (li_ch l))) ∧
    li_running l' = false.
Proof.
  destruct l as [[buf cap cl] run]. simpl. intros -> ->. revert st.
  induction buf as [|p buf IH]; intros st; [by eexists|]. destruct (IH (handler p st)) as (l' & Hl & Hr).
  exists l'. split; [|done]. exact Hl.
Qed.
End PubSub.

(** ** Wiring and closing *)

(** The NATS subscriptions of an instance are a round trip.  On a fresh
    connection, wiring the WebSocket fan-out and the engine subjects leaves
    exactly subscriptions of the list the code gives, in order and each at
    most once (one that fails is skipped), each with a callback that hands
    the message to the handler of its subject; closing the subscriber leaves
    none of them. *)
Theorem subscriber_roundtrip {D : Deps} {B Conn Sub : Type} `{!EqDecision Sub} conn_Subscribe conn_QueueSubscribe Unsubscribe Drain
    (table : Conn → list (@entry D B Sub)) unmarshal_order handlers p allStocks c :
  NatsLaws conn_Subscribe conn_QueueSubscribe Unsubscribe Drain table →
  table c = [] →
  let s := wireEngineNATSOrders conn_QueueSubscribe unmarshal_order p allStocks
             (wireNATSSubscriber conn_Subscribe handlers (mkSubscriber c [])) in
  en_sub <$> table (ns_conn s) = ns_subscriptions s ∧
  specs (((λ h, (h.1, None, λ msg, OnHub (h.2 (msg_Subject msg) (msg_Data msg)))) <$> handlers) ++
         ((λ q, (q.1, Some q.2, λ msg, OnEngine (engine_order_handler unmarshal_order (msg_Data msg))))
            <$> engine_subscriptions p allStocks))
    (table (ns_conn s)) ∧
  table (ns_conn (Subscriber_Close Unsubscribe Drain s)) = [].
Proof.
  intros Hlaws Hc s.
  set (s1 := wireNATSSubscriber conn_Subscribe handlers (mkSubscriber c [])).
  destruct (wire_fold table (λ h s, (SubscribeSubject conn_Subscribe h.1 (λ subj data, OnHub (h.2 subj data)) s).1)
    (λ h, (h.1, None, λ msg, OnHub (h.2 (msg_Subject msg) (msg_Data msg)))) handlers (mkSubscriber c []))
    as (Ht1 & es1 & He1 & Hs1).
  { intros h s2 Ht. apply keep_sub_entry; [done|]. by eapply nl_subscribe. }
  { split; simpl; [by rewrite Hc|constructor]. }
  destruct (wire_fold table (λ q s, (QueueSubscribe conn_QueueSubscribe q.1 q.2
      (λ data, OnEngine (engine_order_handler unmarshal_order data)) s).1)
    (λ q, (q.1, Some q.2, λ msg, OnEngine (engine_order_handler unmarshal_order (msg_Data msg))))
    (engine_subscriptions p allStocks) s1) as (Ht2 & es2 & He2 & Hs2).
  { intros q s2 Ht. apply keep_sub_entry; [done|]. by eapply nl_queue. }
  { exact Ht1. }
  split_and!; [apply Ht2| |].
  - simpl in He1. rewrite Hc in He1. assert (table (ns_conn s) = es1 ++ es2) as ->.
    { etrans; [exact He2|]. f_equal. exact He1. }
    unfold specs in *. rewrite fmap_app. by apply sublist_app.
  - by eapply close_empty.
Qed.

(** A connection that is its table; handles are numbers above those in use. *)
Module BrokersDemo.
Local Abbreviation conn := (list (@entry mem_deps Order.t nat)).
Definition next (c : conn) : nat := S (foldr (λ e n, Nat.max (en_sub e) n) 0%nat c).

Lemma next_fresh c : next c ∉ en_sub <$> c.
Proof.
  intros (e & He & Hin)%list_elem_of_fmap. assert (en_sub e < next c)%nat; [|lia]. clear He. unfold next.
  induction c as [|x c IH]; [by apply elem_of_nil in Hin|]. simpl.
  apply elem_of_cons in Hin as [->|Hin]; [lia|]. specialize (IH Hin). lia.
Qed.

Definition subscribe (subject : string) (cb : Msg Order.t → effect) (c : conn) : conn * (string + nat) :=
  (c ++ [mkSubEntry (next c) subject None cb], inr (next c)).
Definition queue_subscribe (subject queue : string) (cb : Msg Order.t → effect) (c : conn) : conn * (string + nat) :=
  (c ++ [mkSubEntry (next c) subject (Some queue) cb], inr (next c)).
Definition unsubscribe (sub : nat) (c : conn) : conn := filter (λ e, en_sub e ≠ sub) c.

#[local] Instance demo_laws : NatsLaws subscribe queue_subscribe unsubscribe id (λ c, c).
Proof.
  split.
  - intros subject cb c. split; [apply next_fresh|reflexivity].
  - intros subject queue cb c. split; [apply next_fresh|reflexivity].
  - reflexivity.
  - reflexivity.
Qed.

Definition p3 : Partitioner := mkPartitioner 0 1.
Definition to_hub (_ : string) (_ : Order.t) (hub : @Hub.Hub PV Order.t) : @Hub.Hub PV Order.t := hub.
Definition wired : Subscriber :=
  wireEngineNATSOrders queue_subscribe Some p3 ["BBCA"; "TLKM"]%string
    (wireNATSSubscriber subscribe [("trade.*"%string, to_hub)] (mkSubscriber [] [])).

Lemma subscriber_roundtrip_witness :
  (en_subject <$> ns_conn wired) = ["trade.*"; "engine.orders.BBCA"; "engine.orders.TLKM"]%string ∧
  ns_conn (Subscriber_Close unsubscribe id wired) = [].
Proof.
  destruct (subscriber_roundtrip subscribe queue_subscribe unsubscribe id (λ c, c) Some
    [("trade.*"%string, to_hub)] p3 ["BBCA"; "TLKM"]%string [] demo_laws eq_refl) as (_ & _ & Hclose).
  split; [vm_compute; reflexivity|exact Hclose].
Defined.
End BrokersDemo.
