(* ===== verification/Connections.v ===== *)
(** * Opening and closing connections ([natsbroker/publisher.go],
    [redis/cache.go], [redis/pubsub.go], [cmd/server/main.go])

    Which connections the start of a server opens and keeps, over the client
    libraries as parameters, and which of them its shutdown closes.  The
    subscriber's own operations are in [Brokers.v], the decisions that follow
    from what is connected in [Wiring.v]. *)
From S2P Require Import Prelude GoLib Entity Repository Partition DBWorker Config Wiring Brokers.

(** The connections of one server. *)
Inductive connection : Type := PubConn | SubConn | CacheClient | PubSubClient | PgPool.

#[global] Instance connection_eq : EqDecision connection.
Proof. solve_decision. Defined.

Section Connections.
(** A connection that is made, or the error of making it. *)
Context {NConn Sub Opts Client Pool : Type}.
Variable nats_Connect : string → string + NConn.
Variable Drain : NConn → option string.
Variable ParseURL : string → string + Opts.
Variable NewClient : Opts → Client.
Variable client_Ping : Client → option string.
Variable client_Close : Client → option string.
Variable pgxpool_New : string → string + Pool.

(** ** [natsbroker.Publisher] *)
Definition NewPublisher (url : string) : error + NConn :=
  match nats_Connect url with
  | inl e => inl (ErrOther ("nats connect: " ++ e))
  | inr conn => inr conn
  end.

(** The error of draining is dropped. *)
Definition Publisher_Close (conn : NConn) : () := let _ := Drain conn in ().

(** ** [redis.Cache] and [redis.PubSub] *)
Definition open_client (redisURL : string) : error + Client :=
  match ParseURL redisURL with
  | inl e => inl (ErrOther ("redis parse url: " ++ e))
  | inr opts => inr (NewClient opts)
  end.
Definition NewCache : string → error + Client := open_client.
Definition NewPubSub : string → error + Client := open_client.
Definition Ping (c : Client) : option string := client_Ping c.
Definition Cache_Close (c : Client) : option string := client_Close c.
Definition PubSub_Close (c : Client) : option string := client_Close c.

(** ** Steps 5, 7 and 8 of [main] *)

(** What [main] keeps, and every connection it opened on the way. *)
Record connections : Type := mkConnections {
  cn_pgPool : option Pool;
  cn_natsPub : option NConn;
  cn_natsSub : option (@Subscriber NConn Sub);
  cn_redisCache : option Client;
  cn_redisPubSub : option Client;
  cn_opened : list connection;
}.

Definition kept {E A} (enabled : bool) (r : E + A) : option A :=
  if enabled then match r with inr a => Some a | inl _ => None end else None.
Definition note {A} (k : connection) (o : option A) : list connection :=
  match o with Some _ => [k] | None => [] end.

(** A cache that does not answer is not kept. *)
Definition pinged (cache : option Client) : option Client :=
  c ← cache;
  match Ping c with None => Some c | Some _ => None end.

Definition needs_pool (c : Config) : bool :=
  dbw_Enabled (cfg_DBWorker c) || (StorageType (cfg_Storage c) =? "postgres")%string.

Definition connect (c : Config) : connections :=
  let url := redis_URL (cfg_Redis c) in
  let pool := kept (needs_pool c) (pgxpool_New (DatabaseURL (cfg_Storage c))) in
  let pub := kept (nats_Enabled (cfg_NATS c)) (NewPublisher (nats_URL (cfg_NATS c))) in
  let sub := kept (nats_Enabled (cfg_NATS c)) (NewSubscriber nats_Connect (nats_URL (cfg_NATS c))) in
  let cache := kept (redis_Enabled (cfg_Redis c)) (NewCache url) in
  let pubsub := kept (redis_Enabled (cfg_Redis c) && negb (nats_Enabled (cfg_NATS c))) (NewPubSub url) in
  mkConnections pool pub sub (pinged cache) pubsub
    (note PgPool pool ++ note PubConn pub ++ note SubConn sub ++ note CacheClient cache ++ note PubSubClient pubsub).

(** What [Wiring.startup] asks about the outside. *)
Definition is_kept {A} (o : option A) : bool := match o with Some _ => true | None => false end.
Definition externals_of (n : connections) : externals :=
  mkExternals (is_kept (cn_pgPool n)) (is_kept (cn_natsPub n)) (is_kept (cn_natsSub n))
    (is_kept (cn_redisCache n)) (is_kept (cn_redisPubSub n)).

Definition start_server (c : Config) : exit_reason + server := startup c (externals_of (connect c)).

(** The connection a step of the shutdown closes. *)
Definition closes (a : stop_action) : option connection :=
  match a with
  | CloseNATSPub => Some PubConn
  | CloseNATSSub => Some SubConn
  | CloseRedisCache => Some CacheClient
  | CloseRedisPubSub => Some PubSubClient
  | ClosePool => Some PgPool
  | _ => None
  end.
Definition closed_by (s : server) : list connection := omap closes (shutdown s).

(** ** What is opened is closed *)

(** The client of a cache that was made and then did not answer. *)
Definition ping_failed (c : Config) : Prop :=
  ∃ client, kept (redis_Enabled (cfg_Redis c)) (NewCache (redis_URL (cfg_Redis c))) = Some client ∧ Ping client ≠ None.

Lemma kept_enabled {E A} b (r : E + A) : b && is_kept (kept b r) = is_kept (kept b r).
Proof. by destruct b. Qed.

Lemma elem_of_note {A} k k' (o : option A) : k ∈ note k' o ↔ k = k' ∧ is_kept o = true.
Proof. destruct o; simpl; [rewrite list_elem_of_singleton; tauto|]. split; [by intros ?%elem_of_nil|by intros []]. Qed.

Lemma startup_pools c ex s : startup c ex = inr s →
  sp_pgPool s = needs_pool c && ex_pg ex ∧ sp_natsPub s = nats_Enabled (cfg_NATS c) && ex_natsPub ex ∧
  sp_natsSub s = nats_Enabled (cfg_NATS c) && ex_natsSub ex ∧
  sp_redisCache s = redis_Enabled (cfg_Redis c) && ex_redisCache ex ∧
  sp_redisPubSub s = redis_Enabled (cfg_Redis c) && negb (nats_Enabled (cfg_NATS c)) && ex_redisPubSub ex.
Proof.
  unfold startup. destruct (Validate c); [done|]. destruct (load_partitioner c); [done|]. by intros [= <-].
Qed.

Lemma elem_of_closed_by k s : k ∈ closed_by s ↔
  match k with
  | PubConn => sp_natsPub s | SubConn => sp_natsSub s | CacheClient => sp_redisCache s
  | PubSubClient => sp_redisPubSub s | PgPool => sp_pgPool s
  end = true.
Proof.
  rewrite <- (bool_decide_eq_true (k ∈ closed_by s)). apply eq_iff_eq_true. unfold closed_by, shutdown.
  by destruct (sp_rateLimiter s), (sp_feed s), (sp_dbWorker s), (sp_natsPub s), (sp_natsSub s), (sp_redisCache s),
    (sp_redisPubSub s), (sp_pgPool s), k.
Qed.

(** The shutdown of a server that started closes the connections its start
    opened, and no others; the only one it leaves open is the Redis client of a
    cache whose first ping failed. *)
Theorem opened_connections_closed c s k :
  start_server c = inr s →
  k ∈ cn_opened (connect c) ↔ k ∈ closed_by s ∨ (k = CacheClient ∧ ping_failed c).
Proof.
  intros (Hpool & Hpub & Hsub & Hcache & Hps)%startup_pools. rewrite elem_of_closed_by. unfold externals_of in *.
  cbn [ex_pg ex_natsPub ex_natsSub ex_redisCache ex_redisPubSub connect cn_pgPool cn_natsPub cn_natsSub cn_redisCache
       cn_redisPubSub cn_opened] in *.
  rewrite kept_enabled in Hpool. rewrite kept_enabled in Hpub. rewrite kept_enabled in Hsub.
  rewrite kept_enabled in Hps. rewrite !elem_of_app, !elem_of_note. unfold ping_failed.
  set (cache := kept (redis_Enabled (cfg_Redis c)) _) in *.
  assert (Hc : is_kept cache = true ↔ sp_redisCache s = true ∨ ∃ client, cache = Some client ∧ Ping client ≠ None).
  { assert (cache = None ∨ redis_Enabled (cfg_Redis c) = true) as Hen
      by (unfold cache, kept; destruct (redis_Enabled (cfg_Redis c)); auto).
    rewrite Hcache. destruct cache as [client|]; [destruct Hen as [?| ->]; [done|]|];
      simpl; [|rewrite andb_false_r; split; [done|by intros [?|(? & ? & ?)]]].
    destruct (Ping client) eqn:Hp; split; [right; by exists client; rewrite Hp|done|by left|done]. }
  destruct k; rewrite ?Hpool, ?Hpub, ?Hsub, ?Hps; intuition congruence.
Qed.
End Connections.

(** ** A Redis that takes connections and does not answer *)
Module ConnectionsDemo.
Definition silent (c : Config) : connections :=
  connect (λ _, inl "no servers"%string) (λ url, inr url) (λ _, ()) (λ _, Some "timeout"%string)
    (λ _, @inl string () "refused"%string) (NConn := ()) (Sub := ()) c.
Definition config : Config := Load (λ k, if (k =? "REDIS_ENABLED")%string then "true"%string else EmptyString) (λ _, None).

Example cache_left_open :
  cn_opened (silent config) = [CacheClient; PubSubClient] ∧
  (λ s, closed_by s) <$> (match startup config (externals_of (silent config)) with inr s => Some s | inl _ => None end) =
    Some [PubSubClient].
Proof. by vm_compute. Qed.
End ConnectionsDemo.
