(* ===== verification/Emission.v ===== *)
(** * What the engine publishes for what it records

    Every step of the engine publishes, in order, a list of events; the
    trades it adds to the trade repository are exactly those announced by the
    [TradeExecuted] events of that list.  Nothing is assumed of the books: the
    fact follows from [executeTrade] alone and is kept by the loops around
    it. *)
From S2P Require Import Prelude GoLib Entity Repository Book Matcher MatcherLemmas Engine.

(** The trade a [TradeExecuted] event announces. *)
Definition executed_trade (e : Event.t) : option Trade.t :=
  match Event.Pl e with
  | PTrade t => if (Event.Ty e =? TradeExecuted)%string then Some t else None
  | _ => None
  end.
Definition executed (evs : list Event.t) : list Trade.t := omap executed_trade evs.

Lemma executed_app l1 l2 : executed (l1 ++ l2) = executed l1 ++ executed l2.
Proof. apply omap_app. Qed.

Section Emission.
Context {D : Deps} `{!TradeRepositoryLaws TradeRepoT}.

Definition trades (w : world) : list Trade.t := tr_view (w_trades w).

(** From [w] to [w'] the events [evs] were published and their trades
    recorded, under fresh IDs. *)
Record emission (evs : list Event.t) (w w' : world) : Prop := {
  em_bus : publish_list evs (w_bus w) = Some (w_bus w');
  em_inv : tr_inv (w_trades w) → tr_inv (w_trades w');
  em_trades : tr_inv (w_trades w) → trades w' = trades w ++ executed evs;
  em_fresh : tr_inv (w_trades w) → NoDup (Trade.ID <$> trades w) → NoDup (Trade.ID <$> trades w');
}.

Definition emits (w w' : world) : Prop := ∃ evs, emission evs w w'.

Lemma emission_silent w w' : w_bus w' = w_bus w → w_trades w' = w_trades w → emission [] w w'.
Proof. intros Hb Ht. split; simpl; rewrite ?Hb; try done; unfold trades; rewrite Ht; try done. by rewrite app_nil_r. Qed.

Lemma emission_trans e1 e2 w1 w2 w3 : emission e1 w1 w2 → emission e2 w2 w3 → emission (e1 ++ e2) w1 w3.
Proof.
  intros [B1 I1 T1 F1] [B2 I2 T2 F2]. split; [by rewrite publish_list_app, B1|auto|..].
  - intros Hi. by rewrite T2, T1, executed_app, app_assoc by auto.
  - auto.
Qed.

#[export] Instance emits_preorder : PreOrder emits.
Proof.
  split.
  - intros w. exists []. by apply emission_silent.
  - intros w1 w2 w3 [e1 H1] [e2 H2]. exists (e1 ++ e2). by eapply emission_trans.
Qed.

Lemma emits_silent w w' : w_bus w' = w_bus w → w_trades w' = w_trades w → emits w w'.
Proof. intros Hb Ht. exists []. by apply emission_silent. Qed.

Lemma publish_emission e w w' : publish e w = Ret () w' → executed_trade e = None → emission [e] w w'.
Proof.
  unfold publish. destruct (bus_Publish e (w_bus w)) as [b|] eqn:Hb; [|done]. intros [= <-] He.
  split; simpl; [by rewrite Hb|done| |done]. intros _. unfold executed. simpl. rewrite He. by rewrite app_nil_r.
Qed.

(** ** One trade *)
Lemma trade_emits code buy sell qty price (w w' : world) :
  trade_effect code buy sell qty price w w' → emits w w'.
Proof.
  intros [Hc Htr _ _]. set (t := trade_of code w buy sell qty price) in *. unfold save_result in Hc. fold t in Hc.
  destruct (tr_Save t (w_trades w)) as [r res] eqn:Hs. simpl in Hc, Htr.
  assert (tr_inv (w_trades w) →
    match res with
    | None => tr_inv r ∧ tr_view r = tr_view (w_trades w) ++ [t] ∧ (Trade.ID t ∉ Trade.ID <$> tr_view (w_trades w))
    | Some _ => r = w_trades w
    end) as Hlaw.
  { intros Hi. pose proof (tr_Save_law t _ Hi) as Hl. rewrite Hs in Hl. case_bool_decide as Hin.
    - by injection Hl as -> ->.
    - destruct Hl as (r' & [= -> ->] & Hi' & Hv). by split_and!. }
  destruct res as [err|].
  - exists []. split; simpl; [by rewrite (tf_bus _ _ Hc)|..]; unfold trades; rewrite Htr;
      intros Hi; rewrite (Hlaw Hi); [done|by rewrite app_nil_r|done].
  - destruct (td_market_bus _ _ _ _ _ _ _ Hc) as (tm & _ & Hp). fold t in Hp.
    eexists. split; [exact Hp|..]; unfold trades; rewrite Htr; intros Hi;
      destruct (Hlaw Hi) as (Hi' & Hv & Hfresh); [done| |].
    + rewrite Hv. f_equal. unfold trade_events. rewrite executed_app. by destruct (_.2).
    + rewrite Hv, fmap_snoc. intros Hnd. apply NoDup_app. split_and!; [done| |apply NoDup_singleton].
      intros x Hx ->%list_elem_of_singleton. done.
Qed.

Lemma sv_trade_emits code sv i r qty price (w w' : world) :
  sv_trade code sv i r qty price w = Ret () w' → emits w w'.
Proof.
  unfold sv_trade. intros Ht.
  pose proof (executeTrade_effect code (buyer sv i r) (seller sv i r) qty price w) as He.
  rewrite Ht in He. by eapply trade_emits.
Qed.

(** ** The loops *)
Lemma gen_loop_emits code sv fuel i (s s' : mstate) :
  gen_loop code sv fuel i s = Ret () s' → emits (ms_world s) (ms_world s').
Proof.
  revert s. induction fuel as [|fuel IH]; intros s; simpl; [done|].
  destruct (head _) as [best|]; [|by intros [= <-]].
  destruct (sv_stop _ _ _); [by intros [= <-]|]. destruct (_ <=? 0); [by intros [= <-]|].
  destruct (sv_trade _ _ _ _ _ _ _) as [[] w1|?|] eqn:Ht; [|done..]. intros Hrun.
  etrans; [by eapply sv_trade_emits|]. by apply IH in Hrun.
Qed.

Lemma publishOrderBook_emits code (s s' : mstate) :
  publishOrderBook code s = Ret () s' → emits (ms_world s) (ms_world s').
Proof.
  unfold publishOrderBook, get, on_world, now, call_market, mbind, M_bind. simpl.
  destruct (mr_UpdateOrderBook _ _) as [m err]. simpl.
  match goal with |- context [publish ?e ?w] => destruct (publish e w) as [[] w'|?|] eqn:Hp end; [|done..].
  intros [= <-]. apply publish_emission in Hp; [|done]. simpl. eexists.
  eapply (emission_trans []); [|exact Hp]. by apply emission_silent.
Qed.

Lemma matchOrder_emits code i (s s' : mstate) :
  matchOrder code i s = Ret () s' → emits (ms_world s) (ms_world s').
Proof.
  unfold matchOrder, get. unfold mbind, M_bind. set (side := Order.Sd _).
  assert (∀ s1, (if (side =? SideBuy)%string then matchBuy code (side_fuel (ob_asks (ms_book s))) i
                 else if (side =? SideSell)%string then matchSell code (side_fuel (ob_bids (ms_book s))) i
                 else mret ()) s = Ret () s1 → emits (ms_world s) (ms_world s1)) as Hloop.
  { intros s1. destruct (side =? SideBuy)%string; [rewrite matchBuy_gen; apply gen_loop_emits|].
    destruct (side =? SideSell)%string; [rewrite matchSell_gen; apply gen_loop_emits|by intros [= <-]]. }
  match type of Hloop with ∀ s1, ?run = _ → _ => destruct run as [[] s1|?|] eqn:Hl end; [|done..].
  specialize (Hloop s1 eq_refl). intros Hrun. etrans; [exact Hloop|].
  revert Hrun. destruct (Order.IsActive _ && _); unfold on_book, modify, mret, M_ret;
    intros Hrun; apply publishOrderBook_emits in Hrun; exact Hrun.
Qed.

(** ** The goroutines and the engine *)
Local Abbreviation es_emits s s' := (emits (es_world s) (es_world s')).

Lemma run_turn_emits code t (s s' : estate) : run_turn code s = Ret t s' → es_emits s s'.
Proof.
  unfold run_turn. destruct (_ !! code) as [m|]; [|by intros [= _ <-]].
  destruct (chan_recv (m_ch m)) as [[o|] c| |]; [|by intros [= _ <-]..].
  destruct (matchOrder _ o _) as [[] ms|?|] eqn:Hm; [|done..]. intros [= _ <-].
  apply matchOrder_emits in Hm. exact Hm.
Qed.

Lemma run_emits fuel code t (s s' : estate) : run fuel code s = Ret t s' → es_emits s s'.
Proof.
  revert s. induction fuel as [|fuel IH]; intros s; simpl; [done|]. unfold mbind, M_bind.
  destruct (run_turn code s) as [t1 s1|?|] eqn:Ht; [|done..]. apply run_turn_emits in Ht.
  destruct t1; [intros Hr; etrans; [exact Ht|by apply IH]|by intros [= _ <-]..].
Qed.

Lemma drain_all_emits codes (s s' : estate) : drain_all codes s = Ret () s' → es_emits s s'.
Proof.
  revert s. induction codes as [|code codes IH]; intros s; simpl; [by intros [= <-]|].
  unfold get, mbind, M_bind. destruct (run _ code s) as [t s1|?|] eqn:Hr; [|done..].
  apply run_emits in Hr. intros Hd. etrans; [exact Hr|by apply IH].
Qed.

Lemma close_all_emits ms (s s' : estate) : close_all ms s = Ret () s' → es_world s' = es_world s.
Proof.
  revert s. induction ms as [|[code m] ms IH]; intros s; simpl; [by intros [= <-]|].
  destruct (chan_close (m_ch m)); [|done]. unfold modify, mbind, M_bind. intros Hr. by apply IH in Hr.
Qed.

Lemma Stop_emits (s s' : estate) : Stop s = Ret () s' → es_emits s s'.
Proof.
  unfold Stop, get, modify, mbind, M_bind. destruct (e_stopped _); [by intros [= <-]|]. simpl.
  destruct (close_all _ _) as [[] s1|?|] eqn:Hc; [|done..]. apply close_all_emits in Hc. simpl in Hc.
  destruct (e_started _); [|by intros [= <-]; rewrite Hc]. intros Hd. apply drain_all_emits in Hd.
  by rewrite Hc in Hd.
Qed.
End Emission.
