(* ===== verification/Pipeline.v ===== *)
(** * From a request to the database: the parts of the server at work together

    The order service, the matchers, the event bus with the handlers of
    [wireEvents] ([cmd/server/main.go]), the dispatcher and the database
    writer as one labelled transition system.  A step is one operation of one
    goroutine; the request goroutine of [CreateOrder] takes two, because other
    goroutines run between its [SubmitOrder] and its [Publish]. *)
From S2P Require Import Prelude GoLib Entity Repository Book Matcher MatcherLemmas Engine Services.
From S2P Require Import Validator EventBus Hub DBWorker Simulator Wiring.

(** ** The two stages of [CreateOrder] *)
Section Stages.
Context {D : Deps}.
Variable SubmitOrder : ref → M estate (option error).

(** Up to the submission: the snapshot to return and, when the engine took
    the order, the event still to be published. *)
Definition place_order (userID : string) (req : CreateOrderRequest.t)
    : M estate (error + ref * option Event.t) :=
  now0 ← on_eworld now;
  id ← on_eworld newUUID;
  order ← on_eworld (alloc (Order.mk id userID (CreateOrderRequest.StockCode req)
            (CreateOrderRequest.Sd req) (CreateOrderRequest.Price req)
            (CreateOrderRequest.Quantity req) 0 OrderStatusOpen now0 now0));
  o ← on_eworld (load order);
  err ← on_eworld (save_order o);
  match err with
  | Some e => mret (inl e)
  | None =>
      snapshot ← on_eworld (alloc o);
      err ← SubmitOrder order;
      match err with
      | Some _ => mret (inr (snapshot, None))
      | None => mret (inr (snapshot, Some (Event.mk OrderCreated (Order.StockCode o) (Order.UserID o)
                                             (POrder snapshot) now0)))
      end
  end.

Definition announce (r : error + ref * option Event.t) : M estate (error + ref) :=
  match r with
  | inl e => mret (inl e)
  | inr (snapshot, None) => mret (inr snapshot)
  | inr (snapshot, Some ev) => on_eworld (publish ev);; mret (inr snapshot)
  end.

(** The stages together are the service's [CreateOrder]. *)
Lemma CreateOrder_stages userID req (s : estate) :
  OrderService.CreateOrder SubmitOrder userID req s = (place_order userID req ≫= announce) s.
Proof.
  unfold OrderService.CreateOrder, place_order, announce, on_shared, estate_HasWorld, on_eworld, now, newUUID, alloc, load, save_order,
    call_orders, mbind, M_bind. simpl.
  destruct (or_Save _ _) as [r [e|]]; simpl; [done|]. by destruct (SubmitOrder _ _) as [[e|] s1|?|].
Qed.
End Stages.

(** ** The system *)
Section Pipeline.
Context {OR TR MR : Type} `{!OrderRepository OR} `{!TradeRepository TR} `{!MarketRepository MR}.
Context {B N Rd DB : Type}.
Context {uuid : nat → string} {clock : nat → Time}.     (* [uuid.NewString], [time.Now] *)
Variable marshal_msg : @ServerMessage PV → option B.
Variable marshal : PV → option B.
Variable nats_publish : string → B → N → N * option string.
Variable redis_publish : string → B → Rd → Rd * option string.
Variable redis_set : string → B → Z → Rd → Rd * option string.
Variable SendBatch : list Stmt → DB → DB * option (Z * string).

Local Abbreviation sinks := (@sinks B N Rd).
Definition handler : Type := heap → Event.t → sinks → sinks.

Definition pipe_deps : Deps := {|
  OrderRepoT := OR; TradeRepoT := TR; MarketRepoT := MR; BusT := EventBus handler;
  uuid_NewString := uuid; time_Now := clock;
|}.
Local Existing Instance pipe_deps.

(** [wireEvents] on the bus; the [i]-th subscription gets the ID [ids i]. *)
Definition subscribe_wired (ids : EventType → string) (b : EventBus handler) : EventBus handler :=
  foldl (λ b p, Subscribe (ids p.1) p.1 p.2 b) b
    (wireEvents marshal_msg marshal nats_publish redis_publish redis_set).

(** A handler sees the orders as they are when it runs. *)
Definition run_handler (h : heap) (f : handler) (e : Event.t) (st : EventBus handler * sinks)
    : option (EventBus handler * sinks) :=
  Some (st.1, f h e st.2).

Record pstate : Type := mkP {
  p_es : estate;
  p_pending : list Event.t;      (* events that requests are about to publish *)
  p_sinks : sinks;
  p_db : DB;
  p_log : list (list WriteOp * option RetryError);
}.

Definition set_es (es : estate) (s : pstate) : pstate :=
  mkP es (p_pending s) (p_sinks s) (p_db s) (p_log s).
Definition p_bus (s : pstate) : EventBus handler := w_bus (es_world (p_es s)).
Definition set_pbus (b : EventBus handler) (s : pstate) : pstate :=
  set_es (mkES (es_engine (p_es s)) (set_bus b (es_world (p_es s)))) s.
Definition set_sinks (sk : sinks) (s : pstate) : pstate :=
  mkP (p_es s) (p_pending s) sk (p_db s) (p_log s).

Definition p_worker (s : pstate) : option (@wstate DB) :=
  w ← sk_dbw (p_sinks s); Some (mkW w (p_db s) (p_log s)).
Definition set_dbw (w : DBWorker) (sk : sinks) : sinks :=
  mkSinks (sk_hub sk) (sk_nats sk) (sk_pubsub sk) (sk_cache sk) (Some w) (sk_trades sk) (sk_orders sk).
Definition set_worker (ws : @wstate DB) (s : pstate) : pstate :=
  mkP (p_es s) (p_pending s) (set_dbw (ws_w ws) (p_sinks s)) (ws_db ws) (ws_log ws).

Definition on_worker (f : @wstate DB → option (@wstate DB)) (s : pstate) : option pstate :=
  ws ← p_worker s; ws' ← f ws; Some (set_worker ws' s).

(** What a goroutine of the server does next. *)
Inductive action : Type :=
| Place (user : string) (req : CreateOrderRequest.t)   (* a request, up to its event *)
| Announce (i : nat)                                   (* the event of a request *)
| Turn (code : string)                                 (* a matcher takes an order *)
| StartEngine
| StopEngine                                           (* [Engine.Stop], queues drained *)
| Feed (t : Ticker.t)                                  (* a price feed *)
| Market (m : MR)                                      (* any other change of market data *)
| Dispatch                                             (* a turn of the dispatcher *)
| CloseBus                                             (* [EventBus.Stop], before it waits *)
| WorkerRecv | WorkerTick                              (* a turn of the database writer *)
| WorkerStop | WorkerClose                             (* the two writes of its [Stop] *)
| Others (hub : @Hub.Hub PV B) (nats : option N) (pubsub cache : option Rd)
         (trades : gmap string Z) (orders : gmap (string * string) Z).

Definition ret_state {A} (r : res estate A) : option (A * estate) :=
  match r with Ret a es => Some (a, es) | _ => None end.

(** [None]: the action is not possible, or panics. *)
Definition pexec (a : action) (s : pstate) : option pstate :=
  match a with
  | Place user req =>
      '(r, es) ← ret_state (place_order SubmitOrder user req (p_es s));
      let evs := match r with inr (_, Some ev) => [ev] | _ => [] end in
      Some (mkP es (p_pending s ++ evs) (p_sinks s) (p_db s) (p_log s))
  | Announce i =>
      ev ← p_pending s !! i;
      '(_, es) ← ret_state (on_eworld (publish ev) (p_es s));
      Some (mkP es (take i (p_pending s) ++ drop (S i) (p_pending s)) (p_sinks s) (p_db s) (p_log s))
  | Turn code => '(_, es) ← ret_state (run_turn code (p_es s)); Some (set_es es s)
  | StartEngine => '(_, es) ← ret_state (Engine.Start (p_es s)); Some (set_es es s)
  | StopEngine => '(_, es) ← ret_state (Engine.Stop (p_es s)); Some (set_es es s)
  | Feed t => '(_, es) ← ret_state (on_eworld (put_ticker t) (p_es s)); Some (set_es es s)
  | Market m => Some (set_es (mkES (es_engine (p_es s)) (set_market m (es_world (p_es s)))) s)
  | Dispatch =>
      if eb_started (p_bus s) && negb (eb_done (p_bus s)) then
        match dispatch_turn (run_handler (w_heap (es_world (p_es s)))) (p_bus s, p_sinks s) with
        | Delivered (b, sk) | Exited (b, sk) => Some (set_pbus b (set_sinks sk s))
        | Waiting | Panicked => None
        end
      else None
  | CloseBus =>
      if eb_stopped (p_bus s) then None
      else c ← chan_close (eb_ch (p_bus s));
           Some (set_pbus (mkBus (eb_subs (p_bus s)) c (eb_done (p_bus s)) (eb_started (p_bus s)) true) s)
  | WorkerRecv => on_worker (λ ws, if w_exited (ws_w ws) then None else recv_case SendBatch ws) s
  | WorkerTick => on_worker (λ ws, if w_exited (ws_w ws) then None else Some (DBWorker.tick_case SendBatch ws)) s
  | WorkerStop =>
      on_worker (λ ws, if w_stopOnce (ws_w ws) then None
                       else Some (mkW (Stop_store (ws_w ws)) (ws_db ws) (ws_log ws))) s
  | WorkerClose =>
      on_worker (λ ws, if w_stopOnce (ws_w ws)
                       then c ← chan_close (w_writeCh (ws_w ws));
                            Some (mkW (set_writeCh c (ws_w ws)) (ws_db ws) (ws_log ws))
                       else None) s
  | Others hub nats pubsub cache trades orders =>
      Some (set_sinks (mkSinks hub nats pubsub cache (sk_dbw (p_sinks s)) trades orders) s)
  end.

Fixpoint prun (acts : list action) (s : pstate) : option pstate :=
  match acts with
  | [] => Some s
  | a :: acts => s' ← pexec a s; prun acts s'
  end.

(** The steps (d) and (e) of [main]'s shutdown, with the turns of the
    dispatcher and of the writer that they wait for. *)
Definition shutdown_actions (n m : nat) : list action :=
  CloseBus :: replicate n Dispatch ++ WorkerStop :: WorkerClose :: replicate m WorkerRecv.

(** The states reached through states that satisfy [Q]. *)
Inductive preach (Q : pstate → Prop) (s0 : pstate) : pstate → Prop :=
| pr_init : preach Q s0 s0
| pr_step a s s' : preach Q s0 s → pexec a s = Some s' → Q s' → preach Q s0 s'.
End Pipeline.
