(* ===== verification/PipelineProofs.v ===== *)
(** * The ledger of the pipeline

    The trades the repository holds, those queued on the bus and those handed
    to the database writer stay in step, whatever the goroutines do. *)
From S2P Require Import Prelude GoLib Entity Repository Book Matcher MatcherLemmas Engine Services.
From S2P Require Import Validator EventBus EventBusProofs Hub DBWorker DBWorkerProofs Simulator Wiring.
From S2P Require Import Emission Pipeline.

(** ** What a list of publications leaves in the bus *)
Lemma publish_list_bus {H} evs (b b' : EventBus H) :
  chan_wf (eb_ch b) → publish_list evs b = Some b' →
  eb_subs b' = eb_subs b ∧ eb_done b' = eb_done b ∧
  (eb_started b' = eb_started b ∧ eb_stopped b' = eb_stopped b) ∧
  ch_closed (eb_ch b') = ch_closed (eb_ch b) ∧ chan_wf (eb_ch b') ∧
  (ch_closed (eb_ch b) = true → evs = []) ∧
  ∃ k, ch_buf (eb_ch b') = ch_buf (eb_ch b) ++ take k evs ∧
    ((length (ch_buf (eb_ch b')) < ch_cap (eb_ch b'))%nat → take k evs = evs).
Proof.
  intros Hwf Hp. destruct (ch_closed (eb_ch b)) eqn:Hc.
  { destruct evs as [|e evs]; simpl in Hp.
    - injection Hp as <-. split_and!; try done. exists 0%nat. by rewrite app_nil_r.
    - unfold Publish, chan_try_send in Hp. by rewrite Hc in Hp. }
  assert (publish_all evs b = Some b') as Hall.
  { rewrite <- Hp. clear. revert b. induction evs as [|e evs IH]; intros b; simpl; [done|].
    destruct (Publish e b); [apply IH|done]. }
  assert (∀ evs (b b' : EventBus H), publish_all evs b = Some b' →
    eb_done b' = eb_done b ∧ ch_cap (eb_ch b') = ch_cap (eb_ch b)) as Hkeep.
  { clear. induction evs as [|e evs IH]; intros b b'; simpl; [by intros [= ->]|].
    destruct (Publish e b) as [b1|] eqn:Hp; [|done]. intros Hr. destruct (IH _ _ Hr) as [-> ->].
    pose proof (Publish_buf _ _ _ Hp) as (_ & -> & _). split; [|done].
    revert Hp. unfold Publish. destruct (chan_try_send e (eb_ch b)) as [[? c]|]; [|done]. by intros [= <-]. }
  destruct (Hkeep _ _ _ Hall) as [Hdone Hcap].
  destruct (publish_all_prefix evs b Hc Hwf) as (b2 & H2 & Hs & Hcl & Hst & Hsp & Hbuf).
  rewrite Hall in H2. injection H2 as <-.
  assert (length (take (ch_cap (eb_ch b) - length (ch_buf (eb_ch b))) evs)
          = Nat.min (ch_cap (eb_ch b) - length (ch_buf (eb_ch b))) (length evs)) as Hlen by apply length_take.
  unfold chan_wf in *. split_and!; try done.
  - rewrite Hcap, Hbuf, length_app, Hlen. lia.
  - eexists. split; [exact Hbuf|]. rewrite Hcap, Hbuf, length_app, Hlen. intros Hlt. apply take_ge. lia.
Qed.

(** ** What an event makes the handlers enqueue *)
Definition write_op (h : heap) (e : Event.t) : option WriteOp :=
  match Event.Pl e with
  | PTrade t => if (Event.Ty e =? TradeExecuted)%string then Some (mkWriteOp OpTradeSave (WTrade t)) else None
  | POrder r =>
      if (Event.Ty e =? OrderCreated)%string then Some (mkWriteOp OpOrderSave (WOrder (deref h r)))
      else if (Event.Ty e =? OrderUpdated)%string then Some (mkWriteOp OpOrderUpdate (WOrder (deref h r)))
      else None
  | _ => None
  end.

(** The trade an operation stores. *)
Definition saved_trade (op : WriteOp) : option Trade.t :=
  match stmt_of op with Some (InsertTrade t) => Some t | _ => None end.
Definition saved (ops : list WriteOp) : list Trade.t := omap saved_trade ops.

Lemma saved_app a b : saved (a ++ b) = saved a ++ saved b.
Proof. apply omap_app. Qed.

Lemma write_op_saves h e : saved (option_list (write_op h e)) = executed [e].
Proof.
  unfold write_op, executed. simpl. unfold executed_trade. destruct (Event.Pl e); simpl; try done.
  - by repeat case_match.
  - by case_match.
Qed.

Section Handlers.
Context {B N Rd : Type}.
Variable marshal_msg : @ServerMessage PV → option B.
Variable marshal : PV → option B.
Variable nats_publish : string → B → N → N * option string.
Variable redis_publish : string → B → Rd → Rd * option string.
Variable redis_set : string → B → Z → Rd → Rd * option string.
Local Abbreviation wired := (subscribe_wired marshal_msg marshal nats_publish redis_publish redis_set).
Local Abbreviation handle := (handle_event marshal_msg marshal nats_publish redis_publish redis_set).

Lemma fan_out_dbw subject ch v (s : @sinks B N Rd) :
  sk_dbw (fan_out marshal nats_publish redis_publish subject ch v s) = sk_dbw s.
Proof. unfold fan_out. by repeat case_match. Qed.

Lemma handle_event_dbw h e (s : @sinks B N Rd) :
  sk_dbw (handle h e s) =
  match write_op h e with
  | Some op => (λ w, (Enqueue op w).1) <$> sk_dbw s
  | None => sk_dbw s
  end.
Proof.
  destruct e as [ty code user p ts]. unfold handle_event, wireEvents, write_op. cbn [foldl fst snd Event.Ty Event.Pl].
  unfold on_trade, on_ticker, on_orderbook, on_created, on_updated. cbn [Event.Pl Event.StockCode].
  destruct (String.eqb_spec ty TradeExecuted) as [->|H1]; [destruct p; cbn; rewrite ?fan_out_dbw; done|].
  destruct (String.eqb_spec ty TickerUpdated) as [->|H2]; [destruct p; cbn; rewrite ?fan_out_dbw; done|].
  destruct (String.eqb_spec ty OrderBookUpdated) as [->|H3]; [destruct p; cbn; rewrite ?fan_out_dbw; done|].
  destruct (String.eqb_spec ty OrderCreated) as [->|H4]; [destruct p; cbn; rewrite ?fan_out_dbw; done|].
  destruct (String.eqb_spec ty OrderUpdated) as [->|H5]; [destruct p; cbn; rewrite ?fan_out_dbw; done|].
  rewrite !(proj2 (String.eqb_neq _ ty)) by congruence. by destruct p.
Qed.

(** The dispatcher runs, for each event, the handlers of [wireEvents]. *)
Lemma wired_handlers ids ty :
  sub_handler <$> subs_of ty (wired ids NewEventBus) =
  snd <$> filter (λ p, p.1 = ty) (wireEvents marshal_msg marshal nats_publish redis_publish redis_set).
Proof.
  unfold subscribe_wired, wireEvents. cbn [foldl fst snd]. rewrite !Subscribe_last.
  rewrite !filter_cons, filter_nil. cbn [fst snd].
  repeat (case_decide; try congruence); try done; subst; try done.
Qed.

Lemma wired_deliver ids h e b (s : @sinks B N Rd) :
  eb_subs b = eb_subs (wired ids NewEventBus) →
  deliver (run_handler h) e (b, s) = Some (b, handle h e s).
Proof.
  intros Hs. assert (sub_handler <$> subs_of (Event.Ty e) b =
    snd <$> filter (λ p, p.1 = Event.Ty e) (wireEvents marshal_msg marshal nats_publish redis_publish redis_set)) as Hh.
  { rewrite <- (wired_handlers ids). unfold subs_of. by rewrite Hs. }
  unfold deliver. cbn [fst]. match goal with |- foldl _ _ ?l = _ => replace l with
    (snd <$> filter (λ p, p.1 = Event.Ty e) (wireEvents marshal_msg marshal nats_publish redis_publish redis_set))
    by (symmetry; exact Hh) end. unfold handle_event. clear Hh Hs.
  generalize (wireEvents marshal_msg marshal nats_publish redis_publish redis_set). intros l. revert s.
  induction l as [|[ty f] l IH]; intros s; [done|]. rewrite filter_cons. cbn [foldl fst snd].
  destruct (String.eqb_spec ty (Event.Ty e)) as [->|Hne].
  - rewrite decide_True by done. cbn. apply IH.
  - rewrite decide_False by done. apply IH.
Qed.
End Handlers.

(** ** The invariant *)

(** With [strict], nothing was dropped on the way; otherwise some may be. *)
Definition link (strict : bool) (l1 l2 : list Trade.t) : Prop :=
  if strict then l1 = l2 else l1 `sublist_of` l2.

Lemma link_refl strict l : link strict l l.
Proof. by destruct strict. Qed.

Lemma link_app strict a b x y : link strict a b → link strict x y → link strict (a ++ x) (b ++ y).
Proof. destruct strict; simpl; [by intros -> ->|]. apply sublist_app. Qed.

Lemma link_trans strict a b c : link strict a b → link strict b c → link strict a c.
Proof. destruct strict; simpl; [congruence|]. intros. by etrans. Qed.

Lemma executed_take k evs : executed (take k evs) `sublist_of` executed evs.
Proof.
  rewrite <- (take_drop k evs) at 2. rewrite executed_app. apply sublist_inserts_r. reflexivity.
Qed.

Section Ledger.
Context {OR TR MR : Type} `{!OrderRepository OR} `{!TradeRepository TR} `{!MarketRepository MR}.
Context `{!TradeRepositoryLaws TR}.
Context {B N Rd DB : Type} {uuid : nat → string} {clock : nat → Time}.
Variable marshal_msg : @ServerMessage PV → option B.
Variable marshal : PV → option B.
Variable nats_publish : string → B → N → N * option string.
Variable redis_publish : string → B → Rd → Rd * option string.
Variable redis_set : string → B → Z → Rd → Rd * option string.
Variable SendBatch : list Stmt → DB → DB * option (Z * string).
Variable ids : EventType → string.
Local Abbreviation wired :=
  (subscribe_wired marshal_msg marshal nats_publish redis_publish redis_set ids NewEventBus).
Local Abbreviation deps := (@pipe_deps OR TR MR _ _ _ B N Rd uuid clock).
#[local] Instance pipe_trade_laws : @TradeRepositoryLaws (@TradeRepoT deps) (@deps_tr deps) :=
  TradeRepositoryLaws0.
Local Abbreviation pstate := (@pstate OR TR MR _ _ _ B N Rd DB uuid clock).
Local Abbreviation exec := (@pexec OR TR MR _ _ _ B N Rd DB uuid clock SendBatch).

Definition stored (s : pstate) : list Trade.t := trades (es_world (p_es s)).
Definition buffered (s : pstate) : list Event.t := ch_buf (eb_ch (p_bus s)).

(** The state has room left everywhere, and the writer is not stopped before
    the dispatcher has finished. *)
Definition keeps (s : pstate) : Prop :=
  (length (buffered s) < ch_cap (eb_ch (p_bus s)))%nat ∧
  ∀ w, sk_dbw (p_sinks s) = Some w →
    (length (ch_buf (w_writeCh w)) < ch_cap (w_writeCh w))%nat ∧
    (w_stopped w = true ∨ ch_closed (w_writeCh w) = true → eb_done (p_bus s) = true).

Variable w0 : DBWorker.
Variable db0 : DB.

Record pinv (strict : bool) (s : pstate) : Prop := {
  pi_ledger : ∃ w ops, sk_dbw (p_sinks s) = Some w ∧
    w_steps SendBatch (mkW w0 db0 []) ops (mkW w (p_db s) (p_log s)) ∧
    link strict (saved ops ++ executed (buffered s)) (stored s);
  pi_wired : eb_subs (p_bus s) = eb_subs wired;
  pi_chan : chan_wf (eb_ch (p_bus s));
  pi_done : eb_done (p_bus s) = true → ch_closed (eb_ch (p_bus s)) = true ∧ buffered s = [];
  pi_repo : tr_inv (w_trades (es_world (p_es s)));
  pi_fresh : NoDup (Trade.ID <$> stored s);
  pi_pending : Forall (λ e, executed_trade e = None) (p_pending s);
}.

(** Steps of the engine, the requests and the feeds. *)
Lemma emission_step strict (s s' : pstate) :
  pinv strict s → emits (es_world (p_es s)) (es_world (p_es s')) →
  p_sinks s' = p_sinks s → p_db s' = p_db s → p_log s' = p_log s →
  Forall (λ e, executed_trade e = None) (p_pending s') →
  (strict = true → keeps s') → pinv strict s'.
Proof.
  intros [(w & ops & Hw & Hsteps & Hl) Hwd Hch Hdone Hrepo Hfresh _] [evs [Eb Ei Et Ef]] Hsk Hdb Hlog Hp Hk.
  destruct (publish_list_bus evs (p_bus s) (p_bus s') Hch Eb)
    as (Hsubs & Hd & _ & Hcl & Hwf & Hnone & k & Hbuf & Hfull).
  split; try done.
  - exists w, ops. rewrite Hsk, Hdb, Hlog. split_and!; [done..|].
    unfold stored, buffered in *. rewrite Hbuf, Et by done.
    rewrite executed_app, app_assoc. apply link_app; [done|].
    destruct strict; [|apply executed_take]. destruct (Hk eq_refl) as [Hroom _].
    rewrite Hfull by exact Hroom. apply link_refl.
  - by rewrite Hsubs.
  - rewrite Hd, Hcl. intros Hx. destruct (Hdone Hx) as [Hc Hb]. split; [done|].
    unfold buffered in *. rewrite Hbuf, Hb, (Hnone Hc). by destruct k.
  - by apply Ei.
  - by apply Ef.
Qed.

(** Steps of the database writer. *)
Lemma worker_step strict (s : pstate) ws ws' :
  pinv strict s → p_worker s = Some ws → w_step SendBatch ws [] ws' → pinv strict (set_worker ws' s).
Proof.
  intros [(w & ops & Hw & Hsteps & Hl) Hwd Hch Hdone Hrepo Hfresh Hp] Hws Hstep.
  unfold p_worker in Hws. rewrite Hw in Hws. injection Hws as <-.
  split; try done. exists (ws_w ws'), ops. split_and!; [done| |done].
  rewrite <- (app_nil_r ops). eapply w_trans; [exact Hsteps|]. by destruct ws'.
Qed.

Lemma Enqueue_cases op w :
  Enqueue_send op w = ((Enqueue op w).1, None) ∨
  (Enqueue op w).1 = w ∧ (w_stopped w = true ∨ ch_closed (w_writeCh w) = true ∨
     (ch_cap (w_writeCh w) ≤ length (ch_buf (w_writeCh w)))%nat).
Proof.
  unfold Enqueue. destruct (w_stopped w); [by right; auto|]. unfold Enqueue_send, chan_try_send.
  destruct (ch_closed _); [by right; auto|].
  destruct (Nat.ltb_spec (length (ch_buf (w_writeCh w))) (ch_cap (w_writeCh w))); [by left|by right; auto].
Qed.

(** One event handed to the handlers. *)
Lemma deliver_step strict (s : pstate) e c sk :
  pinv strict s → eb_done (p_bus s) = false → chan_recv (eb_ch (p_bus s)) = Received e c →
  deliver (run_handler (w_heap (es_world (p_es s)))) e (set_ch c (p_bus s), p_sinks s) = Some sk →
  let s' := set_pbus sk.1 (set_sinks sk.2 s) in
  (strict = true → keeps s') → pinv strict s'.
Proof.
  intros [(w & ops & Hw & Hsteps & Hl) Hwd Hch Hdone Hrepo Hfresh Hp] Hnd Hrecv Hdel s' Hk.
  rewrite (wired_deliver marshal_msg marshal nats_publish redis_publish redis_set ids) in Hdel by exact Hwd.
  injection Hdel as <-. set (h := w_heap (es_world (p_es s))) in *. subst s'.
  destruct (chan_recv_Received _ _ _ Hrecv) as (Hbuf & Hcl & Hcap).
  pose proof (handle_event_dbw marshal_msg marshal nats_publish redis_publish redis_set h e (p_sinks s)) as Hdbw.
  assert (executed (buffered s) = executed [e] ++ executed (ch_buf c)) as Hex.
  { unfold buffered. rewrite Hbuf. apply (executed_app [e]). }
  rewrite Hex, app_assoc in Hl. rewrite Hw in Hdbw.
  assert (∃ w' l, sk_dbw (handle_event marshal_msg marshal nats_publish redis_publish redis_set h e (p_sinks s)) = Some w' ∧
    w_steps SendBatch (mkW w0 db0 []) (ops ++ l) (mkW w' (p_db s) (p_log s)) ∧
    link strict (saved l) (executed [e])) as (w' & l & Hw' & Hsteps' & Hl').
  { rewrite <- (write_op_saves h). destruct (write_op h e) as [op|]; simpl in Hdbw.
    - destruct (Enqueue_cases op w) as [Hacc|[Hsame Hwhy]].
      + exists (Enqueue op w).1, [op]. split_and!; [done| |apply link_refl].
        eapply w_trans; [exact Hsteps|]. by apply w_enqueue.
      + exists w, []. rewrite Hsame in Hdbw. split_and!; [done|by rewrite app_nil_r|].
        destruct strict; [|apply sublist_nil_l]. destruct (Hk eq_refl) as [_ Hkw].
        destruct (Hkw w Hdbw) as [Hroom Hlive]. simpl in Hlive. rewrite Hnd in Hlive.
        exfalso. destruct Hwhy as [Hx|[Hx|Hx]]; [by specialize (Hlive (or_introl Hx))|
          by specialize (Hlive (or_intror Hx))|lia].
    - exists w, []. rewrite app_nil_r. split_and!; [done|done|apply link_refl]. }
  split; try done.
  - exists w', (ops ++ l). split_and!; [done|done|]. unfold buffered. simpl. rewrite saved_app.
    eapply link_trans; [|exact Hl]. apply link_app; [|apply link_refl]. by apply link_app; [apply link_refl|].
  - unfold chan_wf in *. simpl. rewrite Hcap. rewrite Hbuf in Hch. simpl in Hch. lia.
  - simpl. by rewrite Hnd.
Qed.

Lemma place_order_emits user req r (es es' : @estate deps) :
  place_order SubmitOrder user req es = Ret r es' →
  emits (es_world es) (es_world es') ∧
  match r with inr (_, Some ev) => executed_trade ev = None | _ => True end.
Proof.
  unfold place_order, on_eworld, now, newUUID, alloc, load, save_order, call_orders, mbind, M_bind. simpl.
  destruct (or_Save _ _) as [r1 [e|]]; simpl.
  { intros [= <- <-]. split; [by apply emits_silent|done]. }
  match goal with |- context [SubmitOrder ?r ?s] => destruct (SubmitOrder r s) as [[e|] s1|?|] eqn:Hs end; [..|done|done];
    intros [= <- <-]; apply SubmitOrder_world in Hs; (split; [|done]); rewrite Hs; by apply emits_silent.
Qed.

Lemma publish_emits e (es es' : @estate deps) u :
  on_eworld (publish e) es = Ret u es' → executed_trade e = None → emits (es_world es) (es_world es').
Proof.
  unfold on_eworld. destruct (publish e (es_world es)) as [[] w|?|] eqn:Hp; [|done..]. intros [= _ <-] He.
  exists [e]. simpl. by eapply publish_emission.
Qed.

Lemma put_ticker_emits t (es es' : @estate deps) u :
  on_eworld (put_ticker t) es = Ret u es' → emits (es_world es) (es_world es').
Proof.
  unfold on_eworld, put_ticker, call_market, now, mbind, M_bind.
  destruct (mr_UpdateTicker _ _) as [m e]. simpl.
  match goal with |- context [publish ?e ?w] => destruct (publish e w) as [[] w'|?|] eqn:Hp end; [|done..].
  intros [= _ <-]. simpl. apply publish_emission in Hp; [|done]. eexists. eapply (emission_trans []); [|exact Hp].
  by apply emission_silent.
Qed.

(** Closing the bus, and the dispatcher's exit. *)
Lemma bus_step strict (s : pstate) b :
  pinv strict s → eb_subs b = eb_subs (p_bus s) → ch_buf (eb_ch b) = buffered s →
  ch_cap (eb_ch b) = ch_cap (eb_ch (p_bus s)) →
  (eb_done b = true → ch_closed (eb_ch b) = true ∧ ch_buf (eb_ch b) = []) →
  pinv strict (set_pbus b s).
Proof.
  intros [Hl Hwd Hch Hdone Hrepo Hfresh Hp] Hs Hb Hc Hd. split; try done.
  - destruct Hl as (w & ops & Hl). exists w, ops. change (buffered (set_pbus b s)) with (ch_buf (eb_ch b)). by rewrite Hb.
  - change (p_bus (set_pbus b s)) with b. by rewrite Hs.
  - change (p_bus (set_pbus b s)) with b. unfold chan_wf. rewrite Hb, Hc. exact Hch.
Qed.

Lemma dispatch_step strict (s s' : pstate) :
  pinv strict s → exec Dispatch s = Some s' → (strict = true → keeps s') → pinv strict s'.
Proof.
  intros Hinv. simpl. destruct (eb_started (p_bus s)); [|done].
  destruct (eb_done (p_bus s)) eqn:Hd; [done|]. cbn [andb negb].
  unfold dispatch_turn. destruct (chan_recv (eb_ch (p_bus s))) as [e c| |] eqn:Hr; [| |done].
  - destruct (deliver _ _ _) as [[b sk]|] eqn:Hdel; [|done]. intros [= <-].
    by apply (deliver_step strict s e c (b, sk)).
  - intros [= <-] _. apply chan_recv_closed in Hr as [Hcl Hb]. apply (bus_step strict (set_sinks (p_sinks s) s)); try done.
    by destruct s.
Qed.

(** Every action is one of five kinds of step. *)
Inductive pcase (s s' : pstate) : Prop :=
| pc_engine : emits (es_world (p_es s)) (es_world (p_es s')) →
    p_sinks s' = p_sinks s → p_db s' = p_db s → p_log s' = p_log s →
    Forall (λ e, executed_trade e = None) (p_pending s') → pcase s s'
| pc_worker ws ws' : p_worker s = Some ws → w_step SendBatch ws [] ws' → s' = set_worker ws' s → pcase s s'
| pc_dispatch : exec Dispatch s = Some s' → pcase s s'
| pc_close c : ch_closed (eb_ch (p_bus s)) = false → c = mkChan (buffered s) (ch_cap (eb_ch (p_bus s))) true →
    s' = set_pbus (mkBus (eb_subs (p_bus s)) c (eb_done (p_bus s)) (eb_started (p_bus s)) true) s → pcase s s'
| pc_others sk : sk_dbw sk = sk_dbw (p_sinks s) → s' = set_sinks sk s → pcase s s'.

Lemma worker_case (f : @wstate DB → option (@wstate DB)) (s s' : pstate) :
  (∀ ws ws', f ws = Some ws' → w_step SendBatch ws [] ws') → on_worker f s = Some s' → pcase s s'.
Proof.
  intros Hf He. unfold on_worker in He. destruct (p_worker s) as [ws|] eqn:Hw; [|done]. simpl in He.
  destruct (f ws) as [ws'|] eqn:Hr; [|done]. injection He as <-.
  eapply pc_worker; [exact Hw|by apply Hf|done].
Qed.

Lemma request_case user req (s s' : pstate) :
  Forall (λ e, executed_trade e = None) (p_pending s) → exec (Place user req) s = Some s' → pcase s s'.
Proof.
  intros Hpend. simpl. destruct (place_order _ _ _ _) as [r es|?|] eqn:Hp; [|done..]. simpl. intros [= <-].
  apply place_order_emits in Hp as [He Hr]. apply pc_engine; try done. simpl.
  apply Forall_app. split; [done|]. destruct r as [|[snap [ev|]]]; [constructor|by constructor|constructor].
Qed.

Lemma announce_case i (s s' : pstate) :
  Forall (λ e, executed_trade e = None) (p_pending s) → exec (Announce i) s = Some s' → pcase s s'.
Proof.
  intros Hpend. simpl. destruct (p_pending s !! i) as [ev|] eqn:Hi; [|done]. simpl.
  destruct (on_eworld (publish ev) (p_es s)) as [u es|?|] eqn:Hp; [|done..]. simpl. intros [= <-].
  apply publish_emits in Hp; [|rewrite Forall_forall in Hpend; apply Hpend; by eapply list_elem_of_lookup_2].
  apply pc_engine; try done. simpl. apply Forall_app. split; [by apply Forall_take|by apply Forall_drop].
Qed.

Lemma pexec_cases a (s s' : pstate) :
  Forall (λ e, executed_trade e = None) (p_pending s) → exec a s = Some s' → pcase s s'.
Proof.
  intros Hpend. destruct a as [user req|i|code| | |t|m| | | | | | |hub nats ps cache tr ord].
  - by apply request_case.
  - by apply announce_case.
  - simpl. destruct (run_turn code (p_es s)) as [u es|?|] eqn:Hp; [|done..]. intros [= <-].
    apply run_turn_emits in Hp. by apply pc_engine.
  - intros [= <-]. by apply pc_engine.
  - simpl. destruct (Engine.Stop (p_es s)) as [[] es|?|] eqn:Hp; [|done..]. intros [= <-].
    apply Stop_emits in Hp. by apply pc_engine.
  - simpl. destruct (on_eworld (put_ticker t) (p_es s)) as [u es|?|] eqn:Hp; [|done..]. intros [= <-].
    apply put_ticker_emits in Hp. by apply pc_engine.
  - intros [= <-]. apply pc_engine; try done. simpl. by apply emits_silent.
  - by apply pc_dispatch.
  - simpl. destruct (eb_stopped (p_bus s)); [done|]. unfold chan_close.
    destruct (ch_closed _) eqn:Hc; [done|]. intros [= <-]. by eapply pc_close.
  - apply worker_case. intros ws ws'. destruct (w_exited (ws_w ws)) eqn:?; [done|by apply w_recv].
  - apply worker_case. intros ws ws'. destruct (w_exited (ws_w ws)) eqn:?; [done|intros [= <-]; by apply w_tick].
  - apply worker_case. intros ws ws'.
    destruct (w_stopOnce (ws_w ws)) eqn:?; [done|intros [= <-]; by apply w_stop_store].
  - apply worker_case. intros ws ws'. destruct (w_stopOnce (ws_w ws)) eqn:?; [|done].
    destruct (chan_close _) as [c|] eqn:?; [|done]. intros [= <-]. by apply w_stop_close.
  - intros [= <-]. by apply (pc_others _ _ (mkSinks hub nats ps cache (sk_dbw (p_sinks s)) tr ord)).
Qed.

Lemma pexec_inv strict a (s s' : pstate) :
  pinv strict s → exec a s = Some s' → (strict = true → keeps s') → pinv strict s'.
Proof.
  intros Hinv He Hk. apply pexec_cases in He; [|by apply Hinv].
  destruct He as [Hem Hsk Hdb Hlog Hp|ws ws' Hw Hstep ->|He|c Hcl -> ->|sk Hsk ->].
  - by eapply emission_step.
  - by eapply worker_step.
  - by eapply dispatch_step.
  - apply bus_step; try done. simpl. intros Hd. destruct (pi_done _ _ Hinv Hd) as [Hx _]. congruence.
  - destruct Hinv as [Hl]. split; try done. simpl. by rewrite Hsk.
Qed.
End Ledger.
