(* ===== verification/PipelineShutdown.v ===== *)
(** * Shutting the pipeline down

    The dispatcher of a closed bus and the writer of a closed queue finish in
    as many turns as there is work left, and lose nothing on the way. *)
From S2P Require Import Prelude GoLib Entity Repository Book Matcher MatcherLemmas Engine Services.
From S2P Require Import Validator EventBus EventBusProofs Hub DBWorker DBWorkerProofs Simulator Wiring.
From S2P Require Import Emission Pipeline PipelineProofs.

Lemma recv_case_chan {DB} SendBatch (ws ws' : @wstate DB) :
  recv_case SendBatch ws = Some ws' →
  (length (ch_buf (w_writeCh (ws_w ws'))) ≤ length (ch_buf (w_writeCh (ws_w ws))))%nat ∧
  ch_cap (w_writeCh (ws_w ws')) = ch_cap (w_writeCh (ws_w ws)).
Proof.
  unfold recv_case, do_flush. destruct (chan_recv _) as [op c| |] eqn:Hr; [| |done].
  - apply chan_recv_Received in Hr as (Hb & _ & Hc).
    destruct (_ >=? _); [destruct (flush_batch _ _ _)|]; intros [= <-]; simpl; rewrite Hb, Hc; simpl; lia.
  - destruct (flush_batch _ _ _). by intros [= <-].
Qed.

Section Shutdown.
Context {OR TR MR : Type} `{!OrderRepository OR} `{!TradeRepository TR} `{!MarketRepository MR}.
Context {B N Rd DB : Type} {uuid : nat → string} {clock : nat → Time}.
Variable marshal_msg : @ServerMessage PV → option B.
Variable marshal : PV → option B.
Variable nats_publish : string → B → N → N * option string.
Variable redis_publish : string → B → Rd → Rd * option string.
Variable redis_set : string → B → Z → Rd → Rd * option string.
Variable SendBatch : list Stmt → DB → DB * option (Z * string).
Variable ids : EventType → string.
Local Abbreviation wired :=
  (subscribe_wired marshal_msg marshal nats_publish redis_publish redis_set ids NewEventBus).
Local Abbreviation pstate := (@pstate OR TR MR _ _ _ B N Rd DB uuid clock).
Local Abbreviation exec := (@pexec OR TR MR _ _ _ B N Rd DB uuid clock SendBatch).
Local Abbreviation run := (@prun OR TR MR _ _ _ B N Rd DB uuid clock SendBatch).
Local Abbreviation reach := (@preach OR TR MR _ _ _ B N Rd DB uuid clock SendBatch).

Lemma preach_trans Q (s1 s2 s3 : pstate) : reach Q s1 s2 → reach Q s2 s3 → reach Q s1 s3.
Proof. intros H1 H2. induction H2 as [|a s s' _ IH He HQ]; [done|]. by eapply pr_step. Qed.

Lemma preach_one Q a (s s' : pstate) : exec a s = Some s' → Q s' → reach Q s s'.
Proof. intros. eapply pr_step; [apply pr_init|done..]. Qed.

Lemma prun_cons a l (s s' : pstate) : exec a s = Some s' → run (a :: l) s = run l s'.
Proof. intros He. cbn [prun]. by rewrite He. Qed.

Lemma prun_app l1 l2 (s s' : pstate) : run l1 s = Some s' → run (l1 ++ l2) s = run l2 s'.
Proof.
  revert s. induction l1 as [|a l1 IH]; intros s; simpl; [by intros [= ->]|].
  destruct (exec a s) as [s1|]; [|done]. simpl. apply IH.
Qed.

(** Runs that check a decidable condition on their way. *)
Fixpoint prun_when (q : pstate → bool) (acts : list action) (s : pstate) : option pstate :=
  match acts with
  | [] => Some s
  | a :: acts => s' ← exec a s; if q s' then prun_when q acts s' else None
  end.

Lemma prun_when_reach (q : pstate → bool) (Q : pstate → Prop) acts (s s' : pstate) :
  (∀ s, q s = true → Q s) → prun_when q acts s = Some s' → run acts s = Some s' ∧ reach Q s s'.
Proof.
  intros Hq. revert s. induction acts as [|a acts IH]; intros s; cbn [prun_when prun].
  { intros [= <-]. split; [done|apply pr_init]. }
  destruct (exec a s) as [s1|] eqn:He; [|done]. simpl. destruct (q s1) eqn:H1; [|done]. intros Hr.
  destruct (IH _ Hr) as [Hrun Hre]. split; [done|]. eapply preach_trans; [|exact Hre]. apply (preach_one _ a); auto.
Qed.

Definition keeps_b (s : pstate) : bool :=
  (length (buffered s) <? ch_cap (eb_ch (p_bus s)))%nat &&
  match sk_dbw (p_sinks s) with
  | Some w => (length (ch_buf (w_writeCh w)) <? ch_cap (w_writeCh w))%nat &&
              implb (w_stopped w || ch_closed (w_writeCh w)) (eb_done (p_bus s))
  | None => true
  end.

Lemma keeps_b_ok s : keeps_b s = true → keeps s.
Proof.
  unfold keeps_b, keeps. rewrite andb_true_iff, Nat.ltb_lt. intros [Hb Hw]. split; [done|].
  intros w Hs. rewrite Hs, andb_true_iff, Nat.ltb_lt in Hw. destruct Hw as [Hl Hi]. split; [done|].
  intros [Hx|Hx]; rewrite Hx, ?orb_true_r in Hi; exact Hi.
Qed.

(** What every shutdown step leaves alone. *)
Definition same_trades (s s' : pstate) : Prop := w_trades (es_world (p_es s')) = w_trades (es_world (p_es s)).

(** The dispatcher of a closed bus, with [n] events to go and room for them
    in the writer's queue. *)
Record draining (n : nat) (s : pstate) (w : DBWorker) : Prop := {
  dr_started : eb_started (p_bus s) = true;
  dr_done : eb_done (p_bus s) = false;
  dr_closed : ch_closed (eb_ch (p_bus s)) = true;
  dr_left : length (buffered s) = n;
  dr_room : (n < ch_cap (eb_ch (p_bus s)))%nat;
  dr_wired : eb_subs (p_bus s) = eb_subs wired;
  dr_worker : sk_dbw (p_sinks s) = Some w;
  dr_live : w_exited w = false ∧ w_stopOnce w = false ∧ w_stopped w = false ∧ ch_closed (w_writeCh w) = false;
  dr_queue : (length (ch_buf (w_writeCh w)) + n < ch_cap (w_writeCh w))%nat;
}.

Lemma Enqueue_room op w :
  w_stopped w = false → ch_closed (w_writeCh w) = false →
  (length (ch_buf (w_writeCh w)) < ch_cap (w_writeCh w))%nat →
  ∃ c, Enqueue op w = (set_writeCh c w, None) ∧ ch_buf c = ch_buf (w_writeCh w) ++ [op] ∧
    ch_cap c = ch_cap (w_writeCh w) ∧ ch_closed c = false.
Proof.
  intros Hs Hc Hr. unfold Enqueue, Enqueue_send, chan_try_send. rewrite Hs, Hc.
  destruct (Nat.ltb_spec (length (ch_buf (w_writeCh w))) (ch_cap (w_writeCh w))); [|lia]. by eexists.
Qed.

Lemma dispatch_one n (s : pstate) w :
  draining (S n) s w →
  ∃ s' w', exec Dispatch s = Some s' ∧ draining n s' w' ∧ keeps s' ∧ same_trades s s' ∧
    (length (ch_buf (w_writeCh w')) ≤ S (length (ch_buf (w_writeCh w))))%nat.
Proof.
  intros [Hst Hd Hcl Hlen Hroom Hwd Hw (Hx & Ho & Hsp & Hwc) Hq].
  destruct (eb_ch (p_bus s)) as [buf cap closed] eqn:Hch. unfold buffered in Hlen. rewrite Hch in Hlen.
  simpl in Hlen, Hcl, Hroom. destruct buf as [|e buf]; [done|]. simpl in Hlen.
  set (h := w_heap (es_world (p_es s))). set (c := mkChan buf cap closed).
  set (sk := handle_event marshal_msg marshal nats_publish redis_publish redis_set h e (p_sinks s)).
  assert (exec Dispatch s = Some (set_pbus (set_ch c (p_bus s)) (set_sinks sk s))) as He.
  { simpl. rewrite Hst, Hd. unfold dispatch_turn, chan_recv. rewrite Hch. cbn [andb negb ch_buf ch_cap ch_closed].
    by rewrite (wired_deliver marshal_msg marshal nats_publish redis_publish redis_set ids) by exact Hwd. }
  assert (∃ w', sk_dbw sk = Some w' ∧ w_exited w' = false ∧ w_stopOnce w' = false ∧ w_stopped w' = false ∧
    ch_closed (w_writeCh w') = false ∧ ch_cap (w_writeCh w') = ch_cap (w_writeCh w) ∧
    (length (ch_buf (w_writeCh w')) ≤ S (length (ch_buf (w_writeCh w))))%nat)
    as (w' & Hw' & Hx' & Ho' & Hsp' & Hc' & Hcap' & Hl').
  { unfold sk. rewrite handle_event_dbw, Hw. destruct (write_op h e) as [op|]; [|exists w; split_and!; done || lia].
    destruct (Enqueue_room op w Hsp Hwc) as (c' & Hen & Hb & Hcap & Hcc); [lia|]. simpl. rewrite Hen.
    eexists. split; [done|]. simpl. rewrite Hb, length_app. simpl. split_and!; done || lia. }
  eexists _, w'. split; [exact He|]. split_and!; [..|done].
  - split; try done; unfold buffered; simpl; lia.
  - split; [unfold buffered; simpl; lia|]. simpl. rewrite Hw'. intros w1 [= <-]. split; [lia|].
    rewrite Hsp', Hc'. intros [?|?]; done.
  - done.
Qed.

Lemma dispatch_all n : ∀ (s : pstate) w,
  draining n s w →
  ∃ s' w', run (replicate (S n) Dispatch) s = Some s' ∧ reach keeps s s' ∧ keeps s' ∧ same_trades s s' ∧
    eb_done (p_bus s') = true ∧ buffered s' = [] ∧ sk_dbw (p_sinks s') = Some w' ∧
    w_exited w' = false ∧ w_stopOnce w' = false ∧ ch_closed (w_writeCh w') = false ∧
    (length (ch_buf (w_writeCh w')) ≤ length (ch_buf (w_writeCh w)) + n)%nat.
Proof.
  induction n as [|n IH]; intros s w Hdr.
  - destruct Hdr as [Hst Hd Hcl Hlen Hroom Hwd Hw (Hx & Ho & Hsp & Hwc) Hq].
    apply length_zero_iff_nil in Hlen.
    set (b := mkBus (eb_subs (p_bus s)) (eb_ch (p_bus s)) true (eb_started (p_bus s)) (eb_stopped (p_bus s))).
    assert (exec Dispatch s = Some (set_pbus b (set_sinks (p_sinks s) s))) as He.
    { simpl. rewrite Hst, Hd. unfold dispatch_turn, chan_recv. unfold buffered in Hlen. rewrite Hlen, Hcl. unfold b. by rewrite Hst. }
    assert (keeps (set_pbus b (set_sinks (p_sinks s) s))) as Hk.
    { split; [unfold buffered in *; simpl; rewrite Hlen; simpl; lia|]. simpl. rewrite Hw. intros w1 [= <-]. split; [lia|done]. }
    eexists _, w. simpl replicate. cbn [prun]. rewrite He. split; [done|].
    split_and!; try done; [|lia]. by eapply preach_one.
  - destruct (dispatch_one n s w Hdr) as (s1 & w1 & He & Hdr1 & Hk1 & Ht1 & Hl1).
    destruct (IH s1 w1 Hdr1) as (s' & w' & Hrun & Hre & Hk & Ht & Hd & Hb & Hw & Hx & Ho & Hc & Hl).
    exists s', w'. split; [rewrite replicate_S; cbn [prun]; rewrite He; exact Hrun|].
    split_and!; try done; [|congruence|lia].
    eapply preach_trans; [by eapply preach_one|exact Hre].
Qed.

(** The writer, once its queue is closed. *)
Lemma keeps_worker (s : pstate) ws :
  eb_done (p_bus s) = true → (length (buffered s) < ch_cap (eb_ch (p_bus s)))%nat →
  (length (ch_buf (w_writeCh (ws_w ws))) < ch_cap (w_writeCh (ws_w ws)))%nat → keeps (set_worker ws s).
Proof. intros Hd Hb Hq. split; [done|]. simpl. intros w [= <-]. by split. Qed.

Lemma recv_all n : ∀ (s : pstate) ws ws',
  drain SendBatch n ws = Some ws' → p_worker s = Some ws → w_exited (ws_w ws) = false →
  eb_done (p_bus s) = true → (length (buffered s) < ch_cap (eb_ch (p_bus s)))%nat →
  (length (ch_buf (w_writeCh (ws_w ws))) < ch_cap (w_writeCh (ws_w ws)))%nat →
  ∃ m, (m ≤ n)%nat ∧ run (replicate m WorkerRecv) s = Some (set_worker ws' s) ∧
    reach keeps s (set_worker ws' s) ∧ keeps (set_worker ws' s).
Proof.
  induction n as [|n IH]; intros s ws ws'; cbn [drain]; [done|]. intros Hdrain Hw Hx Hd Hb Hq.
  destruct (recv_case SendBatch ws) as [ws1|] eqn:Hr; [|done].
  destruct (recv_case_chan _ _ _ Hr) as [Hlen Hcap].
  assert (exec WorkerRecv s = Some (set_worker ws1 s)) as He.
  { cbn [pexec]. unfold on_worker. rewrite Hw. simpl. rewrite Hx, Hr. done. }
  assert (keeps (set_worker ws1 s)) as Hk1 by (apply keeps_worker; [done..|lia]).
  destruct (w_exited (ws_w ws1)) eqn:Hx1.
  - injection Hdrain as <-. exists 1%nat. split; [lia|]. cbn [replicate prun]. rewrite He.
    split_and!; [done| |done]. by eapply preach_one.
  - destruct (IH (set_worker ws1 s) ws1 ws' Hdrain) as (m & Hm & Hrun & Hre & Hk);
      [by destruct ws1|done..|lia|]. exists (S m). split; [lia|].
    rewrite replicate_S. cbn [prun]. rewrite He. split_and!; [exact Hrun| |exact Hk].
    eapply preach_trans; [by eapply preach_one|exact Hre].
Qed.

(** ** What [Stop] finds *)

(** Until somebody calls its [Stop], a part of the server is running. *)
Definition running (w : DBWorker) : Prop :=
  w_stopOnce w = false → w_stopped w = false ∧ ch_closed (w_writeCh w) = false ∧ w_exited w = false.

Record pshape (s : pstate) : Prop := {
  sh_started : eb_started (p_bus s) = true;
  sh_open : eb_stopped (p_bus s) = false → ch_closed (eb_ch (p_bus s)) = false;
  sh_worker : ∃ w, sk_dbw (p_sinks s) = Some w ∧ running w;
}.

Lemma do_flush_flags next (ws : @wstate DB) :
  ws_w (do_flush SendBatch next ws) = next (ws_w ws).
Proof. unfold do_flush. by destruct (flush_batch _ _ _). Qed.

Lemma w_step_running ws ws' : w_step SendBatch ws [] ws' → running (ws_w ws) → running (ws_w ws').
Proof.
  intros Hstep. inversion Hstep as [s1 Hx Hr|Hx|Hx| |Ho|c Ho Hc]; subst; try done; unfold running.
  - intros Hrun Hns. revert Hr. unfold recv_case. destruct (chan_recv _) as [op c| |] eqn:Hc; [| |done].
    + apply chan_recv_Received in Hc as (_ & Hcl & _).
      destruct (_ >=? _); intros [= <-]; rewrite ?do_flush_flags in *; simpl in *; rewrite Hcl; auto.
    + apply chan_recv_closed in Hc as [Hcl _]. intros [= <-]. rewrite do_flush_flags in Hns.
      destruct (Hrun Hns) as (_ & Ho & _). congruence.
  - unfold DBWorker.tick_case. by rewrite do_flush_flags.
  - simpl. by rewrite Ho.
Qed.

Lemma Enqueue_running op w : running w → running (Enqueue op w).1.
Proof.
  intros Hr. unfold Enqueue. destruct (w_stopped w) eqn:Hs; [done|]. unfold Enqueue_send, chan_try_send.
  destruct (ch_closed _) eqn:Hc; [done|]. destruct (_ <? _)%nat; [|done].
  unfold running in *. simpl. rewrite Hs in *. tauto.
Qed.

Lemma dispatch_shape (s s' : pstate) :
  eb_subs (p_bus s) = eb_subs wired → pshape s → exec Dispatch s = Some s' → pshape s'.
Proof.
  intros Hwd [Hst Hop (w & Hw & Hrun)]. simpl. rewrite Hst.
  destruct (eb_done (p_bus s)); [done|]. cbn [andb negb]. unfold dispatch_turn.
  destruct (chan_recv (eb_ch (p_bus s))) as [e c| |] eqn:Hr; [| |done].
  - rewrite (wired_deliver marshal_msg marshal nats_publish redis_publish redis_set ids) by exact Hwd.
    intros [= <-]. apply chan_recv_Received in Hr as (_ & Hcl & _).
    split; simpl; [done|by rewrite Hcl|]. rewrite handle_event_dbw, Hw.
    destruct (write_op _ e) as [op|]; [|by exists w]. eexists. split; [done|]. by apply Enqueue_running.
  - intros [= <-]. split; simpl; [done|done|by exists w].
Qed.

Lemma pexec_shape `{!TradeRepositoryLaws TR} w0 db0 a (s s' : pstate) :
  pinv marshal_msg marshal nats_publish redis_publish redis_set SendBatch ids w0 db0 false s →
  pshape s → exec a s = Some s' → pshape s'.
Proof.
  intros Hi Hsh He. apply pexec_cases in He; [|by apply Hi]. pose proof Hsh as [Hst Hop (w & Hw & Hrun)].
  destruct He as [[evs [Eb _ _ _]] Hsk _ _ _|ws ws' Hws Hstep ->|He|c Hcl -> ->|sk Hsk ->].
  - destruct (publish_list_bus evs (p_bus s) (p_bus s') (pi_chan _ _ _ _ _ _ _ _ _ _ _ Hi) Eb)
      as (_ & _ & [Hst' Hsp'] & Hcl & _). split; [congruence|rewrite Hsp', Hcl; done|]. rewrite Hsk. by exists w.
  - split; [done|done|]. simpl. exists (ws_w ws'). split; [done|]. apply (w_step_running _ _ Hstep).
    unfold p_worker in Hws. rewrite Hw in Hws. by injection Hws as <-.
  - eapply dispatch_shape; [by apply Hi|done|done].
  - split; simpl; [done|done|by exists w].
  - split; simpl; [done|done|rewrite Hsk; by exists w].
Qed.

(** ** A writer told to stop *)
Lemma w_step_stopped ws ws' : w_step SendBatch ws [] ws' → w_stopped (ws_w ws) = true → w_stopped (ws_w ws') = true.
Proof.
  intros Hstep. inversion Hstep as [s1 Hx Hr|Hx|Hx| |Ho|c Ho Hc]; subst; try done.
  - revert Hr. unfold recv_case. destruct (chan_recv _) as [op c| |]; [destruct (_ >=? _)| |done]; intros [= <-];
      by rewrite ?do_flush_flags.
  - unfold DBWorker.tick_case. by rewrite do_flush_flags.
Qed.

Lemma dispatch_stopped (s s' : pstate) w :
  exec Dispatch s = Some s' → eb_subs (p_bus s) = eb_subs wired →
  sk_dbw (p_sinks s) = Some w → w_stopped w = true →
  sk_dbw (p_sinks s') = Some w ∧ p_db s' = p_db s ∧ p_log s' = p_log s.
Proof.
  simpl. intros He Hwd Hw Hst. revert He. destruct (_ && _); [|done]. unfold dispatch_turn.
  destruct (chan_recv (eb_ch (p_bus s))) as [e c| |]; [|by intros [= <-]|done].
  rewrite (wired_deliver marshal_msg marshal nats_publish redis_publish redis_set ids) by exact Hwd.
  intros [= <-]. simpl. split_and!; try done. rewrite handle_event_dbw, Hw.
  destruct (write_op _ e) as [op|]; [|done]. simpl. unfold Enqueue. by rewrite Hst.
Qed.
End Shutdown.
