(* ===== verification/PipelineTheorems.v ===== *)
(** * What the parts of the server guarantee together

    No trade is lost between the matching engine and the database as long as
    the buffers on the way have room and the database writer outlives the
    dispatcher; and what goes wrong when it does not. *)
From stdpp Require Import pretty.
From S2P Require Import Prelude GoLib Entity Repository Book Matcher MatcherLemmas Engine Services.
From S2P Require Import Validator MemoryRepo MemoryProofs EventBus EventBusProofs Hub DBWorker DBWorkerProofs.
From S2P Require Import Simulator Wiring Emission Pipeline PipelineProofs PipelineShutdown.

(** ** The trades table after a list of operations *)
Definition insert_trade (m : gmap string Trade.t) (t : Trade.t) : gmap string Trade.t :=
  match m !! Trade.ID t with Some _ => m | None => <[Trade.ID t := t]> m end.

Definition by_id (ts : list Trade.t) : gmap string Trade.t := list_to_map ((λ t, (Trade.ID t, t)) <$> ts).

Lemma exec_ops_trades tb ops :
  tb_trades (exec_ops tb ops) = foldl insert_trade (tb_trades tb) (saved ops).
Proof.
  unfold exec_ops, batch_of, saved, saved_trade. revert tb.
  induction ops as [|op ops IH]; intros tb; [done|]. cbn [omap list_omap].
  destruct (stmt_of op) as [[o|t]|]; cbn [foldl]; rewrite ?IH; try done.
  cbn [exec_stmt]. unfold insert_trade. by destruct (tb_trades tb !! Trade.ID t).
Qed.

Lemma insert_trades_by_id ts m :
  NoDup (Trade.ID <$> ts) → (∀ t, t ∈ ts → m !! Trade.ID t = None) →
  foldl insert_trade m ts = by_id ts ∪ m.
Proof.
  revert m. induction ts as [|t ts IH]; intros m Hnd Hm; cbn [foldl].
  { unfold by_id. simpl. by rewrite (left_id_L ∅ (∪)). }
  rewrite fmap_cons in Hnd. apply NoDup_cons in Hnd as [Hni Hnd].
  unfold insert_trade at 2. rewrite Hm by apply list_elem_of_here.
  rewrite IH; [|done|].
  - unfold by_id. rewrite fmap_cons. cbn [list_to_map foldr fst snd]. change (list_to_map _) with (by_id ts).
    rewrite <- insert_union_l. rewrite insert_union_r; [done|].
    apply not_elem_of_list_to_map. rewrite <- list_fmap_compose. exact Hni.
  - intros t' Ht'. rewrite lookup_insert_ne; [by apply Hm, list_elem_of_further|].
    intros Heq. apply Hni. rewrite Heq. by apply list_elem_of_fmap_2.
Qed.

Lemma committed_all log : Forall (λ p, snd p = None) log → committed log = flushed log.
Proof.
  intros Hall. unfold committed. f_equal. apply filter_all. eapply Forall_impl; [exact Hall|].
  intros [b err]. simpl. unfold succeeded. simpl. by intros ->.
Qed.

Lemma saved_committed log : saved (committed log) `sublist_of` saved (flushed log).
Proof.
  unfold committed, flushed. induction log as [|[b err] log IH]; [done|]. rewrite filter_cons. cbn [fst snd].
  case_decide; rewrite ?fmap_cons; cbn [concat]; rewrite !saved_app.
  - by apply sublist_app.
  - by apply sublist_inserts_l.
Qed.

Lemma insert_trades_none ts m id :
  m !! id = None → id ∉ Trade.ID <$> ts → foldl insert_trade m ts !! id = None.
Proof.
  revert m. induction ts as [|t ts IH]; intros m Hm; cbn [foldl]; [done|].
  rewrite fmap_cons, not_elem_of_cons. intros [Hne Hni]. apply IH; [|done]. unfold insert_trade.
  destruct (m !! Trade.ID t); [done|]. by rewrite lookup_insert_ne by congruence.
Qed.

(** ** The pipeline from its start *)
Section Theorems.
Context {OR TR MR : Type} `{!OrderRepository OR} `{!TradeRepository TR} `{!MarketRepository MR}.
Context `{!TradeRepositoryLaws TR}.
Context {B N Rd DB : Type} {uuid : nat → string} {clock : nat → Time}.
Variable marshal_msg : @ServerMessage PV → option B.
Variable marshal : PV → option B.
Variable nats_publish : string → B → N → N * option string.
Variable redis_publish : string → B → Rd → Rd * option string.
Variable redis_set : string → B → Z → Rd → Rd * option string.
Variable SendBatch : list Stmt → DB → DB * option (Z * string).
Variable ids : EventType → string.
(** PostgreSQL runs a batch in one implicit transaction. *)
Variable tables : DB → Tables.
Hypothesis SendBatch_commit : ∀ b db db',
  SendBatch b db = (db', None) → tables db' = foldl exec_stmt (tables db) b.
Hypothesis SendBatch_rollback : ∀ b db db' e,
  SendBatch b db = (db', Some e) → tables db' = tables db.
Local Abbreviation wired :=
  (subscribe_wired marshal_msg marshal nats_publish redis_publish redis_set ids NewEventBus).
Local Abbreviation pstate := (@pstate OR TR MR _ _ _ B N Rd DB uuid clock).
Local Abbreviation exec := (@pexec OR TR MR _ _ _ B N Rd DB uuid clock SendBatch).
Local Abbreviation run := (@prun OR TR MR _ _ _ B N Rd DB uuid clock SendBatch).
Local Abbreviation reach := (@preach OR TR MR _ _ _ B N Rd DB uuid clock SendBatch).
Local Abbreviation inv := (pinv marshal_msg marshal nats_publish redis_publish redis_set SendBatch ids).

(** The server once [main] has started it: no trade yet, the handlers of
    [wireEvents] subscribed, the dispatcher running, the writer fresh. *)
Record pstart (w0 : DBWorker) (s : pstate) : Prop := {
  ps_worker : sk_dbw (p_sinks s) = Some w0;
  ps_log : p_log s = [];
  ps_pending : p_pending s = [];
  ps_bus : p_bus s = EventBus.Start wired;
  ps_repo : tr_inv (w_trades (es_world (p_es s)));
  ps_stored : stored s = [];
}.

Lemma pstart_inv strict w0 (s : pstate) : pstart w0 s → inv w0 (p_db s) strict s.
Proof.
  intros [Hw Hl Hp Hb Hr Hs]. split; rewrite ?Hb, ?Hp, ?Hs; try done; [|unfold chan_wf; simpl; lia|constructor].
  exists w0, []. rewrite Hl. unfold buffered. rewrite Hb. split_and!; [done|apply w_refl|apply link_refl].
Qed.

Lemma preach_inv strict Q w0 (s0 s : pstate) :
  pstart w0 s0 → (∀ s', Q s' → strict = true → keeps s') → reach Q s0 s → inv w0 (p_db s0) strict s.
Proof.
  intros Hs0 HQ. induction 1 as [|a s s' _ IH He Hq]; [by apply pstart_inv|]. eapply pexec_inv; [exact IH|done|auto].
Qed.

Lemma reach_inv w0 (s0 s : pstate) : pstart w0 s0 → reach (λ _, True) s0 s → inv w0 (p_db s0) false s.
Proof. intros Hs0 Hr. by apply (preach_inv false (λ _, True) w0 s0 s). Qed.

Lemma keeps_inv w0 (s0 s : pstate) : pstart w0 s0 → reach keeps s0 s → inv w0 (p_db s0) true s.
Proof. intros Hs0 Hr. by apply (preach_inv true keeps w0 s0 s). Qed.

(** The ledger of the writer inside the pipeline. *)
Lemma inv_ledger strict w0 db0 cfg (s : pstate) :
  NewDBWorker true cfg = Some w0 → inv w0 db0 strict s →
  ∃ w ops, sk_dbw (p_sinks s) = Some w ∧ ledger tables db0 ops (mkW w (p_db s) (p_log s)) ∧
    link strict (saved ops ++ executed (buffered s)) (stored s).
Proof.
  intros Hn Hi. destruct (pi_ledger _ _ _ _ _ _ _ _ _ _ _ Hi) as (w & ops & Hw & Hs & Hl).
  exists w, ops. split_and!; [done| |done].
  apply (steps_ledger SendBatch tables SendBatch_commit SendBatch_rollback db0 [] _ _ _ Hs).
  by apply (new_ledger tables cfg).
Qed.

(** The trades on their way, oldest first: written or refused by the
    database, in the pending batch, in the writer's queue, on the bus. *)
Definition in_transit (s : pstate) (w : DBWorker) : list Trade.t :=
  saved (flushed (p_log s) ++ w_batch w ++ ch_buf (w_writeCh w)) ++ executed (buffered s).


(** C32. After an orderly shutdown the trades table has exactly the trades the
    matchers recorded, beside the rows it had: if the way was kept clear, the
    dispatcher and the writer have finished, and no batch was given up. *)
Theorem shutdown_persists_trades cfg w0 (s0 s : pstate) w :
  NewDBWorker true cfg = Some w0 → pstart w0 s0 → reach keeps s0 s →
  eb_done (p_bus s) = true → sk_dbw (p_sinks s) = Some w → w_exited w = true →
  Forall (λ p, snd p = None) (p_log s) →
  (∀ t, t ∈ stored s → tb_trades (tables (p_db s0)) !! Trade.ID t = None) →
  tb_trades (tables (p_db s)) = by_id (stored s) ∪ tb_trades (tables (p_db s0)).
Proof.
  intros Hn Hs0 Hr Hd Hw Hx Hlog Hnew. pose proof (keeps_inv w0 s0 s Hs0 Hr) as Hi.
  destruct (inv_ledger _ _ _ _ _ Hn Hi) as (w1 & ops & Hw1 & [Hf Ht _ _ He _] & Hl).
  rewrite Hw in Hw1. injection Hw1 as <-. simpl in *. destruct (He Hx) as [_ Hpend].
  destruct (pi_done _ _ _ _ _ _ _ _ _ _ _ Hi Hd) as [_ Hb]. rewrite Hb, app_nil_r in Hl.
  rewrite Hpend, app_nil_r in Hf. rewrite Ht, committed_all, Hf, exec_ops_trades, Hl by done.
  apply insert_trades_by_id; [by eapply pi_fresh|done].
Qed.

Lemma preach_weaken (Q P : pstate → Prop) (s0 s : pstate) : (∀ s, Q s → P s) → reach Q s0 s → reach P s0 s.
Proof. intros HP. induction 1 as [|a s s' _ IH He Hq]; [apply pr_init|]. eapply pr_step; [exact IH|done|auto]. Qed.

Lemma preach_shape cfg w0 (s0 s : pstate) :
  NewDBWorker true cfg = Some w0 → pstart w0 s0 → reach (λ _, True) s0 s → pshape s.
Proof.
  intros Hn Hs0. induction 1 as [|a s s' Hr IH He _].
  - pose proof Hs0 as [Hw Hl Hp Hb _ _]. split; rewrite ?Hb; [done|done|]. exists w0. split; [done|].
    revert Hn. unfold NewDBWorker. case_match; [done|]. by intros [= <-] _.
  - eapply pexec_shape; [|exact IH|done]. by apply (reach_inv w0 s0 s).
Qed.

(** The bus stopped and drained. *)
Lemma bus_stopped strict w0 db0 (s : pstate) w :
  inv w0 db0 strict s → pshape s → keeps s → eb_stopped (p_bus s) = false →
  sk_dbw (p_sinks s) = Some w → w_stopOnce w = false →
  (length (ch_buf (w_writeCh w)) + length (buffered s) < ch_cap (w_writeCh w))%nat →
  ∃ s' w', run (CloseBus :: replicate (S (length (buffered s))) Dispatch) s = Some s' ∧ reach keeps s s' ∧
    keeps s' ∧ same_trades s s' ∧ eb_done (p_bus s') = true ∧ buffered s' = [] ∧ sk_dbw (p_sinks s') = Some w' ∧
    w_exited w' = false ∧ w_stopOnce w' = false ∧ ch_closed (w_writeCh w') = false ∧
    (length (ch_buf (w_writeCh w')) ≤ length (ch_buf (w_writeCh w)) + length (buffered s))%nat.
Proof.
  intros Hi [Hst Hop (w1 & Hw1 & Hrun)] [Hroom Hkeep] Hstop Hw Ho Hq.
  rewrite Hw in Hw1. injection Hw1 as <-. destruct (Hrun Ho) as (Hsp & Hcl & Hx). specialize (Hop Hstop).
  set (s1 := set_pbus (mkBus (eb_subs (p_bus s)) (mkChan (buffered s) (ch_cap (eb_ch (p_bus s))) true)
    (eb_done (p_bus s)) (eb_started (p_bus s)) true) s).
  assert (eb_done (p_bus s) = false) as Hd.
  { destruct (eb_done (p_bus s)) eqn:Hd; [|done]. destruct (pi_done _ _ _ _ _ _ _ _ _ _ _ Hi Hd). congruence. }
  assert (exec CloseBus s = Some s1) as He1.
  { simpl. rewrite Hstop. unfold chan_close. by rewrite Hop. }
  assert (draining marshal_msg marshal nats_publish redis_publish redis_set ids (length (buffered s)) s1 w) as Hdr.
  { split; try done. apply (pi_wired _ _ _ _ _ _ _ _ _ _ _ Hi). }
  destruct (dispatch_all _ _ _ _ _ SendBatch ids _ s1 w Hdr) as (s2 & w2 & Hr & Hre & Hk & Ht & Hrest).
  exists s2, w2. split; [cbn [prun]; rewrite He1; exact Hr|]. split_and!; try apply Hrest; [|done..].
  eapply preach_trans; [|exact Hre]. by apply (preach_one _ _ CloseBus).
Qed.

(** C33. From every state reached with the way kept clear, in which neither
    the bus nor the writer has been stopped and the writer's queue has room
    for what is on the bus, stopping the bus and then the writer finishes:
    the dispatcher exits after one turn per buffered event and one more, the
    writer after at most one per operation it can have queued and one more.
    The way stays clear, and no trade is recorded meanwhile. *)
Theorem shutdown_completes cfg w0 (s0 s : pstate) w :
  NewDBWorker true cfg = Some w0 → pstart w0 s0 → reach keeps s0 s → keeps s →
  eb_stopped (p_bus s) = false → sk_dbw (p_sinks s) = Some w → w_stopOnce w = false →
  (length (ch_buf (w_writeCh w)) + length (buffered s) < ch_cap (w_writeCh w))%nat →
  ∃ m s' w', (m ≤ S (length (ch_buf (w_writeCh w)) + length (buffered s)))%nat ∧
    run (shutdown_actions (S (length (buffered s))) m) s = Some s' ∧ reach keeps s0 s' ∧
    eb_done (p_bus s') = true ∧ sk_dbw (p_sinks s') = Some w' ∧ w_exited w' = true ∧ stored s' = stored s.
Proof.
  intros Hn Hs0 Hr Hk Hstop Hw Ho Hq.
  pose proof (preach_weaken keeps (λ _, True) s0 s (λ _ _, I) Hr) as Hr'.
  pose proof (keeps_inv w0 s0 s Hs0 Hr) as Hi.
  destruct (bus_stopped _ _ _ s w Hi (preach_shape cfg w0 s0 s Hn Hs0 Hr') Hk Hstop Hw Ho Hq)
    as (s1 & w1 & Hrun1 & Hre1 & Hk1 & Ht1 & Hd1 & Hb1 & Hw1 & Hx1 & Ho1 & Hc1 & Hl1).
  destruct Hk1 as [Hroom1 Hkeep1]. destruct (Hkeep1 w1 Hw1) as [Hq1 _].
  set (ws2 := mkW (Stop_store w1) (p_db s1) (p_log s1)). set (s2 := set_worker ws2 s1).
  set (ws3 := mkW (set_writeCh (mkChan (ch_buf (w_writeCh w1)) (ch_cap (w_writeCh w1)) true) (Stop_store w1))
                (p_db s1) (p_log s1)). set (s3 := set_worker ws3 s2).
  assert (exec WorkerStop s1 = Some s2) as He2.
  { cbn [pexec]. unfold on_worker, p_worker. rewrite Hw1. simpl. by rewrite Ho1. }
  assert (exec WorkerClose s2 = Some s3) as He3.
  { cbn [pexec]. unfold on_worker. replace (p_worker s2) with (Some ws2) by done. simpl. unfold chan_close, Stop_store. simpl. by rewrite Hc1. }
  assert (reach keeps s0 s3) as Hr3.
  { eapply preach_trans; [exact Hr|]. eapply preach_trans; [exact Hre1|].
    eapply preach_trans; [eapply preach_one; [exact He2|]|eapply preach_one; [exact He3|]];
      by apply keeps_worker. }
  destruct (inv_ledger _ _ _ _ _ Hn (keeps_inv w0 s0 s3 Hs0 Hr3))
    as (w3 & ops & Hw3 & Hled & _).
  injection Hw3 as <-.
  destruct (drain_ok SendBatch tables SendBatch_commit SendBatch_rollback _ ops (length (ch_buf (w_writeCh w1))) ws3 Hled)
    as (ws4 & Hdr & _ & Hx4);
    [done|done|reflexivity|].
  destruct (recv_all SendBatch _ s3 ws3 ws4 Hdr) as (m & Hm & Hrun4 & Hre4 & _); [done..|].
  simpl in Hm. exists m, (set_worker ws4 s3), (ws_w ws4). split_and!; try done; [lia| | |].
  - unfold shutdown_actions. rewrite app_comm_cons. rewrite (prun_app _ _ _ _ _ Hrun1).
    by rewrite (prun_cons _ _ _ _ _ He2), (prun_cons _ _ _ _ _ He3).
  - by eapply preach_trans.
  - unfold stored, trades. simpl. by rewrite Ht1.
Qed.

(** ** A writer stopped too early *)

(** Nothing is queued any more for a writer that was told to stop. *)
Lemma stopped_writer_steps w0 (s0 s s' : pstate) w :
  pstart w0 s0 → reach (λ _, True) s0 s → sk_dbw (p_sinks s) = Some w → w_stopped w = true →
  reach (λ _, True) s s' →
  ∃ w', sk_dbw (p_sinks s') = Some w' ∧ w_stopped w' = true ∧
    w_steps SendBatch (mkW w (p_db s) (p_log s)) [] (mkW w' (p_db s') (p_log s')).
Proof.
  intros Hs0 Hr Hw Hst. induction 1 as [|a s1 s2 Hr1 IH He _]; [exists w; split_and!; try done; apply w_refl|].
  destruct IH as (w1 & Hw1 & Hst1 & Hsteps).
  pose proof (reach_inv w0 s0 s1 Hs0 (preach_trans _ _ _ _ _ Hr Hr1)) as Hi.
  apply pexec_cases in He; [|by apply Hi].
  destruct He as [_ Hsk Hdb Hlog _|ws ws' Hws Hstep ->|He|c Hcl -> ->|sk Hsk ->].
  - exists w1. by rewrite Hsk, Hdb, Hlog.
  - unfold p_worker in Hws. rewrite Hw1 in Hws. injection Hws as <-. exists (ws_w ws').
    split_and!; [done| |]; [by eapply w_step_stopped|].
    rewrite <- (app_nil_r []). eapply w_trans; [exact Hsteps|]. by destruct ws'.
  - exists w1. destruct (dispatch_stopped marshal_msg marshal nats_publish redis_publish redis_set SendBatch ids
      s1 s2 w1 He) as (-> & -> & ->); [by apply Hi|done..].
  - by exists w1.
  - exists w1. simpl. by rewrite Hsk.
Qed.

End Theorems.

(** ** A concrete server *)
Module PipeDemo.
#[local] Instance demo_deps : Deps :=
  pipe_deps (OR := OrderRepo.t) (TR := TradeRepo.t) (MR := MarketRepo.t) (B := ()) (N := ()) (Rd := ())
    (uuid := pretty) (clock := Z.of_nat).

(** A database that commits every batch. *)
Definition SendBatch (b : list Stmt) (tb : Tables) : Tables * option (Z * string) := (foldl exec_stmt tb b, None).
Lemma demo_commits b tb tb' : SendBatch b tb = (tb', None) → tb' = foldl exec_stmt tb b.
Proof. by intros [= <-]. Qed.
Lemma demo_rolls_back b tb tb' e : SendBatch b tb = (tb', Some e) → tb' = tb.
Proof. done. Qed.
Definition nothing : Tables := mkTables ∅ ∅.

Definition marshal_msg (m : @ServerMessage PV) : option () := None.
Definition marshal (v : PV) : option () := None.
Definition nats_publish (subject : string) (data : ()) (n : ()) : () * option string := (n, None).
Definition redis_publish := nats_publish.
Definition redis_set (key : string) (data : ()) (ttl : Z) (r : ()) : () * option string := (r, None).
Definition ids (ty : EventType) : string := ty.

Local Abbreviation pstate :=
  (@pstate OrderRepo.t TradeRepo.t MarketRepo.t _ _ _ () () () Tables pretty Z.of_nat).
Local Abbreviation action := (@action MarketRepo.t () () ()).
Local Abbreviation run := (@prun OrderRepo.t TradeRepo.t MarketRepo.t _ _ _ () () () Tables pretty Z.of_nat SendBatch).
Local Abbreviation exec := (@pexec OrderRepo.t TradeRepo.t MarketRepo.t _ _ _ () () () Tables pretty Z.of_nat SendBatch).
Local Abbreviation reach := (@preach OrderRepo.t TradeRepo.t MarketRepo.t _ _ _ () () () Tables pretty Z.of_nat SendBatch).

Definition cfg : DBWorkerConfig := mkWorkerConfig 100 100000000 5000 3 1000000000.
Definition w0 : DBWorker := mkDBWorker (make_chan WriteOp (Z.to_nat 5000)) true 100 3 1000000000 false false [] false.

Definition world0 : world :=
  mkWorld ∅ 0%nat OrderRepo.New TradeRepo.New
    (foldl (λ m s, MarketRepo.InitStock 0 0 s m) MarketRepo.New DefaultStocks)
    (EventBus.Start (subscribe_wired marshal_msg marshal nats_publish redis_publish redis_set ids NewEventBus))
    0%nat 0%nat.
Definition s0 : pstate :=
  mkP (mkES (NewEngine DefaultStocks) world0) [] (mkSinks NewHub None None None (Some w0) ∅ ∅) nothing [].

Definition place (user : string) (sd : Side) (price qty : Z) : action :=
  Place user (CreateOrderRequest.mk "BBCA" sd price qty).
Definition run_kept (acts : list action) : option pstate := prun_when SendBatch keeps_b acts s0.
Definition run_any (acts : list action) : option pstate := prun_when SendBatch (λ _, true) acts s0.
Definition after (r : option pstate) : pstate := default s0 r.

Definition returns {A} (r : option A) : bool := match r with Some _ => true | None => false end.

Lemma kept acts : returns (run_kept acts) = true → reach keeps s0 (after (run_kept acts)).
Proof.
  unfold after. destruct (run_kept acts) as [s|] eqn:Hs; [|done]. intros _. unfold run_kept in Hs.
  apply (prun_when_reach SendBatch keeps_b keeps) in Hs; [by destruct Hs|apply keeps_b_ok].
Qed.

Lemma any s acts : returns (prun_when SendBatch (λ _, true) acts s) = true →
  reach (λ _, True) s (default s0 (prun_when SendBatch (λ _, true) acts s)).
Proof.
  destruct (prun_when _ _ _ _) as [s'|] eqn:Hs; [|done]. intros _. apply (prun_when_reach SendBatch (λ _, true) (λ _, True)) in Hs; [by destruct Hs|done].
Qed.

Lemma start0 : pstart marshal_msg marshal nats_publish redis_publish redis_set ids w0 s0.
Proof. split; try done. apply TradeRepoProofs.trades_New_wf. Qed.

(** Two orders that match, every event announced in time. *)
Definition session : list action :=
  [StartEngine; place "ann" SideSell 9500 100; Announce 0; place "bob" SideBuy 9550 40; Announce 0;
   Turn "BBCA"; Turn "BBCA"].
Definition traded : pstate := after (run_kept session).
Definition ended : pstate := after (run_kept (session ++ StopEngine :: shutdown_actions 9 6)).
Definition sizes (ts : list Trade.t) : list Z := Trade.Quantity <$> ts.
Definition writer (s : pstate) : DBWorker := default w0 (sk_dbw (p_sinks s)).


Lemma shutdown_persists_trades_witness :
  tb_trades (p_db ended) = by_id (stored ended) ∧ sizes (stored ended) = [40].
Proof.
  split; [|vm_compute; reflexivity].
  rewrite (shutdown_persists_trades marshal_msg marshal nats_publish redis_publish redis_set SendBatch ids (λ tb, tb)
    demo_commits demo_rolls_back cfg w0 s0 ended (writer ended)); [apply map_union_empty|reflexivity|apply start0| | | | | |].
  - apply kept. vm_compute. reflexivity.
  - vm_compute. reflexivity.
  - vm_compute. reflexivity.
  - vm_compute. reflexivity.
  - apply (bool_decide_unpack _). vm_compute. exact I.
  - intros t _. reflexivity.
Defined.

Lemma shutdown_completes_witness :
  ∃ m s' w', run (shutdown_actions 9 m) traded = Some s' ∧ sk_dbw (p_sinks s') = Some w' ∧ w_exited w' = true.
Proof.
  destruct (shutdown_completes marshal_msg marshal nats_publish redis_publish redis_set SendBatch ids (λ tb, tb)
    demo_commits demo_rolls_back cfg w0 s0 traded w0) as (m & s' & w' & _ & Hrun & _ & _ & Hw & Hx & _);
    [reflexivity|apply start0|apply kept; vm_compute; reflexivity| |vm_compute; reflexivity..| |].
  - apply keeps_b_ok. vm_compute. reflexivity.
  - apply Nat.ltb_lt. vm_compute. reflexivity.
  - exists m, s', w'. split_and!; [exact Hrun|exact Hw|exact Hx].
Defined.

(** The signal that begins the shutdown also cancels the context of the
    writer, which then stops itself while two orders are still queued. *)
Definition signalled : list action :=
  [StartEngine; place "ann" SideSell 9500 100; Announce 0; place "bob" SideBuy 9550 40; Announce 0;
   WorkerStop; WorkerClose; WorkerRecv].
Definition cancelled : pstate := after (run_any signalled).
Definition drained : pstate :=
  default s0 (prun_when SendBatch (λ _, true) (StopEngine :: CloseBus :: replicate 9 Dispatch) cancelled).

Definition lost : Trade.t := hd (Trade.mk "" "" "" "" 0 0 "" "" 0) (stored drained).
Lemma drained_lost : stored drained = [lost].
Proof. vm_compute. reflexivity. Qed.


(** ** A row older than the order *)

(** The matcher runs between the submission of an order and its
    announcement. *)
Definition raced : list action :=
  [StartEngine; place "ann" SideSell 9500 100; Turn "BBCA"; place "bob" SideBuy 9550 40; Turn "BBCA";
   Announce 0; Announce 0].

Definition race_ended : pstate := after (run_kept (raced ++ StopEngine :: shutdown_actions 9 6)).

Definition bob_order (filled : Z) (status : OrderStatus) (at_ : Time) : Order.t :=
  Order.mk "1" "bob" "BBCA" SideBuy 9550 40 filled status 2 at_.

End PipeDemo.
