(* ===== verification/Delivery.v ===== *)
(** * From a trade to a WebSocket client

    The pipeline of Pipeline.v together with the hub, its clients and their
    pumps, on an instance without brokers: every message to a client starts in
    the handlers of [wireEvents], in the hub or in the client's own requests. *)
From stdpp Require Import pretty.
From S2P Require Import Prelude GoLib Entity Repository Book Matcher MatcherLemmas Engine Services.
From S2P Require Import Validator MemoryRepo MemoryProofs EventBus EventBusProofs Hub HubOrder DBWorker DBWorkerProofs.
From S2P Require Import Simulator Wiring WiringTheorems Emission Pipeline PipelineProofs PipelineShutdown PipelineTheorems.

(** ** The system *)

(** The case the hub's loop takes. *)
Inductive hub_case : Type :=
| HRegister | HUnregister | HSubscribe | HUnsubscribe | HDirect | HBroadcast | HDone.

Section Hub.
Context {B : Type}.
Variable marshal_msg : @ServerMessage PV → option B.
Local Abbreviation WSHub := (@Hub.Hub PV B).

Definition hub_turn (k : hub_case) (h : WSHub) : option WSHub :=
  match k with
  | HRegister => match chan_recv (h_register h) with
                 | Received c ch => on_register marshal_msg c (set_register ch h) | _ => None end
  | HUnregister => match chan_recv (h_unregister h) with
                   | Received c ch => on_unregister c (set_unregister ch h) | _ => None end
  | HSubscribe => match chan_recv (h_subscribe h) with
                  | Received r ch => on_subscribe marshal_msg r (set_subscribe ch h) | _ => None end
  | HUnsubscribe => match chan_recv (h_unsubscribe h) with
                    | Received r ch => on_unsubscribe marshal_msg r (set_unsubscribe ch h) | _ => None end
  | HDirect => match chan_recv (h_directSend h) with
               | Received r ch => on_directSend marshal_msg r (set_directSend ch h) | _ => None end
  | HBroadcast => match chan_recv (h_broadcast h) with
                  | Received m ch => on_broadcast m (set_broadcast ch h) | _ => None end
  | HDone => on_done h
  end.

Lemma hub_turn_step k (h h' : WSHub) : hub_turn k h = Some h' → run_step marshal_msg h (Some h').
Proof.
  destruct k; simpl;
    try (destruct (chan_recv _) as [x ch| |] eqn:Hr; [|done..]; intros H; rewrite <- H; by econstructor).
  intros H. rewrite <- H. constructor.
Qed.
End Hub.

Section System.
Context {OR TR MR : Type} `{!OrderRepository OR} `{!TradeRepository TR} `{!MarketRepository MR}.
Context {B N Rd DB : Type} {uuid : nat → string} {clock : nat → Time}.
Variable marshal_msg : @ServerMessage PV → option B.
Variable unmarshal : B → option ClientMessage.
Variable SendBatch : list Stmt → DB → DB * option (Z * string).
Local Abbreviation pstate := (@pstate OR TR MR _ _ _ B N Rd DB uuid clock).
Local Abbreviation paction := (@action MR B N Rd).
Local Abbreviation exec := (@pexec OR TR MR _ _ _ B N Rd DB uuid clock SendBatch).

Definition hub (s : pstate) : @Hub.Hub PV B := sk_hub (p_sinks s).
Definition set_hub (h : @Hub.Hub PV B) (s : pstate) : pstate := set_sinks (upd_hub (λ _, h) (p_sinks s)) s.

(** With the frames written to each client's connection, oldest first. *)
Record fstate : Type := mkF { f_server : pstate; f_sent : gmap cid (list B) }.
Definition sent_to (s : fstate) (c : cid) : list B := default [] (f_sent s !! c).

Inductive faction : Type :=
| Server (a : paction)                 (* a goroutine of the pipeline *)
| HubTurn (k : hub_case)
| Connect (userID : option string) (ip : string) (c : cid)
| FrameIn (c : cid) (data : B)
| Leave (c : cid)
| WriteOut (c : cid).

Definition with_hub (s : fstate) (h : option (@Hub.Hub PV B)) : option fstate :=
  h ← h; Some (mkF (set_hub h (f_server s)) (f_sent s)).

Definition fexec (a : faction) (s : fstate) : option fstate :=
  let h := hub (f_server s) in
  match a with
  | Server (Others _ nats pubsub cache trades orders) =>      (* all but the hub *)
      s' ← exec (Others h nats pubsub cache trades orders) (f_server s); Some (mkF s' (f_sent s))
  | Server a => s' ← exec a (f_server s); Some (mkF s' (f_sent s))
  | HubTurn k => with_hub s (hub_turn marshal_msg k h)
  | Connect userID ip c => match h_conns h !! c with None => with_hub s (ServeHTTP userID ip c h) | Some _ => None end
  | FrameIn c data => with_hub s (readPump_frame unmarshal c data h)
  | Leave c => with_hub s (readPump_exit c h)
  | WriteOut c =>
      match writePump_turn c h with
      | WriteMsg data h' => Some (mkF (set_hub h' (f_server s)) (<[c := sent_to s c ++ [data]]> (f_sent s)))
      | _ => None
      end
  end.

Fixpoint frun (acts : list faction) (s : fstate) : option fstate :=
  match acts with [] => Some s | a :: acts => s' ← fexec a s; frun acts s' end.
End System.

(** ** The trades of a client's line *)

(** The trade a message announces. *)
Definition msg_trade (m : @ServerMessage PV) : option Trade.t :=
  match sm_Data m with
  | Some (VTrade t) => if (sm_Type m =? "market.trade")%string then Some t else None
  | _ => None
  end.

Section Order.
Context {OR TR MR : Type} `{!OrderRepository OR} `{!TradeRepository TR} `{!MarketRepository MR}.
Context `{!TradeRepositoryLaws TR}.
Context {B N Rd DB : Type} {uuid : nat → string} {clock : nat → Time}.
Variable marshal_msg : @ServerMessage PV → option B.
Variable marshal : PV → option B.
Variable unmarshal : B → option ClientMessage.
Variable nats_publish : string → B → N → N * option string.
Variable redis_publish : string → B → Rd → Rd * option string.
Variable redis_set : string → B → Z → Rd → Rd * option string.
Variable SendBatch : list Stmt → DB → DB * option (Z * string).
Variable ids : EventType → string.
(** What a client decodes from a frame is the trade that was encoded. *)
Variable trade_of : B → option Trade.t.
Hypothesis trade_codec : ∀ m data, marshal_msg m = Some data → trade_of data = msg_trade m.
Local Abbreviation pstate := (@pstate OR TR MR _ _ _ B N Rd DB uuid clock).
Local Abbreviation fstate := (@fstate OR TR MR _ _ _ B N Rd DB uuid clock).
Local Abbreviation faction := (@faction MR B N Rd).
Local Abbreviation exec := (@pexec OR TR MR _ _ _ B N Rd DB uuid clock SendBatch).
Local Abbreviation run := (@frun OR TR MR _ _ _ B N Rd DB uuid clock marshal_msg unmarshal SendBatch).
Local Abbreviation step := (@fexec OR TR MR _ _ _ B N Rd DB uuid clock marshal_msg unmarshal SendBatch).
Local Abbreviation inv := (pinv marshal_msg marshal nats_publish redis_publish redis_set SendBatch ids).
Local Abbreviation handle := (handle_event marshal_msg marshal nats_publish redis_publish redis_set).
Local Abbreviation line := (@line PV B Trade.t trade_of).
Local Abbreviation direct_quiet := (@direct_quiet PV B Trade.t msg_trade).

Lemma msg_trade_data m : sm_Data m = None → msg_trade m = None.
Proof. unfold msg_trade. by intros ->. Qed.

(** An event reaches the lines only as the trade it announces. *)
Lemma handle_event_line h e (s : @sinks B N Rd) :
  (∀ c, line (sk_hub (handle h e s)) c `sublist_of` line (sk_hub s) c ++ executed [e]) ∧
  (direct_quiet (sk_hub s) → direct_quiet (sk_hub (handle h e s))).
Proof.
  pose proof (Broadcast_line marshal_msg trade_of msg_trade trade_codec) as Hb.
  assert (∀ ch stock v l,
    option_list (msg_trade (mkServerMessage ch EmptyString stock (Some v) EmptyString)) `sublist_of` l →
    (∀ c, line (Broadcast marshal_msg ch stock v (sk_hub s)) c `sublist_of` line (sk_hub s) c ++ l) ∧
    (direct_quiet (sk_hub s) → direct_quiet (Broadcast marshal_msg ch stock v (sk_hub s)))) as Hcast.
  { intros ch stock v l Hl. destruct (Hb ch stock v (sk_hub s)) as [H1 H2]. split; [|done]. intros c.
    etrans; [apply H1|]. by apply sublist_app. }
  assert ((∀ c, line (sk_hub s) c `sublist_of` line (sk_hub s) c ++ executed [e]) ∧
          (direct_quiet (sk_hub s) → direct_quiet (sk_hub s))) as Hnone
    by (split; [intros c; by apply sublist_inserts_r|done]).
  destruct e as [ty code user p ts]. unfold handle_event, wireEvents. cbn [foldl fst snd Event.Ty Event.Pl].
  unfold on_trade, on_ticker, on_orderbook, on_created, on_updated. cbn [Event.Pl Event.StockCode].
  destruct (String.eqb_spec ty TradeExecuted) as [->|H1];
    [destruct p; cbn -[line]; rewrite ?fan_out_hub; apply Hcast; first [apply sublist_nil_l|done]|].
  destruct (String.eqb_spec ty TickerUpdated) as [->|H2];
    [destruct p; cbn -[line]; rewrite ?fan_out_hub; apply Hcast; apply sublist_nil_l|].
  destruct (String.eqb_spec ty OrderBookUpdated) as [->|H3];
    [destruct p; cbn -[line]; rewrite ?fan_out_hub; apply Hcast; apply sublist_nil_l|].
  destruct (String.eqb_spec ty OrderCreated) as [->|H4]; [by destruct p|].
  destruct (String.eqb_spec ty OrderUpdated) as [->|H5];
    [destruct p; cbn -[line]; rewrite ?fan_out_hub; first [apply Hnone|apply Hcast; apply sublist_nil_l]|].
  rewrite !(proj2 (String.eqb_neq _ ty)) by congruence. exact Hnone.
Qed.

(** ** The invariant *)
Section Invariant.
Variable w0 : DBWorker.
Variable db0 : DB.

(** A client has read, will read and can still be sent only recorded trades,
    in the order of matching. *)
Definition on_line (sent : list B) (h : @Hub.Hub PV B) (c : cid) (s : pstate) : Prop :=
  omap trade_of sent ++ line h c ++ executed (buffered s) `sublist_of` stored s.

Record finv (s : fstate) : Prop := {
  fi_pipe : inv w0 db0 false (f_server s);
  fi_direct : direct_quiet (hub (f_server s));
  fi_line c : on_line (sent_to s c) (hub (f_server s)) c (f_server s);
}.

Lemma on_line_shrink sent h h' c s : line h' c `sublist_of` line h c → on_line sent h c s → on_line sent h' c s.
Proof.
  unfold on_line. intros Hl H. etrans; [|exact H]. apply sublist_app; [done|]. by apply sublist_app.
Qed.

(** The hub and its clients at work. *)
Lemma set_hub_inv h' (s : fstate) sent :
  finv s → direct_quiet h' → (∀ c, on_line (default [] (sent !! c)) h' c (f_server s)) →
  finv (mkF (set_hub h' (f_server s)) sent).
Proof.
  intros [Hp _ _] Hd Hl. split; [|exact Hd|exact Hl].
  set (sk := p_sinks (f_server s)).
  apply (pexec_inv _ _ _ _ _ _ _ _ _ false (Others h' (sk_nats sk) (sk_pubsub sk) (sk_cache sk) (sk_trades sk) (sk_orders sk))
    (f_server s)); [exact Hp|reflexivity|done].
Qed.

Lemma with_hub_inv r (s s' : fstate) :
  finv s → with_hub s r = Some s' →
  (∀ h', r = Some h' → (∀ c, line h' c `sublist_of` line (hub (f_server s)) c) ∧ direct_quiet h') → finv s'.
Proof.
  intros Hi Hw Hr. unfold with_hub in Hw. destruct r as [h'|]; [|done]. injection Hw as <-.
  destruct (Hr h' eq_refl) as [Hl Hd]. apply set_hub_inv; [done|done|]. intros c.
  by eapply on_line_shrink, fi_line.
Qed.

Lemma hub_turn_inv k (s s' : fstate) : finv s → step (HubTurn k) s = Some s' → finv s'.
Proof.
  intros Hi Hs. apply (with_hub_inv _ s s' Hi Hs). intros h' Hk%hub_turn_step.
  apply (run_step_line marshal_msg trade_of msg_trade trade_codec msg_trade_data) in Hk; [done|by apply Hi].
Qed.

Lemma client_inv a (s s' : fstate) :
  match a with Connect _ _ _ | FrameIn _ _ | Leave _ => True | _ => False end →
  finv s → step a s = Some s' → finv s'.
Proof.
  intros Ha Hi Hs. pose proof (fi_direct _ Hi) as Hd.
  destruct a as [| |userID ip c|c data|c|]; try done; cbn [fexec] in Hs.
  - destruct (h_conns _ !! c) eqn:Hc; [done|]. apply (with_hub_inv _ s s' Hi Hs). intros h' Hh.
    destruct (ServeHTTP_line trade_of msg_trade userID ip c _ _ Hc Hh) as [Hl Hq].
    split; [intros c'; by rewrite Hl|by apply Hq].
  - apply (with_hub_inv _ s s' Hi Hs). intros h' Hh.
    destruct (readPump_frame_line unmarshal trade_of msg_trade msg_trade_data c data _ _ Hd Hh) as [Hl Hq].
    split; [intros c'; by rewrite Hl|done].
  - apply (with_hub_inv _ s s' Hi Hs). intros h'. unfold readPump_exit. destruct (push _ _); [|done].
    by intros [= <-].
Qed.

Lemma write_inv c (s s' : fstate) : finv s → step (WriteOut c) s = Some s' → finv s'.
Proof.
  intros Hi Hs. cbn [fexec] in Hs. destruct (writePump_turn _ _) as [data h'| |] eqn:Hw; [|done..].
  injection Hs as <-. destruct (writePump_line trade_of msg_trade c data _ _ Hw) as (Hl & Ho & Hq).
  apply set_hub_inv; [done|by apply Hq, Hi|]. intros c'. destruct (decide (c' = c)) as [->|Hne].
  - rewrite lookup_insert_eq. change (on_line (sent_to s c ++ [data]) h' c (f_server s)).
    unfold on_line. rewrite omap_app.
    pose proof (fi_line _ Hi c) as H. unfold on_line in H. rewrite Hl in H.
    etrans; [|exact H]. simpl. rewrite <- !app_assoc. by destruct (trade_of data).
  - rewrite lookup_insert_ne by done. eapply on_line_shrink; [|apply (fi_line _ Hi)]. by rewrite Ho.
Qed.

(** Actions of the pipeline. *)
Lemma emits_line (s s' : pstate) sent h c :
  inv w0 db0 false s → emits (es_world (p_es s)) (es_world (p_es s')) → on_line sent h c s → on_line sent h c s'.
Proof.
  intros Hp [evs [Eb _ Et _]] Hl.
  destruct (publish_list_bus evs (p_bus s) (p_bus s') (pi_chan _ _ _ _ _ _ _ _ _ _ _ Hp) Eb) as (_ & _ & _ & _ & _ & _ & k & Hbuf & _).
  assert (stored s' = stored s ++ executed evs) as Hst by (apply Et, Hp).
  unfold on_line, buffered in *. rewrite Hbuf, Hst, executed_app, !app_assoc.
  apply sublist_app; [by rewrite <- !app_assoc|apply executed_take].
Qed.

Lemma pexec_hub a (s s' : pstate) :
  exec a s = Some s' → match a with Dispatch | Others _ _ _ _ _ _ => True | _ => hub s' = hub s end.
Proof.
  assert (∀ f, on_worker f s = Some s' → hub s' = hub s) as Hw.
  { intros f. unfold on_worker. destruct (p_worker s); [|done]. simpl. destruct (f _); [|done]. by intros [= <-]. }
  assert (∀ A (r : res _ A) (k : A → @estate (@pipe_deps OR TR MR _ _ _ B N Rd uuid clock) → pstate),
    (∀ x es, hub (k x es) = hub s) →
    ('(x, es) ← ret_state r; Some (k x es)) = Some s' → hub s' = hub s) as Hr.
  { intros A [x es|?|] k Hk; [|done..]. intros [= <-]. apply Hk. }
  destruct a; try done; try apply Hw; cbn [pexec].
  - by apply Hr.
  - destruct (p_pending s !! i); [|done]. by apply Hr.
  - by apply Hr.
  - by apply Hr.
  - by apply Hr.
  - by apply Hr.
  - by intros [= <-].
  - destruct (eb_stopped _); [done|]. destruct (chan_close _); [|done]. by intros [= <-].
Qed.

Lemma dispatch_inv (s : fstate) s' :
  finv s → exec Dispatch (f_server s) = Some s' →
  direct_quiet (hub s') ∧ ∀ c, on_line (sent_to s c) (hub s') c s'.
Proof.
  intros [Hp Hd Hl] He. cbn [pexec] in He. destruct (_ && _); [|done]. unfold dispatch_turn in He.
  destruct (chan_recv (eb_ch (p_bus (f_server s)))) as [e ch| |] eqn:Hr; [| |done].
  - rewrite (wired_deliver marshal_msg marshal nats_publish redis_publish redis_set ids) in He
      by apply (pi_wired _ _ _ _ _ _ _ _ _ _ _ Hp).
    injection He as <-. apply chan_recv_Received in Hr as (Hbuf & _ & _).
    destruct (handle_event_line (w_heap (es_world (p_es (f_server s)))) e (p_sinks (f_server s))) as [Hln Hq].
    split; [by apply Hq|]. intros c. specialize (Hl c). unfold on_line, buffered in *. rewrite Hbuf in Hl.
    change (e :: ch_buf ch) with ([e] ++ ch_buf ch) in Hl. rewrite executed_app in Hl.
    etrans; [|exact Hl]. apply sublist_app; [done|]. rewrite app_assoc. by apply sublist_app.
  - injection He as <-. split; [exact Hd|]. intros c. apply (Hl c).
Qed.

Lemma server_inv a (s s' : fstate) : finv s → step (Server a) s = Some s' → finv s'.
Proof.
  intros Hi Hs. assert (∃ a' sv, exec a' (f_server s) = Some sv ∧ s' = mkF sv (f_sent s) ∧
    (hub sv = hub (f_server s) ∨ a' = Dispatch)) as (a' & sv & He & -> & Hh).
  { cbn [fexec] in Hs. destruct a; (match type of Hs with context [pexec _ ?x ?y] =>
      destruct (pexec SendBatch x y) as [sv|] eqn:He; [|done]; injection Hs as <-; exists x, sv;
      split_and!; [exact He|done|] end); try (left; exact (pexec_hub _ _ _ He)); [by right|].
    left. by injection He as <-. }
  assert (inv w0 db0 false sv) as Hp by (eapply pexec_inv; [apply Hi|exact He|done]).
  destruct Hh as [Hh| ->]; [|by destruct (dispatch_inv s sv Hi He) as [Hd Hl]; split].
  split; [done|cbn; rewrite Hh; apply Hi|]. intros c. cbn. rewrite Hh. pose proof (fi_line _ Hi c) as Hl.
  apply pexec_cases in He; [|apply Hi].
  destruct He as [Hem _ _ _ _|ws ws' _ _ ->|He|ch _ -> ->|sk _ ->]; try exact Hl.
  - eapply emits_line; [apply Hi|exact Hem|exact Hl].
  - rewrite <- Hh. by apply (dispatch_inv s sv Hi He).
Qed.

Lemma fexec_inv a (s s' : fstate) : finv s → step a s = Some s' → finv s'.
Proof.
  intros Hi. destruct a; [by apply server_inv|by apply hub_turn_inv|by apply client_inv..|by apply write_inv].
Qed.

Lemma frun_inv acts (s s' : fstate) : finv s → run acts s = Some s' → finv s'.
Proof.
  revert s. induction acts as [|a acts IH]; intros s Hi; cbn [frun]; [by intros [= <-]|].
  destruct (step a s) as [s1|] eqn:Ha; [|done]. apply IH. by eapply fexec_inv.
Qed.
End Invariant.

End Order.

(** ** A client that watches a trade *)
Module DeliveryDemo.
(** Texts that are the messages they encode. *)
Definition text : Type := (@ServerMessage PV + ClientMessage)%type.
Definition marshal_msg (m : @ServerMessage PV) : option text := Some (inl m).
Definition unmarshal (x : text) : option ClientMessage := match x with inr m => Some m | inl _ => None end.
Definition trade_of (x : text) : option Trade.t := match x with inl m => msg_trade m | inr _ => None end.
Definition marshal (v : PV) : option text := None.
Definition publish (subject : string) (data : text) (n : ()) : () * option string := (n, None).
Definition redis_set (key : string) (data : text) (ttl : Z) (r : ()) : () * option string := (r, None).
Definition SendBatch (b : list Stmt) (tb : Tables) : Tables * option (Z * string) := (foldl exec_stmt tb b, None).
Definition ids (ty : EventType) : string := ty.

#[local] Instance demo_deps : Deps :=
  pipe_deps (OR := OrderRepo.t) (TR := TradeRepo.t) (MR := MarketRepo.t) (B := text) (N := ()) (Rd := ())
    (uuid := pretty) (clock := Z.of_nat).
Local Abbreviation pstate :=
  (@pstate OrderRepo.t TradeRepo.t MarketRepo.t _ _ _ text () () Tables pretty Z.of_nat).
Local Abbreviation fstate :=
  (@fstate OrderRepo.t TradeRepo.t MarketRepo.t _ _ _ text () () Tables pretty Z.of_nat).
Local Abbreviation faction := (@faction MarketRepo.t text () ()).
Local Abbreviation run :=
  (@frun OrderRepo.t TradeRepo.t MarketRepo.t _ _ _ text () () Tables pretty Z.of_nat marshal_msg unmarshal SendBatch).

Definition w0 : DBWorker := mkDBWorker (make_chan WriteOp (Z.to_nat 5000)) true 100 3 1000000000 false false [] false.
Definition s0 : pstate :=
  mkP (mkES (NewEngine DefaultStocks)
         (mkWorld ∅ 0%nat OrderRepo.New TradeRepo.New
           (foldl (λ m s, MarketRepo.InitStock 0 0 s m) MarketRepo.New DefaultStocks)
           (EventBus.Start (subscribe_wired marshal_msg marshal publish publish redis_set ids NewEventBus)) 0%nat 0%nat))
    [] (mkSinks NewHub None None None (Some w0) ∅ ∅) (mkTables ∅ ∅) [].

Definition place (user : string) (sd : Side) (price qty : Z) : faction :=
  Server (Place user (CreateOrderRequest.mk "BBCA" sd price qty)).
Definition watch : ClientMessage := mkClientMessage "subscribe" "market.trade" "BBCA".

(** A client subscribes, two buys match the same sell, and the client reads. *)
Definition acts : list faction :=
  [Server StartEngine; Connect None "10.0.0.1" 7%nat; HubTurn HRegister; FrameIn 7%nat (inr watch); HubTurn HSubscribe;
   place "ann" SideSell 9500 100; place "bob" SideBuy 9550 40; place "bob" SideBuy 9500 30;
   Server (Turn "BBCA"); Server (Turn "BBCA"); Server (Turn "BBCA")] ++
  replicate 11 (Server Dispatch) ++ replicate 11 (HubTurn HBroadcast) ++ replicate 3 (WriteOut 7%nat).
Definition watched : option fstate := run acts (mkF s0 ∅).

Definition read (s : option fstate) : list Z :=
  match s with Some s => Trade.Quantity <$> omap trade_of (sent_to s 7%nat) | None => [] end.

Lemma watch_start : pstart marshal_msg marshal publish publish redis_set ids w0 s0.
Proof. split; try done. apply TradeRepoProofs.trades_New_wf. Qed.

End DeliveryDemo.
