(* ===== verification/Json.v ===== *)
(** * The JSON of the REST API

    Values as [encoding/json] decodes them into [interface{}], and the
    documents the struct tags of [internal/domain/entity] and [pkg/response]
    give the replies.  Lists are never nil, as the in-memory repositories
    build them; the PostgreSQL repositories return a nil slice for an empty
    page, which is [null] in the document. *)
From stdpp Require Import pretty.
From Stdlib Require Import SpecFloat.
From S2P Require Import Prelude GoLib Float64 Entity Validator Repository Book Matcher Services Auth Http Handlers.

#[local] Set Warnings "-register-all".
Inductive json : Type :=
| JNull
| JBool (b : bool)
| JNum (x : f64)
| JStr (s : string)
| JArr (l : list json)
| JObj (fields : list (string * json)).

(** Type assertions with the [, _] form: the zero value when they fail. *)
Definition as_map (j : json) : option (list (string * json)) :=
  match j with JObj l => Some l | _ => None end.
Definition as_slice (j : json) : option (list json) := match j with JArr l => Some l | _ => None end.
Definition as_string (j : json) : string := match j with JStr s => s | _ => EmptyString end.
Definition as_float (j : json) : f64 := match j with JNum x => x | _ => f64_zero end.

(** Indexing a map, possibly nil. *)
Fixpoint assoc (key : string) (l : list (string * json)) : option json :=
  match l with
  | [] => None
  | (k, v) :: rest => if (k =? key)%string then Some v else assoc key rest
  end.
Definition field (key : string) (m : option (list (string * json))) : json :=
  default JNull (l ← m; assoc key l).
Definition has_field (key : string) (m : option (list (string * json))) : bool :=
  bool_decide (is_Some (l ← m; assoc key l)).

Definition is_string (j : json) (s : string) : bool :=
  match j with JStr x => (x =? s)%string | _ => false end.

(** ** Documents.  [time_text] is [time.Time]'s RFC 3339 form. *)
Section Documents.
Variable time_text : Time → string.

Definition num (z : Z) : json := JNum (f64_of_Z z).
Definition time_json (t : Time) : json := JStr (time_text t).

Definition order_json (o : Order.t) : json := JObj [
  ("id", JStr (Order.ID o)); ("user_id", JStr (Order.UserID o)); ("stock_code", JStr (Order.StockCode o));
  ("side", JStr (Order.Sd o)); ("price", num (Order.Price o)); ("quantity", num (Order.Quantity o));
  ("filled_quantity", num (Order.FilledQuantity o)); ("status", JStr (Order.Status o));
  ("created_at", time_json (Order.CreatedAt o)); ("updated_at", time_json (Order.UpdatedAt o))]%string.

Definition trade_json (t : Trade.t) : json := JObj [
  ("id", JStr (Trade.ID t)); ("stock_code", JStr (Trade.StockCode t));
  ("buy_order_id", JStr (Trade.BuyOrderID t)); ("sell_order_id", JStr (Trade.SellOrderID t));
  ("price", num (Trade.Price t)); ("quantity", num (Trade.Quantity t));
  ("buyer_user_id", JStr (Trade.BuyerUserID t)); ("seller_user_id", JStr (Trade.SellerUserID t));
  ("executed_at", time_json (Trade.ExecutedAt t))]%string.

Definition ticker_json (t : Ticker.t) : json := JObj [
  ("stock_code", JStr (Ticker.StockCode t)); ("last_price", num (Ticker.LastPrice t));
  ("prev_close", num (Ticker.PrevClose t)); ("change", num (Ticker.Change t));
  ("change_pct", JNum (Ticker.ChangePct t)); ("high", num (Ticker.High t)); ("low", num (Ticker.Low t));
  ("volume", num (Ticker.Volume t)); ("updated_at", time_json (Ticker.UpdatedAt t))]%string.

Definition level_json (l : PriceLevel.t) : json := JObj [
  ("price", num (PriceLevel.Price l)); ("quantity", num (PriceLevel.Quantity l));
  ("count", num (PriceLevel.Count l))]%string.

Definition book_json (b : OrderBook.t) : json := JObj [
  ("stock_code", JStr (OrderBook.StockCode b)); ("bids", JArr (level_json <$> OrderBook.Bids b));
  ("asks", JArr (level_json <$> OrderBook.Asks b)); ("updated_at", time_json (OrderBook.UpdatedAt b))]%string.

(** The password hash is not serialised. *)
Definition user_json (u : User.t) : json := JObj [
  ("id", JStr (User.ID u)); ("username", JStr (User.Username u)); ("created_at", time_json (User.CreatedAt u))]%string.

Definition data_json (d : Data) : json :=
  match d with
  | DOrder o => order_json o
  | DOrders l => JArr (order_json <$> l)
  | DTrades l => JArr (trade_json <$> l)
  | DTicker t => ticker_json t
  | DTickers l => JArr (ticker_json <$> l)
  | DBook b => book_json b
  | DRegistered u token expiresAt =>
      JObj [("user", user_json u); ("token", JStr token); ("expires_at", time_json expiresAt)]%string
  | DToken token expiresAt => JObj [("token", JStr token); ("expires_at", time_json expiresAt)]%string
  | DHealth uptime goroutines =>
      JObj [("status", JStr "ok"); ("uptime", JStr (pretty uptime ++ "s")); ("goroutines", num goroutines)]%string
  end.

Definition field_error_json (e : FieldError.t) : json :=
  JObj [("field", JStr (FieldError.Field e)); ("message", JStr (FieldError.Message e))]%string.

(** [omitempty]. *)
Definition opt_field {A} (key : string) (f : A → json) (x : option A) : list (string * json) :=
  match x with Some x => [(key, f x)] | None => [] end.

Definition api_error_json (e : apiError) : json := JObj (
  [("code", JStr (ae_Code e)); ("message", JStr (ae_Message e))]%string ++
  match ae_Details e with [] => [] | l => [("details"%string, JArr (field_error_json <$> l))] end).

Definition meta_json (m : Meta.t) : json := JObj [
  ("total", num (Meta.Total m)); ("page", num (Meta.Page m)); ("per_page", num (Meta.PerPage m));
  ("pages", num (Meta.Pages m))]%string.

Definition envelope_json (b : envelope Data) : json := JObj (
  ("success"%string, JBool (env_Success b)) :: opt_field "data" data_json (env_Data b) ++
  opt_field "error" api_error_json (env_Error b) ++ opt_field "meta" meta_json (env_Meta b)).
End Documents.
