(* ===== verification/Compliance.v ===== *)
(** * The compliance client ([cmd/compliancetest/main.go])

    The project's own acceptance test: its set-up, its REST checks, its
    matching-engine checks and its scorecard, as a program over any server.
    The texts a check prints beside its verdict are left out.  The checks that
    need sockets and wall-clock throughput are in [ComplianceSockets.v]. *)
From stdpp Require Import pretty.
From Stdlib Require Import SpecFloat.
From S2P Require Import Prelude GoLib Float64 Entity Json.

Record checkResult : Type := mkCheck { ck_section : string; ck_name : string; ck_pass : bool; ck_bonus : bool }.

Definition pass (section name : string) : checkResult := mkCheck section name true false.
Definition fail (section name : string) : checkResult := mkCheck section name false false.
Definition bonusPass (section name : string) : checkResult := mkCheck section name true true.
Definition bonusFail (section name : string) : checkResult := mkCheck section name false true.

Inductive client_error : Type :=
| RequestFailed (msg : string)
| HTTPStatus (status : Z)
| NoDataField
| EmptyToken.

Section Client.
(** [Srv]: the server and the network between; [Text]: raw bodies.  [Do] is
    [http.Client.Do] with the reading of the body; [sleep] lets the rest of
    the system run. *)
Context {Srv Text : Type}.
Variable marshal : json → string + string.
Variable unmarshal : Text → option json.
Variable Do : string → string → list (string * string) → option string → Srv → Srv * (string + Z * Text).
Variable sleep : Z → Srv → Srv.
Variable UnixNano : Srv → Z.

Record runner : Type := mkRunner {
  rn_srv : Srv;
  rn_results : list checkResult;
  rn_buyerToken : string;
  rn_sellerToken : string;
}.

Local Abbreviation R := (M runner).

Definition newRunner (srv : Srv) : runner := mkRunner srv [] EmptyString EmptyString.
Definition add (c : checkResult) : R () :=
  modify (λ r, mkRunner (rn_srv r) (rn_results r ++ [c]) (rn_buyerToken r) (rn_sellerToken r)).
Definition set_tokens (buyer seller : string) : R () :=
  modify (λ r, mkRunner (rn_srv r) (rn_results r) buyer seller).
Definition buyerToken : R string := λ r, Ret (rn_buyerToken r) r.
Definition sellerToken : R string := λ r, Ret (rn_sellerToken r) r.
Definition Sleep (d : Z) : R () :=
  modify (λ r, mkRunner (sleep d (rn_srv r)) (rn_results r) (rn_buyerToken r) (rn_sellerToken r)).
Definition Now : R Z := λ r, Ret (UnixNano (rn_srv r)) r.

(** ** HTTP helpers *)
Definition send (method path : string) (headers : list (string * string)) (body : option string)
    : R (string + Z * Text) := λ r,
  let '(srv, res) := Do method path headers body (rn_srv r) in
  Ret res (mkRunner srv (rn_results r) (rn_buyerToken r) (rn_sellerToken r)).

(** The status, the top-level object (nil when the body is none) and the error. *)
Definition reply : Type := Z * option (list (string * json)) * option client_error.

Definition doJSON (method path token : string) (body : option json) : R reply :=
  match (match body with Some b => match marshal b with inl e => inl e | inr t => inr (Some t) end
                       | None => inr None end) with
  | inl e => mret (0, None, Some (RequestFailed e))
  | inr text =>
      let headers := (match body with Some _ => [("Content-Type", "application/json")]%string | None => [] end) ++
                     (if negb (token =? EmptyString)%string
                      then [("Authorization", "Bearer " ++ token)]%string else []) in
      res ← send method path headers text;
      match res with
      | inl e => mret (0, None, Some (RequestFailed e))
      | inr (status, raw) => mret (status, j ← unmarshal raw; as_map j, None)
      end
  end.

Definition ok_status (status : Z) : bool := (status =? 200) || (status =? 201).

Definition register (username password : string) : R (client_error + string) :=
  '(status, m, err) ← doJSON "POST" "/api/v1/auth/register" EmptyString
    (Some (JObj [("username", JStr username); ("password", JStr password)]%string));
  match err with
  | Some e => mret (inl e)
  | None =>
      if negb (ok_status status) then mret (inl (HTTPStatus status))
      else match as_map (field "data" m) with
           | None => mret (inl NoDataField)
           | Some data =>
               let token := as_string (field "token" (Some data)) in
               if (token =? EmptyString)%string then mret (inl EmptyToken) else mret (inr token)
           end
  end.

(** The ID and the status of the new order. *)
Definition placeOrder (token stock side : string) (price qty : Z) : R (client_error + string * string) :=
  '(status, m, err) ← doJSON "POST" "/api/v1/orders" token
    (Some (JObj [("stock_code", JStr stock); ("side", JStr side); ("type", JStr "LIMIT");
                 ("price", num price); ("quantity", num qty)]%string));
  match err with
  | Some e => mret (inl e)
  | None =>
      if negb (ok_status status) then mret (inl (HTTPStatus status))
      else match as_map (field "data" m) with
           | None => mret (inl NoDataField)
           | Some data => mret (inr (as_string (field "id" (Some data)), as_string (field "status" (Some data))))
           end
  end.

Definition getOrder (token id : string) : R (option (list (string * json)) * option client_error) :=
  '(_, m, err) ← doJSON "GET" ("/api/v1/orders/" ++ id) token None;
  match err with
  | Some e => mret (None, Some e)
  | None => mret (as_map (field "data" m), None)
  end.

(** ** Set-up *)
Definition SETUP : string := "SETUP".

Definition runSetup : R () :=
  '(status, _, err) ← doJSON "GET" "/healthz" EmptyString None;
  add ((if bool_decide (err = None) && (status =? 200) then pass else fail) SETUP "Server reachable (GET /healthz)");;
  ts ← Now;
  let name := "Auth: register buyer + seller"%string in
  buyer ← register ("ct_buyer_" ++ pretty ts) "password123";
  match buyer with
  | inl _ => add (fail SETUP name)
  | inr buyer =>
      seller ← register ("ct_seller_" ++ pretty ts) "password123";
      match seller with
      | inl _ => add (fail SETUP name)
      | inr seller => set_tokens buyer seller;; add (pass SETUP name)
      end
  end.

(** ** REST checks *)
Definition REST : string := "REST API".

Definition is_ok {A E} (r : E + A) : bool := match r with inr _ => true | inl _ => false end.

(** The checks that only look at the status. *)
Definition status_check (name path token : string) (pass fail : string → string → checkResult) : R () :=
  '(status, _, err) ← doJSON "GET" path token None;
  add ((if bool_decide (err = None) && (status =? 200) then pass else fail) REST name).

(** The checks that look for fields of the payload. *)
Definition fields_check (name path : string) (keys : list string) : R () :=
  '(status, m, err) ← doJSON "GET" path EmptyString None;
  if bool_decide (err = None) && (status =? 200) then
    let data := as_map (field "data" m) in
    add ((if forallb (λ k, has_field k data) keys then pass else fail) REST name)
  else add (fail REST name).

Definition runREST : R () :=
  buyer ← buyerToken;
  seller ← sellerToken;
  r ← placeOrder buyer "BBCA" "BUY" 9500 100;
  add ((if is_ok r then pass else fail) REST "POST /api/v1/orders — create BUY order");;
  r ← placeOrder seller "BBCA" "SELL" 9500 100;
  add ((if is_ok r then pass else fail) REST "POST /api/v1/orders — create SELL order");;
  status_check "GET /api/v1/orders — list orders" "/api/v1/orders" buyer pass fail;;
  status_check "GET /api/v1/orders?stock=BBCA — filter by stock" "/api/v1/orders?stock=BBCA" buyer pass fail;;
  status_check "GET /api/v1/orders?status=OPEN — filter by status" "/api/v1/orders?status=OPEN" buyer pass fail;;
  status_check "GET /api/v1/trades — global trade history" "/api/v1/trades" EmptyString pass fail;;
  fields_check "GET /market/ticker/BBCA — ticker snapshot (last_price field)" "/api/v1/market/ticker/BBCA"
    ["last_price"%string];;
  fields_check "GET /market/orderbook/BBCA — order book depth (bids+asks)" "/api/v1/market/orderbook/BBCA"
    ["bids"; "asks"]%string;;
  status_check "[bonus] GET /market/trades/BBCA — recent trades" "/api/v1/market/trades/BBCA" EmptyString
    bonusPass bonusFail.

(** ** Matching-engine checks *)
Definition MATCHING : string := "MATCHING ENGINE".
Definition matchStock : string := "TLKM".
Definition matchPrice : Z := 3500.
Definition Millisecond : Z := 1000000.

Fixpoint add_all (cs : list checkResult) : R () :=
  match cs with [] => mret () | c :: cs => add c;; add_all cs end.

(** The polling loops: up to [n] readings of an order, 200 ms apart, until
    one satisfies [want]. *)
Fixpoint poll (n : nat) (token id : string) (want : option (list (string * json)) → bool) : R bool :=
  match n with
  | O => mret false
  | S n =>
      '(ord, err) ← getOrder token id;
      if bool_decide (err = None) && bool_decide (is_Some ord) && want ord then mret true
      else Sleep (200 * Millisecond);; poll n token id want
  end.
Definition filled (ord : option (list (string * json))) : bool := is_string (field "status" ord) "FILLED".

(** Whether the history shows a trade of either order, or of any. *)
Definition trade_found (m : option (list (string * json))) (buyID sellID : string) : bool :=
  match as_slice (field "data" m) with
  | Some data =>
      (0 <? length data)%nat &&
      (existsb (λ t, is_string (field "buy_order_id" (as_map t)) buyID ||
                     is_string (field "sell_order_id" (as_map t)) sellID) data ||
       (0 <? length data)%nat)
  | None => false
  end.

Definition filled_check (name token id : string) : R () :=
  ok ← poll 25 token id filled;
  if ok : bool then add (pass MATCHING name)
  else getOrder token id;; add (fail MATCHING name).

(** *** The race: goroutine [i] places a buy, then a sell *)
Definition racePairs : nat := 20.

Inductive race_pc : Type :=
| RcStart
| RcBought (bID : string)
| RcDone (bID : option string).     (* the buy order, when both were accepted *)

Definition race_turn (tokens : list (string * string)) (pcs : list race_pc) (i : nat) : R (list race_pc) :=
  match tokens !! i, pcs !! i with
  | Some (bt, _), Some RcStart =>
      r ← placeOrder bt matchStock "BUY" matchPrice 100;
      mret (<[i := match r with
                   | inr (bID, _) => if (bID =? EmptyString)%string then RcDone None else RcBought bID
                   | inl _ => RcDone None
                   end]> pcs)
  | Some (_, st), Some (RcBought bID) =>
      r ← placeOrder st matchStock "SELL" matchPrice 100;
      mret (<[i := match r with
                   | inr (sID, _) => if (sID =? EmptyString)%string then RcDone None else RcDone (Some bID)
                   | inl _ => RcDone None
                   end]> pcs)
  | _, _ => mret pcs
  end.

Fixpoint race_run (sched : list nat) (tokens : list (string * string)) (pcs : list race_pc) : R (list race_pc) :=
  match sched with
  | [] => mret pcs
  | i :: sched => pcs ← race_turn tokens pcs i; race_run sched tokens pcs
  end.

Fixpoint race_register (idx : list nat) (ts : Z) : R (list (string * string)) :=
  match idx with
  | [] => mret []
  | i :: idx =>
      buyer ← buyerToken;
      seller ← sellerToken;
      bt ← register ("rc_buyer_" ++ pretty ts ++ "_" ++ pretty i) "password123";
      st ← register ("rc_seller_" ++ pretty ts ++ "_" ++ pretty i) "password123";
      rest ← race_register idx ts;
      mret ((match bt with inr t => t | inl _ => buyer end, match st with inr t => t | inl _ => seller end) :: rest)
  end.

Definition attempts (pcs : list race_pc) : list (option string) :=
  (λ p, match p with RcDone b => b | _ => None end) <$> pcs.

Fixpoint race_matched (orders : list (string * string * option string)) : R Z :=
  match orders with
  | [] => mret 0
  | (_, _, None) :: rest => race_matched rest
  | (bt, _, Some bID) :: rest =>
      ok ← poll 25 bt bID filled;
      n ← race_matched rest;
      mret (if ok : bool then n + 1 else n)
  end.

Definition rate (n total : Z) : f64 :=
  if total >? 0 then f64_mul (f64_div (f64_of_Z n) (f64_of_Z total)) (f64_of_Z 100) else f64_zero.

(** [schedule] is the order in which the requests of the goroutines reach the
    server; what it leaves over is served round robin. *)
Variable schedule : list nat.

Definition race_check : R () :=
  ts ← Now;
  tokens ← race_register (seq 0 racePairs) ts;
  pcs ← race_run (schedule ++ seq 0 racePairs ++ seq 0 racePairs) tokens (replicate racePairs RcStart);
  Sleep (500 * Millisecond);;
  matched ← race_matched (zip tokens (attempts pcs));
  let attempted := Z.of_nat (length (filter (λ b, is_Some b) (attempts pcs))) in
  add ((if SFleb (f64_of_Z 75) (rate matched attempted) then pass else fail) MATCHING
         "Race condition safety: 20 concurrent BUY+SELL pairs (≥75% matched)").

(** *** The partial fill *)
Definition partial (ord : option (list (string * json))) : bool :=
  SFleb (f64_of_Z 100) (as_float (field "filled_quantity" ord)) &&
  negb (as_string (field "status" ord) =? "FILLED")%string.

Definition partial_check : R () :=
  let name := "[bonus] Partial fill: BUY 200 + SELL 100 → partial fill"%string in
  ts2 ← Now;
  buyer ← buyerToken;
  seller ← sellerToken;
  bt ← register ("pf_buyer_" ++ pretty ts2) "password123";
  st ← register ("pf_seller_" ++ pretty ts2) "password123";
  let bt := match bt with inr t => t | inl _ => buyer end in
  let st := match st with inr t => t | inl _ => seller end in
  b ← placeOrder bt matchStock "BUY" matchPrice 200;
  match b with
  | inl _ => add (bonusFail MATCHING name)
  | inr (pfBuyID, _) =>
      s ← placeOrder st matchStock "SELL" matchPrice 100;
      match s with
      | inl _ => add (bonusFail MATCHING name)
      | inr _ =>
          Sleep (500 * Millisecond);;
          ok ← poll 25 bt pfBuyID partial;
          if ok : bool then add (bonusPass MATCHING name)
          else getOrder bt pfBuyID;; add (bonusFail MATCHING name)
      end
  end.

Definition accepted (r : client_error + string * string) : string :=
  match r with inr (id, _) => id | inl _ => EmptyString end.

Definition book_check : R () :=
  '(_, m, err) ← doJSON "GET" ("/api/v1/market/orderbook/" ++ matchStock) EmptyString None;
  add ((if bool_decide (err = None) && bool_decide (is_Some (as_map (field "data" m))) then pass else fail) MATCHING
         "Orderbook endpoint reachable after match").

Definition runMatching : R () :=
  buyer ← buyerToken;
  seller ← sellerToken;
  b ← placeOrder buyer matchStock "BUY" matchPrice 100;
  let buyID := accepted b in
  if (buyID =? EmptyString)%string then
    add (fail MATCHING "BUY order accepted by engine");;
    add_all ((λ i : nat, fail MATCHING ("check " ++ pretty i ++ " (skipped — BUY placement failed)")) <$> seq 2 6)
  else
    add (pass MATCHING "BUY order accepted by engine");;
    s ← placeOrder seller matchStock "SELL" matchPrice 100;
    let sellID := accepted s in
    add ((if (sellID =? EmptyString)%string then fail else pass) MATCHING "SELL order accepted, match attempted");;
    Sleep (300 * Millisecond);;
    '(_, m, err) ← doJSON "GET" "/api/v1/trades" EmptyString None;
    add ((if bool_decide (err = None) && trade_found m buyID sellID then pass else fail) MATCHING
           "BUY+SELL match → trade record created");;
    filled_check "BUY order status → FILLED after match" buyer buyID;;
    filled_check "SELL order status → FILLED after match" seller sellID;;
    book_check;;
    race_check;;
    partial_check.

(** ** The scorecard *)
Definition sectionOrder : list string := [SETUP; REST; MATCHING; "WEBSOCKET"; "SCALE"]%string.

Record scorecard : Type := mkScore { passRequired : Z; totalRequired : Z; passBonus : Z; totalBonus : Z }.

(** The results as they are counted: section by section. *)
Definition sectioned (results : list checkResult) : list checkResult :=
  flat_map (λ s, filter (λ c, ck_section c = s) results) sectionOrder.

Definition count (c : checkResult) (n : scorecard) : scorecard :=
  let one := if ck_pass c then 1 else 0 in
  if ck_bonus c then mkScore (passRequired n) (totalRequired n) (passBonus n + one) (totalBonus n + 1)
  else mkScore (passRequired n + one) (totalRequired n + 1) (passBonus n) (totalBonus n).

Definition printScorecard (results : list checkResult) : scorecard :=
  foldl (λ n c, count c n) (mkScore 0 0 0 0) (sectioned results).

Definition compliant (n : scorecard) : bool := passRequired n =? totalRequired n.

(** The guard of [main] after the set-up. *)
Definition setup_passed : R bool := λ r,
  let setupFailed := existsb (λ c, (ck_section c =? SETUP)%string && negb (ck_pass c)) (rn_results r) in
  Ret (negb (setupFailed || (rn_buyerToken r =? EmptyString)%string || (rn_sellerToken r =? EmptyString)%string)) r.

(** [main] up to the WebSocket checks. *)
Definition run_checks : R () :=
  runSetup;;
  ok ← setup_passed;
  if ok : bool then runREST;; runMatching else mret ().
End Client.
