(* ===== verification/ComplianceTheorems.v ===== *)
(** * The server passes its own compliance test

    The set-up, REST and matching checks of [cmd/compliancetest], run against
    the modelled server: router, middleware, handlers, services, users and
    engine, with the in-memory repositories. *)
From stdpp Require Import pretty.
From Stdlib Require Import SpecFloat.
From S2P Require Import Prelude GoLib GoStrings Float64 Entity Repository MemoryRepo Book Matcher Engine.
From S2P Require Import Validator Services MemDeps Auth Http Handlers Json Compliance.

Module ComplianceDemo.
#[local] Instance no_db : UserRepository () := {|
  ur_Save _ r := (r, None);
  ur_FindByUsername _ _ := inl ErrNotFound;
  ur_FindAll _ := inr [];
|}.

Definition Srv : Type := @Server (@App mem_deps ()) nat.

(** ** The libraries, by simple functions of the same kind *)

(** Flat objects as their values, separated by bars. *)
Definition value_text (j : json) : string :=
  match j with JStr s => s | JNum x => pretty (i64_of_f64 x) | _ => EmptyString end.
Definition marshal (j : json) : string + string :=
  match j with
  | JObj fields => inr (foldr (λ p rest, (value_text p.2 ++ "|" ++ rest)%string) EmptyString fields)
  | _ => inl "unsupported"%string
  end.

Fixpoint split (sep : ascii) (s : string) : list string :=
  match s with
  | EmptyString => [EmptyString]
  | String c rest =>
      if (c =? sep)%char then EmptyString :: split sep rest
      else match split sep rest with
           | x :: xs => String c x :: xs
           | [] => [String c EmptyString]
           end
  end.

Definition decode_order (s : string) : option createOrderBody :=
  match split "|" s with
  | stock :: side :: _ :: price :: qty :: _ =>
      p ← Atoi price; q ← Atoi qty; Some (mkCreateOrderBody stock side p q)
  | _ => None
  end.
Definition decode_credentials (s : string) : string + credentials :=
  match split "|" s with
  | user :: password :: _ => inr (mkCredentials user password)
  | _ => inl "EOF"%string
  end.

(** A token is the ID of its user. *)
Definition sign (c : Claims) (key : string) : string + string := inr (cl_UserID c).
Definition validate (now : Time) (tok : string) (a : @App mem_deps ()) : auth_error + Claims :=
  ValidateToken (Alg := ()) (λ _, true) (λ now tok kf, Some (true, mkClaims tok tok tok now now)) now tok (ap_auth a).

(** Patterns match segment by segment. *)
Fixpoint match_segments (pat path : list string) : option (list (string * string)) :=
  match pat, path with
  | [], [] => Some []
  | p :: pat, x :: path =>
      rest ← match_segments pat path;
      match p with
      | String "{" _ => Some ((p, x) :: rest)
      | _ => if (p =? x)%string then Some rest else None
      end
  | _, _ => None
  end.
Fixpoint chi_from (i : nat) (rts : list (option string * string)) (m p : string)
    : nat * (string → string) + @Reply Data :=
  match rts with
  | [] => inr (mkReply 404 None)
  | (meth, pat) :: rts =>
      match match_segments (split "/" pat) (split "/" p) with
      | Some params =>
          if match meth with Some m' => (m' =? m)%string | None => true end
          then inl (i, λ name, default EmptyString
                        (snd <$> List.find (λ kv, (kv.1 =? "{" ++ name ++ "}")%string) params))
          else chi_from (S i) rts m p
      | None => chi_from (S i) rts m p
      end
  end.

Definition deps : @RouterDeps mem_deps () nat := mkRouterDeps true None None.
Definition serve (r : Request) (s : Srv) : res Srv (@Reply Data) :=
  NewRouter decode_order SubmitOrder None decode_credentials (λ _ p, inr p) String.eqb id sign
    (λ _, 0%nat) (λ _, mret (mkReply 200 None)) (mret (1, 2)) validate (chi_from 0) deps r s.

(** The request as the server receives it. *)
Definition query_of (q : string) (key : string) : string :=
  default EmptyString (snd <$> List.find (λ kv, (kv.1 =? key)%string)
    ((λ kv, match cut "=" kv with Some p => p | None => (kv, EmptyString) end) <$> split "&" q)).
Definition clock_of (s : Srv) : Z := Z.of_nat (w_ticks (es_world (ap_es (sv_app s)))).
Definition request (method path : string) (headers : list (string * string)) (body : option string) (s : Srv) : Request :=
  let '(p, q) := match cut "?" path with Some pq => pq | None => (path, EmptyString) end in
  mkRequest method p "127.0.0.1:50000"
    (λ h, default EmptyString (snd <$> List.find (λ kv, (kv.1 =? h)%string) headers))
    (query_of q) (λ _, EmptyString) (default EmptyString body) None (clock_of s).

Definition Do (method path : string) (headers : list (string * string)) (body : option string) (s : Srv)
    : Srv * (string + Z * json) :=
  match serve (request method path headers body s) s with
  | Ret rp s' => (s', inr (rp_status rp, match rp_body rp with Some b => envelope_json pretty b | None => JNull end))
  | Panic msg s' => (s', inl msg)
  | NoFuel => (s, inl "timeout"%string)
  end.

(** While the client sleeps every matcher takes the orders queued for it. *)
Definition settle (d : Z) (s : Srv) : Srv :=
  let es := foldl (λ es st, match Engine.run 100 (Stock.Code st) es with Ret _ es' => es' | _ => es end)
              (ap_es (sv_app s)) DefaultStocks in
  set_app (mkApp es (ap_auth (sv_app s))) s.

Definition server0 : Srv :=
  mkServer (mkApp (mkES (NewEngine DefaultStocks) (mem_world DefaultStocks)) (NewService "secret" 3600)) [] ∅ [] ∅.

Definition run_suite (sched : list nat) : res runner () :=
  run_checks marshal Some Do settle clock_of sched (newRunner server0).

(** Orders of arrival for the racing pairs: all buys before all sells; pair
    after pair; and the pairs backwards. *)
Definition schedules : list (list nat) :=
  [[]; flat_map (λ i, [i; i]) (seq 0 racePairs); flat_map (λ i, [i; i]) (reverse (seq 0 racePairs))].
End ComplianceDemo.

(** ** The scorecard *)

(** Adding a check to the score. *)
Lemma count_all cs n :
  let m := foldl (λ n c, count c n) n cs in
  totalRequired m - passRequired m =
    totalRequired n - passRequired n +
    Z.of_nat (length (filter (λ c, ck_bonus c = false ∧ ck_pass c = false) cs)).
Proof.
  revert n. induction cs as [|c cs IH]; intros n; cbn [foldl]; [simpl; lia|].
  specialize (IH (count c n)). cbv zeta in *. rewrite IH, filter_cons. unfold count.
  destruct (ck_bonus c), (ck_pass c); simpl;
    try (rewrite decide_False by naive_solver); try (rewrite decide_True by done); simpl; lia.
Qed.

Lemma elem_of_sectioned c results :
  c ∈ sectioned results ↔ c ∈ results ∧ ck_section c ∈ sectionOrder.
Proof.
  unfold sectioned. rewrite list_elem_of_In, in_flat_map. setoid_rewrite <- list_elem_of_In. split.
  - intros (s & Hs & [Hc Hin]%list_elem_of_filter). by rewrite Hc.
  - intros [Hin Hs]. exists (ck_section c). split; [done|]. by apply list_elem_of_filter.
Qed.

(** The verdict of the scorecard is COMPLIANT exactly when every required
    check of a known section passed; bonus checks do not count. *)
Theorem scorecard_verdict results :
  compliant (printScorecard results) = true ↔
  ∀ c, c ∈ results → ck_section c ∈ sectionOrder → ck_bonus c = false → ck_pass c = true.
Proof.
  unfold compliant, printScorecard. rewrite Z.eqb_eq.
  pose proof (count_all (sectioned results) (mkScore 0 0 0 0)) as Hc. simpl in Hc.
  set (m := foldl _ _ _) in *. set (l := filter _ _) in *.
  assert (passRequired m = totalRequired m ↔ l = []) as ->.
  { split; [|intros Hl; rewrite Hl in Hc; simpl in Hc; lia]. intros He. destruct l; [done|]. simpl in Hc. lia. }
  split.
  - intros Hl c Hin Hs Hb. destruct (ck_pass c) eqn:Hp; [done|].
    assert (c ∈ l) as Hcl by (by apply list_elem_of_filter; split; [|by apply elem_of_sectioned]).
    rewrite Hl in Hcl. by apply elem_of_nil in Hcl.
  - intros Hall. destruct l as [|c l'] eqn:Hl; [done|].
    assert (c ∈ l) as [[Hb Hp] Hin]%list_elem_of_filter by (rewrite Hl; apply list_elem_of_here).
    apply elem_of_sectioned in Hin as [Hin Hs]. by rewrite (Hall c Hin Hs Hb) in Hp.
Qed.

Definition score_ok (n : scorecard) : bool :=
  (passRequired n =? 17) && (totalRequired n =? 17) && (passBonus n =? 2) && (totalBonus n =? 2).
Definition suite_ok (sched : list nat) : bool :=
  match ComplianceDemo.run_suite sched with
  | Ret _ r => forallb ck_pass (rn_results r) && score_ok (printScorecard (rn_results r))
  | _ => false
  end.

Lemma suite_ok_run sched : suite_ok sched = true →
  ∃ r, ComplianceDemo.run_suite sched = Ret () r ∧ Forall (λ c, ck_pass c = true) (rn_results r) ∧
    printScorecard (rn_results r) = mkScore 17 17 2 2.
Proof.
  unfold suite_ok. destruct (ComplianceDemo.run_suite sched) as [[] r|?|]; [|done..].
  rewrite andb_true_iff. intros [Hall Hs]. exists r. split; [done|]. split.
  - apply Forall_forall. intros c Hc. rewrite forallb_forall in Hall. by apply Hall, list_elem_of_In.
  - revert Hs. unfold score_ok. destruct (printScorecard _) as [a b c d]. simpl.
    rewrite !andb_true_iff, !Z.eqb_eq. by intros [[[-> ->] ->] ->].
Qed.


(** ** The filter that is not there *)
Definition set_query (key value : string) (r : Request) : Request :=
  mkRequest (rq_Method r) (rq_Path r) (rq_RemoteAddr r) (rq_Header r)
    (λ k, if (k =? key)%string then value else rq_Query r k) (rq_Param r) (rq_Body r) (rq_ctxUser r) (rq_now r).

(** The documented query parameter [stock], which the compliance test also
    sends, changes nothing: the handlers read [stock_code]. *)
Lemma stock_parameter_ignored {D : Deps} {R L} `{UserRepository R} value r (s : @Server (@App D R) L) :
  OrderHandler_List (set_query "stock" value r) s = OrderHandler_List r s ∧
  TradeHandler_List (set_query "stock" value r) s = TradeHandler_List r s.
Proof. split; reflexivity. Qed.
