(* ===== verification/Clients.v ===== *)
(** * The load-test clients ([cmd/loadtest], [cmd/matchtest], [cmd/stresstest],
    [cmd/wsloadtest])

    What these programs compute: the orders they send, how they classify
    replies, the percentiles, rates and verdicts they report, and the
    addresses they spread their WebSocket clients over.  Random draws are
    arguments.  Their goroutine pools are in [LoadRuns.v]. *)
From stdpp Require Import pretty.
From Stdlib Require Import SpecFloat.
From S2P Require Import Prelude GoLib Float64 Entity Hub Simulator.

Definition f64_lt (x y : f64) : bool := SFltb x y.
Definition f64_ge (x y : f64) : bool := SFleb y x.

(** ** Percentiles.  [percentile] of [stresstest], [pctile] of [wsloadtest]
    and [stats.percentile] of [loadtest] are the same function. *)
Definition sorted_copy (d : list Z) : list Z := merge_sort Z.le d.

(** [int(math.Ceil(x))]. *)
Definition i64_of_ceil (x : f64) : Z :=
  match x with
  | S754_zero _ => 0
  | S754_finite s m e =>
      let z := if 0 <=? e then Z.pos m * 2 ^ e
               else if s then Z.pos m / 2 ^ (- e) else - ((- Z.pos m) / 2 ^ (- e)) in
      let z := if s then - z else z in
      if (min_i64 <=? z) && (z <=? max_i64) then z else min_i64
  | _ => min_i64
  end.

Definition rank_index (p : f64) (n : Z) : Z :=
  let idx := i64_sub (i64_of_ceil (f64_mul (f64_div p (f64_of_Z 100)) (f64_of_Z n))) 1 in
  let idx := if idx <? 0 then 0 else idx in
  if idx >=? n then n - 1 else idx.

Definition percentile (d : list Z) (p : f64) : Z :=
  match d with
  | [] => 0
  | _ => nth (Z.to_nat (rank_index p (Z.of_nat (length d)))) (sorted_copy d) 0
  end.

(** [Stats.Percentile] of [matchtest], which truncates instead; [None] is the
    panic of a negative index. *)
Definition Percentile (d : list Z) (p : f64) : option Z :=
  match d with
  | [] => Some 0
  | _ =>
      let n := Z.of_nat (length d) in
      let idx := i64_of_f64 (f64_div (f64_mul (f64_of_Z n) p) (f64_of_Z 100)) in
      let idx := if idx >=? n then n - 1 else idx in
      if idx <? 0 then None else sorted_copy d !! Z.to_nat idx
  end.

(** ** Replies by status *)

(** [stats.add] of [loadtest]; [err] is a failed request, of status 0. *)
Record stats : Type := mkStats {
  st_total : Z; st_success : Z; st_errors : Z; st_clientErrors : Z;
  st_latencies : list Z; st_statusCounts : gmap Z Z }.
Definition newStats : stats := mkStats 0 0 0 0 [] ∅.

Record result : Type := mkResult { re_latency : Z; re_status : Z; re_err : bool }.

Definition stats_add (s : stats) (r : result) : stats :=
  let s := mkStats (st_total s + 1) (st_success s) (st_errors s) (st_clientErrors s)
             (st_latencies s) (st_statusCounts s) in
  let s :=
    if re_err r || (500 <=? re_status r) then
      mkStats (st_total s) (st_success s) (st_errors s + 1) (st_clientErrors s) (st_latencies s) (st_statusCounts s)
    else if (200 <=? re_status r) && (re_status r <? 300) then
      mkStats (st_total s) (st_success s + 1) (st_errors s) (st_clientErrors s) (st_latencies s) (st_statusCounts s)
    else if (400 <=? re_status r) && (re_status r <? 500) then
      mkStats (st_total s) (st_success s) (st_errors s) (st_clientErrors s + 1) (st_latencies s) (st_statusCounts s)
    else s in
  mkStats (st_total s) (st_success s) (st_errors s) (st_clientErrors s) (st_latencies s ++ [re_latency r])
    (<[re_status r := default 0 (st_statusCounts s !! re_status r) + 1]> (st_statusCounts s)).

(** The verdict at the end of [loadtest]'s fixed-rate run, from the measured
    rate. *)
Definition loadtest_pass (s : stats) (actualRPM : f64) (rate : Z) : bool :=
  let totalErrRate := f64_mul (f64_div (f64_of_Z (st_errors s + st_clientErrors s)) (f64_of_Z (st_total s))) (f64_of_Z 100) in
  f64_ge actualRPM (f64_mul (f64_of_Z rate) (f64_lit 95 2)) && f64_lt totalErrRate (f64_of_Z 1).

(** [floodWorker] of [stresstest]: one request and how it is counted.  A
    request that the end of the phase cut off is not. *)
Record phaseCounters : Type := mkCounters {
  pc_total : Z; pc_ok2xx : Z; pc_err4xx : Z; pc_err5xx : Z; pc_netErr : Z; pc_lats : list Z }.

Definition flood_count (c : phaseCounters) (phase_over : bool) (r : result) : phaseCounters :=
  if re_err r then
    if phase_over then c
    else mkCounters (pc_total c + 1) (pc_ok2xx c) (pc_err4xx c) (pc_err5xx c) (pc_netErr c + 1) (pc_lats c ++ [re_latency r])
  else
    let lats := pc_lats c ++ [re_latency r] in
    if (200 <=? re_status r) && (re_status r <? 300) then
      mkCounters (pc_total c + 1) (pc_ok2xx c + 1) (pc_err4xx c) (pc_err5xx c) (pc_netErr c) lats
    else if (400 <=? re_status r) && (re_status r <? 500) then
      mkCounters (pc_total c + 1) (pc_ok2xx c) (pc_err4xx c + 1) (pc_err5xx c) (pc_netErr c) lats
    else mkCounters (pc_total c + 1) (pc_ok2xx c) (pc_err4xx c) (pc_err5xx c + 1) (pc_netErr c) lats.

Definition errorRate (c : phaseCounters) : f64 :=
  if pc_total c =? 0 then f64_zero
  else f64_mul (f64_div (f64_of_Z (pc_err5xx c + pc_netErr c)) (f64_of_Z (pc_total c))) (f64_of_Z 100).

(** The first phase whose error rate reaches the threshold, from 1; 0: none. *)
Fixpoint breaking_point (i : Z) (threshold : f64) (phases : list phaseCounters) : Z :=
  match phases with
  | [] => 0
  | p :: rest => if f64_ge (errorRate p) threshold then i else breaking_point (i + 1) threshold rest
  end.

(** The worker counts of the phases: doubled up to the maximum, which is
    always last. *)
Fixpoint worker_counts (fuel : nat) (w maxWorkers : Z) : option (list Z) :=
  match fuel with
  | O => None
  | S fuel =>
      if w <? maxWorkers then counts ← worker_counts fuel (i64_mul w 2) maxWorkers; Some (w :: counts)
      else Some [maxWorkers]
  end.
Definition phases_of (startWorkers maxWorkers : Z) : option (list Z) :=
  worker_counts 70 (if startWorkers <=? 0 then 10 else startWorkers) maxWorkers.

(** ** What they send *)
Definition stocks : list string := ["BBCA"; "BBRI"; "TLKM"; "ASII"; "GOTO"]%string.
Definition basePrice (stock : string) : Z :=
  default 0 (list_to_map (M := gmap string Z)
    [("BBCA", 9500); ("BBRI", 5000); ("TLKM", 3500); ("ASII", 6000); ("GOTO", 100)]%string !! stock).
Definition tickSize (stock : string) : Z :=
  default 0 (list_to_map (M := gmap string Z)
    [("BBCA", 25); ("BBRI", 25); ("TLKM", 25); ("ASII", 25); ("GOTO", 1)]%string !! stock).

Definition alignTick (price tick : Z) : Z :=
  if tick <=? 0 then price else i64_mul (i64_quot price tick) tick.

Record orderReq : Type := mkOrderReq { or_stock : string; or_side : string; or_price : f64; or_quantity : Z }.

(** [randomOrder] of [loadtest]: the draws are [rand.Intn] of 5, 2 and 10 and
    [rand.Float64()]. *)
Definition randomOrder (i side q : nat) (rnd : f64) : orderReq :=
  let stock := nth i stocks EmptyString in
  let base := f64_of_Z (basePrice stock) in
  let variation := f64_mul (f64_mul base (f64_lit 2 2)) (f64_sub (f64_mul rnd (f64_of_Z 2)) (f64_of_Z 1)) in
  let price := f64_mul (match f64_round (f64_div (f64_add base variation) (f64_of_Z 25)) with
                        | Some z => f64_of_Z z | None => S754_nan end) (f64_of_Z 25) in
  let price := if SFleb price f64_zero then base else price in
  mkOrderReq stock (if (side =? 1)%nat then "SELL" else "BUY") price ((Z.of_nat q + 1) * 100).

(** ** WebSocket clients *)
Definition maxConnPerIP : Z := 10.
Definition fakeIP (i : Z) : string := ("10.0." ++ pretty (i64_quot i maxConnPerIP) ++ ".1")%string.

Fixpoint trim_slashes (s : string) : string :=      (* [strings.TrimRight(s, "/")] *)
  match s with
  | EmptyString => EmptyString
  | String c rest =>
      match trim_slashes rest with
      | EmptyString => if (c =? "/")%char then EmptyString else String c EmptyString
      | r => String c r
      end
  end.
Fixpoint strip (prefix s : string) : option string :=   (* [HasPrefix], with what follows *)
  match prefix, s with
  | EmptyString, _ => Some s
  | String a prefix, String b s => if (a =? b)%char then strip prefix s else None
  | _, _ => None
  end.
Definition makeWSURL (base : string) : string :=
  let base := trim_slashes base in
  match strip "https://" base with
  | Some rest => ("wss://" ++ rest ++ "/ws")%string
  | None => ("ws://" ++ default base (strip "http://" base) ++ "/ws")%string
  end.

Record clientResult : Type := mkClientResult {
  cr_isSlow : bool; cr_connected : bool; cr_connLatency : Z; cr_subAcked : bool;
  cr_msgsRcvd : Z; cr_kicked : bool; cr_kickLatency : Z }.

(** [runNormalClient]: the result of dialling, then what its reads return.
    Trade events go to [tradeCh] without blocking; [None] is the panic of a
    send on a closed channel, and the flag tells whether the client returned. *)
Inductive client_read : Type :=
| ReadMsg (type stock : string) (now : Z)
| ReadErr (cancelled : bool).

Definition saw (acked event : bool) (r : clientResult) : clientResult :=
  mkClientResult (cr_isSlow r) (cr_connected r) (cr_connLatency r) (acked || cr_subAcked r)
    (cr_msgsRcvd r + if event then 1 else 0) (cr_kicked r) (cr_kickLatency r).
Definition kicked_after (latency : Z) (r : clientResult) : clientResult :=
  mkClientResult (cr_isSlow r) (cr_connected r) (cr_connLatency r) (cr_subAcked r) (cr_msgsRcvd r) true latency.
Definition dialled (isSlow subAcked : bool) (connLatency : Z) : clientResult :=
  mkClientResult isSlow true connLatency subAcked 0 false 0.
Definition not_dialled (isSlow : bool) : clientResult := mkClientResult isSlow false 0 false 0 false 0.

Definition tradeNotif : Type := string * Z.

Definition normal_read (ty stock : string) (now : Z) (r : clientResult) (tradeCh : chan tradeNotif)
    : option (clientResult * chan tradeNotif) :=
  if (ty =? "subscribed")%string then Some (saw true false r, tradeCh)
  else if (ty =? "market.trade")%string then
    if negb (stock =? EmptyString)%string then
      '(_, ch) ← chan_try_send (stock, now) tradeCh; Some (saw false true r, ch)
    else Some (saw false true r, tradeCh)
  else if (ty =? "market.ticker")%string || (ty =? "market.orderbook")%string then Some (saw false true r, tradeCh)
  else Some (r, tradeCh).

Fixpoint normal_loop (reads : list client_read) (r : clientResult) (tradeCh : chan tradeNotif)
    : option (bool * clientResult * chan tradeNotif) :=
  match reads with
  | [] => Some (false, r, tradeCh)
  | ReadMsg ty stock now :: reads =>
      '(r, ch) ← normal_read ty stock now r tradeCh; normal_loop reads r ch
  | ReadErr cancelled :: _ => Some (true, if cancelled then r else kicked_after (cr_kickLatency r) r, tradeCh)
  end.

Definition runNormalClient (dial : option Z) (reads : list client_read) (tradeCh : chan tradeNotif)
    : option (bool * clientResult * chan tradeNotif) :=
  match dial with
  | None => Some (true, not_dialled false, tradeCh)
  | Some connLatency => normal_loop reads (dialled false false connLatency) tradeCh
  end.

(** [runSlowClient]: its loop sleeps, then reads; [since] is the time since
    it connected. *)
Inductive slow_event : Type :=
| SlowDone
| SlowMsg
| SlowErr (cancelled : bool) (since : Z).

Fixpoint slow_loop (evs : list slow_event) (r : clientResult) : bool * clientResult :=
  match evs with
  | [] => (false, r)
  | SlowDone :: _ => (true, r)
  | SlowErr cancelled since :: _ => (true, if cancelled then r else kicked_after since r)
  | SlowMsg :: evs => slow_loop evs (saw false true r)
  end.
Definition runSlowClient (dial : option Z) (evs : list slow_event) : bool * clientResult :=
  match dial with
  | None => (true, not_dialled true)
  | Some connLatency => slow_loop evs (dialled true true connLatency)
  end.

(** What a slow client subscribes to. *)
Definition slow_subscriptions : list (string * string) :=
  flat_map (λ s, [("market.ticker", s); ("market.trade", s); ("market.orderbook", s)]%string) stocks.

(** One pair of [runOrderSubmitter]: the statuses of its two requests, [None]
    a failed one; then the collection of trade latencies. *)
Record submitter : Type := mkSubmitter { su_submitted : Z; su_errors : Z; su_lastSellTime : gmap string Z }.
Definition refused (status : option Z) : bool := match status with Some st => 400 <=? st | None => true end.
Definition submit_pair (stock : string) (buy sell : option Z) (sellAt : Z) (su : submitter) : submitter :=
  if refused buy || refused sell then mkSubmitter (su_submitted su) (su_errors su + 1) (su_lastSellTime su)
  else mkSubmitter (su_submitted su + 1) (su_errors su) (<[stock := sellAt]> (su_lastSellTime su)).

Definition plausible (lat : Z) : bool := (0 <=? lat) && (lat <? 10 * 1000000000).
Definition collect_latency (lastSellTime : gmap string Z) (lats : list Z) (notif : tradeNotif) : list Z :=
  match lastSellTime !! notif.1 with
  | Some sellAt => let lat := notif.2 - sellAt in if plausible lat then lats ++ [lat] else lats
  | None => lats
  end.

(** [printReport] of [wsloadtest]: its five verdicts. *)
Definition pct_of (n total : Z) : f64 :=
  if total >? 0 then f64_mul (f64_div (f64_of_Z n) (f64_of_Z total)) (f64_of_Z 100) else f64_zero.
Definition countb {A} (f : A → bool) (l : list A) : Z := Z.of_nat (length (filter (λ x, f x = true) l)).

Definition ws_verdicts (results : list clientResult) (submitted orderErrors : Z) (tradeEvents : Z) (numClients : Z)
    : list bool :=
  let slow := countb cr_isSlow results in
  let connected := countb cr_connected results in
  let slowConnected := countb (λ r, cr_isSlow r && cr_connected r) results in
  let slowKicked := countb (λ r, cr_isSlow r && cr_kicked r) results in
  let normalKicked := countb (λ r, negb (cr_isSlow r) && cr_kicked r) results in
  let total := submitted + orderErrors in
  [f64_ge (pct_of connected numClients) (f64_of_Z 95);
   normalKicked =? 0;
   f64_ge (pct_of slowKicked slowConnected) (f64_of_Z 50) || (slow =? 0);
   f64_ge (pct_of submitted total) (f64_of_Z 90) || (total =? 0);
   (0 <? tradeEvents) || (submitted =? 0)].
Definition ws_pass results submitted orderErrors tradeEvents numClients : bool :=
  forallb id (ws_verdicts results submitted orderErrors tradeEvents numClients).

(** ** Percentiles are nearest ranks *)
Lemma sorted_copy_perm d : sorted_copy d ≡ₚ d.
Proof. apply merge_sort_Permutation. Qed.

Lemma StronglySorted_lookup {A} (R : relation A) (l : list A) i j x y :
  StronglySorted R l → l !! i = Some x → l !! j = Some y → (i < j)%nat → R x y.
Proof.
  intros Hs Hi Hj Hlt. rewrite <- (take_drop j l) in Hs.
  apply (StronglySorted_app_1_elem_of _ _ _ x y Hs).
  - apply (list_elem_of_lookup_2 _ i). by rewrite lookup_take_lt.
  - apply (list_elem_of_lookup_2 _ 0%nat). by rewrite lookup_drop, Nat.add_0_r.
Qed.

Lemma sorted_copy_le d i j x y :
  sorted_copy d !! i = Some x → sorted_copy d !! j = Some y → (i ≤ j)%nat → x <= y.
Proof.
  intros Hi Hj Hij. destruct (decide (i = j)) as [->|Hne].
  - rewrite Hi in Hj. injection Hj as ->. lia.
  - assert (StronglySorted Z.le (sorted_copy d)) as Hs by apply (StronglySorted_merge_sort Z.le).
    apply (StronglySorted_lookup _ _ _ _ _ _ Hs Hi Hj). lia.
Qed.

Lemma rank_index_range p n : 0 < n → 0 <= rank_index p n < n.
Proof.
  intros Hn. unfold rank_index. set (idx := i64_sub _ _). rewrite Z.geb_leb.
  destruct (Z.ltb_spec idx 0); [destruct (Z.leb_spec n 0); lia|]. destruct (Z.leb_spec n idx); lia.
Qed.

Lemma percentile_lookup d p :
  d ≠ [] → sorted_copy d !! Z.to_nat (rank_index p (Z.of_nat (length d))) = Some (percentile d p).
Proof.
  intros Hd. assert (0 < Z.of_nat (length d)) as Hn by (destruct d; simpl in *; [done|lia]).
  pose proof (rank_index_range p _ Hn) as Hr.
  assert (percentile d p = nth (Z.to_nat (rank_index p (Z.of_nat (length d)))) (sorted_copy d) 0) as ->
    by (by destruct d).
  destruct (lookup_lt_is_Some_2 (sorted_copy d) (Z.to_nat (rank_index p (Z.of_nat (length d))))) as [x Hx].
  - rewrite (Permutation_length (sorted_copy_perm d)). lia.
  - rewrite Hx. f_equal. symmetry. by apply nth_lookup_Some.
Qed.

Lemma countb_prefix {A} (f : A → bool) (l : list A) k :
  (∀ i x, l !! i = Some x → (i < k)%nat → f x = true) → (k ≤ length l)%nat → Z.of_nat k <= countb f l.
Proof.
  unfold countb. revert k. induction l as [|x l IH]; intros k Hp Hk; simpl in *; [lia|]. destruct k as [|k]; [lia|].
  rewrite filter_cons, decide_True by (by apply (Hp 0%nat); [done|lia]). simpl.
  assert (Z.of_nat k <= Z.of_nat (length (filter (λ x, f x = true) l))); [|lia].
  apply IH; [|lia]. intros i y Hi Hlt. apply (Hp (S i)); [done|lia].
Qed.

Lemma countb_suffix {A} (f : A → bool) (l : list A) k :
  (∀ i x, l !! i = Some x → (k ≤ i)%nat → f x = true) → Z.of_nat (length l) - Z.of_nat k <= countb f l.
Proof.
  unfold countb. revert k. induction l as [|x l IH]; intros k Hp; simpl; [lia|]. rewrite filter_cons. destruct k as [|k].
  - rewrite decide_True by (by apply (Hp 0%nat); [done|lia]). simpl.
    assert (Z.of_nat (length l) - Z.of_nat 0 <= Z.of_nat (length (filter (λ x, f x = true) l))); [|lia].
    apply IH. intros i y Hi _. apply (Hp (S i)); [done|lia].
  - assert (Z.of_nat (length l) - Z.of_nat k <= Z.of_nat (length (filter (λ x, f x = true) l))).
    { apply IH. intros i y Hi Hle. apply (Hp (S i)); [done|lia]. }
    case_decide; simpl; lia.
Qed.

Lemma countb_perm {A} (f : A → bool) (l k : list A) : l ≡ₚ k → countb f l = countb f k.
Proof. intros H. unfold countb. by rewrite H. Qed.

(** In binary64, [Ceil(p/100 * n)] is the exact rank for the percentiles the
    programs ask for, checked for every number of samples up to the bound. *)
Definition rank_exact (p n : Z) : bool := rank_index (f64_of_Z p) n =? (p * n + 99) / 100 - 1.
Definition sample_bound : nat := 3000.

Lemma ranks_exact :
  forallb (λ p, forallb (λ n, rank_exact p (Z.of_nat n)) (seq 1 sample_bound)) [50; 90; 95; 99; 100] = true.
Proof. by vm_compute. Qed.

(** The percentile every report prints is the nearest-rank percentile: a
    sample [x] such that at least [⌈p·n/100⌉] of the [n] samples are at most
    [x] and the others, with [x] itself, are at least [x]; rounding in binary64
    never moves the rank for the percentiles asked for, up to [sample_bound]
    samples. *)
Theorem percentile_nearest_rank (d : list Z) (p : Z) :
  d ≠ [] → (length d ≤ sample_bound)%nat → p ∈ [50; 90; 95; 99; 100] →
  let n := Z.of_nat (length d) in
  let r := (p * n + 99) / 100 in
  let x := percentile d (f64_of_Z p) in
  1 <= r <= n ∧ x ∈ d ∧ r <= countb (λ y, y <=? x) d ∧ n - r + 1 <= countb (λ y, x <=? y) d.
Proof.
  intros Hd Hn Hp n r x. pose proof (percentile_lookup d (f64_of_Z p) Hd) as Hx.
  assert (0 < n) as Hpos by (unfold n; destruct d; simpl in *; [done|lia]).
  pose proof (rank_index_range (f64_of_Z p) n Hpos) as Hr.
  assert (rank_index (f64_of_Z p) n = r - 1) as Hexact.
  { pose proof ranks_exact as H. rewrite forallb_forall in H. specialize (H p). rewrite <- list_elem_of_In in H.
    specialize (H Hp). rewrite forallb_forall in H. specialize (H (length d)). apply Z.eqb_eq, H.
    apply in_seq. unfold n in Hpos. lia. }
  fold n in Hx. fold x in Hx. rewrite Hexact in *. pose proof (sorted_copy_perm d) as Hperm.
  split_and!; [lia|lia| | |].
  - rewrite <- Hperm. by apply (list_elem_of_lookup_2 _ (Z.to_nat (r - 1))).
  - rewrite <- (countb_perm _ _ _ Hperm). replace r with (Z.of_nat (S (Z.to_nat (r - 1)))) by lia.
    apply countb_prefix; [|rewrite (Permutation_length Hperm); unfold n in *; lia].
    intros i y Hi Hlt. apply Z.leb_le, (sorted_copy_le d i (Z.to_nat (r - 1))); [done|done|lia].
  - rewrite <- (countb_perm _ _ _ Hperm).
    replace (n - r + 1) with (Z.of_nat (length (sorted_copy d)) - Z.of_nat (Z.to_nat (r - 1)))
      by (rewrite (Permutation_length Hperm); unfold n in *; lia).
    apply countb_suffix. intros i y Hi Hle. apply Z.leb_le, (sorted_copy_le d (Z.to_nat (r - 1)) i); [done|done|lia].
Qed.

Module ClientsDemo.
Definition lats : list Z := [40; 10; 30; 20; 50].

Lemma percentile_nearest_rank_witness :
  percentile lats (f64_of_Z 50) = 30 ∧
  (1 <= (50 * 5 + 99) / 100 <= 5 ∧ 30 ∈ lats ∧ 3 <= countb (λ y, y <=? 30) lats ∧
   3 <= countb (λ y, 30 <=? y) lats).
Proof.
  split; [by vm_compute|]. apply (percentile_nearest_rank lats 50); [done|unfold sample_bound; simpl; lia|].
  apply list_elem_of_here.
Defined.

(** [matchtest] truncates [n*p/100] instead, one rank higher whenever it is
    whole: its p50 of two samples is the larger one. *)
Example Percentile_is_higher : Percentile [10; 20] (f64_of_Z 50) = Some 20 ∧ percentile [10; 20] (f64_of_Z 50) = 10.
Proof. by vm_compute. Qed.

(** A chunk of ten test clients names one address in its header. *)
Example fakeIP_chunks : fakeIP 9 = "10.0.0.1"%string ∧ fakeIP 10 = "10.0.1.1"%string.
Proof. by vm_compute. Qed.

Example phases_double : phases_of 10 100 = Some [10; 20; 40; 80; 100].
Proof. by vm_compute. Qed.

Example default_phases : phases_of 10 400 = Some [10; 20; 40; 80; 160; 320; 400].
Proof. by vm_compute. Qed.

(** A slow client stays below the subscription limit of the hub. *)
Example slow_client_admitted : (Z.of_nat (length slow_subscriptions) <? MaxSubsPerClient) = true.
Proof. by vm_compute. Qed.

Example urls : makeWSURL "https://x.test/" = "wss://x.test/ws"%string ∧ makeWSURL "localhost:8080" = "ws://localhost:8080/ws"%string.
Proof. by vm_compute. Qed.
End ClientsDemo.

(** ** The end of a WebSocket run *)

(** [main] cancels the clients and closes [tradeCh] without waiting for them:
    a client that has just read a trade event then sends on a closed channel,
    and the program panics instead of reporting. *)
Lemma late_trade_panics r ch stock now :
  ch_closed ch = true → stock ≠ EmptyString → normal_read "market.trade" stock now r ch = None.
Proof.
  destruct ch as [buf cap closed]. simpl. intros -> Hs. unfold normal_read. simpl.
  apply String.eqb_neq in Hs. by rewrite Hs.
Qed.

(** Until then no message stops a client, and each market event is counted. *)
Lemma open_reads_counted ty stock now r ch :
  ch_closed ch = false →
  ∃ r' ch', normal_read ty stock now r ch = Some (r', ch') ∧ ch_closed ch' = false ∧
    cr_msgsRcvd r' = cr_msgsRcvd r +
      (if existsb (String.eqb ty) ["market.trade"; "market.ticker"; "market.orderbook"]%string then 1 else 0).
Proof.
  destruct ch as [buf cap closed]. simpl. intros ->. unfold normal_read, chan_try_send. simpl. rewrite orb_false_r.
  destruct (String.eqb_spec ty "subscribed") as [->|]; [simpl; do 2 eexists; split_and!; [done|done|simpl; lia]|].
  destruct (String.eqb_spec ty "market.trade") as [->|]; simpl.
  - destruct (negb _); [destruct (_ <? _)%nat|]; do 2 eexists; (split_and!; [done|done|simpl; lia]).
  - destruct (_ || _); do 2 eexists; (split_and!; [done|done|simpl; lia]).
Qed.

(** ** Reports add up *)
Definition counted (c : phaseCounters) : Z := pc_ok2xx c + pc_err4xx c + pc_err5xx c + pc_netErr c.

(** Every request a phase counts is in exactly one class and has its latency
    recorded. *)
Lemma flood_count_balanced c over r :
  counted c = pc_total c → Z.of_nat (length (pc_lats c)) = pc_total c →
  counted (flood_count c over r) = pc_total (flood_count c over r) ∧
  Z.of_nat (length (pc_lats (flood_count c over r))) = pc_total (flood_count c over r).
Proof.
  unfold counted, flood_count. intros H1 H2.
  destruct (re_err r), over; simpl; rewrite ?length_app; simpl; try lia;
    repeat case_match; simpl; rewrite ?length_app; simpl; lia.
Qed.
