(* ===== verification/LoadRuns.v ===== *)
(** * The runs of the load-test clients ([cmd/loadtest], [cmd/matchtest],
    [cmd/stresstest], [cmd/wsloadtest])

    Their goroutine pools as labelled transition systems: what the loops that
    start requests do, what each worker does between two of its blocking
    points, and the numbers they report at the end.  What a request gives, when
    the clock fires and which goroutine moves are the labels.  [None]: the
    action is not possible. *)
From stdpp Require Import pretty.
From Stdlib Require Import SpecFloat.
From S2P Require Import Prelude GoLib Float64 Entity Config Hub Simulator Clients.

(** ** [time.Duration] *)
Definition in_units (unit d : Z) : f64 :=
  f64_add (f64_of_Z (Z.quot d unit)) (f64_div (f64_of_Z (Z.rem d unit)) (f64_of_Z unit)).
Definition Seconds : Z → f64 := in_units Second.
Definition Minutes : Z → f64 := in_units Minute.

(** [Round], half away from zero; the sums of a duration and a unit below an
    hour cannot overflow unless the duration is centuries. *)
Definition Round (d m : Z) : Z :=
  if m <=? 0 then d
  else
    let r := Z.rem d m in
    if d <? 0 then (if - r + - r <? m then d - r else d - m - r)
    else if r + r <? m then d - r else d + m - r.

(** [time.Duration(float64(unit) / float64(rate))]. *)
Definition interval_of (unit rate : Z) : Z := i64_of_f64 (f64_div (f64_of_Z unit) (f64_of_Z rate)).

(** A goroutine that is replaced or leaves a list. *)
Definition leave {A} (i : nat) (l : list A) : list A := take i l ++ drop (S i) l.

(** ** [loadtest] *)

(** [runFixedRate]: the loop is at its [select], at the semaphore, or waits for
    the goroutines it started. *)
Inductive loop_pc : Type := AtSelect | AtSemaphore | AtWait.

Record fixed : Type := mkFixed {
  fx_pc : loop_pc;
  fx_running : list orderReq;      (* goroutines between [sem <-] and [<-sem] *)
  fx_sent : Z;
  fx_stats : stats;
}.
Definition fixed_start : fixed := mkFixed AtSelect [] 0 newStats.

(** [time.NewTicker] panics ([None]) unless its interval is positive. *)
Definition fixed_begin (rate : Z) : option fixed :=
  if 0 <? interval_of Minute rate then Some fixed_start else None.

Inductive fixed_action : Type :=
| FxTick                                   (* [<-ticker.C] *)
| FxSend (req : orderReq)                  (* the semaphore has room *)
| FxReply (i : nat) (r : result)           (* [placeOrder] returns in a goroutine *)
| FxDone.                                  (* [<-done] *)

Definition fixed_exec (workers : nat) (a : fixed_action) (s : fixed) : option fixed :=
  match a, fx_pc s with
  | FxTick, AtSelect => Some (mkFixed AtSemaphore (fx_running s) (fx_sent s) (fx_stats s))
  | FxSend req, AtSemaphore =>
      if (length (fx_running s) <? workers)%nat
      then Some (mkFixed AtSelect (fx_running s ++ [req]) (fx_sent s + 1) (fx_stats s))
      else None
  | FxReply i r, _ =>
      _ ← fx_running s !! i;
      Some (mkFixed (fx_pc s) (leave i (fx_running s)) (fx_sent s) (stats_add (fx_stats s) r))
  | FxDone, AtSelect => Some (mkFixed AtWait (fx_running s) (fx_sent s) (fx_stats s))
  | _, _ => None
  end.
Definition fixed_returned (s : fixed) : bool :=
  match fx_pc s, fx_running s with AtWait, [] => true | _, _ => false end.

(** [runBurst]: phase after phase, each started by a goroutine of its own that
    [main] waits for; [None] in [bu_left] is the final [wg.Wait]. *)
Definition burst_phases : list nat := [200; 400; 800; 1600; 3200]%nat.

Record burst : Type := mkBurst {
  bu_left : option nat;            (* requests the phase has still to start *)
  bu_phases : list nat;
  bu_running : list orderReq;
  bu_stats : stats;
}.
Definition burst_start : burst :=
  match burst_phases with
  | n :: ns => mkBurst (Some n) ns [] newStats
  | [] => mkBurst None [] [] newStats
  end.

Inductive burst_action : Type :=
| BuSend (req : orderReq)
| BuReply (i : nat) (r : result)
| BuPhase.                                 (* [<-phaseDone], then the pause *)

Definition burst_exec (workers : nat) (a : burst_action) (s : burst) : option burst :=
  match a with
  | BuSend req =>
      match bu_left s with
      | Some (S n) =>
          if (length (bu_running s) <? workers)%nat
          then Some (mkBurst (Some n) (bu_phases s) (bu_running s ++ [req]) (bu_stats s))
          else None
      | _ => None
      end
  | BuReply i r =>
      _ ← bu_running s !! i;
      Some (mkBurst (bu_left s) (bu_phases s) (leave i (bu_running s)) (stats_add (bu_stats s) r))
  | BuPhase =>
      match bu_left s with
      | Some O => match bu_phases s with
                  | n :: ns => Some (mkBurst (Some n) ns (bu_running s) (bu_stats s))
                  | [] => Some (mkBurst None [] (bu_running s) (bu_stats s))
                  end
      | _ => None
      end
  end.
Definition burst_returned (s : burst) : bool :=
  match bu_left s, bu_running s with None, [] => true | _, _ => false end.

(** [runFlood]: workers that send one request after the other until [done]. *)
Inductive flood_pc : Type := FlSelect | FlBusy (req : orderReq) | FlExited.

Record flood : Type := mkFlood { fl_done : bool; fl_workers : list flood_pc; fl_stats : stats }.
Definition flood_start (workers : nat) : flood := mkFlood false (replicate workers FlSelect) newStats.

Inductive flood_action : Type :=
| FlLoop (i : nat) (req : orderReq)        (* the [select] of worker [i] *)
| FlReply (i : nat) (r : result)
| FlDone.

Definition flood_exec (a : flood_action) (s : flood) : option flood :=
  match a with
  | FlLoop i req =>
      match fl_workers s !! i with
      | Some FlSelect =>
          let pc := if fl_done s then FlExited else FlBusy req in
          Some (mkFlood (fl_done s) (<[i := pc]> (fl_workers s)) (fl_stats s))
      | _ => None
      end
  | FlReply i r =>
      match fl_workers s !! i with
      | Some (FlBusy _) => Some (mkFlood (fl_done s) (<[i := FlSelect]> (fl_workers s)) (stats_add (fl_stats s) r))
      | _ => None
      end
  | FlDone => if fl_done s then None else Some (mkFlood true (fl_workers s) (fl_stats s))
  end.
Definition flood_returned (s : flood) : bool :=
  forallb (λ pc, match pc with FlExited => true | _ => false end) (fl_workers s).

(** [stats.print]: the numbers of the report. *)
Record load_report : Type := mkLoadReport {
  lr_elapsed : Z; lr_total : Z; lr_success : Z; lr_clientErr : Z; lr_errors : Z;
  lr_errorRate : f64; lr_rps : f64; lr_rpm : f64; lr_p50 : Z; lr_p95 : Z; lr_p99 : Z;
  lr_codes : gmap Z Z;
}.
Definition rate_of (n total : Z) : f64 := f64_mul (f64_div (f64_of_Z n) (f64_of_Z total)) (f64_of_Z 100).

Definition stats_print (s : stats) (elapsed : Z) : load_report :=
  let rps := f64_div (f64_of_Z (st_total s)) (Seconds elapsed) in
  let p := λ q, Round (percentile (st_latencies s) (f64_of_Z q)) 1000 in
  mkLoadReport (Round elapsed Millisecond) (st_total s) (st_success s) (st_clientErrors s) (st_errors s)
    (rate_of (st_errors s) (st_total s)) rps (f64_mul rps (f64_of_Z 60)) (p 50) (p 95) (p 99) (st_statusCounts s).

(** The measured rate of [main]'s verdict. *)
Definition actualRPM (s : stats) (elapsed : Z) : f64 := f64_div (f64_of_Z (st_total s)) (Minutes elapsed).
Definition fixed_verdict (s : stats) (elapsed rate : Z) : bool := loadtest_pass s (actualRPM s elapsed) rate.

(** ** [matchtest] *)

(** [worker]: acquire a slot, BUY, SELL, release; a failed request releases at
    once.  A step is one operation on shared state: the semaphore, a request,
    one atomic counter or the list of latencies. *)
Record match_stats : Type := mkMatchStats {
  TotalOrders : Z; SuccessOrders : Z; FailedOrders : Z; Latencies : list Z }.

Inductive match_pc : Type :=
| MtSelect
| MtSubmit (side : string)                               (* [submitOrder] *)
| MtTotal (side : string) (lat : Z) (failed : bool)      (* [TotalOrders.Add] *)
| MtFailed                                               (* [FailedOrders.Add] *)
| MtSuccess (side : string) (lat : Z)                    (* [SuccessOrders.Add] *)
| MtLatency (side : string) (lat : Z)                    (* [AddLatency] *)
| MtRelease
| MtExited.

Record match_run : Type := mkMatchRun {
  mt_done : bool; mt_slots : nat; mt_workers : list match_pc; mt_stats : match_stats }.
Definition match_start (workers : nat) : match_run :=
  mkMatchRun false 0 (replicate workers MtSelect) (mkMatchStats 0 0 0 []).

Inductive match_action : Type :=
| MtStep (i : nat)
| MtReply (i : nat) (lat : Z) (failed : bool)
| MtCancel (i : nat)                       (* worker [i] takes [ctx.Done] *)
| MtTimeout.

Definition mt_goto (i : nat) (pc : match_pc) (s : match_run) : match_run :=
  mkMatchRun (mt_done s) (mt_slots s) (<[i := pc]> (mt_workers s)) (mt_stats s).
Definition with_slots (n : nat) (s : match_run) : match_run :=
  mkMatchRun (mt_done s) n (mt_workers s) (mt_stats s).
Definition with_stats (st : match_stats) (s : match_run) : match_run :=
  mkMatchRun (mt_done s) (mt_slots s) (mt_workers s) st.

Definition match_exec (slots : nat) (a : match_action) (s : match_run) : option match_run :=
  let st := mt_stats s in
  match a with
  | MtTimeout => Some (mkMatchRun true (mt_slots s) (mt_workers s) st)
  | MtCancel i =>
      match mt_workers s !! i with
      | Some MtSelect => if mt_done s then Some (mt_goto i MtExited s) else None
      | _ => None
      end
  | MtReply i lat failed =>
      match mt_workers s !! i with
      | Some (MtSubmit side) => Some (mt_goto i (MtTotal side lat failed) s)
      | _ => None
      end
  | MtStep i =>
      match mt_workers s !! i with
      | Some MtSelect =>
          if (mt_slots s <? slots)%nat then Some (mt_goto i (MtSubmit "BUY") (with_slots (S (mt_slots s)) s)) else None
      | Some (MtTotal side lat failed) =>
          Some (mt_goto i (if failed : bool then MtFailed else MtSuccess side lat)
                  (with_stats (mkMatchStats (TotalOrders st + 1) (SuccessOrders st) (FailedOrders st) (Latencies st)) s))
      | Some MtFailed =>
          Some (mt_goto i MtRelease
                  (with_stats (mkMatchStats (TotalOrders st) (SuccessOrders st) (FailedOrders st + 1) (Latencies st)) s))
      | Some (MtSuccess side lat) =>
          Some (mt_goto i (MtLatency side lat)
                  (with_stats (mkMatchStats (TotalOrders st) (SuccessOrders st + 1) (FailedOrders st) (Latencies st)) s))
      | Some (MtLatency side lat) =>
          Some (mt_goto i (if (side =? "BUY")%string then MtSubmit "SELL" else MtRelease)
                  (with_stats (mkMatchStats (TotalOrders st) (SuccessOrders st) (FailedOrders st) (Latencies st ++ [lat])) s))
      | Some MtRelease => Some (mt_goto i MtSelect (with_slots (mt_slots s - 1) s))
      | _ => None
      end
  end.
Definition match_returned (s : match_run) : bool :=
  forallb (λ pc, match pc with MtExited => true | _ => false end) (mt_workers s).

(** The stock and the price of worker [i] in [runTest]. *)
Definition worker_stock (i : nat) : string := nth (i mod length stocks) stocks EmptyString.
Definition worker_price (i : nat) : Z := basePrice (worker_stock i).

(** The request of a worker. *)
Record match_request : Type := mkMatchRequest {
  mq_stock : string; mq_side : string; mq_price : Z; mq_quantity : Z; mq_type : string }.
Definition request_of (i : nat) (side : string) : match_request :=
  mkMatchRequest (worker_stock i) side (worker_price i) 100 "LIMIT".

(** [runRampUpTest]: per phase, what [runTest] measured, its length in ns, and
    whether the trades could be read; the statistics of the last phase that
    reached 80% of its rate.  [None]: [bestStats] is nil. *)
Definition ramp_rates : list Z := [1000; 5000; 10000; 20000; 30000; 50000; 100000].

Definition per_minute (total elapsed : Z) : f64 :=
  f64_mul (f64_div (f64_of_Z total) (Seconds elapsed)) (f64_of_Z 60).

Fixpoint ramp_up (phases : list (Z * (match_stats * Z * bool))) (best : option (match_stats * Z))
    : option (match_stats * Z) :=
  match phases with
  | [] => best
  | (rate, (st, elapsed, trades_ok)) :: rest =>
      if negb trades_ok then ramp_up rest best
      else if f64_lt (per_minute (TotalOrders st) elapsed) (f64_mul (f64_of_Z rate) (f64_lit 8 1)) then best
      else ramp_up rest (Some (st, elapsed))
  end.
Definition runRampUpTest (measured : list (match_stats * Z * bool)) : option (match_stats * Z) :=
  ramp_up (zip ramp_rates measured) None.

(** [printReport]: the numbers, the percentiles and the verdict; with [Verify]
    the trades the server counts against the pairs expected. *)
Record match_report : Type := mkMatchReport {
  mr_total : Z; mr_success : Z; mr_failed : Z; mr_successRate : f64; mr_failedRate : f64;
  mr_perMin : f64; mr_perSec : f64; mr_latency : list (option Z);
  mr_verified : option (Z * Z * f64);      (* trades, expected, match rate *)
  mr_pass : bool;
}.
Definition match_printReport (st : match_stats) (elapsed : Z) (verify : option Z) : match_report :=
  let perSec := f64_div (f64_of_Z (TotalOrders st)) (Seconds elapsed) in
  let perMin := f64_mul perSec (f64_of_Z 60) in
  let expected := Z.quot (SuccessOrders st) 2 in
  mkMatchReport (TotalOrders st) (SuccessOrders st) (FailedOrders st)
    (rate_of (SuccessOrders st) (TotalOrders st)) (rate_of (FailedOrders st) (TotalOrders st)) perMin perSec
    ((λ p, Percentile (Latencies st) (f64_of_Z p)) <$> [50; 95; 99])
    (trades ← verify;
     if (0 <? trades) && (0 <? expected) then Some (trades, expected, rate_of trades expected) else None)
    (f64_ge perMin (f64_of_Z 1000)).

(** [main]: one run, or the ramp; [None] is the panic of reporting nil
    statistics. *)
Definition match_main (MaxRate : Z) (run : match_stats * Z) (ramp : list (match_stats * Z * bool)) (verify : option Z)
    : option match_report :=
  '(st, elapsed) ← (if 0 <? MaxRate then runRampUpTest ramp else Some run);
  Some (match_printReport st elapsed verify).

(** ** [stresstest] *)

(** [randomOrder]: at the base price; the draws are of 5, 2 and 5. *)
Definition stress_order (i side q : nat) : match_request :=
  let stock := nth i stocks EmptyString in
  mkMatchRequest stock (if (side =? 0)%nat then "BUY" else "SELL") (basePrice stock) ((Z.of_nat q + 1) * 100)
    "LIMIT".

(** [floodWorker], its test of the context at the top of the loop included. *)
Inductive worker_pc : Type := WkCheck | WkSending (req : match_request) | WkExited.

Record phase : Type := mkPhase { ph_over : bool; ph_workers : list worker_pc; ph_counters : phaseCounters }.
Definition phase_start (workers : nat) : phase :=
  mkPhase false (replicate workers WkCheck) (mkCounters 0 0 0 0 0 []).

Inductive phase_action : Type :=
| WkLoop (i i' side q : nat)               (* worker [i] draws an order *)
| WkReply (i : nat) (r : result)
| WkOver.                                  (* the phase's context ends *)

Definition phase_exec (a : phase_action) (s : phase) : option phase :=
  match a with
  | WkLoop i i' side q =>
      match ph_workers s !! i with
      | Some WkCheck =>
          let pc := if ph_over s then WkExited else WkSending (stress_order i' side q) in
          Some (mkPhase (ph_over s) (<[i := pc]> (ph_workers s)) (ph_counters s))
      | _ => None
      end
  | WkReply i r =>
      match ph_workers s !! i with
      | Some (WkSending _) =>
          let pc := if re_err r && ph_over s then WkExited else WkCheck in
          Some (mkPhase (ph_over s) (<[i := pc]> (ph_workers s)) (flood_count (ph_counters s) (ph_over s) r))
      | _ => None
      end
  | WkOver => Some (mkPhase true (ph_workers s) (ph_counters s))
  end.
Definition phase_returned (s : phase) : bool :=
  forallb (λ pc, match pc with WkExited => true | _ => false end) (ph_workers s).

(** What [runPhase] returns, given the event counter before and after. *)
Record phaseResult : Type := mkPhaseResult {
  pr_phaseNum : Z; pr_workers : Z; pr_duration : Z; pr_counts : phaseCounters;
  pr_reqPerSec : f64; pr_reqPerMin : f64; pr_wsEvtTotal : Z; pr_wsEvtPerSec : f64 }.
Definition phase_result (phaseNum workers elapsed wsSnap wsEnd : Z) (c : phaseCounters) : phaseResult :=
  let rps := f64_div (f64_of_Z (pc_total c)) (Seconds elapsed) in
  let events := i64_sub wsEnd wsSnap in
  mkPhaseResult phaseNum workers elapsed c rps (f64_mul rps (f64_of_Z 60)) events
    (f64_div (f64_of_Z events) (Seconds elapsed)).

(** [progressTicker]: what one tick at [now] prints, from the loads it makes of
    the counters in turn (total, events, network and server errors, total), and
    what it keeps for the next. *)
Record progress : Type := mkProgress { pg_prevTotal : Z; pg_prevWS : Z; pg_prevTime : Z }.
Definition progress_start (wsSnap now : Z) : progress := mkProgress 0 wsSnap now.
Definition progress_tick (curTotal curWS netErr err5xx total now : Z) (p : progress) : (f64 * f64 * f64) * progress :=
  let dt := Seconds (i64_sub now (pg_prevTime p)) in
  ((f64_div (f64_of_Z (i64_sub curTotal (pg_prevTotal p))) dt,
    f64_div (f64_of_Z (i64_sub curWS (pg_prevWS p))) dt,
    f64_mul (f64_div (f64_of_Z (i64_add netErr err5xx)) (f64_of_Z (if total >? 1 then total else 1))) (f64_of_Z 100)),
   mkProgress curTotal curWS now).

(** [wsListenerClient]: the events it counts among what it reads, up to the
    first error; [None]: it never connected. *)
Fixpoint listened (types : list string) (counter : Z) : Z :=
  match types with
  | [] => counter
  | ty :: rest =>
      listened rest (if negb (ty =? "subscribed")%string && negb (ty =? EmptyString)%string then counter + 1 else counter)
  end.
Definition wsListenerClient (dialled : bool) (types : list string) (counter connected : Z) : Z * Z :=
  if dialled then (listened types counter, connected + 1) else (counter, connected).

(** [printReport]: the index of the peak phase, its rate and the peak of the
    events; the first phase wins a tie. *)
Fixpoint peaks (i : nat) (phases : list phaseResult) (best : nat * f64 * f64) : nat * f64 * f64 :=
  match phases with
  | [] => best
  | p :: rest =>
      let '(idx, rps, evt) := best in
      let '(idx, rps) := if f64_lt rps (pr_reqPerSec p) then (i, pr_reqPerSec p) else (idx, rps) in
      let evt := if f64_lt evt (pr_wsEvtPerSec p) then pr_wsEvtPerSec p else evt in
      peaks (S i) rest (idx, rps, evt)
  end.

Record stress_report : Type := mkStressReport {
  sr_rows : list (Z * Z * Z * list f64 * list Z);    (* phase, workers, total, shares, percentiles *)
  sr_peak : nat; sr_peakRPS : f64; sr_peakEvents : f64;
  sr_breaking : option (Z * f64);
  sr_perClient : option f64;
}.
Definition shares (c : phaseCounters) : list f64 :=
  if pc_total c =? 0 then []
  else (λ n, rate_of n (pc_total c)) <$> [pc_ok2xx c; pc_err4xx c; pc_err5xx c + pc_netErr c].
Definition stress_percentiles (c : phaseCounters) : list Z :=
  (λ p, Round (percentile (pc_lats c) (f64_of_Z p)) Millisecond) <$> [50; 95; 99].

(** [None]: the panic of indexing an empty list of phases. *)
Definition stress_printReport (phases : list phaseResult) (breakingPoint wsClients : Z) : option stress_report :=
  let '(idx, _, evt) := peaks 0 phases (0%nat, f64_zero, f64_zero) in
  peak ← phases !! idx;
  Some (mkStressReport
    (imap (λ i p, (Z.of_nat i + 1, pr_workers p, pc_total (pr_counts p), shares (pr_counts p),
                   stress_percentiles (pr_counts p))) phases)
    idx (pr_reqPerSec peak) evt
    (if (0 <? breakingPoint) && (breakingPoint <=? Z.of_nat (length phases))
     then bp ← phases !! Z.to_nat (breakingPoint - 1); Some (breakingPoint, errorRate (pr_counts bp)) else None)
    (if 0 <? wsClients then Some (f64_div evt (f64_of_Z wsClients)) else None)).

(** [main]: the phases, in order, each with what it measured. *)
Definition stress_main (startWorkers maxWorkers wsClients : Z) (threshold : f64)
    (measured : list (Z * Z * Z * phaseCounters)) : option stress_report :=
  counts ← phases_of startWorkers maxWorkers;
  let phases := imap (λ i x, let '(w, (elapsed, snap, end_, c)) := x in
                             phase_result (Z.of_nat i + 1) w elapsed snap end_ c) (zip counts measured) in
  stress_printReport phases (breaking_point 1 threshold (pr_counts <$> phases)) wsClients.

(** ** [wsloadtest] *)

(** [runOrderSubmitter]: the pool of [runFixedRate] with pairs of orders, each
    counted by [submit_pair]. *)
Record pairs : Type := mkPairs { wp_pc : loop_pc; wp_running : list string; wp_sub : submitter }.
Inductive pairs_action : Type :=
| WpTick
| WpSend (stock : string)
| WpReply (i : nat) (buy sell : option Z) (sellAt : Z)
| WpDone.

Definition pairs_exec (workers : nat) (a : pairs_action) (s : pairs) : option pairs :=
  match a, wp_pc s with
  | WpTick, AtSelect => Some (mkPairs AtSemaphore (wp_running s) (wp_sub s))
  | WpSend stock, AtSemaphore =>
      if (length (wp_running s) <? workers)%nat
      then Some (mkPairs AtSelect (wp_running s ++ [stock]) (wp_sub s)) else None
  | WpReply i buy sell sellAt, _ =>
      stock ← wp_running s !! i;
      Some (mkPairs (wp_pc s) (leave i (wp_running s)) (submit_pair stock buy sell sellAt (wp_sub s)))
  | WpDone, AtSelect => Some (mkPairs AtWait (wp_running s) (wp_sub s))
  | _, _ => None
  end.

(** The price of a pair, and the ticker's interval for a rate. *)
Definition pair_price (stock : string) : Z := alignTick (basePrice stock) (tickSize stock).
Definition pair_interval (rate : Z) : Z := interval_of Second (if rate >? 1 then rate else 1).

(** [main]: how the clients are divided and spaced, who is slow, and how the
    results are collected: all of them, or those that came before the timeout
    ([None]). *)
Definition numSlow (numClients slowPct : Z) : Z := i64_quot (i64_mul numClients slowPct) 100.
Definition is_slow (numClients slowPct i : Z) : bool := i <? numSlow numClients slowPct.
Definition rampInterval (numClients ramp : Z) : Z :=
  if (1 <? numClients) && (0 <? ramp) then Z.quot ramp numClients else 0.
Definition config_ok (numClients slowPct : Z) : bool :=
  negb ((slowPct <? 0) || (100 <? slowPct)) && negb (numClients <=? 0).

Fixpoint collect_results (events : list (option clientResult)) (numClients : nat) (results : list clientResult)
    : list clientResult :=
  if (length results <? numClients)%nat then
    match events with
    | Some r :: events => collect_results events numClients (results ++ [r])
    | _ => results
    end
  else results.

(** [printReport]: the results divided into normal and slow clients, and the
    numbers of its four sections. *)
Record partition : Type := mkPartition {
  pa_normalTotal : Z; pa_normalConnected : Z; pa_normalSubAcked : Z; pa_normalKicked : Z;
  pa_slowTotal : Z; pa_slowConnected : Z; pa_slowKicked : Z; pa_totalMsgs : Z;
  pa_connLats : list Z; pa_kickLats : list Z; pa_msgCounts : list Z;
}.
Definition one (b : bool) : Z := if b then 1 else 0.
Definition partition_add (p : partition) (r : clientResult) : partition :=
  let connLats := pa_connLats p ++ (if cr_connected r then [cr_connLatency r] else []) in
  if cr_isSlow r then
    mkPartition (pa_normalTotal p) (pa_normalConnected p) (pa_normalSubAcked p) (pa_normalKicked p)
      (pa_slowTotal p + 1) (pa_slowConnected p + one (cr_connected r)) (pa_slowKicked p + one (cr_kicked r))
      (pa_totalMsgs p) connLats (pa_kickLats p ++ (if cr_kicked r then [cr_kickLatency r] else [])) (pa_msgCounts p)
  else
    mkPartition (pa_normalTotal p + 1) (pa_normalConnected p + one (cr_connected r))
      (pa_normalSubAcked p + one (cr_subAcked r)) (pa_normalKicked p + one (cr_kicked r))
      (pa_slowTotal p) (pa_slowConnected p) (pa_slowKicked p)
      (if cr_connected r then i64_add (pa_totalMsgs p) (cr_msgsRcvd r) else pa_totalMsgs p) connLats (pa_kickLats p)
      (pa_msgCounts p ++ (if cr_connected r then [cr_msgsRcvd r] else [])).
Definition partition_of (results : list clientResult) : partition :=
  foldl partition_add (mkPartition 0 0 0 0 0 0 0 0 [] [] []) results.

(** [pct]: [None] is the text "n/a". *)
Definition pct (n total : Z) : option f64 := if total =? 0 then None else Some (rate_of n total).
Definition latencies (d : list Z) (ps : list Z) : list Z :=
  match d with [] => [] | _ => (λ p, Round (percentile d (f64_of_Z p)) Millisecond) <$> ps end.

Record ws_report : Type := mkWsReport {
  wr_connected : Z * option f64; wr_connLatency : list Z;
  wr_normalConnected : option f64; wr_normalAcked : option f64; wr_avgMsgs : option f64;
  wr_minMax : option (Z * Z); wr_slowConnected : option f64; wr_slowKicked : option f64; wr_kickLatency : list Z;
  wr_tradeEvents : Z; wr_tradeLatency : list Z; wr_pass : bool;
}.
Definition ws_printReport (results : list clientResult) (submitted orderErrors : Z) (tradeLatencies : list Z)
    (numClients : Z) : ws_report :=
  let p := partition_of results in
  let connected := pa_normalConnected p + pa_slowConnected p in
  let counts := sorted_copy (pa_msgCounts p) in
  mkWsReport (connected, pct connected numClients) (latencies (pa_connLats p) [50; 95; 99])
    (pct (pa_normalConnected p) (pa_normalTotal p)) (pct (pa_normalSubAcked p) (pa_normalTotal p))
    (if 0 <? pa_normalConnected p
     then Some (f64_div (f64_of_Z (pa_totalMsgs p)) (f64_of_Z (pa_normalConnected p))) else None)
    (lo ← head counts; hi ← last counts; Some (lo, hi))
    (pct (pa_slowConnected p) (pa_slowTotal p))
    (pct (pa_slowKicked p) (if pa_slowConnected p >? 1 then pa_slowConnected p else 1))
    (latencies (pa_kickLats p) [50; 95; 100])
    (Z.of_nat (length tradeLatencies)) (latencies tradeLatencies [50; 95; 99])
    (ws_pass results submitted orderErrors (Z.of_nat (length tradeLatencies)) numClients).

(** ** Nothing is counted twice or lost *)
Lemma leave_length {A} (l : list A) i x : l !! i = Some x → S (length (leave i l)) = length l.
Proof.
  intros Hx. apply lookup_lt_Some in Hx as Hlt. unfold leave. rewrite length_app, length_take, length_drop. lia.
Qed.

(** The classes of [stats.add]; replies of status below 200 or from 300 to
    399 are in none. *)
Definition unclassed (r : result) : bool :=
  negb (re_err r) && ((re_status r <? 200) || ((300 <=? re_status r) && (re_status r <? 400))).

Definition load_balanced (s : stats) : Prop :=
  st_success s + st_errors s + st_clientErrors s <= st_total s ∧ Z.of_nat (length (st_latencies s)) = st_total s.

Lemma stats_add_balanced s r : load_balanced s → load_balanced (stats_add s r).
Proof.
  unfold load_balanced, stats_add. intros [H1 H2]. repeat case_match; simpl; rewrite length_app; simpl; lia.
Qed.

Lemma stats_add_total s r : st_total (stats_add s r) = st_total s + 1.
Proof. unfold stats_add. by repeat case_match. Qed.

(** A reply a server can give to an order is in one class exactly. *)
Lemma stats_add_classed s r :
  unclassed r = false →
  st_success (stats_add s r) + st_errors (stats_add s r) + st_clientErrors (stats_add s r) =
  st_success s + st_errors s + st_clientErrors s + 1.
Proof.
  unfold unclassed, stats_add. intros Hu. destruct (re_err r); simpl in *; [lia|].
  destruct (Z.leb_spec 500 (re_status r)); simpl; [lia|].
  destruct (Z.leb_spec 200 (re_status r)), (Z.ltb_spec (re_status r) 300); simpl; try lia;
    destruct (Z.leb_spec 400 (re_status r)), (Z.ltb_spec (re_status r) 500); simpl; try lia;
    destruct (Z.ltb_spec (re_status r) 200); simpl in Hu; try lia; try done;
    destruct (Z.leb_spec 300 (re_status r)), (Z.ltb_spec (re_status r) 400); simpl in Hu; try lia; done.
Qed.

Fixpoint run_all {S A} (exec : A → S → option S) (acts : list A) (s : S) : option S :=
  match acts with
  | [] => Some s
  | a :: acts => s' ← exec a s; run_all exec acts s'
  end.

Lemma run_all_inv {S A} (exec : A → S → option S) (P : S → Prop) :
  (∀ a s s', P s → exec a s = Some s' → P s') →
  ∀ acts s s', P s → run_all exec acts s = Some s' → P s'.
Proof.
  intros Hstep acts. induction acts as [|a acts IH]; intros s s' Hs Hrun; simpl in Hrun; [by injection Hrun as <-|].
  destruct (exec a s) as [s1|] eqn:He; [|done]. simpl in Hrun. by apply (IH s1); [eapply Hstep|].
Qed.

(** *** [loadtest] *)
Definition fixed_inv (workers : nat) (s : fixed) : Prop :=
  (length (fx_running s) ≤ workers)%nat ∧ fx_sent s = st_total (fx_stats s) + Z.of_nat (length (fx_running s)) ∧
  load_balanced (fx_stats s).

Lemma fixed_exec_inv workers a s s' : fixed_inv workers s → fixed_exec workers a s = Some s' → fixed_inv workers s'.
Proof.
  intros (Hlen & Hsent & Hbal). unfold fixed_exec.
  destruct a as [|req|i r|], (fx_pc s); try done.
  all: try (by intros [= <-]).
  1: { destruct (Nat.ltb_spec (length (fx_running s)) workers); [|done]. intros [= <-].
       unfold fixed_inv. simpl. rewrite length_app. simpl. split_and!; [lia|lia|done]. }
  all: destruct (fx_running s !! i) as [x|] eqn:Hx; [|done]; apply leave_length in Hx;
    pose proof (stats_add_total (fx_stats s) r) as Ht; pose proof (stats_add_balanced _ r Hbal) as Hb;
    set (st := stats_add (fx_stats s) r) in *; clearbody st;
    intros [= <-]; unfold fixed_inv; simpl; (split_and!; [lia|lia|done]).
Qed.

(** When a fixed-rate run returns, every request it sent is answered and
    counted once, with its latency; meanwhile at most [workers] are open. *)
Theorem fixed_rate_accounts workers acts s :
  run_all (fixed_exec workers) acts fixed_start = Some s →
  (length (fx_running s) ≤ workers)%nat ∧
  (fixed_returned s = true →
     st_total (fx_stats s) = fx_sent s ∧ Z.of_nat (length (st_latencies (fx_stats s))) = fx_sent s).
Proof.
  intros Hrun. assert (fixed_inv workers s) as (Hlen & Hsent & Hbal).
  { eapply (run_all_inv (fixed_exec workers) (fixed_inv workers)); [apply fixed_exec_inv| |exact Hrun].
    unfold fixed_inv, load_balanced. simpl. split_and!; lia. }
  split; [done|]. unfold fixed_returned. destruct (fx_pc s); [done..|].
  destruct (fx_running s); [|done]. intros _. simpl in Hsent. destruct Hbal. lia.
Qed.

(** [N]: the requests of the run. *)
Definition burst_inv (N : Z) (s : burst) : Prop :=
  st_total (bu_stats s) + Z.of_nat (length (bu_running s)) +
    Z.of_nat (match bu_left s with Some n => n | None => 0%nat end) + Z.of_nat (sum_list (bu_phases s)) = N ∧
  (bu_left s = None → bu_phases s = []).

Lemma burst_exec_inv N workers a s s' : burst_inv N s → burst_exec workers a s = Some s' → burst_inv N s'.
Proof.
  unfold burst_inv, burst_exec. intros [Hinv Hnil]. destruct a as [req|i r|].
  - destruct (bu_left s) as [[|n]|] eqn:Hl; [done| |done]. destruct (_ <? _)%nat; [|done]. intros [= <-].
    cbn [bu_left bu_running bu_phases bu_stats] in *. rewrite length_app. cbn [length]. split; [lia|done].
  - destruct (bu_running s !! i) as [x|] eqn:Hx; [|done]. apply leave_length in Hx.
    pose proof (stats_add_total (bu_stats s) r) as Ht. set (st := stats_add (bu_stats s) r) in *. clearbody st.
    intros [= <-]. cbn [bu_left bu_running bu_phases bu_stats]. split; [lia|done].
  - destruct (bu_left s) as [[|n]|] eqn:Hl; [|done|done]. destruct (bu_phases s) as [|n ns] eqn:Hp; intros [= <-];
      cbn [bu_left bu_running bu_phases bu_stats] in *; (split; [|done]);
      [|change (sum_list (n :: ns)) with (n + sum_list ns)%nat in Hinv]; lia.
Qed.

(** A burst run that returns has sent exactly the 6200 requests of its phases. *)
Theorem burst_sends_all workers acts s :
  run_all (burst_exec workers) acts burst_start = Some s → burst_returned s = true →
  st_total (bu_stats s) = 6200.
Proof.
  intros Hrun Hret. assert (burst_inv 6200 s) as [Hinv Hnil]
    by (eapply (run_all_inv (burst_exec workers) (burst_inv 6200)); [apply burst_exec_inv| |exact Hrun]; by split).
  unfold burst_returned in Hret. destruct (bu_left s); [done|]. rewrite (Hnil eq_refl) in Hinv.
  destruct (bu_running s); [|done]. cbn [length] in Hinv.
  change (sum_list []) with 0%nat in Hinv. lia.
Qed.

(** *** [loadtest], the flood; [matchtest] and [stresstest] *)
Lemma tally_insert {A} (f : A → nat) (l : list A) i x y :
  l !! i = Some x → (sum_list_with f (<[i := y]> l) + f x = sum_list_with f l + f y)%nat.
Proof.
  revert i. induction l as [|z l IH]; intros [|i] Hi; try done.
  - injection Hi as ->. cbn. lia.
  - specialize (IH i Hi). change (<[S i := y]> (z :: l)) with (z :: <[i := y]> l). cbn [sum_list_with]. lia.
Qed.

Lemma tally_zero {A} (f : A → nat) (p : A → bool) (l : list A) :
  (∀ x, p x = true → f x = 0%nat) → forallb p l = true → sum_list_with f l = 0%nat.
Proof.
  intros Hp. induction l as [|x l IH]; [done|]. cbn. intros [Hx Hl]%andb_prop. by rewrite (Hp x Hx), (IH Hl).
Qed.

Lemma tally_replicate {A} (f : A → nat) n x : f x = 0%nat → sum_list_with f (replicate n x) = 0%nat.
Proof. intros Hx. induction n as [|n IH]; [done|]. cbn. by rewrite Hx, IH. Qed.

(** What a worker of [matchtest] holds, and what it has still to count. *)
Definition holds_slot (pc : match_pc) : nat := match pc with MtSelect | MtExited => 0 | _ => 1 end%nat.
Definition to_classify (pc : match_pc) : nat := match pc with MtFailed | MtSuccess _ _ => 1 | _ => 0 end%nat.
Definition to_record (pc : match_pc) : nat := match pc with MtLatency _ _ => 1 | _ => 0 end%nat.

Definition match_inv (slots : nat) (s : match_run) : Prop :=
  mt_slots s = sum_list_with holds_slot (mt_workers s) ∧ (mt_slots s ≤ slots)%nat ∧
  TotalOrders (mt_stats s) =
    SuccessOrders (mt_stats s) + FailedOrders (mt_stats s) + Z.of_nat (sum_list_with to_classify (mt_workers s)) ∧
  SuccessOrders (mt_stats s) =
    Z.of_nat (length (Latencies (mt_stats s))) + Z.of_nat (sum_list_with to_record (mt_workers s)).

Ltac worker_moves Hi pc :=
  pose proof (tally_insert holds_slot _ _ _ pc Hi); pose proof (tally_insert to_classify _ _ _ pc Hi);
  pose proof (tally_insert to_record _ _ _ pc Hi).

Lemma match_exec_inv slots a s s' : match_inv slots s → match_exec slots a s = Some s' → match_inv slots s'.
Proof.
  destruct s as [dn sl ws [tot suc fl lats]]. unfold match_inv, match_exec, mt_goto, with_slots, with_stats.
  cbn [mt_done mt_slots mt_workers mt_stats TotalOrders SuccessOrders FailedOrders Latencies].
  intros (Hs & Hle & Ht & Hr).
  assert (Hmove : ∀ (i : nat) (pc pc' : match_pc) (sl' : nat) (t s1 f : Z) (ls : list Z), ws !! i = Some pc →
      (sl' + holds_slot pc = sl + holds_slot pc')%nat → (sl' ≤ slots)%nat →
      t - s1 - f + Z.of_nat (to_classify pc) = tot - suc - fl + Z.of_nat (to_classify pc') →
      s1 - Z.of_nat (length ls) + Z.of_nat (to_record pc) = suc - Z.of_nat (length lats) + Z.of_nat (to_record pc') →
      sl' = sum_list_with holds_slot (<[i := pc']> ws) ∧ (sl' ≤ slots)%nat ∧
      t = s1 + f + Z.of_nat (sum_list_with to_classify (<[i := pc']> ws)) ∧
      s1 = Z.of_nat (length ls) + Z.of_nat (sum_list_with to_record (<[i := pc']> ws))).
  { intros i pc pc' sl' t s1 f ls Hi H1 H2 H3 H4. worker_moves Hi pc'. lia. }
  destruct a as [i|i lat failed|i|].
  4: by intros [= <-].
  all: destruct (ws !! i) as [pc|] eqn:Hi; [|done]; destruct pc as [|side|side lat' f'| |side lat'|side lat'| |]; try done.
  1: destruct (Nat.ltb_spec sl slots); [|done].
  8: destruct dn; [|done].
  all: intros [= <-]; cbn [mt_done mt_slots mt_workers mt_stats TotalOrders SuccessOrders FailedOrders Latencies].
  6: pose proof (tally_insert holds_slot _ _ _ MtSelect Hi) as Hone; cbn [holds_slot] in Hone.
  all: apply (Hmove i _ _ _ _ _ _ _ Hi); rewrite ?length_app; repeat case_match;
    cbn [holds_slot to_classify to_record length]; lia.
Qed.

(** A run of [matchtest] that returns has counted every request once, as a
    success with a latency or as a failure, and has freed its slots; during the
    run no more pairs are open than there are slots. *)
Theorem matchtest_counts slots workers acts s :
  run_all (match_exec slots) acts (match_start workers) = Some s →
  (mt_slots s ≤ slots)%nat ∧
  (match_returned s = true →
     TotalOrders (mt_stats s) = SuccessOrders (mt_stats s) + FailedOrders (mt_stats s) ∧
     SuccessOrders (mt_stats s) = Z.of_nat (length (Latencies (mt_stats s))) ∧ mt_slots s = 0%nat).
Proof.
  intros Hrun. assert (match_inv slots s) as (Hs & Hle & Ht & Hr).
  { eapply (run_all_inv (match_exec slots) (match_inv slots)); [apply match_exec_inv| |exact Hrun].
    unfold match_inv. cbn [match_start mt_slots mt_workers mt_stats TotalOrders SuccessOrders FailedOrders Latencies].
    rewrite !tally_replicate by done. cbn. split_and!; lia. }
  split; [done|]. intros Hret. unfold match_returned in Hret.
  assert (Hz : ∀ f, f MtExited = 0%nat → sum_list_with f (mt_workers s) = 0%nat)
    by (intros f Hf; eapply tally_zero; [|exact Hret]; by intros []).
  rewrite (Hz holds_slot) in Hs by done. rewrite (Hz to_classify) in Ht by done.
  rewrite (Hz to_record) in Hr by done. lia.
Qed.

(** After any steps of a phase of [stresstest], every request its workers
    counted is in exactly one class and has its latency recorded. *)
Theorem phase_counts workers acts s :
  run_all phase_exec acts (phase_start workers) = Some s →
  counted (ph_counters s) = pc_total (ph_counters s) ∧
  Z.of_nat (length (pc_lats (ph_counters s))) = pc_total (ph_counters s).
Proof.
  apply (run_all_inv phase_exec (λ s, counted (ph_counters s) = pc_total (ph_counters s) ∧
    Z.of_nat (length (pc_lats (ph_counters s))) = pc_total (ph_counters s))); [|done].
  intros a s1 s2 [Hc Hl]. unfold phase_exec. destruct a as [i i' side q|i r|].
  - destruct (ph_workers s1 !! i) as [[]|]; try done. by intros [= <-].
  - destruct (ph_workers s1 !! i) as [[]|]; try done. intros [= <-]. by apply flood_count_balanced.
  - by intros [= <-].
Qed.

(** The results a WebSocket run collects: none is made up, none counted as both
    normal and slow. *)
Lemma partition_add_total p r :
  pa_normalTotal (partition_add p r) + pa_slowTotal (partition_add p r) = pa_normalTotal p + pa_slowTotal p + 1.
Proof. unfold partition_add. destruct (cr_isSlow r); cbn [pa_normalTotal pa_slowTotal]; lia. Qed.

Lemma partition_foldl results p :
  pa_normalTotal (foldl partition_add p results) + pa_slowTotal (foldl partition_add p results) =
  pa_normalTotal p + pa_slowTotal p + Z.of_nat (length results).
Proof.
  revert p. induction results as [|r rs IH]; intros p; cbn [foldl length]; [lia|].
  rewrite IH, partition_add_total. lia.
Qed.

Theorem partition_counts results :
  pa_normalTotal (partition_of results) + pa_slowTotal (partition_of results) = Z.of_nat (length results).
Proof.
  unfold partition_of. rewrite (partition_foldl results). cbn. lia.
Qed.

Lemma collect_results_bound events numClients results :
  (length results ≤ numClients)%nat → (length (collect_results events numClients results) ≤ numClients)%nat.
Proof.
  revert results. induction events as [|[r|] events IH]; intros results Hle; cbn [collect_results];
    destruct (Nat.ltb_spec (length results) numClients); try done.
  apply IH. rewrite length_app. cbn [length]. lia.
Qed.

(** ** Runs computed *)
Module LoadRunsDemo.
Definition req : orderReq := mkOrderReq "BBCA" "BUY" (f64_of_Z 9500) 100.
Definition ok : result := mkResult 5 201 false.

(** A pair at one slot, then a refused order. *)
Definition acts : list match_action :=
  [MtStep 0; MtReply 0 7 false; MtStep 0; MtStep 0; MtStep 0; MtReply 0 9 true; MtStep 0; MtStep 0; MtStep 0;
   MtTimeout; MtCancel 0].
Example one_worker :
  (s ← run_all (match_exec 1) acts (match_start 1); Some (mt_stats s, match_returned s)) =
  Some (mkMatchStats 2 1 1 [7], true).
Proof. by vm_compute. Qed.

Example semaphore_full :
  (s ← run_all (fixed_exec 1) [FxTick; FxSend req; FxTick] fixed_start; fixed_exec 1 (FxSend req) s) = None.
Proof. by vm_compute. Qed.

Example default_rate : fixed_begin 1000 = Some fixed_start ∧ fixed_begin 0 = None.
Proof. by vm_compute. Qed.

(** The ramp of [matchtest] reports nothing, and panics, when its first phase
    is too slow. *)
Example ramp_without_best :
  match_main 1 (mkMatchStats 0 0 0 [], 0) [(mkMatchStats 100 100 0 [], 15 * Second, true)] None = None.
Proof. by vm_compute. Qed.
End LoadRunsDemo.
