(* ===== verification/LoadRequests.v ===== *)
(** * The requests of the load-test clients ([cmd/loadtest], [cmd/matchtest],
    [cmd/wsloadtest])

    What one HTTP exchange becomes in the clients whose runs [LoadRuns.v]
    models.  [http.Client.Do] and [encoding/json] are parameters; a latency is
    the difference of two readings of the clock. *)
From S2P Require Import Prelude GoLib Clients LoadRuns.

Inductive request_error : Type :=
| RequestError (msg : string)      (* [client.Do] *)
| StatusError (status : Z)
| ParseError (msg : string)
| RegisterFailed.

(** The bodies the clients decode; a missing field is its zero value. *)
Record registerResp : Type := mkRegisterResp { rr_Success : bool; rr_Token : string }.
Record OrderResponse : Type := mkOrderResponse { os_Success : bool; os_ID : string; os_Status : string }.
Record ct_trade : Type := mkCtTrade { ctr_ID : string; ctr_StockCode : string; ctr_Price : Z; ctr_Quantity : Z }.
Record PaginatedTradesResponse : Type := mkPaginated { pt_Data : list ct_trade; pt_Total : Z }.

Section Requests.
Context {Srv Text : Type}.
(** [Do method path headers body] with the body of the reply read. *)
Variable Do : string → string → list (string * string) → option Text → Srv → Srv * (string + Z * Text).
Variable now : Srv → Z.
Variable encode_register : string → string → Text.
Variable encode_order : orderReq → Text.
Variable encode_match : match_request → Text.
Variable decode_register : Text → string + registerResp.
Variable decode_order : Text → string + OrderResponse.
Variable decode_trades : Text → string + list ct_trade.
Variable decode_paginated : Text → string + PaginatedTradesResponse.

Local Abbreviation R := (M Srv).

Definition exchange (method path : string) (headers : list (string * string)) (body : option Text)
    : R (string + Z * Text) := λ s, let '(s', res) := Do method path headers body s in Ret res s'.
Definition clock : R Z := λ s, Ret (now s) s.
Definition json_header : string * string := ("Content-Type", "application/json")%string.

(** ** [loadtest] *)
Definition registerUser (username password : string) : R (request_error + string) :=
  res ← exchange "POST" "/api/v1/auth/register" [json_header] (Some (encode_register username password));
  mret (match res with
        | inl e => inl (RequestError e)
        | inr (_, raw) =>
            match decode_register raw with
            | inl e => inl (ParseError e)
            | inr r => if negb (rr_Success r) || (rr_Token r =? EmptyString)%string then inl RegisterFailed
                       else inr (rr_Token r)
            end
        end).

Definition load_placeOrder (token : string) (req : orderReq) : R result :=
  start ← clock;
  res ← exchange "POST" "/api/v1/orders" [json_header; ("Authorization", "Bearer " ++ token)%string]
          (Some (encode_order req));
  stop ← clock;
  mret (match res with
        | inl _ => mkResult (stop - start) 0 true
        | inr (status, _) => mkResult (stop - start) status false
        end).

(** ** [matchtest] *)
Definition submitOrder (req : match_request) : R (string * Z * option request_error) :=
  start ← clock;
  res ← exchange "POST" "/api/v1/orders" [json_header] (Some (encode_match req));
  stop ← clock;
  let latency := stop - start in
  mret (match res with
        | inl e => (EmptyString, latency, Some (RequestError e))
        | inr (status, raw) =>
            if negb (status =? 200) && negb (status =? 201) then (EmptyString, latency, Some (StatusError status))
            else match decode_order raw with
                 | inl e => (EmptyString, latency, Some (ParseError e))
                 | inr r => (os_ID r, latency, None)
                 end
        end).

Definition getTrades (stockCode : string) : R (request_error + list ct_trade) :=
  res ← exchange "GET" ("/api/v1/market/trades/" ++ stockCode) [] None;
  mret (match res with
        | inl e => inl (RequestError e)
        | inr (_, raw) => match decode_trades raw with inl e => inl (ParseError e) | inr ts => inr ts end
        end).

Fixpoint per_stock (codes : list string) (allTrades : list ct_trade) : R (request_error + list ct_trade * Z) :=
  match codes with
  | [] => mret (inr (allTrades, Z.of_nat (length allTrades)))
  | stock :: codes =>
      r ← getTrades stock;
      match r with
      | inl e => mret (inl e)
      | inr trades => per_stock codes (allTrades ++ trades)
      end
  end.

(** The paginated list and its total, or the lists of the five stocks when it
    cannot be decoded. *)
Definition getAllTrades : R (request_error + list ct_trade * Z) :=
  res ← exchange "GET" "/api/v1/trades?per_page=100" [] None;
  match res with
  | inl e => mret (inl (RequestError e))
  | inr (_, raw) =>
      match decode_paginated raw with
      | inl _ => per_stock stocks []
      | inr p => mret (inr (pt_Data p, pt_Total p))
      end
  end.

(** ** [wsloadtest]: the status of one order, or [None] for an error. *)
Definition ws_placeOrder (stock side : string) (price qty : Z) : R (option Z) :=
  res ← exchange "POST" "/api/v1/orders" [json_header]
          (Some (encode_match (mkMatchRequest stock side price qty "LIMIT")));
  mret (match res with inl _ => None | inr (status, _) => Some status end).

(** One goroutine of [runOrderSubmitter]: the SELL only follows an accepted
    BUY.  The statuses and the time of the SELL are what [submit_pair] counts
    when the goroutine ends. *)
Definition run_pair (stock : string) : R (option Z * option Z * Z) :=
  buy ← ws_placeOrder stock "BUY" (pair_price stock) 100;
  if refused buy then mret (buy, None, 0)
  else
    sellAt ← clock;
    sell ← ws_placeOrder stock "SELL" (pair_price stock) 100;
    mret (buy, sell, sellAt).

(** ** What the clients can rely on *)

(** No request panics, whatever is answered. *)
Lemma exchange_returns method path headers body s : ∃ res s', exchange method path headers body s = Ret res s'.
Proof. unfold exchange. destruct (Do _ _ _ _ _) as [s' res]. by exists res, s'. Qed.

Lemma getTrades_returns code s : ∃ r s', getTrades code s = Ret r s'.
Proof.
  unfold getTrades. destruct (exchange_returns "GET" ("/api/v1/market/trades/" ++ code) [] None s) as (res & s' & He).
  rewrite (bind_Ret _ _ _ _ _ He). by eexists _, s'.
Qed.

(** [matchtest] takes an order as accepted exactly when the server answers 200
    or 201 with a body that decodes; the ID it returns is then the server's. *)
Theorem submitOrder_accepts req s :
  ∃ id latency err s', submitOrder req s = Ret (id, latency, err) s' ∧
    (err = None ↔
       ∃ status raw r, (Do "POST" "/api/v1/orders" [json_header] (Some (encode_match req)) s).2 = inr (status, raw) ∧
         (status = 200 ∨ status = 201) ∧ decode_order raw = inr r ∧ id = os_ID r).
Proof.
  unfold submitOrder, clock, exchange, mbind, M_bind. simpl.
  destruct (Do _ _ _ _ s) as [s' [e|[status raw]]]; simpl.
  - eexists _, _, _, _. split; [done|]. split; [done|]. intros (? & ? & ? & ? & _). done.
  - destruct (Z.eqb_spec status 200) as [->|H2]; [|destruct (Z.eqb_spec status 201) as [->|H1]]; simpl.
    3: { eexists _, _, _, _. split; [done|]. split; [done|]. intros (? & ? & ? & [= <- <-] & [?|?] & _); lia. }
    all: destruct (decode_order raw) as [e|r] eqn:Hd; eexists _, _, _, _; (split; [done|]); split; [done| |eauto 10|done].
    all: intros (? & ? & ? & [= <- <-] & _ & ? & _); congruence.
Qed.

(** The fallback reads the stocks in order and counts what it returns. *)
Theorem per_stock_total codes acc s r s' :
  per_stock codes acc s = Ret r s' →
  match r with
  | inr (trades, total) => total = Z.of_nat (length trades) ∧ ∃ more, trades = acc ++ more
  | inl _ => True
  end.
Proof.
  revert acc s. induction codes as [|c codes IH]; intros acc s; simpl.
  - intros [= <- <-]. split; [done|]. exists []. by rewrite app_nil_r.
  - destruct (getTrades_returns c s) as (g & s1 & Hg). rewrite (bind_Ret _ _ _ _ _ Hg). destruct g as [e|ts].
    + by intros [= <- <-].
    + intros H. apply IH in H. destruct r as [e|[trades total]]; [done|]. destruct H as [-> [more ->]].
      split; [done|]. exists (ts ++ more). by rewrite app_assoc.
Qed.
End Requests.
