(* ===== verification/ComplianceSockets.v ===== *)
(** * The compliance client's sockets ([cmd/compliancetest/main.go])

    The WebSocket and scale checks, and the whole run of [main], continuing
    [Compliance.v].  Dialling, writing, reading and closing a socket are
    parameters; the goroutines of a check take their turns in the order a
    schedule gives. *)
From stdpp Require Import pretty.
From Stdlib Require Import SpecFloat.
From S2P Require Import Prelude GoLib Float64 Json Clients Compliance.

Record serverMsg : Type := mkServerMsg { sm_Type : string; sm_Channel : string; sm_Stock : string }.

Definition is_event (type : string) (m : serverMsg) : bool := (sm_Type m =? type)%string.
Definition is_ack (channel : string) (m : serverMsg) : bool :=
  is_event "subscribed" m && (sm_Channel m =? channel)%string.

(** A goroutine inside [readUntil]: it has not looked at the clock, it reads up
    to its deadline, it has returned. *)
Inductive reader : Type :=
| Waiting (timeout : Z)
| Reading (deadline : Z)
| Got (msg : option serverMsg).

(** The goroutines of the scale check and what happens around them: [main]
    starts the next one, one of them moves, time passes. *)
Inductive conn_pc {Conn : Type} : Type := ScDial | ScHeld (c : Conn) | ScDone.
Arguments conn_pc : clear implicits.
Inductive scale_step : Type := Spawn | Turn (i : nat) | Elapse (d : Z).
Inductive burst_step : Type := Post | Pause (d : Z).

Definition WEBSOCKET : string := "WEBSOCKET".
Definition SCALE : string := "SCALE".
Definition secs (n : Z) : Z := n * 1000000000.

Record ct_config : Type := mkCtConfig { cc_baseURL : string; cc_wsClients : Z; cc_timeout : Z; cc_skipScale : bool }.

Section Sockets.
Context {Srv Text Conn : Type}.
Variable marshal : json → string + string.
Variable unmarshal : Text → option json.
Variable Do : string → string → list (string * string) → option string → Srv → Srv * (string + Z * Text).
Variable sleep : Z → Srv → Srv.
Variable UnixNano : Srv → Z.
(** [Dial timeout url X-Forwarded-For]; [Read]'s error is [None]; the error of
    [Write] is never looked at. *)
Variable Dial : Z → string → string → Srv → Srv * option Conn.
Variable Write : Z → Conn → list (string * string) → Srv → Srv.
Variable Read : Z → Conn → Srv → Srv * option serverMsg.
Variable Close : Conn → Srv → Srv.
(** Bounds the messages one [readUntil] looks at. *)
Variable fuel : nat.

Local Abbreviation R := (M (@runner Srv)).

Definition on_srv {A} (f : Srv → Srv * A) : R A := λ r,
  let '(srv, a) := f (rn_srv r) in Ret a (mkRunner srv (rn_results r) (rn_buyerToken r) (rn_sellerToken r)).
Definition on_srv_ (f : Srv → Srv) : R () := on_srv (λ s, (f s, ())).

(** ** WebSocket helpers *)
Definition dialWS (timeout : Z) (wurl ip : string) : R (option Conn) := on_srv (Dial timeout wurl ip).
Definition subscribeWS (timeout : Z) (conn : Conn) (channel stock : string) : R () :=
  on_srv_ (Write timeout conn [("action", "subscribe"); ("channel", channel); ("stock", stock)]%string).
Definition close (conn : Conn) : R () := on_srv_ (Close conn).

Definition read_turn (conn : Conn) (pred : serverMsg → bool) (rd : reader) : R reader :=
  match rd with
  | Waiting timeout => now ← Now UnixNano; mret (Reading (now + timeout))
  | Reading deadline =>
      now ← Now UnixNano;
      if deadline - now <=? 0 then mret (Got None)
      else
        m ← on_srv (Read (deadline - now) conn);
        mret (match m with
              | None => Got None
              | Some m => if pred m then Got (Some m) else rd
              end)
  | Got _ => mret rd
  end.

Fixpoint read_loop (fuel : nat) (conn : Conn) (pred : serverMsg → bool) (rd : reader) : R (option serverMsg) :=
  match rd, fuel with
  | Got m, _ => mret m
  | _, O => out_of_fuel
  | _, S fuel => rd ← read_turn conn pred rd; read_loop fuel conn pred rd
  end.
Definition readUntil (conn : Conn) (timeout : Z) (pred : serverMsg → bool) : R (option serverMsg) :=
  read_loop fuel conn pred (Waiting timeout).

(** Two goroutines reading: [true] is a turn of the second. *)
Fixpoint read_both (turns : list bool) (conn1 conn2 : Conn) (pred : serverMsg → bool) (rd1 rd2 : reader)
    : R (option serverMsg * option serverMsg) :=
  match turns with
  | false :: turns => rd1 ← read_turn conn1 pred rd1; read_both turns conn1 conn2 pred rd1 rd2
  | true :: turns => rd2 ← read_turn conn2 pred rd2; read_both turns conn1 conn2 pred rd1 rd2
  | [] => m1 ← read_loop fuel conn1 pred rd1; m2 ← read_loop fuel conn2 pred rd2; mret (m1, m2)
  end.

(** ** WebSocket checks *)
Definition verdict (ok : bool) (pass fail : string → string → checkResult) (section name : string) : R () :=
  add ((if ok then pass else fail) section name).
Definition found {A} (m : option A) : bool := match m with Some _ => true | None => false end.

Definition place_pair : R () :=
  buyer ← buyerToken;
  seller ← sellerToken;
  placeOrder marshal unmarshal Do buyer "BBCA" "BUY" 9500 100;;
  placeOrder marshal unmarshal Do seller "BBCA" "SELL" 9500 100;;
  mret ().

Definition ack_check (conn : Conn) (channel : string) (pass fail : string → string → checkResult) (name : string) : R () :=
  subscribeWS (secs 5) conn channel "BBCA";;
  m ← readUntil conn (secs 5) (is_ack channel);
  verdict (found m) pass fail WEBSOCKET name.

Definition event_check (conn : Conn) (timeout : Z) (type name : string) : R () :=
  m ← readUntil conn timeout (is_event type);
  verdict (found m) pass fail WEBSOCKET name.

Definition broadcast_check (timeout : Z) (wurl : string) (turns : list bool) : R () :=
  let name := "Broadcast: 2 clients both receive same trade event"%string in
  c1 ← dialWS timeout wurl "10.98.0.1";
  match c1 with
  | None => add (fail WEBSOCKET name)
  | Some conn1 =>
      c2 ← dialWS timeout wurl "10.98.0.2";
      match c2 with
      | None => close conn1;; add (fail WEBSOCKET name)
      | Some conn2 =>
          subscribeWS (secs 5) conn1 "market.trade" "BBCA";;
          subscribeWS (secs 5) conn2 "market.trade" "BBCA";;
          Sleep sleep (500 * Millisecond);;
          place_pair;;
          '(m1, m2) ← read_both turns conn1 conn2 (is_event "market.trade") (Waiting (secs 8)) (Waiting (secs 8));
          verdict (found m1 && found m2) pass fail WEBSOCKET name;;
          close conn1;;
          close conn2
      end
  end.

(** The goroutine of the slow client only waits. *)
Definition slow_client_check (timeout : Z) (wurl : string) : R () :=
  let name := "Non-blocking broadcast: slow client doesn't starve fast client"%string in
  c1 ← dialWS timeout wurl "10.97.0.1";
  match c1 with
  | None => add (fail WEBSOCKET name)
  | Some slowConn =>
      c2 ← dialWS timeout wurl "10.97.0.2";
      match c2 with
      | None => close slowConn;; add (fail WEBSOCKET name)
      | Some fastConn =>
          subscribeWS (secs 5) slowConn "market.trade" "BBCA";;
          subscribeWS (secs 5) fastConn "market.trade" "BBCA";;
          Sleep sleep (300 * Millisecond);;
          place_pair;;
          m ← readUntil fastConn (secs 8) (is_event "market.trade");
          close slowConn;;
          close fastConn;;
          verdict (found m) pass fail WEBSOCKET name
      end
  end.

Definition skipped_checks : list checkResult :=
  (λ i : nat, fail WEBSOCKET ("WS check " ++ pretty i ++ " (skipped — no connection)")) <$> seq 2 7.

(** Checks 2 to 8, on the connection of the first. *)
Definition connected_checks (timeout : Z) (wurl : string) (turns : list bool) (conn : Conn) : R () :=
  ack_check conn "market.ticker" pass fail "Subscribe market.ticker → ack received";;
  ack_check conn "market.trade" pass fail "Subscribe market.trade → ack received";;
  ack_check conn "market.orderbook" bonusPass bonusFail "[bonus] Subscribe market.orderbook → ack received";;
  place_pair;;
  event_check conn (secs 8) "market.trade" "Receive market.trade event after BUY+SELL match";;
  event_check conn (secs 10) "market.ticker" "Receive market.ticker event (simulator or trade-triggered)";;
  close conn;;
  broadcast_check timeout wurl turns;;
  slow_client_check timeout wurl.

Definition runWebSocket (cfg : ct_config) (turns : list bool) : R () :=
  let wurl := makeWSURL (cc_baseURL cfg) in
  conn ← dialWS (cc_timeout cfg) wurl "10.99.0.1";
  match conn with
  | None => add (fail WEBSOCKET "Connect to /ws");; add_all skipped_checks
  | Some conn => add (pass WEBSOCKET "Connect to /ws");; connected_checks (cc_timeout cfg) wurl turns conn
  end.

(** ** Scale checks *)
Definition scale_turn (wurl : string) (i : nat) (pcs : list (conn_pc Conn)) (connected : Z)
    : R (list (conn_pc Conn) * Z) :=
  match pcs !! i with
  | Some ScDial =>
      c ← dialWS (secs 10) wurl (fakeIP (Z.of_nat i));
      mret (match c with
            | None => (<[i := ScDone]> pcs, connected)
            | Some conn => (<[i := ScHeld conn]> pcs, connected + 1)
            end)
  | Some (ScHeld conn) => close conn;; mret (<[i := ScDone]> pcs, connected)
  | _ => mret (pcs, connected)
  end.

Definition scale_ramp (n : Z) : Z := if 1 <? n then Z.quot (secs 3) n else 0.

Fixpoint scale_run (steps : list scale_step) (wurl : string) (n : Z) (pcs : list (conn_pc Conn)) (connected : Z)
    : R Z :=
  match steps with
  | [] => mret connected
  | Spawn :: steps =>
      if (length pcs <? Z.to_nat n)%nat then
        (if 0 <? scale_ramp n then Sleep sleep (scale_ramp n) else mret ());;
        scale_run steps wurl n (pcs ++ [ScDial]) connected
      else scale_run steps wurl n pcs connected
  | Turn i :: steps => '(pcs, connected) ← scale_turn wurl i pcs connected; scale_run steps wurl n pcs connected
  | Elapse d :: steps => Sleep sleep d;; scale_run steps wurl n pcs connected
  end.

(** What a schedule leaves over is done in order, up to [wg.Wait]. *)
Definition all_steps (steps : list scale_step) (n : Z) : list scale_step :=
  let turns := Turn <$> seq 0 (Z.to_nat n) in
  steps ++ replicate (Z.to_nat n) Spawn ++ turns ++ turns.

(** One order of the burst; [submitted] counts the replies of status 2xx.  The
    workers keep nothing between two orders, so a step does not name one. *)
Definition burst_post (token : string) (submitted : Z) : R Z :=
  let body := match marshal (JObj [("stock_code", JStr "BBCA"); ("side", JStr "BUY"); ("type", JStr "LIMIT");
                                   ("price", num 9500); ("quantity", num 100)]%string) with
              | inr t => t
              | inl _ => EmptyString
              end in
  res ← send Do "POST" "/api/v1/orders" [("Content-Type", "application/json"); ("Authorization", "Bearer " ++ token)]%string
          (Some body);
  mret (match res with
        | inr (status, _) => if (200 <=? status) && (status <? 300) then submitted + 1 else submitted
        | inl _ => submitted
        end).

Fixpoint burst_run (steps : list burst_step) (token : string) (submitted : Z) : R Z :=
  match steps with
  | [] => mret submitted
  | Post :: steps => submitted ← burst_post token submitted; burst_run steps token submitted
  | Pause d :: steps => Sleep sleep d;; burst_run steps token submitted
  end.

Definition connRate (connected n : Z) : f64 := f64_mul (f64_div (f64_of_Z connected) (f64_of_Z n)) (f64_of_Z 100).
Definition burst_rpm (submitted : Z) : f64 := f64_mul (f64_div (f64_of_Z submitted) (f64_of_Z 15)) (f64_of_Z 60).

Definition runScale (cfg : ct_config) (steps : list scale_step) (burst : list burst_step) : R () :=
  let wurl := makeWSURL (cc_baseURL cfg) in
  let n := cc_wsClients cfg in
  connected ← scale_run (all_steps steps n) wurl n [] 0;
  verdict (f64_ge (connRate connected n) (f64_of_Z 95)) pass fail SCALE
    (pretty n ++ " concurrent WS connections (≥95% success)");;
  ts ← Now UnixNano;
  thr ← register marshal unmarshal Do ("thr_user_" ++ pretty ts) "password123";
  buyer ← buyerToken;
  submitted ← burst_run burst (match thr with inr t => t | inl _ => buyer end) 0;
  verdict (f64_ge (burst_rpm submitted) (f64_of_Z 1000)) bonusPass bonusFail SCALE
    "[bonus] Throughput ≥1000 orders/min (15s burst)".

(** ** [main] *)
Variable schedule : list nat.

Definition ct_main (cfg : ct_config) (turns : list bool) (steps : list scale_step) (burst : list burst_step) : R scorecard :=
  let cfg := mkCtConfig (trim_slashes (cc_baseURL cfg)) (cc_wsClients cfg) (cc_timeout cfg) (cc_skipScale cfg) in
  runSetup marshal unmarshal Do UnixNano;;
  ok ← setup_passed;
  (if ok : bool then
     runREST marshal unmarshal Do;;
     runMatching marshal unmarshal Do sleep UnixNano schedule;;
     runWebSocket cfg turns;;
     if cc_skipScale cfg then mret () else runScale cfg steps burst
   else mret ());;
  r ← get;
  mret (printScorecard (rn_results r)).

(** ** What is recorded, whatever the server answers *)

(** [m] never panics and adds checks that satisfy [P], of which those flagged
    in [bs] are bonus checks. *)
Definition records (P : checkResult → Prop) (bs : list bool) {A} (m : R A) : Prop := ∀ r,
  match m r with
  | Ret _ r' => ∃ cs, rn_results r' = rn_results r ++ cs ∧ ck_bonus <$> cs = bs ∧ Forall P cs
  | Panic _ _ => False
  | NoFuel => True
  end.

Section Records.
Context (P : checkResult → Prop).

Lemma records_bind bs1 bs2 bs {A B} (m : R A) (f : A → R B) :
  records P bs1 m → (∀ a, records P bs2 (f a)) → bs = bs1 ++ bs2 → records P bs (m ≫= f).
Proof.
  intros Hm Hf -> r. unfold mbind, M_bind. specialize (Hm r). destruct (m r) as [a r1| |]; [|done..].
  destruct Hm as (cs1 & H1 & Hb1 & HP1). specialize (Hf a r1). destruct (f a r1) as [b r2| |]; [|done..].
  destruct Hf as (cs2 & H2 & Hb2 & HP2). exists (cs1 ++ cs2). split_and!; [|by rewrite fmap_app, Hb1, Hb2|].
  - by rewrite H2, H1, app_assoc.
  - by apply Forall_app.
Qed.

(** A step that records nothing before, and one after. *)
Lemma records_skip bs {A B} (m : R A) (f : A → R B) :
  records P [] m → (∀ a, records P bs (f a)) → records P bs (m ≫= f).
Proof. intros Hm Hf. by eapply records_bind. Qed.

Lemma records_ret {A} (a : A) : records P [] (mret a).
Proof. intros r. exists []. rewrite app_nil_r. split_and!; [done..|by apply Forall_nil]. Qed.

Lemma records_on_srv {A} (f : Srv → Srv * A) : records P [] (on_srv f).
Proof.
  intros r. unfold on_srv. destruct (f (rn_srv r)) as [s a]. exists []. simpl.
  rewrite app_nil_r. split_and!; [done..|by apply Forall_nil].
Qed.

Lemma records_keeps {A} (m : R A) :
  (∀ r, match m r with Ret _ r' => rn_results r' = rn_results r | Panic _ _ => False | NoFuel => True end) →
  records P [] m.
Proof.
  intros H r. specialize (H r). destruct (m r); [|done..]. exists []. rewrite app_nil_r.
  split_and!; [done..|by apply Forall_nil].
Qed.

Lemma records_add c : P c → records P [ck_bonus c] (add c).
Proof. intros Hc r. exists [c]. split_and!; [done..|by apply Forall_singleton]. Qed.

Lemma records_Now : records P [] (Now UnixNano).
Proof. by apply records_keeps. Qed.
Lemma records_Sleep d : records P [] (Sleep sleep d).
Proof. by apply records_keeps. Qed.
Lemma records_tokens : records P [] buyerToken ∧ records P [] sellerToken.
Proof. split; by apply records_keeps. Qed.
Lemma records_send method path headers body : records P [] (send Do method path headers body).
Proof. apply records_keeps. intros r. unfold send. by destruct (Do _ _ _ _ _) as [srv res]. Qed.

(** Steps that record nothing, put together. *)
Ltac no_records :=
  repeat first
    [ apply records_ret | apply records_on_srv | apply records_Now | apply records_Sleep
    | apply (proj1 records_tokens) | apply (proj2 records_tokens) | apply records_send
    | assumption | progress intros
    | match goal with
      | |- records _ _ (mbind _ _) => apply records_skip
      | |- records _ _ (match ?x with _ => _ end) => destruct x
      | |- records _ _ (let '(_, _) := ?x in _) => destruct x
      end ].

Lemma records_doJSON method path token body : records P [] (doJSON marshal unmarshal Do method path token body).
Proof. unfold doJSON. no_records. Qed.

Lemma records_placeOrder token stock side price qty :
  records P [] (placeOrder marshal unmarshal Do token stock side price qty).
Proof. unfold placeOrder. apply records_skip; [apply records_doJSON|]. no_records. Qed.

Lemma records_register username password : records P [] (register marshal unmarshal Do username password).
Proof. unfold register. apply records_skip; [apply records_doJSON|]. no_records. Qed.

Lemma records_place_pair : records P [] place_pair.
Proof. unfold place_pair. pose proof records_placeOrder. no_records; auto. Qed.

Lemma records_read_turn conn pred rd : records P [] (read_turn conn pred rd).
Proof. unfold read_turn. no_records. Qed.

Lemma records_read_loop n conn pred rd : records P [] (read_loop n conn pred rd).
Proof.
  revert rd. induction n as [|n IH]; intros [t|dl|m]; simpl; try (by no_records); try (by intros r);
    (apply records_skip; [apply records_read_turn|intros; apply IH]).
Qed.

Lemma records_readUntil conn timeout pred : records P [] (readUntil conn timeout pred).
Proof. apply records_read_loop. Qed.

Lemma records_read_both turns conn1 conn2 pred rd1 rd2 : records P [] (read_both turns conn1 conn2 pred rd1 rd2).
Proof.
  revert rd1 rd2. induction turns as [|[] turns IH]; intros rd1 rd2; simpl.
  - apply records_skip; [apply records_read_loop|intros m1].
    apply records_skip; [apply records_read_loop|no_records].
  - apply records_skip; [apply records_read_turn|intros; apply IH].
  - apply records_skip; [apply records_read_turn|intros; apply IH].
Qed.

Lemma records_scale_turn wurl i pcs k : records P [] (scale_turn wurl i pcs k).
Proof. unfold scale_turn, dialWS, close, on_srv_. no_records. Qed.

Lemma records_scale_run steps wurl n pcs k : records P [] (scale_run steps wurl n pcs k).
Proof.
  revert pcs k. induction steps as [|[|i|d] steps IH]; intros pcs k; simpl; [no_records| | |].
  - destruct (_ <? _)%nat; [|apply IH]. apply records_skip; [no_records|intros; apply IH].
  - apply records_skip; [apply records_scale_turn|intros []; apply IH].
  - apply records_skip; [apply records_Sleep|intros; apply IH].
Qed.

Lemma records_burst_run steps token k : records P [] (burst_run steps token k).
Proof.
  revert k. induction steps as [|[|d] steps IH]; intros k; simpl; [no_records| |].
  - apply records_skip; [unfold burst_post; no_records|intros; apply IH].
  - apply records_skip; [apply records_Sleep|intros; apply IH].
Qed.
End Records.

(** The checks: each is recorded once, in its section. *)
Definition within (section : string) (c : checkResult) : Prop := ck_section c = section.

Lemma records_verdict ok section name : records (within section) [false] (verdict ok pass fail section name).
Proof. destruct ok; by apply records_add. Qed.
Lemma records_bonus_verdict ok section name : records (within section) [true] (verdict ok bonusPass bonusFail section name).
Proof. destruct ok; by apply records_add. Qed.
Lemma records_fail section name : records (within section) [false] (add (fail section name)).
Proof. by apply records_add. Qed.

Lemma records_close P conn : records P [] (close conn).
Proof. apply records_on_srv. Qed.
Lemma records_subscribe P t conn channel stock : records P [] (subscribeWS t conn channel stock).
Proof. apply records_on_srv. Qed.
Lemma records_dial P t wurl ip : records P [] (dialWS t wurl ip).
Proof. apply records_on_srv. Qed.

Lemma records_then P b bs {A B} (m : R A) (f : A → R B) :
  records P [b] m → (∀ a, records P bs (f a)) → records P (b :: bs) (m ≫= f).
Proof. intros Hm Hf. by eapply records_bind. Qed.

Lemma records_last P bs {A} (m : R A) {B} (f : A → R B) :
  records P bs m → (∀ a, records P [] (f a)) → records P bs (m ≫= f).
Proof. intros Hm Hf. eapply records_bind; [done|done|]. by rewrite app_nil_r. Qed.

Ltac quiet :=
  repeat first
    [ apply records_skip; [first [apply records_subscribe | apply records_dial | apply records_close
        | apply records_Sleep | apply records_place_pair | apply records_readUntil | apply records_read_both]|intros] ].

Lemma records_ack_check conn channel name :
  records (within WEBSOCKET) [false] (ack_check conn channel pass fail name) ∧
  records (within WEBSOCKET) [true] (ack_check conn channel bonusPass bonusFail name).
Proof. split; unfold ack_check; quiet; [apply records_verdict|apply records_bonus_verdict]. Qed.

Lemma records_event_check conn t type name : records (within WEBSOCKET) [false] (event_check conn t type name).
Proof. unfold event_check. quiet. apply records_verdict. Qed.

Lemma records_broadcast t wurl turns : records (within WEBSOCKET) [false] (broadcast_check t wurl turns).
Proof.
  unfold broadcast_check. quiet. case_match; [|apply records_fail]. quiet. case_match; [|quiet; apply records_fail].
  quiet. case_match. eapply records_bind; [apply records_verdict| |done]. intros []. quiet. apply records_close.
Qed.

Lemma records_slow_client t wurl : records (within WEBSOCKET) [false] (slow_client_check t wurl).
Proof.
  unfold slow_client_check. quiet. case_match; [|apply records_fail]. quiet. case_match; [|quiet; apply records_fail].
  quiet. apply records_verdict.
Qed.

Lemma records_connected t wurl turns conn :
  records (within WEBSOCKET) [false; false; true; false; false; false; false] (connected_checks t wurl turns conn).
Proof.
  unfold connected_checks.
  apply records_then; [apply records_ack_check|intros _].
  apply records_then; [apply records_ack_check|intros _].
  apply records_then; [apply records_ack_check|intros _]. quiet.
  apply records_then; [apply records_event_check|intros _].
  apply records_then; [apply records_event_check|intros _]. quiet.
  apply records_then; [apply records_broadcast|intros _; apply records_slow_client].
Qed.

Lemma records_first t wurl turns conn :
  records (within WEBSOCKET) [false; false; false; true; false; false; false; false]
    (add (pass WEBSOCKET "Connect to /ws");; connected_checks t wurl turns conn).
Proof. apply records_then; [by apply records_add|intros _; apply records_connected]. Qed.

Lemma bonus_flags cs :
  length (filter (λ b, b = true) (ck_bonus <$> cs)) = length (filter (λ c, ck_bonus c = true) cs).
Proof.
  induction cs as [|c cs IH]; [done|]. rewrite fmap_cons, !filter_cons. destruct (ck_bonus c); simpl; by rewrite IH.
Qed.

Lemma records_add_all P cs : Forall P cs → records P (ck_bonus <$> cs) (add_all cs).
Proof.
  induction 1 as [|c cs Hc _ IH]; simpl; [apply records_ret|].
  eapply records_bind; [by apply records_add|intros _; exact IH|done].
Qed.

Lemma records_skipped :
  records (λ c, within WEBSOCKET c ∧ ck_pass c = false ∧ ck_bonus c = false) (replicate 8 false)
    (add (fail WEBSOCKET "Connect to /ws");; add_all skipped_checks).
Proof.
  apply (records_then _ false (replicate 7 false)); [by apply records_add|intros _].
  by apply (records_add_all _ skipped_checks); repeat constructor.
Qed.

(** Whatever the server and the network do, the WebSocket checks record exactly
    eight results.  Seven of them are required and one is a bonus; without the
    first connection all eight are required, and failed. *)
Theorem websocket_checks cfg turns r :
  match runWebSocket cfg turns r with
  | Ret _ r' => ∃ cs, rn_results r' = rn_results r ++ cs ∧ length cs = 8%nat ∧ Forall (within WEBSOCKET) cs ∧
      (length (filter (λ c, ck_bonus c = true) cs) = 1%nat ∨
       Forall (λ c, ck_pass c = false ∧ ck_bonus c = false) cs)
  | Panic _ _ => False
  | NoFuel => True
  end.
Proof.
  unfold runWebSocket, dialWS, mbind at 1, M_bind at 1, on_srv.
  destruct (Dial _ _ _ _) as [srv [conn|]]; set (r0 := mkRunner srv _ _ _).
  - pose proof (records_first (cc_timeout cfg) (makeWSURL (cc_baseURL cfg)) turns conn r0) as Hr.
    match type of Hr with match ?x with _ => _ end => destruct x as [a r'| |]; [|done..] end. destruct Hr as (cs & Hcs & Hb & Hin).
    exists cs. split_and!; [done|by rewrite <- (length_fmap ck_bonus), Hb|done|left].
    by apply (f_equal (λ bs, length (filter (λ b, b = true) bs))) in Hb; rewrite <- bonus_flags.
  - pose proof (records_skipped r0) as Hr.
    match type of Hr with match ?x with _ => _ end => destruct x as [a r'| |]; [|done..] end.
    destruct Hr as (cs & Hcs & Hb & Hin). exists cs. split_and!; [done|by rewrite <- (length_fmap ck_bonus), Hb| |right];
      (eapply Forall_impl; [exact Hin|by intros c (? & ? & ?)]).
Qed.
(** The scale checks record two results, the second a bonus. *)
Theorem scale_checks cfg steps burst : records (within SCALE) [false; true] (runScale cfg steps burst).
Proof.
  unfold runScale. apply records_skip; [apply records_scale_run|intros connected].
  apply records_then; [apply records_verdict|intros _].
  apply records_skip; [apply records_Now|intros ts]. apply records_skip; [apply records_register|intros thr].
  apply records_skip; [apply (proj1 (records_tokens _))|intros buyer].
  apply records_skip; [apply records_burst_run|intros submitted]. apply records_bonus_verdict.
Qed.
End Sockets.

(** ** A network that delivers the messages of a queue *)
Module SocketsDemo.
Definition Srv : Type := list serverMsg.
Definition Read (timeout : Z) (conn : ()) (s : Srv) : Srv * option serverMsg :=
  match s with [] => ([], None) | m :: s => (s, Some m) end.
Definition read (fuel : nat) (type : string) : M (@runner Srv) (option serverMsg) :=
  readUntil (λ _, 0) Read fuel () (secs 8) (is_event type).
Definition holding (s : Srv) (r : @runner Srv) : @runner Srv :=
  mkRunner s (rn_results r) (rn_buyerToken r) (rn_sellerToken r).

Lemma read_loop_queue n type s r :
  read_loop (λ _, 0) Read (S n) () (is_event type) (Reading (secs 8)) (holding s r) =
  match s with
  | [] => Ret None (holding [] r)
  | m :: s =>
      if is_event type m then Ret (Some m) (holding s r)
      else read_loop (λ _, 0) Read n () (is_event type) (Reading (secs 8)) (holding s r)
  end.
Proof.
  destruct s as [|m s]; [by destruct n|].
  cbn -[secs]. unfold mbind, M_bind, Now, on_srv. change (secs 8 - 0 <=? 0) with false. cbn -[secs].
  by destruct (is_event type m), n.
Qed.

(** Waiting for a type drops the messages of other types before it. *)
Lemma read_found type pre m post r n :
  Forall (λ m, is_event type m = false) pre → is_event type m = true → (length pre < n)%nat →
  read (S n) type (holding (pre ++ m :: post) r) = Ret (Some m) (holding post r).
Proof.
  intros Hpre Hm. revert n. cut (∀ n, (length pre < n)%nat →
    read_loop (λ _, 0) Read n () (is_event type) (Reading (secs 8)) (holding (pre ++ m :: post) r) =
    Ret (Some m) (holding post r)); [intros H n Hn; by apply H|].
  induction Hpre as [|x pre Hx _ IH]; intros [|n] Hn; simpl in Hn; try lia; rewrite read_loop_queue; cbn [app].
  - by rewrite Hm.
  - rewrite Hx. apply IH. lia.
Qed.

Lemma read_not_found type s r n :
  Forall (λ m, is_event type m = false) s → (length s < n)%nat →
  read (S n) type (holding s r) = Ret None (holding [] r).
Proof.
  intros Hs. revert n. cut (∀ n, (length s < n)%nat →
    read_loop (λ _, 0) Read n () (is_event type) (Reading (secs 8)) (holding s r) = Ret None (holding [] r));
    [intros H n Hn; by apply H|].
  induction Hs as [|x s Hx _ IH]; intros [|n] Hn; simpl in Hn; try lia; rewrite read_loop_queue; [done|].
  rewrite Hx. apply IH. lia.
Qed.

(** A ticker that arrives before the trade is dropped by the wait for the
    trade: the next wait needs another one. *)
Theorem ticker_before_trade_lost pre trade post r n :
  Forall (λ m, is_event "market.trade" m = false) pre → is_event "market.trade" trade = true →
  Forall (λ m, is_event "market.ticker" m = false) post →
  (length pre + length post < n)%nat →
  (m ← read (S n) "market.trade"; m' ← read (S n) "market.ticker"; mret (m, m')) (holding (pre ++ trade :: post) r) =
  Ret (Some trade, None) (holding [] r).
Proof.
  intros Hpre Htrade Hpost Hn. rewrite (bind_Ret _ _ _ _ _ (read_found _ _ _ _ r n Hpre Htrade ltac:(lia))).
  by rewrite (bind_Ret _ _ _ _ _ (read_not_found _ _ r n Hpost ltac:(lia))).
Qed.

Definition BBCA (type : string) : serverMsg := mkServerMsg type EmptyString "BBCA".

(** What a pair publishes reaches the client as a ticker and then a trade: the
    check that waits for the trade drops the ticker. *)
Example ticker_lost :
  (m ← read 9 "market.trade"; m' ← read 9 "market.ticker"; mret (found m, found m'))
    (newRunner [BBCA "market.orderbook"; BBCA "market.ticker"; BBCA "market.trade"; BBCA "market.orderbook"]) =
  Ret (true, false) (newRunner []).
Proof. by vm_compute. Qed.
End SocketsDemo.
