(* ===== verification/MarketRace.v ===== *)
(** * Concurrent ticker updates ([internal/infra/storage/memory/market_repo.go])

    [UpdateTickerFromTrade] loads and stores the ticker under the write lock;
    [UpdateTicker] looks its entry up under the read lock and stores after
    releasing it.  The goroutines that make these calls are threads, each
    step is what one does between two points where another can run. *)
From S2P Require Import Prelude GoLib Float64 Entity Repository MemoryRepo.

(** ** Threads and their steps *)
Inductive call : Type :=
| FromTrade (now : Time) (stockCode : string) (price qty : Z)
| Replace (ticker : Ticker.t).

Inductive pc : Type :=
| Ready (c : call)
| Loaded (now : Time) (stockCode : string) (price qty : Z) (current : Ticker.t)   (* holds the write lock *)
| Checked (ticker : Ticker.t)                                                    (* holds no lock *)
| Returned (err : option error).

Record mstate : Type := mkMS {
  ms_repo : MarketRepo.t;
  ms_lock : option nat;           (* the thread that holds the write lock *)
  ms_threads : list pc;
  ms_done : list (nat * call);    (* the calls in the order of their stores *)
}.

Definition store (code : string) (t : Ticker.t) (r : MarketRepo.t) : MarketRepo.t :=
  MarketRepo.mk (<[code := Some t]> (MarketRepo.tickers r)) (MarketRepo.books r).

Definition goto (i : nat) (p : pc) (lock : option nat) (s : mstate) : mstate :=
  mkMS (ms_repo s) lock (<[i := p]> (ms_threads s)) (ms_done s).
Definition commit (i : nat) (c : call) (code : string) (t : Ticker.t) (lock : option nat) (s : mstate) : mstate :=
  mkMS (store code t (ms_repo s)) lock (<[i := Returned None]> (ms_threads s)) (ms_done s ++ [(i, c)]).

(** The next step of thread [i]; [None]: it has none, or waits for the lock. *)
Definition mexec (i : nat) (s : mstate) : option mstate :=
  p ← ms_threads s !! i;
  match p with
  | Ready c =>
      match ms_lock s with
      | Some _ => None
      | None =>
          match c with
          | FromTrade now code price qty =>
              match MarketRepo.tickers (ms_repo s) !! code with
              | Some (Some current) => Some (goto i (Loaded now code price qty current) (Some i) s)
              | _ => Some (goto i (Returned (Some ErrNotFound)) None s)
              end
          | Replace t =>
              match MarketRepo.tickers (ms_repo s) !! Ticker.StockCode t with
              | None => Some (goto i (Returned (Some ErrNotFound)) None s)
              | Some _ => Some (goto i (Checked t) None s)
              end
          end
      end
  | Loaded now code price qty current =>
      Some (commit i (FromTrade now code price qty) code (Ticker.UpdateFromTrade now price qty current) None s)
  | Checked t => Some (commit i (Replace t) (Ticker.StockCode t) t (ms_lock s) s)
  | Returned _ => None
  end.

Fixpoint mrun (sched : list nat) (s : mstate) : option mstate :=
  match sched with
  | [] => Some s
  | i :: sched => s' ← mexec i s; mrun sched s'
  end.

Definition mstart (r : MarketRepo.t) (calls : list call) : mstate := mkMS r None (Ready <$> calls) [].

(** The step of [i] stores a ticker of a stock for which a trade is between
    its load and its store. *)
Definition clash (i : nat) (s : mstate) : bool :=
  match ms_threads s !! i with
  | Some (Checked t) =>
      existsb (λ p, match p with
                    | Loaded _ code _ _ _ => (code =? Ticker.StockCode t)%string
                    | _ => false
                    end) (ms_threads s)
  | _ => false
  end.

Fixpoint race_free (sched : list nat) (s : mstate) : bool :=
  match sched with
  | [] => true
  | i :: sched => negb (clash i s) && match mexec i s with Some s' => race_free sched s' | None => true end
  end.

(** The calls one after the other. *)
Definition apply_call (r : MarketRepo.t) (c : call) : MarketRepo.t :=
  match c with
  | FromTrade now code price qty => (MarketRepo.UpdateTickerFromTrade now code price qty r).1
  | Replace t => (MarketRepo.UpdateTicker t r).1
  end.

(** ** The invariant *)
Lemma elem_of_zip_seq {A} (l : list A) j x : (j, x) ∈ zip (seq 0 (length l)) l ↔ l !! j = Some x.
Proof.
  rewrite list_elem_of_lookup. split.
  - intros [k Hk]. apply lookup_zip_Some in Hk as [Hs Hx]. by apply lookup_seq in Hs as [-> _].
  - intros Hx. exists j. apply lookup_zip_Some. split; [|done]. apply lookup_seq. split; [done|].
    by eapply lookup_lt_Some.
Qed.

Section Race.
Variable r0 : MarketRepo.t.
Variable calls : list call.

Record minv (s : mstate) : Prop := {
  mi_repo : ms_repo s = foldl apply_call r0 (ms_done s).*2;
  mi_threads : ∀ j p, ms_threads s !! j = Some p →
    match p with
    | Ready c => calls !! j = Some c
    | Loaded now code price qty current =>
        calls !! j = Some (FromTrade now code price qty) ∧ ms_lock s = Some j ∧
        MarketRepo.tickers (ms_repo s) !! code = Some (Some current)
    | Checked t => calls !! j = Some (Replace t) ∧
        is_Some (MarketRepo.tickers (ms_repo s) !! Ticker.StockCode t)
    | Returned None => j ∈ (ms_done s).*1
    | Returned (Some _) => j ∉ (ms_done s).*1
    end;
  mi_done : ∀ j c, (j, c) ∈ ms_done s → calls !! j = Some c ∧ ms_threads s !! j = Some (Returned None);
  mi_once : NoDup (ms_done s).*1;
  mi_length : length (ms_threads s) = length calls;
}.

Lemma mstart_inv : minv (mstart r0 calls).
Proof.
  split; simpl; [done| | |constructor|by rewrite length_fmap].
  - intros j p Hj. apply list_lookup_fmap_Some in Hj as (c & -> & Hc). done.
  - by intros j c ?%elem_of_nil.
Qed.

(** A step that only moves one thread. *)
Lemma goto_inv s i p lock :
  minv s → (∃ c, ms_threads s !! i = Some (Ready c)) → ms_lock s = None →
  match p with
  | Loaded now code price qty current =>
      calls !! i = Some (FromTrade now code price qty) ∧ lock = Some i ∧
      MarketRepo.tickers (ms_repo s) !! code = Some (Some current)
  | Checked t => calls !! i = Some (Replace t) ∧ lock = None ∧
      is_Some (MarketRepo.tickers (ms_repo s) !! Ticker.StockCode t)
  | Returned (Some _) => lock = None
  | _ => False
  end → minv (goto i p lock s).
Proof.
  intros [I1 I2 I3 I4 I5] [c0 Hi] Hlock Hp.
  assert (i ∉ (ms_done s).*1) as Hnew.
  { intros ([j c] & -> & Hin)%list_elem_of_fmap. simpl in Hi. apply I3 in Hin as [_ Hin]. congruence. }
  split; simpl; [done| | |done|by rewrite length_insert].
  - intros j q Hj. destruct (decide (i = j)) as [<-|Hne].
    + rewrite list_lookup_insert_eq in Hj by (by eapply lookup_lt_Some). injection Hj as <-.
      destruct p as [| | |[e|]]; simpl in *; tauto.
    + rewrite list_lookup_insert_ne in Hj by done. specialize (I2 _ _ Hj).
      destruct q as [| | |[e|]]; simpl in *; try done. destruct I2 as (_ & Hl & _). congruence.
  - intros j c Hin. destruct (I3 _ _ Hin) as [Hc Ht]. split; [done|].
    rewrite list_lookup_insert_ne; [done|]. intros ->. congruence.
Qed.

(** A step that stores the ticker of [code], which no trade has loaded. *)
Lemma commit_inv s i c code t lock :
  minv s → calls !! i = Some c → (∃ p, ms_threads s !! i = Some p ∧ ∀ e, p ≠ Returned e) →
  apply_call (ms_repo s) c = store code t (ms_repo s) →
  (∀ j now code' price qty current, j ≠ i → ms_threads s !! j = Some (Loaded now code' price qty current) →
     lock = Some j ∧ code' ≠ code) →
  minv (commit i c code t lock s).
Proof.
  intros [I1 I2 I3 I4 I5] Hc (p & Hi & Hp) Happ Hload.
  assert (i ∉ (ms_done s).*1) as Hnew.
  { intros ([j c'] & -> & Hin)%list_elem_of_fmap. apply I3 in Hin as [_ Hin]. simpl in *. by eapply (Hp None); congruence. }
  split; simpl; [| | | |by rewrite length_insert].
  - by rewrite fmap_app, foldl_app, <- I1.
  - intros j q Hj. rewrite fmap_app. destruct (decide (i = j)) as [<-|Hne].
    + rewrite list_lookup_insert_eq in Hj by (by eapply lookup_lt_Some). injection Hj as <-.
      apply elem_of_app. right. apply list_elem_of_here.
    + rewrite list_lookup_insert_ne in Hj by done. pose proof (I2 _ _ Hj) as I2j.
      destruct q as [c'|now code' price qty current|t'|[e|]]; simpl in *; [done| | | |].
      * destruct (Hload j _ _ _ _ _ (not_eq_sym Hne) Hj) as [-> Hcode]. destruct I2j as (H1 & _ & H3).
        split_and!; [done|done|]. by rewrite lookup_insert_ne.
      * destruct I2j as [H1 H2]. split; [done|]. destruct (decide (code = Ticker.StockCode t')) as [->|Hcode].
        -- by rewrite lookup_insert_eq.
        -- by rewrite lookup_insert_ne.
      * rewrite elem_of_app, list_elem_of_singleton. intros [?|?]; congruence.
      * apply elem_of_app. by left.
  - intros j c' [Hin|[= -> ->]%list_elem_of_singleton]%elem_of_app.
    + destruct (I3 _ _ Hin) as [H1 H2]. split; [done|]. rewrite list_lookup_insert_ne; [done|].
      intros ->. by eapply (Hp None); congruence.
    + split; [done|]. by rewrite list_lookup_insert_eq by (by eapply lookup_lt_Some).
  - rewrite fmap_app. apply NoDup_app. split_and!; [done| |apply NoDup_singleton].
    by intros j Hj ->%list_elem_of_singleton.
Qed.

Lemma clash_loaded i s t j now code price qty current :
  clash i s = false → ms_threads s !! i = Some (Checked t) →
  ms_threads s !! j = Some (Loaded now code price qty current) → code ≠ Ticker.StockCode t.
Proof.
  unfold clash. intros Hcl Hi Hj Heq. rewrite Hi in Hcl. apply not_true_iff_false in Hcl. apply Hcl.
  apply existsb_exists. exists (Loaded now code price qty current). split; [|by apply String.eqb_eq].
  apply list_elem_of_In. by eapply list_elem_of_lookup_2.
Qed.

Lemma mexec_inv i s s' : minv s → clash i s = false → mexec i s = Some s' → minv s'.
Proof.
  intros Hinv Hcl. pose proof Hinv as [I1 I2 I3 I4 I5]. unfold mexec.
  destruct (ms_threads s !! i) as [p|] eqn:Hi; [|done]. simpl. pose proof (I2 _ _ Hi) as Hp.
  destruct p as [c|now code price qty current|t|e]; [| | |done].
  - destruct (ms_lock s) as [|] eqn:Hlock; [done|]. destruct c as [now code price qty|t].
    + destruct (MarketRepo.tickers (ms_repo s) !! code) as [[current|]|] eqn:Hl; intros [= <-];
        (apply goto_inv; [done|by eexists|done|done]).
    + destruct (MarketRepo.tickers (ms_repo s) !! Ticker.StockCode t) as [x|] eqn:Hl; intros [= <-];
        (apply goto_inv; [done|by eexists|done|]); [split_and!; [done|done|by rewrite Hl]|done].
  - intros [= <-]. destruct Hp as (Hc & Hlock & Hcur). apply commit_inv; [done|done|by eexists| |].
    + simpl. unfold MarketRepo.UpdateTickerFromTrade. by rewrite Hcur.
    + intros j n' c' p' q' x Hne Hj. destruct (I2 _ _ Hj) as (_ & Hl & _). congruence.
  - intros [= <-]. destruct Hp as [Hc [x Hx]]. apply commit_inv; [done|done|by eexists| |].
    + simpl. unfold MarketRepo.UpdateTicker. by rewrite Hx.
    + intros j n' c' p' q' y Hne Hj. split; [by destruct (I2 _ _ Hj) as (_ & Hl & _)|].
      by eapply clash_loaded.
Qed.

Lemma mrun_inv sched s s' : minv s → race_free sched s = true → mrun sched s = Some s' → minv s'.
Proof.
  revert s. induction sched as [|i sched IH]; intros s Hinv; simpl; [by intros _ [= <-]|].
  rewrite andb_true_iff, negb_true_iff. intros [Hcl Hrf]. destruct (mexec i s) as [s1|] eqn:He; [|done].
  simpl. apply IH; [|done]. by eapply mexec_inv.
Qed.

(** The finished calls are those of the threads. *)
Lemma done_all s :
  minv s → (∀ p, p ∈ ms_threads s → p = Returned None) → (ms_done s).*2 ≡ₚ calls.
Proof.
  intros [_ I2 I3 I4 I5] Hall.
  assert (ms_done s ≡ₚ zip (seq 0 (length calls)) calls) as ->.
  { apply NoDup_Permutation.
    - by eapply NoDup_fmap_1.
    - eapply (NoDup_fmap_1 fst). rewrite fst_zip by (by rewrite length_seq). apply NoDup_seq.
    - intros [j c]. rewrite elem_of_zip_seq. split; [by intros [? _]%I3|]. intros Hc.
      destruct (lookup_lt_is_Some_2 (ms_threads s) j) as [p Hp]; [rewrite I5; by eapply lookup_lt_Some|].
      assert (p = Returned None) as -> by (apply Hall; by eapply list_elem_of_lookup_2).
      apply I2 in Hp. apply list_elem_of_fmap in Hp as ([j' c'] & -> & Hin). simpl in *.
      destruct (I3 _ _ Hin) as [Hc' _]. congruence. }
  by rewrite snd_zip by (by rewrite length_seq).
Qed.

(** Trades alone cannot clash. *)
Lemma trades_race_free sched :
  Forall (λ c, ∃ now code price qty, c = FromTrade now code price qty) calls →
  ∀ s, minv s → race_free sched s = true.
Proof.
  intros Htr. induction sched as [|i sched IH]; intros s Hinv; [done|]. simpl.
  assert (clash i s = false) as Hcl.
  { unfold clash. destruct (ms_threads s !! i) as [[| |t|]|] eqn:Hi; try done.
    destruct (mi_threads _ Hinv _ _ Hi) as [Hc _]. rewrite Forall_lookup in Htr.
    destruct (Htr _ _ Hc) as (? & ? & ? & ? & ?). done. }
  rewrite Hcl. simpl. destruct (mexec i s) as [s1|] eqn:He; [|done]. apply IH. by eapply mexec_inv.
Qed.
End Race.

(** ** What concurrent updates do *)


Module RaceDemo.
Definition bbca : Ticker.t := Ticker.mk "BBCA" 9500 9500 0 f64_zero 9500 9500 100 0.
Definition repo : MarketRepo.t := MarketRepo.mk {["BBCA"%string := Some bbca]} ∅.
Definition trade (price qty : Z) : call := FromTrade 1 "BBCA" price qty.
Definition feed : call := Replace (Ticker.mk "BBCA" 9700 9500 200 f64_zero 9700 9500 150 2).

Definition high_volume (r : MarketRepo.t) : option (Z * Z) :=
  match MarketRepo.tickers r !! "BBCA"%string with
  | Some (Some t) => Some (Ticker.High t, Ticker.Volume t)
  | _ => None
  end.

End RaceDemo.

(** The read-modify-write of a trade does race with a feed, although the
    interface says the race is eliminated: a ticker stored while a trade of
    the stock is between its load and its store is lost, with its high and
    its volume, and neither order of the two calls gives the ticker that
    results. *)
Theorem feed_ticker_lost :
  let calls := [RaceDemo.trade 9600 10; RaceDemo.feed] in
  ∃ s, mrun [1; 0; 1; 0]%nat (mstart RaceDemo.repo calls) = Some s ∧
    (∀ p, p ∈ ms_threads s → p = Returned None) ∧
    RaceDemo.high_volume (ms_repo s) = Some (9600, 110) ∧
    ∀ order, order ≡ₚ calls → ms_repo s ≠ foldl apply_call RaceDemo.repo order.
Proof.
  intros calls. eexists. split; [reflexivity|]. split_and!.
  - intros p Hp. repeat (apply elem_of_cons in Hp as [->|Hp]; [reflexivity|]). by apply elem_of_nil in Hp.
  - vm_compute. reflexivity.
  - intros order Hp Heq. apply (f_equal RaceDemo.high_volume) in Heq.
    symmetry in Hp. apply Permutation_length_2_inv in Hp as [-> | ->]; vm_compute in Heq; discriminate Heq.
Qed.
