(* ===== verification/MatcherFailure.v ===== *)
(** * Matching when trades cannot be saved

    [executeTrade] leaves both orders alone when [tradeRepo.Save] fails, but
    its callers go on as if the trade had happened: the quantity is taken off
    the resting entry all the same.  With a repository that keeps failing,
    every crossing entry is removed from the book without a single fill. *)
From S2P Require Import Prelude GoLib Entity Repository Book BookProofs Matcher MatcherLemmas.
From S2P Require Import MatchSpec MatcherProofs.

Section Failing.
Context {D : Deps} `{!BusLaws BusT}.
Variable stockCode : string.
Hypothesis save_fails : ∀ t r, ∃ e, tr_Save t r = (r, Some e).

Definition crossing_of (sv : side_view) (o : Order.t) (s : mstate) : list orderEntry :=
  crossing (λ r, Order.Price (deref (w_heap (ms_world s)) r)) (λ p, sv_stop sv p (Order.Price o))
    (sv_list sv (ms_book s)).

Lemma failing_turn sv i o best ob ob' w w' :
  turn_post stockCode sv i o best ob ob' w w' →
  trade_refused w w' ∧ w_trades w' = w_trades w.
Proof.
  intros Hpost. destruct (tp_effect _ _ _ _ _ _ _ _ _ Hpost) as [Hc Ht _ _].
  match type of Hc with context [save_result _ _ ?b ?s ?q ?p] =>
    destruct (save_fails (trade_of stockCode w b s q p) (w_trades w)) as [e He];
    unfold save_result in Hc end.
  rewrite He in *. done.
Qed.

Lemma failing_loop sv fuel i o s s' :
  is_view sv → loop_inv i o s → 0 < Order.RemainingQuantity o →
  gen_loop stockCode sv fuel i s = Ret () s' →
  sv_list sv (ms_book s') = drop (length (crossing_of sv o s)) (sv_list sv (ms_book s)) ∧
  sv_other sv (ms_book s') = sv_other sv (ms_book s) ∧
  trade_refused (ms_world s) (ms_world s') ∧ w_trades (ms_world s') = w_trades (ms_world s).
Proof.
  intros Hv. revert s. induction fuel as [|fuel IH]; intros s Hinv Hrem Hrun; [done|].
  unfold crossing_of.
  destruct (gen_loop_cases stockCode sv fuel i o s Hv Hinv)
    as [[Heq Hdone]|(best & rest & w' & Hl & _ & Hst & Heq & Hpost)].
  { rewrite Hrun in Heq. injection Heq as ->. split; [|by split_and!].
    destruct Hdone as [|Hd]; [lia|]. destruct (sv_list sv (ms_book s)) as [|e es]; [done|].
    simpl. specialize (Hd e eq_refl). unfold entry_price in Hd. by rewrite Hd. }
  rewrite Heq in Hrun. destruct (failing_turn _ _ _ _ _ _ _ _ Hpost) as [Href Htr].
  set (s1 := mkMS _ w') in *.
  assert (loop_inv i o s1) as Hinv1.
  { destruct Hinv as [_ _ Hi Hwf _]. split; try apply Hpost; [|done].
    simpl. by rewrite (tf_heap _ _ Href). }
  destruct (IH s1 Hinv1 Hrem Hrun) as (Hl' & Ho' & Href' & Htr').
  assert (sv_list sv (ms_book s1) = consume (turn_qty (w_heap (ms_world s)) i best) best rest) as Hc
    by exact (tp_list _ _ _ _ _ _ _ _ _ Hpost rest Hl).
  split_and!.
  - rewrite Hl'. unfold crossing_of. rewrite Hc, Hl.
    replace (w_heap (ms_world s1)) with (w_heap (ms_world s)) by (symmetry; apply Href).
    simpl. unfold entry_price in Hst. rewrite Hst. simpl. unfold consume.
    destruct (_ <=? 0); [done|]. simpl. by rewrite Hst.
  - rewrite Ho'. apply Hpost.
  - unfold s1 in Href'. simpl in Href'. destruct Href, Href'. split; congruence.
  - by rewrite Htr'.
Qed.
End Failing.
