(* ===== verification/MatcherTheorems.v ===== *)
(** * What the matching engine of one stock guarantees

    The statements a reader of [internal/engine/matcher.go] and
    [internal/engine/orderbook.go] relies on, each with a concrete instance
    on the in-memory repositories. *)
From S2P Require Import Prelude GoLib Entity Repository MemoryRepo EventBus MemoryProofs.
From S2P Require Import EventBusProofs Book BookProofs Matcher MatcherLemmas MatchSpec.
From S2P Require Import MatcherProofs MatcherRefine MatcherFailure MatchOrder MemDeps.

(** ** A concrete book: two asks and a bid of the stock BBCA *)
Module Demo.
Definition mk_order (id user : string) (sd : Side) (price qty : Z) : Order.t :=
  Order.mk id user "BBCA" sd price qty 0 OrderStatusOpen 0 0.

Definition demo_heap : heap :=
  <[0%nat := mk_order "a1" "u1" SideSell 9500 100]>
  (<[1%nat := mk_order "a2" "u2" SideSell 9525 50]>
  (<[2%nat := mk_order "b1" "u3" SideBuy 9475 70]>
  (<[3%nat := mk_order "in" "u4" SideBuy 9525 120]> ∅))).

Definition demo_book : orderBook :=
  addOrder demo_heap 2%nat (addOrder demo_heap 1%nat (addOrder demo_heap 0%nat (newOrderBook "BBCA"))).

Definition demo_world : world := let w := mem_world DefaultStocks in
  mkWorld demo_heap 4%nat (w_orders w) (w_trades w) (w_market w) (w_bus w) 0%nat 0%nat.

Definition demo_state : mstate := mkMS demo_book demo_world.
Definition demo_order : Order.t := mk_order "in" "u4" SideBuy 9525 120.

Lemma mk_order_wf id user sd price qty :
  Side_IsValid sd = true → 0 < price <= max_i64 → 0 < qty <= max_i64 →
  order_wf (mk_order id user sd price qty).
Proof.
  intros Hs Hp Hq. split; simpl; try done; [lia|]. unfold order_status_of.
  destruct (Z.geb_spec 0 qty); [lia|done].
Qed.

(** The side conditions of [addOrder_inv] on concrete books. *)
Ltac uncrossed :=
  intros Hsd; vm_compute in Hsd; try done; intros e He; vm_compute in He;
  repeat (apply elem_of_cons in He as [->|He]; [vm_compute; done|]);
  by apply elem_of_nil in He.

Lemma demo_book_inv : book_inv demo_heap demo_book.
Proof.
  assert (∀ r o, demo_heap !! r = Some o → order_wf o) as Hwf.
  { intros r o. unfold demo_heap. rewrite !lookup_insert. repeat case_decide; try done;
      intros [= <-]; apply mk_order_wf; (done || i64_lia). }
  unfold demo_book.
  do 4 lazymatch goal with
  | |- book_inv _ (newOrderBook _) => apply book_inv_empty
  | |- book_inv _ (addOrder _ ?r _) =>
      eapply addOrder_inv;
        [|vm_compute; reflexivity|eapply (Hwf r); vm_compute; reflexivity|vm_compute; done
         |compute_done|uncrossed|uncrossed]
  end.
Qed.

Lemma demo_arrival : arrival 3%nat demo_order demo_state.
Proof.
  split; [apply demo_book_inv|done|done| |compute_done|].
  - apply mk_order_wf; (done || i64_lia).
  - split; [apply TradeRepoProofs.trades_New_wf|]. intros t Ht. by apply elem_of_nil in Ht.
Qed.
End Demo.

Section Theorems.
Context {D : Deps} `{!BusLaws BusT} `{!TradeRepositoryLaws TradeRepoT}.
Hypothesis uuid_inj : ∀ m n, uuid_NewString m = uuid_NewString n → m = n.
Variable stockCode : string.

Definition price_of (s : mstate) (r : ref) : Z := Order.Price (deref (w_heap (ms_world s)) r).

(** C1.  Matching refines the reference walk.  On a well-formed incoming
    order whose ID is not resting, [matchOrder] returns; the fills it
    performs are those of [walk] over the opposite side (best price first,
    first come first served at a price); every filled order is filled by
    exactly what the walk gave it and no other order changes; the trades
    recorded are one per fill, in order, at the resting order's price,
    between the right users; what the walk leaves is the opposite side;
    what is left of the order is inserted on its own side behind everything
    at least as good; and the book's invariant (sorted, uncrossed, indexed,
    duplicate-free) holds again. *)
Theorem matchOrder_refines_walk i o s :
  arrival i o s →
  ∃ s' o', matchOrder stockCode i s = Ret () s' ∧
    match_post stockCode i o s s' (view_walk (view_of (Order.Sd o)) o s).1
      (view_walk (view_of (Order.Sd o)) o s).2 o'.
Proof. by apply matchOrder_spec. Qed.

Lemma arrival_walk i o s :
  arrival i o s →
  0 <= Order.RemainingQuantity o ∧
  Forall (λ e, 0 < oe_remaining e) (sv_list (view_of (Order.Sd o)) (ms_book s)).
Proof.
  intros Har. pose proof (arrival_loop _ _ _ Har) as Hinv. split.
  - rewrite remaining_wf by apply Har. pose proof (ar_wf _ _ _ Har) as []. lia.
  - apply Forall_forall. intros e He.
    pose proof (entry_ok_bounds _ _ _ (view_entries_ok _ s i o e (view_of_is _) Hinv He)). lia.
Qed.

(** C2.  An order trades as much as it can and never more than it wants:
    it is filled by the smaller of what it wants and everything resting
    within its limit; it ends FILLED exactly when nothing is left, and
    otherwise what rests on the opposite side is beyond its limit. *)
Theorem matchOrder_fill_quantity i o s :
  arrival i o s →
  ∃ s' o', matchOrder stockCode i s = Ret () s' ∧
    w_heap (ms_world s') !! i = Some o' ∧
    Order.FilledQuantity o' = Order.FilledQuantity o +
      Z.min (Order.RemainingQuantity o)
        (sum_by oe_remaining (crossing (price_of s) (λ p, sv_stop (view_of (Order.Sd o)) p (Order.Price o))
           (sv_list (view_of (Order.Sd o)) (ms_book s)))) ∧
    (Order.Status o' = OrderStatusFilled ↔ Order.FilledQuantity o' = Order.Quantity o') ∧
    Order.FilledQuantity o' <= Order.Quantity o'.
Proof.
  intros Har. destruct (matchOrder_spec uuid_inj stockCode i o s Har) as (s' & o' & Hrun & Hpost).
  destruct (arrival_walk _ _ _ Har) as [Hr Hpos].
  exists s', o'. destruct (mp_incoming _ _ _ _ _ _ _ _ Hpost) as [Hi Hwf].
  split_and!; try done.
  - rewrite (mp_filled _ _ _ _ _ _ _ _ Hpost). f_equal. unfold view_walk.
    by apply walk_total.
  - destruct Hwf as [_ _ Hq Hf ->]. unfold order_status_of.
    destruct (Z.geb_spec (Order.FilledQuantity o') (Order.Quantity o')).
    + split; [lia|done].
    + split; [by destruct (_ =? 0)|lia].
  - apply Hwf.
Qed.

(** C3.  Trades are fair: every trade an incoming order causes is of
    positive size, between the incoming order and an order that was resting
    on the other side, at that resting order's price, which is within the
    incoming order's limit. *)
Theorem matchOrder_trade_prices i o s :
  arrival i o s →
  ∃ s' new, matchOrder stockCode i s = Ret () s' ∧
    anon <$> tr_view (w_trades (ms_world s')) = (anon <$> tr_view (w_trades (ms_world s))) ++ new ∧
    Forall (λ t, 0 < Trade.Quantity t ∧ Trade.StockCode t = stockCode ∧
      ∃ r, r ∈ refs (sv_list (view_of (Order.Sd o)) (ms_book s)) ∧
        let x := deref (w_heap (ms_world s)) r in
        Trade.Price t = Order.Price x ∧
        if (Order.Sd o =? SideBuy)%string
        then Trade.Price t <= Order.Price o ∧ Trade.BuyOrderID t = Order.ID o ∧
             Trade.SellOrderID t = Order.ID x ∧ Trade.BuyerUserID t = Order.UserID o ∧
             Trade.SellerUserID t = Order.UserID x
        else Order.Price o <= Trade.Price t ∧ Trade.BuyOrderID t = Order.ID x ∧
             Trade.SellOrderID t = Order.ID o ∧ Trade.BuyerUserID t = Order.UserID x ∧
             Trade.SellerUserID t = Order.UserID o) new.
Proof.
  intros Har. destruct (matchOrder_spec uuid_inj stockCode i o s Har) as (s' & o' & Hrun & Hpost).
  destruct (arrival_walk _ _ _ Har) as [Hr Hpos].
  eexists s', _. split; [done|]. split; [apply Hpost|]. apply Forall_fmap.
  eapply Forall_impl; [by apply walk_fills|]. intros f (Hq & Hp & Hst & Hin). simpl.
  split; [done|]. split; [done|]. exists (f_ref f). split; [done|].
  unfold fill_trade, buyer, seller. pose proof (deref_Some _ _ _ (ar_order _ _ _ Har)) as Hd.
  unfold view_of in *. destruct (Order.Sd o =? SideBuy)%string; simpl in *; rewrite Hd;
    split_and!; try done.
  - rewrite Z.gtb_ltb, Z.ltb_ge in Hst. done.
  - by rewrite Z.ltb_ge in Hst.
Qed.

(** C4.  Price-time priority: the fills exhaust the resting orders in book
    order, each completely before the next is touched; only the last one
    may keep part of its quantity, and then it keeps its place. *)
Theorem matchOrder_price_time_priority i o s :
  arrival i o s →
  ∃ s' o' gone rest fs, matchOrder stockCode i s = Ret () s' ∧
    sv_list (view_of (Order.Sd o)) (ms_book s) = gone ++ rest ∧
    match_post stockCode i o s s' fs (sv_list (view_of (Order.Sd o)) (ms_book s')) o' ∧
    (fs = (full (price_of s) <$> gone) ∧ sv_list (view_of (Order.Sd o)) (ms_book s') = rest ∨
     ∃ e rest' q, rest = e :: rest' ∧ 0 < q < oe_remaining e ∧
       fs = (full (price_of s) <$> gone) ++ [mkFill (oe_order e) q (price_of s (oe_order e))] ∧
       sv_list (view_of (Order.Sd o)) (ms_book s') =
         mkEntry (oe_order e) (oe_remaining e - q) :: rest').
Proof.
  intros Har. destruct (matchOrder_spec uuid_inj stockCode i o s Har) as (s' & o' & Hrun & Hpost).
  destruct (walk_priority (price_of s) (λ p, sv_stop (view_of (Order.Sd o)) p (Order.Price o))
    (Order.RemainingQuantity o) (sv_list (view_of (Order.Sd o)) (ms_book s)))
    as (gone & rest & Hl & Hcase). fold (price_of s) in Hpost.
  unfold view_walk in Hpost. change (λ r, Order.Price (deref (w_heap (ms_world s)) r)) with (price_of s) in Hpost.
  destruct (walk _ _ _ _) as [fs es] eqn:Hw. simpl in Hpost.
  pose proof (mp_opposite _ _ _ _ _ _ _ _ Hpost) as Ho. subst es.
  exists s', o', gone, rest, fs. split_and!; try done.
  destruct Hcase as [[= -> ->]|(e & rest' & q & -> & Hq & [= -> ->])]; [by left|right].
  by exists e, rest', q.
Qed.

(** C5.  The book entries stay exact: if every resting entry carries
    exactly what its order still wants before an order arrives, so does
    every entry afterwards. *)
Theorem matchOrder_entries_exact i o s s' :
  arrival i o s → book_exact (w_heap (ms_world s)) (ms_book s) →
  matchOrder stockCode i s = Ret () s' → book_exact (w_heap (ms_world s')) (ms_book s').
Proof. by apply matchOrder_exact. Qed.

(** C6.  A run ends by publishing the depth of the book it leaves: the
    last event it sends to the bus is an [OrderBookUpdated] of the stock
    whose levels are, per side, the ten best prices with the total quantity
    and number of the orders resting at each. *)
Theorem matchOrder_publishes_depth i o s s' :
  arrival i o s → matchOrder stockCode i s = Ret () s' →
  sum_by oe_remaining (ob_bids (ms_book s')) <= max_i64 →
  sum_by oe_remaining (ob_asks (ms_book s')) <= max_i64 →
  Z.of_nat (length (resting (ms_book s'))) <= max_i64 →
  ∃ before t, let h := w_heap (ms_world s') in
    bus_Publish (Event.mk OrderBookUpdated stockCode EmptyString
      (PBook (OrderBook.mk (ob_stockCode (ms_book s'))
         (depth_spec h (ob_bids (ms_book s')) depthLevels)
         (depth_spec h (ob_asks (ms_book s')) depthLevels) t)) t) before
    = Some (w_bus (ms_world s')).
Proof.
  intros Har Hrun Hsb Hsa Hlen.
  destruct (matchOrder_spec uuid_inj stockCode i o s Har) as (s0 & o0 & Hrun0 & Hpost).
  rewrite Hrun in Hrun0. injection Hrun0 as <-.
  destruct (matchOrder_parts uuid_inj stockCode i o s Har) as (s1 & o1 & w' & Hp).
  rewrite (rp_run _ _ _ _ _ _ _ Hp) in Hrun. injection Hrun as <-. simpl in *.
  destruct (rp_snapshot _ _ _ _ _ _ _ Hp) as [t Hev].
  exists (w_bus (ms_world s1)), t. rewrite <- Hev. simpl.
  destruct (mp_book _ _ _ _ _ _ _ _ Hpost) as [Hb Ha Hbo Hao _ _ _]. simpl in *.
  unfold resting in Hlen. rewrite length_app in Hlen.
  assert (∀ sd l, Forall (entry_ok (w_heap w') sd) l → Forall (λ e, 0 < oe_remaining e) l) as Hpos.
  { intros sd l Hl. eapply Forall_impl; [exact Hl|]. intros e He. apply entry_ok_bounds in He. lia. }
  rewrite (aggregateLevels_sorted _ (λ e, - entry_price (w_heap w') e))
    by (solve [by eapply Hpos | intros; lia | done | lia]).
  rewrite (aggregateLevels_sorted _ (entry_price (w_heap w')))
    by (solve [by eapply Hpos | intros; lia | done | lia]).
  done.
Qed.
End Theorems.

(** ** The concrete book meets an order *)

Lemma matchOrder_refines_walk_witness :
  (view_walk ask_view Demo.demo_order Demo.demo_state).1 = [mkFill 0%nat 100 9500; mkFill 1%nat 20 9525] ∧
  ∃ s' o', matchOrder "BBCA" 3%nat Demo.demo_state = Ret () s' ∧
    match_post "BBCA" 3%nat Demo.demo_order Demo.demo_state s'
      (view_walk ask_view Demo.demo_order Demo.demo_state).1
      (view_walk ask_view Demo.demo_order Demo.demo_state).2 o'.
Proof.
  split; [vm_compute; reflexivity|].
  exact (matchOrder_refines_walk mem_uuid_inj "BBCA" 3%nat Demo.demo_order Demo.demo_state
           Demo.demo_arrival).
Defined.

Lemma matchOrder_fill_quantity_witness :
  ∃ s' o', matchOrder "BBCA" 3%nat Demo.demo_state = Ret () s' ∧
    w_heap (ms_world s') !! 3%nat = Some o' ∧ Order.FilledQuantity o' = 120.
Proof.
  destruct (matchOrder_fill_quantity mem_uuid_inj "BBCA" 3%nat Demo.demo_order Demo.demo_state
              Demo.demo_arrival) as (s' & o' & Hrun & Hi & Hf & _).
  exists s', o'. split; [exact Hrun|]. split; [exact Hi|]. rewrite Hf. vm_compute. reflexivity.
Defined.

Lemma matchOrder_trade_prices_witness :
  ∃ s' new, matchOrder "BBCA" 3%nat Demo.demo_state = Ret () s' ∧
    anon <$> tr_view (w_trades (ms_world s')) = new ∧ Forall (λ t, 0 < Trade.Quantity t) new.
Proof.
  destruct (matchOrder_trade_prices mem_uuid_inj "BBCA" 3%nat Demo.demo_order Demo.demo_state
              Demo.demo_arrival) as (s' & new & Hrun & Hv & Hall).
  exists s', new. split; [exact Hrun|]. split; [exact Hv|].
  eapply Forall_impl; [exact Hall|]. intros t Ht. apply Ht.
Defined.

Lemma matchOrder_price_time_priority_witness :
  ∃ s' gone rest, matchOrder "BBCA" 3%nat Demo.demo_state = Ret () s' ∧
    ob_asks Demo.demo_book = gone ++ rest.
Proof.
  destruct (matchOrder_price_time_priority mem_uuid_inj "BBCA" 3%nat Demo.demo_order Demo.demo_state
              Demo.demo_arrival) as (s' & o' & gone & rest & fs & Hrun & Hl & _).
  exists s', gone, rest. split; [exact Hrun|exact Hl].
Defined.

(** The state [matchOrder] leaves the demonstration book in. *)
Definition demo_after : mstate :=
  match matchOrder "BBCA" 3%nat Demo.demo_state with Ret _ s => s | _ => Demo.demo_state end.

Lemma demo_after_run : matchOrder "BBCA" 3%nat Demo.demo_state = Ret () demo_after.
Proof.
  destruct (matchOrder_spec mem_uuid_inj "BBCA" 3%nat Demo.demo_order Demo.demo_state
              Demo.demo_arrival) as (s' & o' & Hrun & _).
  unfold demo_after. by rewrite Hrun.
Qed.

Lemma matchOrder_entries_exact_witness :
  book_exact (w_heap (ms_world demo_after)) (ms_book demo_after) ∧
  ob_asks (ms_book demo_after) = [mkEntry 1%nat 30].
Proof.
  split; [|vm_compute; reflexivity].
  apply (matchOrder_entries_exact mem_uuid_inj "BBCA" 3%nat Demo.demo_order Demo.demo_state).
  - exact Demo.demo_arrival.
  - repeat (apply Forall_cons; split; [vm_compute; reflexivity|]). constructor.
  - exact demo_after_run.
Defined.

Lemma matchOrder_publishes_depth_witness :
  ∃ before t, bus_Publish (Event.mk OrderBookUpdated "BBCA" EmptyString
      (PBook (OrderBook.mk "BBCA" [PriceLevel.mk 9475 70 1] [PriceLevel.mk 9525 30 1] t)) t) before
    = Some (w_bus (ms_world demo_after)).
Proof.
  destruct (matchOrder_publishes_depth mem_uuid_inj "BBCA" 3%nat Demo.demo_order Demo.demo_state demo_after
    Demo.demo_arrival demo_after_run) as (before & t & Hev);
    [vm_compute; intros Hc; discriminate Hc..|].
  exists before, t. rewrite <- Hev.
  assert (depth_spec (w_heap (ms_world demo_after)) (ob_bids (ms_book demo_after)) depthLevels =
          [PriceLevel.mk 9475 70 1]) as -> by (vm_compute; reflexivity).
  assert (depth_spec (w_heap (ms_world demo_after)) (ob_asks (ms_book demo_after)) depthLevels =
          [PriceLevel.mk 9525 30 1]) as -> by (vm_compute; reflexivity).
  assert (ob_stockCode (ms_book demo_after) = "BBCA") as -> by (vm_compute; reflexivity).
  reflexivity.
Defined.

(** ** Termination and error paths: no hypothesis on the state *)
Section Always.
Context {D : Deps}.
Variable stockCode : string.

(** C7.  The matching loops terminate in every state, even a corrupt one:
    the fuel [matchOrder] gives them is never exhausted, so the call
    returns or panics, and more fuel changes nothing. *)
Theorem matching_loops_terminate r s fuel :
  matchOrder stockCode r s ≠ NoFuel ∧
  ((side_fuel (ob_asks (ms_book s)) ≤ fuel)%nat →
   matchBuy stockCode fuel r s = matchBuy stockCode (side_fuel (ob_asks (ms_book s))) r s) ∧
  ((side_fuel (ob_bids (ms_book s)) ≤ fuel)%nat →
   matchSell stockCode fuel r s = matchSell stockCode (side_fuel (ob_bids (ms_book s))) r s).
Proof.
  assert (matchBuy stockCode (side_fuel (ob_asks (ms_book s))) r s ≠ NoFuel) as Hb.
  { rewrite matchBuy_gen. apply gen_loop_terminates; [by left|done]. }
  assert (matchSell stockCode (side_fuel (ob_bids (ms_book s))) r s ≠ NoFuel) as Hs.
  { rewrite matchSell_gen. apply gen_loop_terminates; [by right|done]. }
  split_and!.
  - by apply matchOrder_fuel_free.
  - intros Hle. rewrite !matchBuy_gen in *. by apply gen_loop_more.
  - intros Hle. rewrite !matchSell_gen in *. by apply gen_loop_more.
Qed.
End Always.

(** ** A trade repository that fails *)
Section Failure.
Context {D : Deps} `{!BusLaws BusT}.
Variable stockCode : string.

(** C8.  When the trade repository keeps failing, matching destroys
    liquidity: the buy loop returns with every resting ask within the limit
    gone from the book, although no order was filled, no trade recorded and
    no event published.  (The comment in [executeTrade] means to keep the
    orders consistent; its callers reduce the resting entry regardless.) *)
Theorem failed_saves_consume_book i o s :
  (∀ t r, ∃ e, tr_Save t r = (r, Some e)) →
  loop_inv i o s → 0 < Order.RemainingQuantity o →
  ∃ s', matchBuy stockCode (side_fuel (ob_asks (ms_book s))) i s = Ret () s' ∧
    ob_asks (ms_book s') = drop (length (crossing_of ask_view o s)) (ob_asks (ms_book s)) ∧
    w_heap (ms_world s') = w_heap (ms_world s) ∧ w_trades (ms_world s') = w_trades (ms_world s) ∧
    w_orders (ms_world s') = w_orders (ms_world s) ∧ w_bus (ms_world s') = w_bus (ms_world s).
Proof.
  intros Hfail Hinv Hrem. rewrite matchBuy_gen.
  destruct (gen_loop_ok stockCode ask_view (side_fuel (ob_asks (ms_book s))) i o s
              (or_introl eq_refl) Hinv (Nat.le_refl _)) as (s' & o' & Hrun & _).
  destruct (failing_loop stockCode Hfail ask_view _ i o s s' (or_introl eq_refl) Hinv Hrem Hrun)
    as (Hl & _ & Href & Htr).
  exists s'. destruct Href. by split_and!.
Qed.
End Failure.

(** A repository that refuses every trade. *)
Module Refusing.
#[local] Instance refusing_trades : TradeRepository unit := {|
  tr_Save _ r := (r, Some (ErrOther "connection refused"));
  tr_FindByStockCode _ _ _ := inr [];
  tr_FindAll _ _ := OK ([], 0);
|}.

#[global] Instance refusing_deps : Deps := {|
  OrderRepoT := OrderRepo.t;
  TradeRepoT := unit;
  MarketRepoT := MarketRepo.t;
  BusT := EventBus unit;
  uuid_NewString := @uuid_NewString mem_deps;
  time_Now := Z.of_nat;
|}.

Definition refusing_state : @mstate refusing_deps :=
  @mkMS refusing_deps Demo.demo_book
    (@mkWorld refusing_deps Demo.demo_heap 4%nat OrderRepo.New tt
       (w_market Demo.demo_world) NewEventBus 0%nat 0%nat).

Lemma failed_saves_consume_book_witness :
  ∃ s', @matchBuy refusing_deps "BBCA" 153 3%nat refusing_state = Ret () s' ∧
    ob_asks (ms_book s') = [] ∧ w_heap (ms_world s') = Demo.demo_heap.
Proof.
  assert (loop_inv (D := refusing_deps) 3%nat Demo.demo_order refusing_state) as Hinv.
  { pose proof (arrival_loop _ _ _ Demo.demo_arrival) as [Hb Hbus Hi Hwf Hfr]. split; assumption. }
  destruct (failed_saves_consume_book (D := refusing_deps) "BBCA" 3%nat Demo.demo_order refusing_state)
    as (s' & Hrun & Hl & Hh & _).
  - intros t r. eexists. reflexivity.
  - exact Hinv.
  - vm_compute. reflexivity.
  - exists s'. split; [exact Hrun|]. split; [|exact Hh]. rewrite Hl. vm_compute. reflexivity.
Defined.
End Refusing.
